(* ===== verification/_CoqProject ===== *)
-Q . S2P
Prelude.v
GoStrings.v
GoConv.v
GoTime.v
GoContext.v
Sorting.v
KubeApi.v
KubeClient.v
KubeRollback.v
KubeTrace.v
KubeSpec.v
KubeTargets.v
Cluster.v
KubeProps.v
RollbackProps.v
GoFloat.v
Monitoring.v
HttpTrace.v
Dashboard.v
DashboardFacts.v
DashboardConc.v
DashboardProps.v
Messages.v
Repository.v
Database.v
RepositoryProps.v
MemDb.v
RepositoryLife.v
DbConfig.v
Alerter.v
AlerterDb.v
AlertPoller.v
PollerTime.v
Signals.v
LogChannel.v
Telegram.v
KubeHandlers.v
KubeHandlerProps.v
Timing.v
TimingProps.v
ClusterWrites.v
MonitorHandlers.v
MonitorHandlerProps.v
MonitorTiming.v
StatusProps.v
Bot.v
BotProps.v
BotConc.v
BotConcProps.v
BotWrites.v
Stubs.v
Startup.v
StartupProps.v
System.v
