(* ===== verification/Prelude.v ===== *)
(** * A verification library for the ChatOps bot

    The program ([src/], Go) is a Telegram bot through which people watch and
    operate services on Kubernetes.  [cmd/bot/main.go] registers closures with
    telebot; they keep the login dialogue and the confirmation of commands and
    dispatch to [internal/bot/handlers]; the handlers call the Kubernetes
    client ([internal/kube]), the Prometheus and Alertmanager client
    ([internal/monitoring]), the repository ([internal/db]) and a language
    model ([internal/bot/yandexgpt]).  Beside the bot, [internal/app] polls
    the alerts and notifies the people on duty.

    ** How the code is embedded

    An operation is a total function in the monad [GoM S] of this file: it
    changes a state [S] and returns a value or panics ([defer] runs either
    way).  Code outside [src/] is a class of operations over an abstract
    state, without laws unless a law is documented behaviour and named:
    [KubeApi] and [PollUntil] (client-go, apimachinery), [Http] (net/http and
    JSON), [GoContext] (package context), [Gorm] and its laws [Database],
    [Gpt], [Telegram], [Environment], [Host] and [KubeConfig] (the process and
    its configuration), [SortSlice] (an unstable sort of the standard
    library).  Theorems about time rest on further laws: [Clock], [KubeTime]
    and [TimedPoll] (a poll waits its interval and ends at the deadline), and
    [HttpTime] (a request ends at the limit of its client).  A send on the
    unbuffered channel of a log blocks until its reader is back from the chat:
    that wait is [api_log_wait], which no context cuts short, and
    [waits_use_their_time] assumes a bound on it.  An [error] is its text; a
    pair of a value and an error is kept as a pair where both halves are
    read.  Integers are [Z]
    with their conversions written out, [float64] is the IEEE model of the
    Standard Library, strings are byte strings.  The order of a [range] over a
    map is an argument, different at every use.

    ** Files

    - [Prelude]: the monad, its weakest preconditions and [wp_step], strings,
      maps and iteration orders.  [GoStrings], [GoConv], [GoFloat], [GoTime],
      [GoContext], [Sorting]: the parts of the standard library in use, with
      their facts (splitting, printing and parsing integers back, sorting).
    - [KubeApi], [KubeClient], [KubeRollback]: [internal/kube/client.go].
      The state of a call holds the cluster, the log channel and a trace of
      the API calls.  [KubeTrace] reasons on traces; [KubeSpec] states the
      protocol of each operation as an inductive relation on outcome, trace
      and log, and proves the refinement; [KubeTargets] the choice of a
      ReplicaSet.  [Cluster] is a concrete cluster for witnesses.
      [KubeProps], [RollbackProps]: the theorems.
    - [Monitoring]: [internal/monitoring/client.go].  [HttpTrace]: the same
      operations over a transport that notes what is asked of it.  [Dashboard]:
      [dashboard.go], whose eight goroutines, mutex and wait group are a
      transition system run under a schedule.  [DashboardFacts],
      [DashboardConc], [DashboardProps]: what a sample does to a status, the
      invariant of the goroutines, and the theorems (no schedule changes the
      result, none runs forever, none deadlocks; what the operation returns).
    - [Messages]: the texts for Telegram ([escapeMarkdown],
      [GenerateAlertsMessage], [FormatDashboardForTelegram]) and the
      poller's [checkAlerts].
    - [Repository]: [internal/db/models] and [internal/db/repository], gorm
      chains as recorded queries; a call on the nil handle panics.
      [Database]: the meaning of the conditions in use and the laws the
      repository relies on.  [RepositoryProps]: what each lookup computes from
      the tables.  [MemDb]: a database in memory that satisfies the laws, for
      the witnesses.  [RepositoryLife]: labels and incidents from their
      creation to their end, over several calls.  [DbConfig]: [internal/db/config], the migrations and the
      program that runs them.
    - [Alerter]: [internal/app/alerter.go] and [db_adapter.go], who is
      found to be on duty for the labels of an alert; [AlerterDb]: who is
      notified, over the tables of the database.  [AlertPoller]: the life of the
      poller of
      [poller_alert.go], from [Start] to the return of [Stop]; [PollerTime]:
      the same under a clock, with its ticker; [Signals]: [startPoller] of
      [main.go] with its poller and the signals of the process, those that
      [signal.Notify] asks for and those it does not.
    - [LogChannel]: an operation and the goroutine that reads its log, over
      an unbuffered channel, in every interleaving.  The handlers of
      [KubeHandlers] are described at the moment when the reader has ended;
      [with_log_channel_delivers] says what an interleaving has delivered by
      then, and when the operation returns.  [Telegram],
      [KubeHandlers], [MonitorHandlers]: the commands of
      [internal/bot/handlers], each under its [within], the context with a
      time limit that is cancelled at the end.  [KubeHandlerProps]: what a
      command text does.  [Timing], [TimingProps]: a counting logic for API
      calls under a deadline, and how long the commands take.
      [ClusterWrites]: what the commands may write to the cluster.
      [MonitorHandlerProps], [StatusProps]: what the reading commands answer;
      [MonitorTiming]: which of their answers slow servers can bring about.
    - [Bot], [BotProps]: the dispatcher of [main.go] as a state machine over
      updates, with a history of password checks, requests and executed
      commands; its safety theorems, and what the variables shared by all
      users make of several users.  [BotConc]: the same handlers statement by
      statement, as threads that interleave in any order, and the proof that a
      thread run alone is the handler; [BotConcProps]: what holds in every
      interleaving, and executable schedules; [BotWrites]: what the bot writes
      to the cluster over its life.
    - [Startup], [StartupProps]: [main] up to [bot.Start()], the constructors
      of the Kubernetes client, the help text and the menu.  [Stubs]: the
      placeholders [internal/app/app.go] and [internal/storage].
    - [System]: the parts put together: the bot that [main] serves, and
      commands whose calls to the cluster alternate.

    ** Groups of theorems

    Refinement of a protocol and what success means, for scaling, restart and
    rollback; convergence and deadlines; the number of API calls a command
    makes and the time it takes; panics; the list of revisions; every
    update is a deployment read before with one field changed, also when
    commands run at the same time.  One request per operation of the
    monitoring client, with its credentials, its body closed.  Confluence,
    termination and crash conditions of the dashboard.  Delivery of logs.
    Round trips of command texts, of escaped texts, of lists of metrics and of
    the data source name.  What each lookup of the repository returns in terms
    of the tables, what a stored label or incident means to the calls that
    follow, and who is notified of an alert, end to end; the answer of
    /status, from the queries to the chat.  Safety of the
    dispatcher, for handlers run in turn and for every interleaving of their
    statements.  What the start-up has set up when it serves; the end of the
    poller and the rate of its checks.  Some theorems state behaviour the code hardly intends, such as
    the success reported after five version conflicts, the replica count cut
    to 32 bits, the authorization shared by all users, a refused command that
    can still be confirmed, two logins told of success when one has failed, a
    bot that serves without a database and ends at the first login, an answer
    for expired contexts that is never sent, a label that opens an account
    with an empty password, two users whose /start race on a map, or the end
    of a poller that leaves SIGINT and SIGTERM without effect.

    ** Where the tests say otherwise

    The theorems follow the code.  The tests of the repository disagree with
    it in three places, each recorded as a finding: they close, or use again,
    a log channel that the operation has closed ([channel_is_used_up]); they
    expect an empty dashboard when Prometheus is down and pods that the query
    for pod names did not return ([GetStatusDashboard_result]); and they
    expect another matcher in the request of [ListMetrics]
    ([client_requests]).

    ** Bounds and fuel

    [update_template] recurses on the number of attempts left, five in the
    code.  A poll is a relation ([poll_runs]) without a bound; its instances
    for witnesses are [poll_n], which counts the intervals, and
    [poll_until_deadline], whose fuel [poll_fuel] is the turns that fit before
    the deadline and is proved to be enough ([clock_poll_timed]).  The contexts
    last as in the code: 20 seconds for /scale, /status and /alerts, 30 for
    /rollback, 10 for the others; the polls turn every 2 seconds and the
    limit of the HTTP client is 10 seconds.  A
    schedule of the dashboard is a list; a list too short gives [None], and
    [GetStatusDashboard_returns] extends every list to one that is long
    enough.  White space is trimmed with the length of the string as fuel, and
    the shortest decimal of a float is searched up to 17 digits, which always
    suffice for a double.

    ** Not modelled

    The time spent sending messages to Telegram, but for the wait of a log
    line for its reader; diagnostics printed to standard output or to
    the log, apart from notifications and the lines of the start-up.  In
    [BotConc] a statement is atomic and the work of a confirmed command is one
    step; [starts_race_on_the_map] shows where that hides a race, and [merge]
    in [System] lets the calls of commands alternate.  telebot's own tables
    are outside the model.  The laws of [Database] cover the statements the
    repository makes, a label only for a user number other than 0.  The
    interface [K8sClientInterface] is declared and used by nothing; its
    methods are the operations of [KubeClient] and [KubeRollback].

    ** Plan

    Next: the end of a rollback in time, whose pauses after a conflict do not
    look at the context; the goroutines of the dashboard under the clock. *)
From Stdlib Require Export ZArith Lia Ascii.
From stdpp Require Export base tactics strings pretty list gmap fin_maps sorting.

(** ** Scope, hint databases *)

Declare Scope go_scope.
Delimit Scope go_scope with go.

Create Rewrite HintDb go_str.
Create HintDb go_wp.

(** The Go newline escape and the double quote, which string literals of
    this development do not spell directly. *)
Definition nl : string := String "010"%char EmptyString.
Definition dquote : string := String "034"%char EmptyString.

(** [error] values: the program only ever reads [err.Error()], so an error is
    its message; [nil] is [None]. *)
Abbreviation error := string (only parsing).

(** A Go result pair [(T, error)] whose two halves are read independently. *)
Abbreviation result A := (A * option string)%type (only parsing).

(** ** The monad of Go computations

    A computation reads and changes a state [S] and either returns a value
    or panics; the state reached is kept in both cases, because deferred
    calls run and effects already performed remain. *)

Inductive outcome (A : Type) : Type :=
  | Ret (a : A)
  | Panic (why : string).
Arguments Ret {A} a.
Arguments Panic {A} why.

Definition GoM (S A : Type) : Type := S → outcome A * S.

#[export] Instance GoM_ret {S} : MRet (GoM S) := λ A a s, (Ret a, s).
#[export] Instance GoM_bind {S} : MBind (GoM S) := λ A B f m s,
  match m s with
  | (Ret a, s') => f a s'
  | (Panic w, s') => (Panic w, s')
  end.

Definition panic {S A} (why : string) : GoM S A := λ s, (Panic why, s).
(** The text of the run-time panic for a nil pointer. *)
Definition nil_deref : string := "invalid memory address or nil pointer dereference".
Definition get_st {S} : GoM S S := λ s, (Ret s, s).
Definition modify {S} (f : S → S) : GoM S unit := λ s, (Ret tt, f s).

(** [defer cleanup; body]: the deferred call runs on every exit of the body,
    a panic included; a panic of the deferred call replaces the result. *)
Definition defer {S A} (cleanup : GoM S unit) (body : GoM S A) : GoM S A := λ s,
  let (o, s1) := body s in
  match cleanup s1 with
  | (Ret _, s2) => (o, s2)
  | (Panic w, s2) => (Panic w, s2)
  end.

Definition is_ret {A} (o : outcome A) : bool :=
  match o with Ret _ => true | Panic _ => false end.

(** Pointwise equality of computations, a setoid in which [mbind] and
    [defer] are compatible. *)
#[export] Instance GoM_equiv {S A} : Equiv (GoM S A) := λ m1 m2, ∀ s, m1 s = m2 s.
#[export] Instance GoM_equivalence {S A} : Equivalence (≡@{GoM S A}).
Proof. split; [done | intros m1 m2 H s; by rewrite H | intros m1 m2 m3 H1 H2 s; by rewrite H1, H2]. Qed.

Section monad_laws.
Context {S : Type}.

#[export] Instance GoM_bind_proper {A B} :
  Proper (pointwise_relation A (≡) ==> (≡) ==> (≡)) (@mbind (GoM S) _ A B).
Proof.
  intros f g Hfg m1 m2 Hm s. unfold mbind, GoM_bind. rewrite Hm.
  destruct (m2 s) as [[a|w] s']; [apply Hfg|done].
Qed.

#[export] Instance GoM_defer_proper {A} :
  Proper ((≡) ==> (≡) ==> (≡)) (@defer S A).
Proof.
  intros c1 c2 Hc m1 m2 Hm s. unfold defer. rewrite Hm.
  destruct (m2 s) as [o s1]. by rewrite Hc.
Qed.

Lemma bind_ret_l {A B} (a : A) (f : A → GoM S B) : mret a ≫= f ≡ f a.
Proof. done. Qed.
Lemma bind_ret_r {A} (m : GoM S A) : m ≫= mret ≡ m.
Proof. intros s. unfold mbind, GoM_bind. by destruct (m s) as [[a|w] s']. Qed.
Lemma bind_assoc {A B C} (m : GoM S A) (f : A → GoM S B) (g : B → GoM S C) :
  (m ≫= f) ≫= g ≡ m ≫= (λ a, f a ≫= g).
Proof. intros s. unfold mbind, GoM_bind. by destruct (m s) as [[a|w] s']. Qed.
End monad_laws.

(** ** Weakest preconditions

    [wp m Q s]: running [m] from [s] ends in an outcome and a state related
    by [Q]. Computations are total functions, so this is total correctness. *)

Definition wp {S A} (m : GoM S A) (Q : outcome A → S → Prop) (s : S) : Prop :=
  Q (m s).1 (m s).2.

Section wp.
Context {S : Type}.
Implicit Types s : S.

Lemma wp_ret {A} (a : A) Q s : Q (Ret a) s → wp (mret a) Q s.
Proof. done. Qed.

Lemma wp_panic {A} w (Q : outcome A → S → Prop) s : Q (Panic w) s → wp (panic w) Q s.
Proof. done. Qed.

Lemma wp_modify f (Q : outcome unit → S → Prop) s : Q (Ret tt) (f s) → wp (modify f) Q s.
Proof. done. Qed.

Lemma wp_get (Q : outcome S → S → Prop) s : Q (Ret s) s → wp get_st Q s.
Proof. done. Qed.

Lemma wp_mono {A} (m : GoM S A) (Q R : outcome A → S → Prop) s :
  wp m Q s → (∀ o s', Q o s' → R o s') → wp m R s.
Proof. unfold wp; auto. Qed.

(** The continuation of a [bind] under a postcondition: panics skip it. *)
Definition bind_post {A B} (f : A → GoM S B) (Q : outcome B → S → Prop)
    (o : outcome A) (s : S) : Prop :=
  match o with Ret a => wp (f a) Q s | Panic w => Q (Panic w) s end.

Lemma wp_bind {A B} (m : GoM S A) (f : A → GoM S B) Q s :
  wp m (bind_post f Q) s → wp (m ≫= f) Q s.
Proof.
  unfold wp, bind_post, wp, mbind, GoM_bind. by destruct (m s) as [[a|w] s'].
Qed.

Lemma wp_bind_inv {A B} (m : GoM S A) (f : A → GoM S B) Q s :
  wp (m ≫= f) Q s → wp m (bind_post f Q) s.
Proof.
  unfold wp, bind_post, wp, mbind, GoM_bind. by destruct (m s) as [[a|w] s'].
Qed.

(** The deferred call of [defer], as a postcondition transformer. *)
Definition defer_post {A} (c : GoM S unit) (Q : outcome A → S → Prop)
    (o : outcome A) (s : S) : Prop :=
  wp c (λ oc s', match oc with Ret _ => Q o s' | Panic w => Q (Panic w) s' end) s.

Lemma wp_defer {A} c (m : GoM S A) Q s :
  wp m (defer_post c Q) s → wp (defer c m) Q s.
Proof.
  unfold wp, defer_post, wp, defer. destruct (m s) as [o s1]; simpl.
  by destruct (c s1) as [[a|w] s2].
Qed.

Lemma wp_conj {A} (m : GoM S A) (Q R : outcome A → S → Prop) s :
  wp m Q s → wp m R s → wp m (λ o s', Q o s' ∧ R o s') s.
Proof. by split. Qed.

Lemma wp_run {A} (m : GoM S A) (Q : outcome A → S → Prop) s o s' :
  wp m Q s → m s = (o, s') → Q o s'.
Proof. unfold wp. intros H Hm. by rewrite Hm in H. Qed.
End wp.

#[export] Hint Resolve wp_ret wp_panic wp_modify wp_get : go_wp.

(** One symbolic step of a monadic program under [wp]. *)
Ltac wp_step :=
  lazymatch goal with
  | |- wp (mbind _ _) _ _ => apply wp_bind
  | |- wp (mret _) _ _ => apply wp_ret
  | |- wp (panic _) _ _ => apply wp_panic
  | |- wp (modify _) _ _ => apply wp_modify
  | |- wp get_st _ _ => apply wp_get
  | |- wp (defer _ _) _ _ => apply wp_defer
  | |- wp (match ?x with _ => _ end) _ _ => destruct x eqn:?
  | |- bind_post _ _ (Ret _) _ => unfold bind_post
  | |- bind_post _ _ (Panic _) _ => unfold bind_post
  | |- bind_post _ _ ?o _ => destruct o; unfold bind_post
  | |- wp (let '(_, _) := ?x in _) _ _ => destruct x eqn:?
  end.
Ltac wp_steps := repeat (wp_step; simpl).

(** ** Strings *)

Section strings.
Implicit Types s t u : string.

Lemma str_app_nil_l s : EmptyString +:+ s = s.
Proof. done. Qed.
Lemma str_app_cons a s t : String a s +:+ t = String a (s +:+ t).
Proof. done. Qed.
Lemma str_app_nil_r s : s +:+ EmptyString = s.
Proof. induction s as [|a s IH]; [done|]. by rewrite str_app_cons, IH. Qed.
Lemma str_app_assoc s t u : (s +:+ t) +:+ u = s +:+ t +:+ u.
Proof. induction s as [|a s IH]; [done|]. by rewrite !str_app_cons, IH. Qed.
Lemma str_length_app s t : String.length (s +:+ t) = String.length s + String.length t.
Proof. induction s as [|a s IH]; [done|]. rewrite str_app_cons. simpl. lia. Qed.
Lemma str_app_inj_r s t u : s +:+ u = t +:+ u → s = t.
Proof.
  revert t. induction s as [|a s IH]; intros [|b t] H; [done| | |].
  - apply (f_equal String.length) in H. rewrite !str_length_app in H. simpl in H. lia.
  - apply (f_equal String.length) in H. rewrite !str_length_app in H. simpl in H. lia.
  - rewrite !str_app_cons in H. injection H as -> H. f_equal. by apply IH.
Qed.
End strings.

#[export] Hint Rewrite str_app_nil_l str_app_nil_r str_app_cons str_app_assoc str_length_app : go_str.
Ltac str_simpl := autorewrite with go_str.

(** The bytes of a string, for membership and [Forall] statements. *)
Fixpoint bytes (s : string) : list ascii :=
  match s with EmptyString => [] | String a s => a :: bytes s end.

Lemma bytes_app s t : bytes (s +:+ t) = bytes s ++ bytes t.
Proof. induction s as [|a s IH]; [done|]. rewrite str_app_cons. simpl. by rewrite IH. Qed.
#[export] Hint Rewrite bytes_app : go_str.

(** Concatenation of a list of strings, the model of a [strings.Builder]
    after the writes of the list. *)
Fixpoint str_concat (l : list string) : string :=
  match l with [] => EmptyString | s :: l => s +:+ str_concat l end.

Lemma str_concat_app l k : str_concat (l ++ k) = str_concat l +:+ str_concat k.
Proof. induction l as [|s l IH]; simpl; [done|]. by rewrite IH, str_app_assoc. Qed.

(** ** Lists *)

Section lists.
Context {A : Type}.

Lemma list_find_first (P : A → Prop) `{∀ x, Decision (P x)} (l : list A) i x :
  list_find P l = Some (i, x) → x ∈ l ∧ P x.
Proof.
  intros (Hi & HP & _)%list_find_Some. split; [|done]. by eapply list_elem_of_lookup_2.
Qed.

Lemma prefix_trans_app (l k m : list A) : l `prefix_of` k → l `prefix_of` k ++ m.
Proof. intros [r ->]. rewrite <-app_assoc. by eexists. Qed.
End lists.

(** ** Go maps with string keys *)

(** [m[k]]: the zero value when the key is absent. *)
Definition map_get (m : gmap string string) (k : string) : string := default EmptyString (m !! k).

(** The order of a [range] over a map is unspecified, and differs from one
    statement to the next: every modelled [range] takes an order of its own. *)
Record RangeOrder := mkRangeOrder {
  map_range {A} : gmap string A → list (string * A);
  map_range_perm {A} (m : gmap string A) : map_range m ≡ₚ map_to_list m;
}.

Definition list_order : RangeOrder := mkRangeOrder (λ A, map_to_list) (λ A m, reflexivity _).

Definition reverse_order : RangeOrder :=
  mkRangeOrder (λ A m, reverse (map_to_list m)) (λ A m, reverse_Permutation _).

Lemma elem_of_map_range (o : RangeOrder) {A} (m : gmap string A) k v :
  (k, v) ∈ map_range o m ↔ m !! k = Some v.
Proof. by rewrite map_range_perm, elem_of_map_to_list. Qed.

Lemma NoDup_map_range (o : RangeOrder) {A} (m : gmap string A) : NoDup (map_range o m).*1.
Proof. rewrite map_range_perm. apply NoDup_fst_map_to_list. Qed.
