(* ===== verification/GoStrings.v ===== *)
(** * The [strings] package, as far as the program uses it

    Go strings are byte strings: [String.string], one [ascii] per byte.  The
    program splits on one-byte separators only ([" "] and ["/"]), so
    [Split]/[SplitN] take the separator as a byte; [Contains] and
    [HasPrefix] take arbitrary strings.  [NewReplacer] with one-byte
    patterns is Go's byte replacer. *)
From stdpp Require Import base tactics strings list.
From S2P Require Import Prelude.

Fixpoint HasPrefix (s p : string) : bool :=
  match p, s with
  | EmptyString, _ => true
  | String a p', String b s' => bool_decide (a = b) && HasPrefix s' p'
  | String _ _, EmptyString => false
  end.

Fixpoint Contains (s sub : string) : bool :=
  HasPrefix s sub ||
  match s with EmptyString => false | String _ s' => Contains s' sub end.

(** [s] cut around the first occurrence of the byte [sep]. *)
Fixpoint Cut (sep : ascii) (s : string) : option (string * string) :=
  match s with
  | EmptyString => None
  | String a s' =>
      if decide (a = sep) then Some (EmptyString, s')
      else match Cut sep s' with
           | Some (l, r) => Some (String a l, r)
           | None => None
           end
  end.

Fixpoint Count (sep : ascii) (s : string) : nat :=
  match s with
  | EmptyString => 0
  | String a s' => (if decide (a = sep) then 1 else 0) + Count sep s'
  end.

(** [genSplit]: at most [cuts] cuts, from the left. *)
Fixpoint genSplit (sep : ascii) (cuts : nat) (s : string) : list string :=
  match cuts with
  | O => [s]
  | S k => match Cut sep s with
           | None => [s]
           | Some (l, r) => l :: genSplit sep k r
           end
  end.

Definition SplitN (s : string) (sep : ascii) (n : nat) : list string :=
  match n with O => [] | S k => genSplit sep k s end.

Definition Split (s : string) (sep : ascii) : list string :=
  genSplit sep (Count sep s) s.

Fixpoint Join (elems : list string) (sep : string) : string :=
  match elems with
  | [] => EmptyString
  | [e] => e
  | e :: rest => e +:+ sep +:+ Join rest sep
  end.

(** The byte replacer of [NewReplacer]: the first pair for a byte wins. *)
Fixpoint replacement (table : list (ascii * string)) (a : ascii) : string :=
  match table with
  | [] => String a EmptyString
  | (old, new) :: rest => if decide (a = old) then new else replacement rest a
  end.

Fixpoint Replace (table : list (ascii * string)) (s : string) : string :=
  match s with
  | EmptyString => EmptyString
  | String a s' => replacement table a +:+ Replace table s'
  end.

(** ** UTF-8 white space

    The code points of Unicode's White_Space property by their UTF-8
    encodings; [space_len s] is the byte length of the white space rune [s]
    starts with, 0 when it starts with another rune or is empty. *)
Definition ascii_space (a : ascii) : bool :=
  let n := N_of_ascii a in ((9 <=? n) && (n <=? 13) || (n =? 32))%N.

Definition space_len (s : string) : nat :=
  match s with
  | EmptyString => 0
  | String a r =>
      if ascii_space a then 1 else
      match N_of_ascii a, bytes r with
      | 194%N, b :: _ =>
          let n := N_of_ascii b in if ((n =? 133) || (n =? 160))%N then 2 else 0
      | 225%N, b :: c :: _ =>
          if ((N_of_ascii b =? 154) && (N_of_ascii c =? 128))%N then 3 else 0
      | 226%N, b :: c :: _ =>
          let n := N_of_ascii c in
          if ((N_of_ascii b =? 128) &&
              ((128 <=? n) && (n <=? 138) || (n =? 168) || (n =? 169) || (n =? 175))
              || (N_of_ascii b =? 129) && (n =? 159))%N
          then 3 else 0
      | 227%N, b :: c :: _ =>
          if ((N_of_ascii b =? 128) && (N_of_ascii c =? 128))%N then 3 else 0
      | _, _ => 0
      end
  end.

(** [TrimSpace]: white space runes are dropped at both ends. *)
Fixpoint drop_bytes (n : nat) (s : string) : string :=
  match n, s with S n, String _ s' => drop_bytes n s' | _, _ => s end.
Fixpoint trim_left (fuel : nat) (s : string) : string :=
  match fuel, space_len s with
  | S fuel, S n => trim_left fuel (drop_bytes (S n) s)
  | _, _ => s
  end.
Fixpoint trim_right (s : string) : string :=
  match s with
  | EmptyString => EmptyString
  | String a s' =>
      if decide (trim_left (String.length s) s = EmptyString) then EmptyString
      else String a (trim_right s')
  end.
Definition TrimSpace (s : string) : string := trim_right (trim_left (String.length s) s).

(** ** Facts *)

Definition no_byte (c : ascii) (s : string) : Prop := c ∉ bytes s.

#[export] Instance no_byte_dec c s : Decision (no_byte c s).
Proof. unfold no_byte. apply _. Defined.

Lemma no_byte_nil c : no_byte c EmptyString.
Proof. apply not_elem_of_nil. Qed.
Lemma no_byte_cons c a s : no_byte c (String a s) ↔ c ≠ a ∧ no_byte c s.
Proof. apply not_elem_of_cons. Qed.
Lemma no_byte_app c s t : no_byte c (s +:+ t) ↔ no_byte c s ∧ no_byte c t.
Proof. unfold no_byte. rewrite bytes_app. apply not_elem_of_app. Qed.
#[export] Hint Resolve no_byte_nil : core.

Lemma HasPrefix_spec s p : HasPrefix s p = true ↔ ∃ r, s = p +:+ r.
Proof.
  revert s. induction p as [|a p IH]; intros s; simpl.
  - split; [by exists s|by destruct s].
  - destruct s as [|b s]; simpl; [split; [done|by intros [r ?]]|].
    rewrite andb_true_iff, bool_decide_eq_true, IH. setoid_rewrite str_app_cons.
    split; [intros [-> [r ->]]; by exists r|]. intros [r [= -> ->]]. by eauto.
Qed.

Lemma Contains_unfold s sub :
  Contains s sub = HasPrefix s sub ||
    match s with EmptyString => false | String _ s' => Contains s' sub end.
Proof. by destruct s. Qed.

Lemma Contains_spec s sub : Contains s sub = true ↔ ∃ l r, s = l +:+ sub +:+ r.
Proof.
  induction s as [|a s IH]; rewrite Contains_unfold, orb_true_iff, HasPrefix_spec.
  - split.
    + intros [[r Hr]|?]; [|done]. by exists EmptyString, r.
    + intros (l & r & H). left. exists r. by destruct l.
  - rewrite IH. split.
    + intros [[r Hr]|(l & r & ->)]; [by exists EmptyString, r|].
      exists (String a l), r. by rewrite str_app_cons.
    + intros (l & r & H). destruct l as [|b l]; [left; by exists r|].
      rewrite str_app_cons in H. injection H as -> ->. right. by eauto.
Qed.

Lemma Cut_Some sep s l r :
  Cut sep s = Some (l, r) → s = l +:+ String sep r ∧ no_byte sep l.
Proof.
  revert l r. induction s as [|a s IH]; intros l r; simpl; [done|].
  case_decide as Ha; [intros [= <- <-]; by subst|].
  destruct (Cut sep s) as [[l' r']|]; [|done]. intros [= <- <-].
  destruct (IH l' r') as [-> ?]; [done|]. rewrite str_app_cons, no_byte_cons. done.
Qed.

Lemma Cut_app sep l r :
  no_byte sep l → Cut sep (l +:+ String sep r) = Some (l, r).
Proof.
  induction l as [|a l IH]; [intros _; simpl; by rewrite decide_True|].
  rewrite no_byte_cons, str_app_cons. intros [? Hl]. simpl.
  rewrite decide_False by done. by rewrite IH.
Qed.

Lemma Cut_None sep s : Cut sep s = None ↔ no_byte sep s.
Proof.
  induction s as [|a s IH]; simpl; [done|]. rewrite no_byte_cons.
  case_decide; [intuition congruence|]. destruct (Cut sep s) as [[]|]; intuition congruence.
Qed.

Lemma Count_app sep s t : Count sep (s +:+ t) = Count sep s + Count sep t.
Proof. induction s as [|a s IH]; [done|]. rewrite str_app_cons. simpl. lia. Qed.

Lemma Count_0 sep s : no_byte sep s ↔ Count sep s = 0.
Proof.
  induction s as [|a s IH]; simpl; [done|]. rewrite no_byte_cons, IH.
  case_decide; intuition (congruence || lia).
Qed.

Lemma genSplit_none sep k s : no_byte sep s → genSplit sep k s = [s].
Proof. intros H%Cut_None. destruct k; simpl; [done|]. by rewrite H. Qed.

Lemma genSplit_cut sep k l r :
  no_byte sep l → genSplit sep (S k) (l +:+ String sep r) = l :: genSplit sep k r.
Proof. intros H. simpl. by rewrite Cut_app. Qed.

Lemma genSplit_nonnil sep k s : genSplit sep k s ≠ [].
Proof. destruct k; simpl; [done|]. by destruct (Cut sep s) as [[]|]. Qed.

(** Joining the pieces with the separator restores the string. *)
Lemma genSplit_join sep k s : Join (genSplit sep k s) (String sep EmptyString) = s.
Proof.
  revert s. induction k as [|k IH]; intros s; simpl; [done|].
  destruct (Cut sep s) as [[l r]|] eqn:E; [|done].
  apply Cut_Some in E as [-> _]. specialize (IH r).
  assert (genSplit sep k r ≠ []) by apply genSplit_nonnil.
  simpl. destruct (genSplit sep k r); [done|]. by rewrite IH.
Qed.

Lemma genSplit_length sep k s : length (genSplit sep k s) = S (k `min` Count sep s).
Proof.
  revert s. induction k as [|k IH]; intros s; simpl; [done|].
  destruct (Cut sep s) as [[l r]|] eqn:E; simpl.
  - apply Cut_Some in E as [-> Hl%Count_0]. rewrite IH, Count_app. simpl.
    rewrite decide_True by done. by rewrite Hl.
  - apply Cut_None, Count_0 in E. by rewrite E.
Qed.

(** Every piece but the last is free of the separator; with enough cuts the
    last one is too. *)
Lemma genSplit_pieces sep k s :
  Forall (no_byte sep) (removelast (genSplit sep k s)).
Proof.
  revert s. induction k as [|k IH]; intros s; simpl; [constructor|].
  destruct (Cut sep s) as [[l r]|] eqn:E; [|constructor].
  apply Cut_Some in E as [_ Hl]. specialize (IH r). simpl.
  destruct (genSplit sep k r); [constructor|]. by constructor.
Qed.

Lemma Split_pieces sep s : Forall (no_byte sep) (Split s sep).
Proof.
  unfold Split. remember (Count sep s) as k eqn:Hk. revert s Hk.
  induction k as [|k IH]; intros s Hk; simpl.
  - constructor; [|done]. by apply Count_0.
  - destruct (Cut sep s) as [[l r]|] eqn:E.
    + apply Cut_Some in E as [-> Hl]. constructor; [done|]. apply IH.
      rewrite Count_app in Hk. simpl in Hk. rewrite decide_True in Hk by done.
      apply Count_0 in Hl. lia.
    + apply Cut_None in E. by constructor.
Qed.

(** Splitting at a space, or at any byte the pieces do not hold. *)
Lemma Split_cons sep l r : no_byte sep l → Split (l +:+ String sep r) sep = l :: Split r sep.
Proof.
  intros Hl. unfold Split. rewrite Count_app. apply Count_0 in Hl as Hc. rewrite Hc.
  replace (0 + Count sep (String sep r)) with (S (Count sep r)) by (simpl; by rewrite decide_True).
  by apply genSplit_cut.
Qed.

Lemma Split_word sep l : no_byte sep l → Split l sep = [l].
Proof. apply genSplit_none. Qed.

Lemma Split_Join sep words :
  words ≠ [] → Forall (no_byte sep) words → Split (Join words (String sep EmptyString)) sep = words.
Proof.
  induction words as [|w words IH]; [done|]. intros _ Hall. inversion_clear Hall as [|? ? Hw Hws].
  destruct words as [|w' words]; [by apply Split_word|].
  change (Join (w :: w' :: words) (String sep EmptyString))
    with (w +:+ String sep (Join (w' :: words) (String sep EmptyString))).
  by rewrite Split_cons, IH.
Qed.

Lemma Replace_app table s t : Replace table (s +:+ t) = Replace table s +:+ Replace table t.
Proof. induction s as [|a s IH]; [done|]. rewrite str_app_cons. simpl. by rewrite IH, str_app_assoc. Qed.

Example split_command : SplitN "/scale prod/api 3" " "%char 3 = ["/scale"; "prod/api"; "3"].
Proof. reflexivity. Qed.
Example trim_words : TrimSpace "  a b: 1 " = "a b: 1" ∧ TrimSpace "   " = EmptyString.
Proof. vm_compute. done. Qed.
