(* ===== verification/GoConv.v ===== *)
(** * Integer conversions: [strconv], [fmt]'s [%d], [fmt.Sscanf] and [int32(x)]

    [ParseInt s] is [strconv.ParseInt(s, 10, 64)] with both results: the value
    is meaningful even when the error is not [nil] (the rollback code reads it
    then).  [Atoi] keeps the fast path of the library for short strings. *)
From stdpp Require Import base tactics strings pretty list.
From Stdlib Require Import ZArith Lia.
From S2P Require Import Prelude GoStrings.
Local Open Scope Z_scope.

Inductive NumError := ErrSyntax | ErrRange.
#[export] Instance NumError_eq_dec : EqDecision NumError.
Proof. solve_decision. Defined.

Definition max_int64 : Z := 2 ^ 63 - 1.
Definition min_int64 : Z := - 2 ^ 63.
Definition max_uint64 : Z := 2 ^ 64 - 1.
Definition is_int64 (z : Z) : Prop := min_int64 ≤ z ≤ max_int64.
Definition is_int32 (z : Z) : Prop := - 2 ^ 31 ≤ z < 2 ^ 31.

(** The conversion [int32(x)] of a wider signed integer: two's complement. *)
Definition to_int32 (z : Z) : Z := (z + 2 ^ 31) mod 2 ^ 32 - 2 ^ 31.
(** Wrap-around of signed 64-bit arithmetic. *)
Definition to_int64 (z : Z) : Z := (z + 2 ^ 63) mod 2 ^ 64 - 2 ^ 63.

(** [%d] of a signed integer. *)
Definition FormatInt (z : Z) : string := pretty z.

Definition digit_val (a : ascii) : option Z :=
  let n := Z.of_N (N_of_ascii a) in
  if decide (48 ≤ n ≤ 57) then Some (n - 48) else None.

(** The digit loop of [ParseUint(s, 10, 64)], with its early exit on
    overflow: the first offending digit or the first overflow decides. *)
Fixpoint ParseUint_loop (n : Z) (s : string) : Z * option NumError :=
  match s with
  | EmptyString => (n, None)
  | String a s' =>
      match digit_val a with
      | None => (0, Some ErrSyntax)
      | Some d =>
          if decide (max_uint64 `div` 10 + 1 ≤ n) then (max_uint64, Some ErrRange)
          else if decide (max_uint64 < n * 10 + d) then (max_uint64, Some ErrRange)
          else ParseUint_loop (n * 10 + d) s'
      end
  end.

Definition ParseUint (s : string) : Z * option NumError :=
  match s with
  | EmptyString => (0, Some ErrSyntax)
  | _ => ParseUint_loop 0 s
  end.

(** The sign prefix of a number: whether it is negative, and the rest. *)
Definition cut_sign (s : string) : bool * string :=
  match s with
  | String a s' =>
      if decide (a = "+"%char) then (false, s')
      else if decide (a = "-"%char) then (true, s')
      else (false, s)
  | EmptyString => (false, s)
  end.

Definition ParseInt (s : string) : Z * option NumError :=
  match s with
  | EmptyString => (0, Some ErrSyntax)
  | _ =>
      let '(neg, u) := cut_sign s in
      let '(un, err) := ParseUint u in
      match err with
      | Some ErrSyntax => (0, Some ErrSyntax)
      | _ =>
          if negb neg && bool_decide (2 ^ 63 ≤ un) then (2 ^ 63 - 1, Some ErrRange)
          else if neg && bool_decide (2 ^ 63 < un) then (- 2 ^ 63, Some ErrRange)
          else (if neg then - un else un, None)
      end
  end.

(** [Atoi]'s fast path accumulates without overflow checks. *)
Fixpoint Atoi_loop (n : Z) (s : string) : Z * option NumError :=
  match s with
  | EmptyString => (n, None)
  | String a s' =>
      match digit_val a with
      | None => (0, Some ErrSyntax)
      | Some d => Atoi_loop (n * 10 + d) s'
      end
  end.

Definition Atoi (s : string) : Z * option NumError :=
  let len := String.length s in
  if decide (0 < len < 19)%nat then
    let '(neg, u) := cut_sign s in
    match u with
    | EmptyString => (0, Some ErrSyntax)
    | _ => match Atoi_loop 0 u with
           | (n, None) => (if neg then - n else n, None)
           | r => r
           end
    end
  else ParseInt s.

(** [fmt.Sscanf(s, "%d", &v)] on an [int64]: white space is skipped (a bare
    newline stops the scan), then an optional sign and the longest run of
    digits are read.  [None]: nothing was stored, [v] keeps its value. *)
Fixpoint skip_space (fuel : nat) (s : string) : option string :=
  match fuel with
  | O => Some s
  | S k =>
      match s with
      | EmptyString => Some s
      | String a s' =>
          if decide (a = "013"%char ∧ HasPrefix s' nl = true) then skip_space k s'
          else if decide (a = "010"%char) then None
          else match space_len s with
               | O => Some s
               | n => skip_space k (String.substring n (String.length s - n) s)
               end
      end
  end.

Fixpoint take_digits (s : string) : string :=
  match s with
  | String a s' => match digit_val a with
                   | Some _ => String a (take_digits s')
                   | None => EmptyString
                   end
  | EmptyString => EmptyString
  end.

Definition Sscanf_d (s : string) : option Z :=
  match skip_space (String.length s) s with
  | None => None
  | Some s =>
      let tok := match s with
                 | String a s' =>
                     if decide (a = "+"%char ∨ a = "-"%char)
                     then String a (take_digits s') else take_digits s
                 | EmptyString => EmptyString
                 end in
      match ParseInt tok with
      | (v, None) => Some v
      | _ => None
      end
  end.

(** ** Parsing what was printed *)

(** A string of decimal digits and the number it denotes, from the left. *)
Fixpoint digits_val (n : Z) (s : string) : option Z :=
  match s with
  | EmptyString => Some n
  | String a s' => match digit_val a with Some d => digits_val (n * 10 + d) s' | None => None end
  end.

Lemma digit_val_range a d : digit_val a = Some d → 0 ≤ d ≤ 9.
Proof. unfold digit_val. case_decide; [|done]. intros [= <-]. lia. Qed.

Lemma digits_val_ge s n v : 0 ≤ n → digits_val n s = Some v → n ≤ v.
Proof.
  revert n. induction s as [|a s IH]; intros n Hn; simpl; [intros [= <-]; lia|].
  destruct (digit_val a) eqn:E; [|done]. apply digit_val_range in E.
  intros H. apply IH in H; lia.
Qed.

Lemma digits_val_app s t n :
  digits_val n (s +:+ t) = digits_val n s ≫= λ m, digits_val m t.
Proof.
  revert n. induction s as [|a s IH]; intros n; [done|]. rewrite str_app_cons. simpl.
  destruct (digit_val a); [apply IH|done].
Qed.

Lemma digit_val_char (x : N) : (x < 10)%N → digit_val (pretty_N_char x) = Some (Z.of_N x).
Proof.
  intros Hx.
  assert (x = 0 ∨ x = 1 ∨ x = 2 ∨ x = 3 ∨ x = 4 ∨ x = 5 ∨ x = 6 ∨ x = 7 ∨ x = 8 ∨ x = 9)%N
    as H by lia.
  destruct_or! H; by subst.
Qed.

Lemma pretty_N_go_digits (x : N) (s : string) :
  digits_val 0 (pretty_N_go x s) = digits_val (Z.of_N x) s.
Proof.
  revert s. induction (N.lt_wf_0 x) as [x _ IH]; intros s.
  destruct (decide (x = 0)%N) as [->|Hx]; [done|].
  rewrite pretty_N_go_step by lia. rewrite IH by (apply N.div_lt; lia).
  simpl. rewrite digit_val_char by (apply N.mod_lt; lia). f_equal.
  pose proof (N.div_mod x 10). lia.
Qed.

Lemma pretty_N_digits (x : N) : digits_val 0 (pretty x) = Some (Z.of_N x).
Proof. unfold pretty, pretty_N. case_decide as Hx; [by subst|]. apply pretty_N_go_digits. Qed.

Lemma pretty_N_nonempty (x : N) : pretty x ≠ EmptyString.
Proof.
  intros H. unfold pretty, pretty_N in H. case_decide as Hx; [done|].
  pose proof (pretty_N_go_digits x EmptyString) as Hd. rewrite H in Hd. simpl in Hd.
  injection Hd as Hd. lia.
Qed.

Lemma digits_head a s n : digits_val n (String a s) ≠ None → a ≠ "+"%char ∧ a ≠ "-"%char ∧ a ≠ " "%char ∧ a ≠ "/"%char.
Proof. simpl. destruct (digit_val a) eqn:E; [|done]. intros _. split_and!; intros ->; done. Qed.

Lemma ParseUint_loop_digits s n v :
  0 ≤ n → digits_val n s = Some v → v ≤ max_uint64 → ParseUint_loop n s = (v, None).
Proof.
  revert n. induction s as [|a s IH]; intros n Hn; simpl; [by intros [= ->]|].
  destruct (digit_val a) as [d|] eqn:E; [|done]. apply digit_val_range in E.
  intros Hd Hv. pose proof (digits_val_ge s (n * 10 + d) v ltac:(lia) Hd) as Hge.
  unfold max_uint64 in *.
  rewrite decide_False by (pose proof (Z.div_le_lower_bound (2 ^ 64 - 1) 10 n); lia).
  rewrite decide_False by lia. apply IH; lia || done.
Qed.

Lemma ParseUint_digits s v :
  s ≠ EmptyString → digits_val 0 s = Some v → v ≤ max_uint64 → ParseUint s = (v, None).
Proof. intros Hs Hd Hv. destruct s; [done|]. by apply ParseUint_loop_digits. Qed.

Lemma cut_sign_digits s n : digits_val n s ≠ None → cut_sign s = (false, s).
Proof.
  destruct s as [|a s]; [done|]. intros (?&?&_)%digits_head. simpl.
  by rewrite !decide_False.
Qed.

(** [ParseInt] inverts [%d] on every [int64]. *)
Lemma ParseInt_FormatInt z : is_int64 z → ParseInt (FormatInt z) = (z, None).
Proof.
  unfold is_int64, min_int64, max_int64, FormatInt. intros Hz.
  assert (∀ p, digits_val 0 (pretty (N.pos p)) = Some (Z.pos p)) as Hd by (intros; apply pretty_N_digits).
  destruct z as [|p|p]; [done| |].
  - change (pretty (Z.pos p)) with (pretty (N.pos p)). unfold ParseInt.
    rewrite (cut_sign_digits _ 0) by (by rewrite Hd).
    rewrite (ParseUint_digits _ (Z.pos p)) by
      (apply pretty_N_nonempty || apply Hd || unfold max_uint64; lia).
    destruct (pretty (N.pos p)) eqn:E; [by apply pretty_N_nonempty in E|].
    simpl negb. rewrite bool_decide_eq_false_2 by lia. done.
  - change (pretty (Z.neg p)) with (String "-" (pretty (N.pos p))).
    unfold ParseInt, cut_sign. rewrite decide_False, decide_True by done.
    rewrite (ParseUint_digits _ (Z.pos p)) by
      (apply pretty_N_nonempty || apply Hd || unfold max_uint64; lia).
    simpl. rewrite bool_decide_eq_false_2 by lia. done.
Qed.

(** ** The fast path of [Atoi] and the ranges of the results *)

Lemma Atoi_loop_bounds s n v err :
  0 ≤ n → Atoi_loop n s = (v, err) →
  (err = None ∧ n ≤ v < (n + 1) * 10 ^ Z.of_nat (String.length s)) ∨
  (v = 0 ∧ err = Some ErrSyntax).
Proof.
  revert n. induction s as [|a s IH]; intros n Hn H; simpl in H.
  - injection H as <- <-. left. split; [done|]. cbn [String.length]. lia.
  - destruct (digit_val a) as [d|] eqn:E; [|injection H as <- <-; by right].
    apply digit_val_range in E. apply IH in H as [[-> H]|?]; [left|by right|lia].
    split; [done|].
    replace (Z.of_nat (String.length (String a s))) with (Z.succ (Z.of_nat (String.length s)))
      by (cbn [String.length]; lia).
    rewrite Z.pow_succ_r by lia. nia.
Qed.

Lemma Atoi_loop_ParseUint s n :
  0 ≤ n → (n + 1) * 10 ^ Z.of_nat (String.length s) ≤ 10 ^ 18 →
  ParseUint_loop n s = Atoi_loop n s.
Proof.
  revert n. induction s as [|a s IH]; intros n Hn Hb; simpl; [done|].
  destruct (digit_val a) as [d|] eqn:E; [|done]. apply digit_val_range in E.
  replace (Z.of_nat (String.length (String a s))) with (Z.succ (Z.of_nat (String.length s)))
    in Hb by (cbn [String.length]; lia).
  rewrite Z.pow_succ_r in Hb by lia.
  assert (1 ≤ 10 ^ Z.of_nat (String.length s)) by (apply (Z.pow_le_mono_r 10 0); lia).
  unfold max_uint64.
  rewrite decide_False by (pose proof (Z.div_le_lower_bound (2 ^ 64 - 1) 10 n); nia).
  rewrite decide_False by nia. apply IH; nia.
Qed.

Lemma cut_sign_length s : (String.length (cut_sign s).2 ≤ String.length s)%nat.
Proof. destruct s as [|a s]; simpl; [done|]. repeat case_decide; simpl; lia. Qed.

Lemma Atoi_loop_18 s :
  (String.length s ≤ 18)%nat →
  (0 + 1) * 10 ^ Z.of_nat (String.length s) ≤ 10 ^ 18.
Proof. intros H. rewrite Z.mul_1_l. apply Z.pow_le_mono_r; lia. Qed.

(** The fast path of [Atoi] is [ParseInt]. *)
Lemma Atoi_ParseInt s : Atoi s = ParseInt s.
Proof.
  unfold Atoi. case_decide as Hlen; [|done].
  pose proof (cut_sign_length s) as Hc.
  unfold ParseInt. destruct s as [|a0 s0]; [simpl in Hlen; lia|].
  destruct (cut_sign (String a0 s0)) as [neg u] eqn:Eu. simpl in Hc.
  destruct u as [|a u]; [done|]. unfold ParseUint.
  assert (String.length (String a u) ≤ 18)%nat as Hu by (simpl in *; lia).
  rewrite Atoi_loop_ParseUint by (lia || by apply Atoi_loop_18).
  destruct (Atoi_loop 0 (String a u)) as [v err] eqn:Ev.
  apply Atoi_loop_18 in Hu.
  apply Atoi_loop_bounds in Ev as [[-> Hv]|[-> ->]]; [|done|lia].
  rewrite (bool_decide_eq_false_2 (2 ^ 63 ≤ v)), (bool_decide_eq_false_2 (2 ^ 63 < v)) by lia.
  by destruct neg.
Qed.

Lemma ParseUint_loop_range s n v err :
  0 ≤ n ≤ max_uint64 → ParseUint_loop n s = (v, err) → 0 ≤ v ≤ max_uint64.
Proof.
  revert n. induction s as [|a s IH]; intros n Hn; simpl; [by intros [= <- <-]|].
  destruct (digit_val a) as [d|] eqn:E; [|intros [= <- <-]; unfold max_uint64; lia].
  apply digit_val_range in E. repeat case_decide.
  - intros [= <- <-]. unfold max_uint64. lia.
  - intros [= <- <-]. unfold max_uint64. lia.
  - apply IH. unfold max_uint64 in *. lia.
Qed.

(** Whatever its input and its error, [ParseInt] returns an [int64]. *)
Lemma ParseInt_range s : is_int64 (ParseInt s).1.
Proof.
  unfold is_int64, min_int64, max_int64, ParseInt.
  destruct s as [|a s]; [simpl; lia|].
  destruct (cut_sign (String a s)) as [neg u]. destruct (ParseUint u) as [un err] eqn:E.
  assert (0 ≤ un) as Hun.
  { unfold ParseUint in E. destruct u; [injection E as <- <-; lia|].
    eapply ParseUint_loop_range in E; unfold max_uint64 in *; lia. }
  destruct err as [[]|]; simpl; [lia|..];
    destruct neg; simpl; case_bool_decide; simpl; lia.
Qed.

Lemma to_int32_id z : is_int32 z → to_int32 z = z.
Proof. unfold is_int32, to_int32. intros Hz. rewrite Z.mod_small; lia. Qed.

Lemma to_int32_range z : is_int32 (to_int32 z).
Proof.
  unfold is_int32, to_int32. pose proof (Z.mod_pos_bound (z + 2 ^ 31) (2 ^ 32)). lia.
Qed.

(** The conversion keeps the low 32 bits. *)
Lemma to_int32_cut z :
  is_int32 (to_int32 z) ∧ (∃ k, z = to_int32 z + k * 2 ^ 32) ∧ (is_int32 z → to_int32 z = z).
Proof.
  split_and!; [apply to_int32_range| |apply to_int32_id].
  exists ((z + 2 ^ 31) / 2 ^ 32). unfold to_int32. pose proof (Z.div_mod (z + 2 ^ 31) (2 ^ 32) ltac:(done)). lia.
Qed.

Lemma to_int32_wrap z k : to_int32 (z + k * 2 ^ 32) = to_int32 z.
Proof.
  unfold to_int32. replace (z + k * 2 ^ 32 + 2 ^ 31) with (z + 2 ^ 31 + k * 2 ^ 32) by lia.
  by rewrite Z.mod_add.
Qed.

(** Printed integers hold no separator of the command syntax. *)
Lemma digits_no_byte s n c :
  digits_val n s ≠ None → digit_val c = None → no_byte c s.
Proof.
  revert n. induction s as [|a s IH]; intros n; simpl; [done|].
  destruct (digit_val a) eqn:E; [|done]. intros H Hc. apply no_byte_cons.
  split; [congruence|]. by eapply IH.
Qed.

Lemma FormatInt_no_byte z c :
  digit_val c = None → c ≠ "-"%char → no_byte c (FormatInt z).
Proof.
  intros Hc Hd. assert (∀ p, no_byte c (pretty (N.pos p))) as H.
  { intros p. by apply (digits_no_byte _ 0); rewrite ?pretty_N_digits. }
  unfold FormatInt. destruct z as [|p|p]; [by apply (digits_no_byte _ 0)|apply H|].
  change (pretty (Z.neg p)) with (String "-" (pretty (N.pos p))).
  by apply no_byte_cons.
Qed.

Lemma FormatInt_inj z1 z2 : FormatInt z1 = FormatInt z2 → z1 = z2.
Proof. apply (inj pretty). Qed.

(** [Sscanf_d] on printed integers. *)
Lemma take_digits_all s n : digits_val n s ≠ None → take_digits s = s.
Proof.
  revert n. induction s as [|a s IH]; intros n; simpl; [done|].
  destruct (digit_val a) eqn:E; [|done]. intros H. by rewrite (IH _ H).
Qed.

Lemma skip_space_none fuel a s :
  a ≠ "013"%char → a ≠ "010"%char → space_len (String a s) = O →
  skip_space fuel (String a s) = Some (String a s).
Proof.
  intros H1 H2 H3. destruct fuel; [done|]. cbn [skip_space].
  rewrite decide_False by tauto. rewrite decide_False by done. by rewrite H3.
Qed.

Lemma digit_not_space a s : digit_val a ≠ None → space_len (String a s) = O.
Proof.
  unfold digit_val. case_decide as Hd; [intros _|done].
  unfold space_len, ascii_space. destruct (N_of_ascii a) as [|p] eqn:E; [lia|].
  assert (48 ≤ p ∧ p ≤ 57)%positive as Hp by lia.
  rewrite (proj2 (N.leb_gt (N.pos p) 13)) by lia.
  rewrite (proj2 (N.eqb_neq (N.pos p) 32)) by lia. rewrite andb_false_r. simpl.
  repeat (case_match; try done; try lia).
Qed.

Lemma Sscanf_d_FormatInt z : is_int64 z → Sscanf_d (FormatInt z) = Some z.
Proof.
  intros Hz. pose proof (ParseInt_FormatInt z Hz) as Hp. unfold Sscanf_d.
  assert (∀ n : N, digits_val 0 (pretty n) ≠ None) as Hd by (intros; by rewrite pretty_N_digits).
  assert (∀ a s, digits_val 0 (String a s) ≠ None → digit_val a ≠ None) as Hh.
  { intros a s. simpl. by destruct (digit_val a). }
  assert (∀ (n : N) s, FormatInt z = pretty n → s = FormatInt z →
    skip_space (String.length s) s = Some s ∧
    match s with
    | String a s' => if decide (a = "+"%char ∨ a = "-"%char)
                     then String a (take_digits s') else take_digits s
    | EmptyString => EmptyString
    end = s) as Hpos.
  { intros n s Hn ->. rewrite Hn. specialize (Hd n).
    destruct (pretty n) as [|a s] eqn:E; [done|]. pose proof (Hh _ _ Hd) as Ha.
    split.
    - apply skip_space_none; [intros ->; done..|]. by apply digit_not_space.
    - apply digits_head in Hd as Hd'. rewrite decide_False by tauto.
      by apply (take_digits_all _ 0). }
  destruct z as [|p|p].
  - done.
  - destruct (Hpos (N.pos p) _ eq_refl eq_refl) as [-> ->]. by rewrite Hp.
  - unfold FormatInt in *. change (pretty (Z.neg p)) with (String "-" (pretty (N.pos p))) in *.
    rewrite skip_space_none by done. rewrite decide_True by auto.
    rewrite (take_digits_all _ 0) by done. by rewrite Hp.
Qed.
