(* ===== verification/GoTime.v ===== *)
(** * Instants and their RFC 3339 rendering ([time.Time], [Format], [After])

    A [Time] is an instant (seconds and nanoseconds since the Unix epoch) with
    the offset of its location, in seconds east of UTC.  Dates are proleptic
    Gregorian, as in package [time]. *)
From stdpp Require Import base tactics strings pretty list.
From Stdlib Require Import ZArith Lia.
From S2P Require Import Prelude GoConv.
Local Open Scope Z_scope.

Record Time := mkTime { unix_sec : Z; nsec : Z; zone_off : Z }.
(** [time.Duration]: nanoseconds. *)
Definition Duration : Type := Z.
Definition Second : Duration := 1000000000.

#[export] Instance Time_eq_dec : EqDecision Time.
Proof. solve_decision. Defined.

Definition After (t u : Time) : bool :=
  bool_decide (unix_sec u < unix_sec t) ||
  bool_decide (unix_sec u = unix_sec t) && bool_decide (nsec u < nsec t).

(** Decimal digits padded with zeros on the left to a width. *)
Definition pad (width : nat) (z : Z) : string :=
  let d := FormatInt (Z.abs z) in
  (if decide (z < 0) then "-" else EmptyString) +:+
  str_concat (replicate (width - String.length d) "0") +:+ d.

(** Civil date of a day number counted from 1970-01-01. *)
Definition civil (days : Z) : Z * Z * Z :=
  let z := days + 719468 in
  let era := z / 146097 in
  let doe := z mod 146097 in
  let yoe := (doe - doe / 1460 + doe / 36524 - doe / 146096) / 365 in
  let doy := doe - (365 * yoe + yoe / 4 - yoe / 100) in
  let mp := (5 * doy + 2) / 153 in
  let d := doy - (153 * mp + 2) / 5 + 1 in
  let m := if decide (mp < 10) then mp + 3 else mp - 9 in
  (yoe + era * 400 + (if decide (m <= 2) then 1 else 0), m, d).

Definition zone_suffix (off : Z) : string :=
  if decide (off = 0) then "Z"
  else let mins := Z.quot off 60 in
       (if decide (mins < 0) then "-" else "+") +:+
       pad 2 (Z.abs mins / 60) +:+ ":" +:+ pad 2 (Z.abs mins mod 60).

Definition date_time (t : Time) : string :=
  let local := unix_sec t + zone_off t in
  let '(y, m, d) := civil (local / 86400) in
  let s := local mod 86400 in
  pad 4 y +:+ "-" +:+ pad 2 m +:+ "-" +:+ pad 2 d +:+ "T" +:+
  pad 2 (s / 3600) +:+ ":" +:+ pad 2 (s / 60 mod 60) +:+ ":" +:+ pad 2 (s mod 60).

Definition Format_RFC3339 (t : Time) : string :=
  date_time t +:+ zone_suffix (zone_off t).

(** The fraction of [RFC3339Nano]: trailing zeros dropped, absent when zero. *)
Fixpoint trim_zeros (fuel : nat) (width : nat) (n : Z) : string :=
  match fuel with
  | O => pad width n
  | S k => if decide (n mod 10 = 0) then trim_zeros k (width - 1) (n / 10) else pad width n
  end.

Definition fraction (ns : Z) : string :=
  if decide (ns = 0) then EmptyString else "." +:+ trim_zeros 9 9 ns.

Definition Format_RFC3339Nano (t : Time) : string :=
  date_time t +:+ fraction (nsec t) +:+ zone_suffix (zone_off t).

Example format_epoch : Format_RFC3339 (mkTime 0 0 0) = "1970-01-01T00:00:00Z".
Proof. vm_compute. reflexivity. Qed.
Example format_zone :
  Format_RFC3339Nano (mkTime 1709209845 120000000 10800) = "2024-02-29T15:30:45.12+03:00".
Proof. vm_compute. reflexivity. Qed.

(** [After] is a strict order on instants. *)
Lemma After_spec t u :
  After t u = true ↔
  unix_sec u < unix_sec t ∨ unix_sec u = unix_sec t ∧ nsec u < nsec t.
Proof. unfold After. rewrite orb_true_iff, andb_true_iff, !bool_decide_eq_true. done. Qed.
