(* ===== verification/GoContext.v ===== *)
(** * Contexts with a deadline ([context.WithTimeout])

    A handler makes a context, passes it to the one operation it calls and
    cancels it when it returns ([defer cancel()]).  At any time a handler has
    at most one, so the context in force is part of the state of the world
    [W]; what it does to the requests made under it is up to the operations of
    the world.  [Timing] states the documented laws of deadlines. *)
From stdpp Require Import base tactics strings list.
From Stdlib Require Import ZArith.
From S2P Require Import Prelude GoTime.
Local Open Scope Z_scope.

Class GoContext (W : Type) := {
  (** [context.WithTimeout(context.Background(), d)] *)
  ctx_with_timeout : Duration → W → W;
  (** the [cancel] it returns *)
  ctx_cancel : W → W;
  (** [ctx.Err() == context.DeadlineExceeded] *)
  ctx_deadline_exceeded : W → bool;
}.

#[global] Arguments ctx_with_timeout {W _} d%_Z w : rename.

(** A world without clocks, whose contexts never expire. *)
Definition timeless (W : Type) : GoContext W :=
  {| ctx_with_timeout _ w := w; ctx_cancel w := w; ctx_deadline_exceeded _ := false |}.
