(* ===== verification/Sorting.v ===== *)
(** * [sort.Slice] as an interface

    [sort.Slice] promises a sorted permutation and nothing about equal
    elements.  Its clients are verified against the class [SortSlice]; the
    instance [insertion_sort] is what the library runs on short slices. *)
From stdpp Require Import base tactics list sorting.
From S2P Require Import Prelude.

(** The orders [less] the library accepts: strict weak orders. *)
Record strict_weak {A} (less : A → A → bool) : Prop := {
  sw_irrefl x : less x x = false;
  sw_trans x y z : less x y = true → less y z = true → less x z = true;
  sw_incomp x y z : less y x = false → less z y = false → less z x = false;
}.

(** [x] may stand before [y]. *)
Definition not_after {A} (less : A → A → bool) (x y : A) : Prop := less y x = false.

Class SortSlice := {
  sort_Slice {A} : (A → A → bool) → list A → list A;
  sort_Slice_perm {A} less (l : list A) : sort_Slice less l ≡ₚ l;
  sort_Slice_sorted {A} less (l : list A) :
    strict_weak less → StronglySorted (not_after less) (sort_Slice less l);
}.

(** A comparison of integer keys is a strict weak order. *)
Lemma strict_weak_key {A} (key : A → Z) :
  strict_weak (λ x y, bool_decide (key x < key y)%Z).
Proof.
  split; intros *; rewrite ?bool_decide_eq_true, ?bool_decide_eq_false; lia.
Qed.

Section insertion_sort.
Context {A : Type} (less : A → A → bool).

Fixpoint insert_sorted (x : A) (l : list A) : list A :=
  match l with
  | [] => [x]
  | y :: l' => if less x y then x :: y :: l' else y :: insert_sorted x l'
  end.

Fixpoint insertion_sort_go (acc l : list A) : list A :=
  match l with [] => acc | x :: l' => insertion_sort_go (insert_sorted x acc) l' end.

Definition insertion_sort (l : list A) : list A := insertion_sort_go [] l.

Lemma insert_sorted_perm x l : insert_sorted x l ≡ₚ x :: l.
Proof.
  induction l as [|y l IH]; simpl; [done|]. destruct (less x y); [done|].
  by rewrite IH, Permutation_swap.
Qed.

Lemma insertion_sort_go_perm acc l : insertion_sort_go acc l ≡ₚ acc ++ l.
Proof.
  revert acc. induction l as [|x l IH]; intros acc; simpl; [by rewrite app_nil_r|].
  rewrite IH, insert_sorted_perm. by apply (Permutation_middle acc l x).
Qed.

Lemma insert_sorted_sorted x l :
  strict_weak less → StronglySorted (not_after less) l →
  StronglySorted (not_after less) (insert_sorted x l).
Proof.
  intros Hw. induction 1 as [|y l Hl IH Hy]; simpl; [by repeat constructor|].
  destruct (less x y) eqn:E.
  - assert (not_after less x y) as Hxy.
    { unfold not_after. destruct (less y x) eqn:E2; [|done].
      rewrite <-(sw_irrefl _ Hw x). symmetry. by eapply (sw_trans _ Hw). }
    repeat constructor; [done..|]. eapply Forall_impl; [done|]. intros z Hz.
    by eapply (sw_incomp _ Hw).
  - constructor; [done|]. rewrite insert_sorted_perm. by constructor.
Qed.

Lemma insertion_sort_go_sorted acc l :
  strict_weak less → StronglySorted (not_after less) acc →
  StronglySorted (not_after less) (insertion_sort_go acc l).
Proof.
  intros Hw. revert acc. induction l as [|x l IH]; intros acc Hacc; simpl; [done|].
  by apply IH, insert_sorted_sorted.
Qed.
End insertion_sort.

#[export, refine] Instance insertion_SortSlice : SortSlice := {| sort_Slice A := @insertion_sort A |}.
Proof.
  - intros. apply insertion_sort_go_perm.
  - intros. by apply insertion_sort_go_sorted; [|constructor].
Defined.
