(* ===== verification/KubeApi.v ===== *)
(** * The cluster as the kube client sees it

    The object fields [internal/kube/client.go] reads or writes, the API
    operations of client-go it calls, and the polling helper of apimachinery.
    client-go, apimachinery and the cluster itself are not under [src/]: the
    operations are the class [KubeApi] over an abstract cluster state [W] with
    no law, and [wait.PollUntilContextCancel] is the class [PollUntil], whose
    law is the documented behaviour of the function. *)
From stdpp Require Import base tactics strings list gmap.
From Stdlib Require Import ZArith.
From S2P Require Import Prelude GoStrings GoConv GoTime.

(** ** Objects *)

(** A pod template: its annotations ([None] is the nil map), the images of its
    containers in order, and everything else, which is only copied. *)
Record PodTemplateSpec := mkTemplate {
  tmpl_annotations : option (gmap string string);
  tmpl_images : list string;
  tmpl_rest : string;
}.

(** A label selector is only handed to apimachinery. *)
Record LabelSelector := mkSelector { selector_source : string }.

Record DeploymentSpec := mkDeploymentSpec {
  spec_Replicas : option Z;           (** [*int32] *)
  spec_Selector : LabelSelector;
  spec_Template : PodTemplateSpec;
}.

Record DeploymentStatus := mkDeploymentStatus {
  AvailableReplicas : Z;
  UpdatedReplicas : Z;
  st_Replicas : Z;
  UnavailableReplicas : Z;
  ObservedGeneration : Z;
}.

(** [dep_rest] stands for the fields of the object the client never touches,
    its resource version among them. *)
Record Deployment := mkDeployment {
  dep_Annotations : gmap string string;
  Generation : Z;
  dep_Spec : DeploymentSpec;
  dep_Status : DeploymentStatus;
  dep_rest : string;
}.

Record ReplicaSet := mkReplicaSet {
  rs_Name : string;
  rs_Annotations : gmap string string;
  CreationTimestamp : Time;
  rs_Template : PodTemplateSpec;
  rs_Replicas : Z;
  rs_ReadyReplicas : Z;
}.

Record Pod := mkPod { pod_Name : string; pod_Phase : string }.

(** [corev1.PodLogOptions], the fields the client sets. *)
Record PodLogOptions := mkPodLogOptions {
  plo_Previous : bool;
  plo_TailLines : option Z;
  plo_SinceSeconds : option Z;
  plo_Timestamps : bool;
}.

#[export] Instance PodTemplateSpec_eq_dec : EqDecision PodTemplateSpec.
Proof. solve_decision. Defined.
#[export] Instance LabelSelector_eq_dec : EqDecision LabelSelector.
Proof. solve_decision. Defined.
#[export] Instance DeploymentSpec_eq_dec : EqDecision DeploymentSpec.
Proof. solve_decision. Defined.
#[export] Instance DeploymentStatus_eq_dec : EqDecision DeploymentStatus.
Proof. solve_decision. Defined.
#[export] Instance Deployment_eq_dec : EqDecision Deployment.
Proof. solve_decision. Defined.
#[export] Instance ReplicaSet_eq_dec : EqDecision ReplicaSet.
Proof. solve_decision. Defined.

(** Field assignments of the client: [dep.Spec.Replicas = &r],
    [dep.Spec.Template = t], [dep.Spec.Template.Annotations = a]. *)
Definition set_Replicas (r : Z) (d : Deployment) : Deployment :=
  mkDeployment (dep_Annotations d) (Generation d)
    (mkDeploymentSpec (Some r) (spec_Selector (dep_Spec d)) (spec_Template (dep_Spec d)))
    (dep_Status d) (dep_rest d).
Definition set_Template (t : PodTemplateSpec) (d : Deployment) : Deployment :=
  mkDeployment (dep_Annotations d) (Generation d)
    (mkDeploymentSpec (spec_Replicas (dep_Spec d)) (spec_Selector (dep_Spec d)) t)
    (dep_Status d) (dep_rest d).
Definition set_template_annotations (a : option (gmap string string))
    (t : PodTemplateSpec) : PodTemplateSpec :=
  mkTemplate a (tmpl_images t) (tmpl_rest t).

(** ** The API operations

    An operation answers from the cluster state and moves it; the request's
    context, with its deadline, is part of that state. *)
Class KubeApi (W : Type) := {
  api_deployment_get : string → string → W → (Deployment + string) * W;
  api_deployment_update : string → Deployment → W → (Deployment + string) * W;
  api_replicasets_list : string → string → W → (list ReplicaSet + string) * W;
  api_pod_get : string → string → W → (Pod + string) * W;
  api_pods_list : string → W → (list Pod + string) * W;
  api_pod_logs : string → string → PodLogOptions → W → (string + string) * W;
  (** [metav1.LabelSelectorAsSelector(sel)] followed by [.String()]. *)
  api_selector_string : LabelSelector → string + string;
  (** [time.Now] and [time.Sleep] (in seconds). *)
  api_now : W → Time * W;
  api_sleep : Z → W → W;
  (** The passage of an interval between two invocations of a polled
      condition. *)
  api_elapse : Duration → W → W;
  (** A send on the unbuffered log channel blocks until the goroutine at the
      other end is back from the message before; the world goes on meanwhile. *)
  api_log_wait : W → W;
}.

(** ** The state of a client call

    The cluster, the log channel of the call ([log_sent], oldest first, and
    whether it is closed) and the calls made to the API with their answers,
    newest last. *)
Inductive api_call :=
  | CGet (ns name : string) (answer : Deployment + string)
  | CUpdate (ns : string) (dep : Deployment) (answer : Deployment + string)
  | CList (ns selector : string) (answer : list ReplicaSet + string)
  | CPodGet (ns name : string) (answer : Pod + string)
  | CPods (ns : string) (answer : list Pod + string)
  | CLogs (ns name : string) (opts : PodLogOptions) (answer : string + string).

Record kst (W : Type) := mkKst {
  world : W;
  log_sent : list string;
  log_closed : bool;
  calls : list api_call;
}.
Arguments mkKst {W}.
Arguments world {W}.
Arguments log_sent {W}.
Arguments log_closed {W}.
Arguments calls {W}.

(** The [chan<- string] argument: nil, or the channel of the state. *)
Inductive chan_ref := ChanNil | ChanRef.

(** ** Polling

    [poll_runs interval cond s o s']: the runs [PollUntilContextCancel(ctx, interval,
    true, cond)] may have.  The condition is invoked at once, then after every
    interval; the poll ends when the condition returns true or an error, or
    with the error of the context when that is done while waiting. *)
Definition ctx_errors : list string := ["context deadline exceeded"; "context canceled"].

Section poll.
Context {W : Type} `{!KubeApi W}.
Abbreviation cond_t := (GoM (kst W) (bool * option string)).

Definition elapse (d : Duration) (s : kst W) : kst W :=
  mkKst (api_elapse d (world s)) (log_sent s) (log_closed s) (calls s).

Inductive poll_runs (interval : Duration) (cond : cond_t) : kst W → outcome (option string) → kst W → Prop :=
  | poll_done s s' :
      cond s = (Ret (true, None), s') → poll_runs interval cond s (Ret None) s'
  | poll_error s b e s' :
      cond s = (Ret (b, Some e), s') → poll_runs interval cond s (Ret (Some e)) s'
  | poll_panic s w s' :
      cond s = (Panic w, s') → poll_runs interval cond s (Panic w) s'
  | poll_cancel s e s' :
      cond s = (Ret (false, None), s') → e ∈ ctx_errors →
      poll_runs interval cond s (Ret (Some e)) (elapse interval s')
  | poll_again s s' o s'' :
      cond s = (Ret (false, None), s') → poll_runs interval cond (elapse interval s') o s'' →
      poll_runs interval cond s o s''.

(** The poll with a context that survives [ticks] intervals. *)
Fixpoint poll_ticks (ticks : nat) (interval : Duration) (cond : cond_t) : GoM (kst W) (option string) := λ s,
  match cond s with
  | (Panic w, s') => (Panic w, s')
  | (Ret (_, Some e), s') => (Ret (Some e), s')
  | (Ret (true, None), s') => (Ret None, s')
  | (Ret (false, None), s') =>
      match ticks with
      | O => (Ret (Some "context deadline exceeded"), elapse interval s')
      | S n => poll_ticks n interval cond (elapse interval s')
      end
  end.

Lemma poll_ticks_runs ticks interval cond s :
  poll_runs interval cond s (poll_ticks ticks interval cond s).1 (poll_ticks ticks interval cond s).2.
Proof.
  revert s. induction ticks as [|n IH]; intros s; simpl;
    destruct (cond s) as [[[[] [e|]]|w] s'] eqn:E; simpl;
    eauto using poll_done, poll_error, poll_panic.
  - by apply poll_cancel; [|constructor].
  - eapply poll_again; eauto.
Qed.

(** What one invocation of the condition owes to an invariant [I] of the
    unfinished turns and to the postcondition [Q] of the poll. *)
Definition poll_post (interval : Duration) (I : kst W → Prop) (Q : outcome (option string) → kst W → Prop)
    (o : outcome (bool * option string)) (s' : kst W) : Prop :=
  match o with
  | Ret (_, Some e) => Q (Ret (Some e)) s'
  | Ret (true, None) => Q (Ret None) s'
  | Ret (false, None) => I (elapse interval s') ∧ ∀ e, e ∈ ctx_errors → Q (Ret (Some e)) (elapse interval s')
  | Panic w => Q (Panic w) s'
  end.

Lemma poll_runs_post (I : kst W → Prop) (Q : outcome (option string) → kst W → Prop) interval cond :
  (∀ s, I s → wp cond (poll_post interval I Q) s) →
  ∀ s o s', poll_runs interval cond s o s' → I s → Q o s'.
Proof.
  unfold wp, poll_post. intros H s o s'.
  induction 1 as [s s' E|s b e s' E|s w s' E|s e s' E He|s s' o s'' E _ IH];
    intros HI; specialize (H s HI); rewrite E in H; [done|by destruct b|done|..].
  - destruct H as [_ H]. by apply H.
  - destruct H as [H _]. by apply IH.
Qed.
End poll.

Class PollUntil (W : Type) `{!KubeApi W} := {
  PollUntilContextCancel : Duration → GoM (kst W) (bool * option string) → GoM (kst W) (option string);
  PollUntilContextCancel_runs interval cond s :
    poll_runs interval cond s (PollUntilContextCancel interval cond s).1
      (PollUntilContextCancel interval cond s).2;
}.

Definition poll_n {W} `{!KubeApi W} (ticks : nat) : PollUntil W :=
  {| PollUntilContextCancel := poll_ticks ticks;
     PollUntilContextCancel_runs := poll_ticks_runs ticks |}.

(** The rule for a poll: an invariant of its turns. *)
Lemma wp_poll {W} `{!KubeApi W} `{!PollUntil W} (I : kst W → Prop) interval cond
    (Q : outcome (option string) → kst W → Prop) s :
  I s → (∀ s, I s → wp cond (poll_post interval I Q) s) →
  wp (PollUntilContextCancel interval cond) Q s.
Proof.
  intros HI H.
  exact (poll_runs_post I Q interval cond H _ _ _ (PollUntilContextCancel_runs interval cond s) HI).
Qed.
