(* ===== verification/KubeClient.v ===== *)
(** * [internal/kube/client.go]

    The operations of [K8sClient], each as a computation over the cluster,
    the log channel and the trace of API calls. *)
From stdpp Require Import base tactics strings list gmap.
From Stdlib Require Import ZArith.
From S2P Require Import Prelude GoStrings GoConv GoTime Sorting KubeApi.

Record RevisionInfo := mkRevisionInfo { Revision : Z; RSName : string; Image : string }.
#[export] Instance RevisionInfo_eq_dec : EqDecision RevisionInfo.
Proof. solve_decision. Defined.

Record PodLogsOptions := mkPodLogsOptions {
  Previous : bool; TailLines : Z; SinceSeconds : Z; Timestamps : bool }.

(** A client holds a clientset or, when it was never initialised, a nil
    interface; the clientset itself is the [KubeApi] in scope. *)
Inductive Clientset := TheClientset.
Record K8sClient := mkK8sClient { clientset : option Clientset }.

Definition NewTestClient (cs : option Clientset) : K8sClient := mkK8sClient cs.
Definition GetClientset (c : K8sClient) : option Clientset := clientset c.

Definition revision_key : string := "deployment.kubernetes.io/revision".
Definition restarted_key : string := "kubectl.kubernetes.io/restartedAt".

Section client.
Context {W : Type} `{!KubeApi W} `{!PollUntil W} `{!SortSlice}.
Abbreviation M := (GoM (kst W)).

(** ** Calls of the clientset: a nil interface panics *)

Definition record_call {A} (op : W → A * W) (entry : A → api_call) : M A := λ s,
  let (a, w') := op (world s) in
  (Ret a, mkKst w' (log_sent s) (log_closed s) (calls s ++ [entry a])).

Definition with_clientset {A} (cs : option Clientset) (m : M A) : M A :=
  match cs with None => panic nil_deref | Some _ => m end.

Definition Deployments_Get (cs : option Clientset) (ns name : string) : M (Deployment + string) :=
  with_clientset cs (record_call (api_deployment_get ns name) (CGet ns name)).
Definition Deployments_Update (cs : option Clientset) (ns : string) (dep : Deployment) :
    M (Deployment + string) :=
  with_clientset cs (record_call (api_deployment_update ns dep) (CUpdate ns dep)).
Definition ReplicaSets_List (cs : option Clientset) (ns selector : string) :
    M (list ReplicaSet + string) :=
  with_clientset cs (record_call (api_replicasets_list ns selector) (CList ns selector)).
Definition Pods_Get (cs : option Clientset) (ns name : string) : M (Pod + string) :=
  with_clientset cs (record_call (api_pod_get ns name) (CPodGet ns name)).
Definition Pods_List (cs : option Clientset) (ns : string) : M (list Pod + string) :=
  with_clientset cs (record_call (api_pods_list ns) (CPods ns)).
Definition Pods_GetLogs (cs : option Clientset) (ns name : string) (opts : PodLogOptions) :
    M (string + string) :=
  with_clientset cs (record_call (api_pod_logs ns name opts) (CLogs ns name opts)).

Definition time_Now : M Time := λ s,
  let (t, w') := api_now (world s) in
  (Ret t, mkKst w' (log_sent s) (log_closed s) (calls s)).
Definition time_Sleep (seconds : Z) : M unit :=
  modify (λ s, mkKst (api_sleep seconds (world s)) (log_sent s) (log_closed s) (calls s)).

(** ** The log channel

    A send waits for the reader and then hands the line over. *)

Definition chan_send (msg : string) : M unit := λ s,
  if log_closed s then (Panic "send on closed channel", s)
  else (Ret tt, mkKst (api_log_wait (world s)) (log_sent s ++ [msg]) (log_closed s) (calls s)).

Definition chan_close (ch : chan_ref) : M unit := λ s,
  match ch with
  | ChanNil => (Panic "close of nil channel", s)
  | ChanRef =>
      if log_closed s then (Panic "close of closed channel", s)
      else (Ret tt, mkKst (world s) (log_sent s) true (calls s))
  end.

(** The local [log] closure of the three [...WithLogs] operations. *)
Definition log (ch : chan_ref) (msg : string) : M unit :=
  match ch with ChanNil => mret tt | ChanRef => chan_send msg end.

Definition get_deployment_failed (err ns name : string) : string :=
  "Ошибка получения Deployment: " +:+ err +:+ "; namespace = " +:+ ns +:+ "; name = " +:+ name.

(** [*dep.Spec.Replicas] *)
Definition deref_Replicas (d : Deployment) : M Z :=
  match spec_Replicas (dep_Spec d) with Some r => mret r | None => panic nil_deref end.

(** ** Pods *)

Definition GetPodStatus (c : K8sClient) (ns podName : string) : M (string * option string) :=
  r ← Pods_Get (clientset c) ns podName;
  match r with
  | inr err => mret (EmptyString, Some err)
  | inl pod => mret (pod_Phase pod, None)
  end.

Definition GetPodLogs (c : K8sClient) (ns podName : string) (opts : option PodLogsOptions) :
    M (string * option string) :=
  match clientset c with
  | None => mret (EmptyString, Some "client not initialized")
  | Some _ =>
      let podLogOptions :=
        match opts with
        | None => mkPodLogOptions false None None false
        | Some o => mkPodLogOptions (Previous o) (Some (TailLines o))
                      (Some (SinceSeconds o)) (Timestamps o)
        end in
      r ← Pods_GetLogs (clientset c) ns podName podLogOptions;
      match r with
      | inr err => mret (EmptyString,
          Some ("ошибка получения логов пода " +:+ podName +:+ ": " +:+ err))
      | inl logs => mret (logs, None)
      end
  end.

Definition ListPods (c : K8sClient) (ns : string) : M (list string * option string) :=
  match clientset c with
  | None => mret ([], Some "client not initialized")
  | Some _ =>
      r ← Pods_List (clientset c) ns;
      match r with
      | inr err => mret ([], Some ("ошибка получения списка подов: " +:+ err))
      | inl pods => mret (pod_Name <$> pods, None)
      end
  end.

(** ** Scaling *)

Definition scale_progress (available replicas : Z) : string :=
  "🌀 Статус: доступно " +:+ FormatInt available +:+ "/" +:+ FormatInt replicas +:+ " реплик".

(** The condition polled by [ScaleDeploymentWithLogs]. *)
Definition scale_cond (c : K8sClient) (ns name : string) (replicas : Z) (logCh : chan_ref) :
    M (bool * option string) :=
  r ← Deployments_Get (clientset c) ns name;
  match r with
  | inr err =>
      _ ← log logCh ("Ошибка чтения Deployment: " +:+ err);
      mret (false, Some err)
  | inl updated =>
      let available := AvailableReplicas (dep_Status updated) in
      _ ← log logCh (scale_progress available replicas);
      if decide (available = replicas) then
        _ ← log logCh "✅ Масштабирование завершено успешно.";
        mret (true, None)
      else mret (false, None)
  end.

Definition ScaleDeploymentWithLogs (c : K8sClient) (ns name : string) (replicas : Z)
    (logCh : chan_ref) : M (option string) :=
  defer (chan_close logCh)
    match clientset c with
    | None => mret (Some "client not initialized")
    | Some _ =>
        r ← Deployments_Get (clientset c) ns name;
        match r with
        | inr err =>
            _ ← log logCh (get_deployment_failed err ns name);
            mret (Some err)
        | inl dep =>
            _ ← log logCh ("🔧 Масштабируем Deployment " +:+ name +:+ " в namespace " +:+ ns
                           +:+ " до " +:+ FormatInt replicas +:+ " реплик...");
            u ← Deployments_Update (clientset c) ns (set_Replicas replicas dep);
            match u with
            | inr err =>
                _ ← log logCh ("Ошибка обновления Deployment: " +:+ err);
                mret (Some err)
            | inl _ =>
                _ ← log logCh "🚀 Масштабирование запущено...";
                PollUntilContextCancel (2 * Second)%Z (scale_cond c ns name replicas logCh)
            end
        end
    end.

(** ** Restart *)

Definition restart_ready (d : Deployment) (replicas : Z) : bool :=
  let st := dep_Status d in
  bool_decide (Generation d ≤ ObservedGeneration st)%Z &&
  bool_decide (UpdatedReplicas st = replicas) &&
  bool_decide (AvailableReplicas st = replicas) &&
  bool_decide (UnavailableReplicas st = 0%Z).

Definition restart_cond (c : K8sClient) (ns name : string) (logCh : chan_ref) :
    M (bool * option string) :=
  r ← Deployments_Get (clientset c) ns name;
  match r with
  | inr err =>
      _ ← log logCh ("Ошибка чтения Deployment: " +:+ err);
      mret (false, Some err)
  | inl updated =>
      replicas ← deref_Replicas updated;
      _ ← log logCh ("🌀 Прогресс: обновлено " +:+
             FormatInt (UpdatedReplicas (dep_Status updated)) +:+ "/" +:+ FormatInt replicas +:+
             ", готово " +:+ FormatInt (AvailableReplicas (dep_Status updated)));
      if restart_ready updated replicas then
        _ ← log logCh "✅ Rollout завершён успешно.";
        mret (true, None)
      else mret (false, None)
  end.

(** The template with the restart annotation; a nil map is replaced first. *)
Definition restarted_template (stamp : string) (t : PodTemplateSpec) : PodTemplateSpec :=
  set_template_annotations
    (Some (<[restarted_key := stamp]> (default ∅ (tmpl_annotations t)))) t.

Definition RestartDeploymentWithLogs (c : K8sClient) (ns name : string) (logCh : chan_ref) :
    M (option string) :=
  defer (chan_close logCh)
    match clientset c with
    | None => mret (Some "client not initialized")
    | Some _ =>
        r ← Deployments_Get (clientset c) ns name;
        match r with
        | inr err =>
            _ ← log logCh (get_deployment_failed err ns name);
            mret (Some err)
        | inl dep =>
            now ← time_Now;
            let template := restarted_template (Format_RFC3339Nano now)
                              (spec_Template (dep_Spec dep)) in
            u ← Deployments_Update (clientset c) ns (set_Template template dep);
            match u with
            | inr err =>
                _ ← log logCh ("Ошибка обновления Deployment: " +:+ err);
                mret (Some err)
            | inl _ =>
                _ ← log logCh "🚀 Rollout restart запущен...";
                PollUntilContextCancel (2 * Second)%Z (restart_cond c ns name logCh)
            end
        end
    end.
End client.

(** The symbolic execution steps over these as wholes. *)
#[global] Arguments log : simpl never.
#[global] Arguments Deployments_Get : simpl never.
#[global] Arguments Deployments_Update : simpl never.
#[global] Arguments ReplicaSets_List : simpl never.
#[global] Arguments record_call : simpl never.
#[global] Arguments deref_Replicas : simpl never.
