(* ===== verification/KubeRollback.v ===== *)
(** * [internal/kube/client.go]: rollback and the list of revisions *)
From stdpp Require Import base tactics strings list gmap.
From Stdlib Require Import ZArith.
From S2P Require Import Prelude GoStrings GoConv GoTime Sorting KubeApi KubeClient.

Section rollback.
Context {W : Type} `{!KubeApi W} `{!PollUntil W} `{!SortSlice}.
Abbreviation M := (GoM (kst W)).

(** ** Choosing the ReplicaSet *)

(** The order of the sort: newer ReplicaSets first. *)
Definition newer (a b : ReplicaSet) : bool :=
  After (CreationTimestamp a) (CreationTimestamp b).

(** The loop over the sorted list for an explicit revision: the annotation
    is compared as text. *)
Fixpoint find_revision (revision : Z) (items : list ReplicaSet) : option ReplicaSet :=
  match items with
  | [] => None
  | rs :: rest =>
      match rs_Annotations rs !! revision_key with
      | Some rsRev =>
          if decide (rsRev = FormatInt revision) then Some rs else find_revision revision rest
      | None => find_revision revision rest
      end
  end.

(** The loop for the previous revision: the annotation is parsed and the
    error of the parse is dropped. *)
Fixpoint find_previous (targetRevision : Z) (items : list ReplicaSet) : option ReplicaSet :=
  match items with
  | [] => None
  | rs :: rest =>
      match rs_Annotations rs !! revision_key with
      | Some rsRev =>
          if decide ((ParseInt rsRev).1 = targetRevision) then Some rs
          else find_previous targetRevision rest
      | None => find_previous targetRevision rest
      end
  end.

(** The target of a rollback: [inl] the ReplicaSet and the line logged about
    it, or [inr] the line logged and the error returned. *)
Definition select_target (items : list ReplicaSet) (curRev revision : Z) :
    (ReplicaSet * string) + (string * string) :=
  if decide (0 < revision)%Z then
    match find_revision revision items with
    | None => inr ("[rollback] Ревизия " +:+ FormatInt revision +:+ " не найдена",
                   "ревизия " +:+ FormatInt revision +:+ " не найдена")
    | Some rs => inl (rs, "[rollback] Найдена целевая ревизия: " +:+ rs_Name rs +:+
                          " (реплики: " +:+ FormatInt (rs_Replicas rs) +:+ ")")
    end
  else
    let targetRevision := to_int64 (curRev - 1) in
    match find_previous targetRevision items with
    | None => inr ("[rollback] Не найдена предыдущая ревизия " +:+ FormatInt targetRevision,
                   "не найдена предыдущая ревизия " +:+ FormatInt targetRevision)
    | Some rs => inl (rs, "[rollback] Используем предыдущую ревизию: " +:+ rs_Name rs +:+
                          " (реплики: " +:+ FormatInt (rs_Replicas rs) +:+ ")")
    end.

(** ** The steps of the operation *)

Fixpoint log_replicasets (logCh : chan_ref) (i : nat) (items : list ReplicaSet) : M unit :=
  match items with
  | [] => mret tt
  | rs :: rest =>
      _ ← log logCh ("[rollback] RS[" +:+ FormatInt (Z.of_nat i) +:+ "]: " +:+ rs_Name rs +:+
             ", ревизия: " +:+ map_get (rs_Annotations rs) revision_key +:+
             ", replicas: " +:+ FormatInt (rs_Replicas rs) +:+
             ", ready: " +:+ FormatInt (rs_ReadyReplicas rs) +:+
             ", created: " +:+ Format_RFC3339 (CreationTimestamp rs));
      log_replicasets logCh (S i) rest
  end.

Definition conflict_text : string := "the object has been modified".

(** The update loop: at most [attempts] tries, repeated on a version
    conflict only.  [None] is leaving the loop, by a successful update or by
    running out of attempts. *)
Fixpoint update_template (attempts : nat) (c : K8sClient) (ns name : string)
    (template : PodTemplateSpec) (logCh : chan_ref) : M (option string) :=
  match attempts with
  | O => mret None
  | S k =>
      r ← Deployments_Get (clientset c) ns name;
      match r with
      | inr err =>
          _ ← log logCh ("[rollback] Ошибка получения deployment перед Update: " +:+ err);
          mret (Some ("ошибка получения deployment перед Update: " +:+ err))
      | inl dep =>
          u ← Deployments_Update (clientset c) ns (set_Template template dep);
          match u with
          | inl _ => mret None
          | inr err =>
              if Contains err conflict_text then
                _ ← log logCh "[rollback] Конфликт версий deployment, пробуем ещё раз...";
                _ ← time_Sleep 1;
                update_template k c ns name template logCh
              else
                _ ← log logCh ("[rollback] Ошибка обновления deployment: " +:+ err);
                mret (Some ("ошибка обновления deployment: " +:+ err))
          end
      end
  end.

Definition rollback_ready (d : Deployment) (replicas : Z) : bool :=
  let st := dep_Status d in
  bool_decide (AvailableReplicas st = replicas) &&
  bool_decide (UpdatedReplicas st = replicas) &&
  bool_decide (st_Replicas st = replicas) &&
  bool_decide (UnavailableReplicas st = 0%Z).

Definition rollback_cond (c : K8sClient) (ns name : string) (logCh : chan_ref) :
    M (bool * option string) :=
  r ← Deployments_Get (clientset c) ns name;
  match r with
  | inr err =>
      _ ← log logCh ("[rollback] Ошибка чтения deployment: " +:+ err);
      mret (false, Some err)
  | inl dep =>
      replicas ← deref_Replicas dep;
      let st := dep_Status dep in
      _ ← log logCh ("[rollback] Статус: доступно " +:+ FormatInt (AvailableReplicas st) +:+
             "/" +:+ FormatInt replicas +:+ ", обновлено: " +:+ FormatInt (UpdatedReplicas st) +:+
             ", всего: " +:+ FormatInt (st_Replicas st) +:+
             ", недоступно: " +:+ FormatInt (UnavailableReplicas st));
      mret (rollback_ready dep replicas, None)
  end.

(** From the update loop to the end. *)
Definition rollback_apply (c : K8sClient) (ns name : string) (targetRS : ReplicaSet)
    (logCh : chan_ref) : M (option string) :=
  _ ← log logCh "[rollback] Обновляем deployment с шаблоном пода из выбранного ReplicaSet...";
  e ← update_template 5 c ns name (rs_Template targetRS) logCh;
  match e with
  | Some err => mret (Some err)
  | None =>
      _ ← log logCh "[rollback] Ожидание завершения отката...";
      err ← PollUntilContextCancel (2 * Second)%Z (rollback_cond c ns name logCh);
      match err with
      | Some err =>
          _ ← log logCh ("[rollback] ОШИБКА ожидания завершения отката: " +:+ err);
          mret (Some ("ошибка ожидания завершения отката: " +:+ err))
      | None =>
          _ ← log logCh "[rollback] Откат deployment успешно завершен";
          mret None
      end
  end.

(** From the answer of the list call to the choice of the ReplicaSet. *)
Definition rollback_select (c : K8sClient) (ns name : string) (revision : Z)
    (dep : Deployment) (listed : list ReplicaSet) (logCh : chan_ref) : M (option string) :=
  _ ← log logCh ("[rollback] Найдено ReplicaSets: " +:+ FormatInt (Z.of_nat (length listed)));
  _ ← log_replicasets logCh 0 listed;
  let items := sort_Slice newer listed in
  if decide (length items < 2) then
    _ ← log logCh "[rollback] Недостаточно ревизий для отката (нужно минимум 2)";
    mret (Some "недостаточно ревизий для отката (нужно минимум 2)")
  else
    match dep_Annotations dep !! revision_key with
    | None =>
        _ ← log logCh "[rollback] Не удалось определить текущую ревизию deployment";
        mret (Some "не удалось определить текущую ревизию deployment")
    | Some curRevStr =>
        match ParseInt curRevStr with
        | (_, Some _) =>
            _ ← log logCh "[rollback] Не удалось преобразовать ревизию deployment";
            mret (Some "не удалось преобразовать ревизию deployment")
        | (curRev, None) =>
            match select_target items curRev revision with
            | inr (line, err) => _ ← log logCh line; mret (Some err)
            | inl (targetRS, line) =>
                _ ← log logCh line;
                rollback_apply c ns name targetRS logCh
            end
        end
    end.

Definition RollbackDeploymentWithLogs (c : K8sClient) (ns name : string) (revision : Z)
    (logCh : chan_ref) : M (option string) :=
  defer (chan_close logCh) (
    _ ← log logCh "[rollback] Получаем deployment...";
    r ← Deployments_Get (clientset c) ns name;
    match r with
    | inr err =>
        _ ← log logCh (get_deployment_failed err ns name);
        mret (Some ("ошибка получения deployment: " +:+ err))
    | inl dep =>
        _ ← log logCh "[rollback] Получаем селектор из deployment...";
        match api_selector_string (spec_Selector (dep_Spec dep)) with
        | inr err =>
            _ ← log logCh ("[rollback] Ошибка создания селектора: " +:+ err);
            mret (Some ("ошибка создания селектора: " +:+ err))
        | inl selector =>
            _ ← log logCh ("[rollback] Селектор: " +:+ selector);
            _ ← log logCh "[rollback] Получаем список ReplicaSets...";
            l ← ReplicaSets_List (clientset c) ns selector;
            match l with
            | inr err =>
                _ ← log logCh ("[rollback] Ошибка получения списка ReplicaSets: " +:+ err);
                mret (Some ("ошибка получения списка ReplicaSets: " +:+ err))
            | inl listed => rollback_select c ns name revision dep listed logCh
            end
        end
    end).

(** ** ListAvailableRevisions *)

(** One turn of the loop: the entry appended for a ReplicaSet, if any. *)
Definition revision_info (rs : ReplicaSet) : option RevisionInfo :=
  let revStr := map_get (rs_Annotations rs) revision_key in
  if decide (revStr = EmptyString) then None
  else Some (mkRevisionInfo (default 0%Z (Sscanf_d revStr)) (rs_Name rs)
               (default EmptyString (head (tmpl_images (rs_Template rs))))).

Definition by_revision (a b : RevisionInfo) : bool :=
  bool_decide (Revision a < Revision b)%Z.

Definition ListAvailableRevisions (c : K8sClient) (ns deploymentName : string) :
    M (list RevisionInfo * option string) :=
  r ← Deployments_Get (GetClientset c) ns deploymentName;
  match r with
  | inr err => mret ([], Some err)
  | inl dep =>
      match api_selector_string (spec_Selector (dep_Spec dep)) with
      | inr err => mret ([], Some err)
      | inl selector =>
          l ← ReplicaSets_List (GetClientset c) ns selector;
          match l with
          | inr err => mret ([], Some err)
          | inl listed => mret (sort_Slice by_revision (omap revision_info listed), None)
          end
      end
  end.
End rollback.
