(* ===== verification/KubeTrace.v ===== *)
(** * A program logic over the effects of client operations

    [emits m Q]: from every state with an open log channel, [m] ends, leaves
    the channel open, appends a trace [tr] of API calls and lines [lg] to
    those already there, and its outcome is related to them by [Q].  The
    cluster's answers are arbitrary: they appear in the trace. *)
From stdpp Require Import base tactics strings list gmap.
From S2P Require Import Prelude KubeApi KubeClient.

Create HintDb emits.

Section emits.
Context {W : Type} `{!KubeApi W} `{!PollUntil W}.
Abbreviation M := (GoM (kst W)).
Abbreviation post A := (outcome A → list api_call → list string → Prop).

(** [s'] extends [s] by the trace [tr] and the lines [lg]. *)
Definition extends (s : kst W) (tr : list api_call) (lg : list string) (s' : kst W) : Prop :=
  calls s' = calls s ++ tr ∧ log_sent s' = log_sent s ++ lg ∧
  log_closed s' = log_closed s.

Definition emits {A} (m : M A) (Q : post A) : Prop :=
  ∀ s, log_closed s = false →
    wp m (λ o s', ∃ tr lg, extends s tr lg s' ∧ Q o tr lg) s.

Lemma extends_nil s w : extends s [] [] (mkKst w (log_sent s) (log_closed s) (calls s)).
Proof. split_and!; simpl; by rewrite ?app_nil_r. Qed.

Lemma extends_app s1 t1 l1 s2 t2 l2 s3 :
  extends s1 t1 l1 s2 → extends s2 t2 l2 s3 → extends s1 (t1 ++ t2) (l1 ++ l2) s3.
Proof.
  intros (C1&L1&K1) (C2&L2&K2). split_and!; [by rewrite C2, C1, app_assoc|
    by rewrite L2, L1, app_assoc|congruence].
Qed.

Lemma emits_mono {A} (m : M A) (Q R : post A) :
  emits m Q → (∀ o tr lg, Q o tr lg → R o tr lg) → emits m R.
Proof. intros Hm HQR s Hs. eapply wp_mono; [by apply Hm|].
  intros o s' (tr & lg & He & HQ). eauto 10. Qed.

(** What is appended is determined, so two descriptions of it combine. *)
Lemma emits_conj {A} (m : M A) (Q R : post A) :
  emits m Q → emits m R → emits m (λ o tr lg, Q o tr lg ∧ R o tr lg).
Proof.
  intros HQ HR s Hs. specialize (HQ s Hs). specialize (HR s Hs). unfold wp in *. destruct (m s) as [o s'].
  destruct HQ as (tr & lg & (Hc & Hl & Hk) & HQ), HR as (tr' & lg' & (Hc' & Hl' & _) & HR).
  rewrite Hc in Hc'. rewrite Hl in Hl'. apply app_inv_head in Hc' as <-, Hl' as <-.
  exists tr, lg. done.
Qed.

Lemma emits_ret {A} (a : A) (Q : post A) : Q (Ret a) [] [] → emits (mret a) Q.
Proof. intros HQ s _. apply wp_ret. exists [], []. destruct s. split; [apply extends_nil|done]. Qed.

Lemma emits_panic {A} w (Q : post A) : Q (Panic w) [] [] → emits (panic w) Q.
Proof. intros HQ s _. apply wp_panic. exists [], []. destruct s. split; [apply extends_nil|done]. Qed.

(** Sequencing: the continuation is verified with the effects so far. *)
Definition then_post {A B} (f : A → M B) (Q : post B) : post A := λ o t1 l1,
  match o with
  | Ret a => emits (f a) (λ o t2 l2, Q o (t1 ++ t2) (l1 ++ l2))
  | Panic w => Q (Panic w) t1 l1
  end.

Lemma emits_bind {A B} (m : M A) (f : A → M B) (Q : post B) :
  emits m (then_post f Q) → emits (m ≫= f) Q.
Proof.
  intros Hm s Hs. apply wp_bind. eapply wp_mono; [by apply Hm|].
  intros [a|w] s1 (t1 & l1 & He & HQ); simpl in *; [|by eauto].
  eapply wp_mono; [apply HQ; destruct He as (_&_&->); done|].
  intros o s2 (t2 & l2 & He2 & HQ2). eexists _, _. split; [by eapply extends_app|done].
Qed.

Lemma emits_record_call {A} (op : W → A * W) entry (Q : post A) :
  (∀ a, Q (Ret a) [entry a] []) → emits (record_call op entry) Q.
Proof.
  intros HQ s _. unfold wp, record_call. destruct (op (world s)) as [a w']. simpl.
  eexists _, []. split; [|apply HQ]. split_and!; simpl; by rewrite ?app_nil_r.
Qed.

Lemma emits_with_clientset {A} cs (m : M A) (Q : post A) :
  (cs = None → Q (Panic nil_deref) [] []) → (is_Some cs → emits m Q) →
  emits (with_clientset cs m) Q.
Proof. intros HN HS. destruct cs; simpl; [apply HS; eauto|apply emits_panic; auto]. Qed.

Lemma emits_now (Q : post _) : (∀ t, Q (Ret t) [] []) → emits time_Now Q.
Proof.
  intros HQ s _. unfold wp, time_Now. destruct (api_now (world s)) as [t w']. simpl.
  exists [], []. split; [apply extends_nil|done].
Qed.

Lemma emits_sleep n (Q : post unit) : Q (Ret tt) [] [] → emits (time_Sleep n) Q.
Proof. intros HQ s _. apply wp_modify. exists [], []. split; [apply extends_nil|done]. Qed.

Lemma emits_log msg (Q : post unit) : Q (Ret tt) [] [msg] → emits (log ChanRef msg) Q.
Proof.
  intros HQ s Hs. unfold wp, log, chan_send. rewrite Hs. simpl.
  exists [], [msg]. split; [|done]. split_and!; simpl; by rewrite ?app_nil_r.
Qed.

Lemma emits_deref d (Q : post Z) :
  (∀ r, spec_Replicas (dep_Spec d) = Some r → Q (Ret r) [] []) →
  (spec_Replicas (dep_Spec d) = None → Q (Panic nil_deref) [] []) →
  emits (deref_Replicas d) Q.
Proof.
  intros HS HN. unfold deref_Replicas.
  destruct (spec_Replicas (dep_Spec d)); [apply emits_ret|apply emits_panic]; auto.
Qed.

(** ** Polls

    The traces of a poll, given what one invocation of the condition may
    emit ([C]). *)
Inductive turns (C : post (bool * option string)) : post (option string) :=
  | turns_done t l : C (Ret (true, None)) t l → turns C (Ret None) t l
  | turns_error b e t l : C (Ret (b, Some e)) t l → turns C (Ret (Some e)) t l
  | turns_panic w t l : C (Panic w) t l → turns C (Panic w) t l
  | turns_cancel e t l :
      C (Ret (false, None)) t l → e ∈ ctx_errors → turns C (Ret (Some e)) t l
  | turns_again t l o t' l' :
      C (Ret (false, None)) t l → turns C o t' l' → turns C o (t ++ t') (l ++ l').

Lemma extends_elapse d s tr lg s' : extends s tr lg s' → extends s tr lg (elapse d s').
Proof. done. Qed.

Lemma emits_poll interval cond (C : post _) (Q : post (option string)) :
  emits cond C → (∀ o t l, turns C o t l → Q o t l) →
  emits (PollUntilContextCancel interval cond) Q.
Proof.
  intros HC HQ s Hs. unfold wp.
  cut (∀ s o s', poll_runs interval cond s o s' → log_closed s = false →
         ∃ t l, extends s t l s' ∧ turns C o t l).
  { intros H. edestruct H as (t & l & ? & ?); [apply PollUntilContextCancel_runs|done|].
    eexists t, l. eauto. }
  clear s Hs. intros s o s' Hrun.
  induction Hrun as [s s' E|s b e s' E|s w s' E|s e s' E He|s s' o s'' E _ IH]; intros Hs;
    destruct (wp_run _ _ _ _ _ (HC _ Hs) E) as (t & l & Hext & HCo).
  - exists t, l. eauto using turns_done.
  - exists t, l. eauto using turns_error.
  - exists t, l. eauto using turns_panic.
  - exists t, l. eauto using turns_cancel, extends_elapse.
  - destruct IH as (t' & l' & Hext' & Ht').
    { destruct Hext as (_&_&Hk). simpl. congruence. }
    eexists _, _. split; [|by eapply turns_again]. eapply extends_app; [|done].
    by apply extends_elapse.
Qed.

(** ** Deferred close

    A body verified with [emits] under [defer close(logCh)]: on every exit
    the channel is closed, once, after the last line. *)
Lemma emits_defer_close {A} (m : M A) (Q : post A) s :
  emits m Q → log_closed s = false →
  wp (defer (chan_close ChanRef) m)
    (λ o s', ∃ tr lg, calls s' = calls s ++ tr ∧ log_sent s' = log_sent s ++ lg ∧
                      log_closed s' = true ∧ Q o tr lg) s.
Proof.
  intros Hm Hs. apply wp_defer. eapply wp_mono; [by apply Hm|].
  intros o s' (tr & lg & (HC & HL & HK) & HQ). unfold defer_post, wp, chan_close.
  rewrite HK, Hs. simpl. eauto 10.
Qed.
End emits.

#[export] Hint Resolve emits_ret emits_panic emits_record_call emits_now emits_sleep
  emits_log : emits.

(** One step of symbolic execution under [emits]. *)
Ltac emits_step :=
  lazymatch goal with
  | |- emits (mbind _ _) _ => apply emits_bind
  | |- emits (mret _) _ => apply emits_ret
  | |- emits (panic _) _ => apply emits_panic
  | |- emits (record_call _ _) _ => apply emits_record_call; intros ?
  | |- emits (with_clientset _ _) _ =>
      apply emits_with_clientset; [intros ?; try congruence|intros _]
  | |- emits (Deployments_Get _ _ _) _ => unfold Deployments_Get
  | |- emits (Deployments_Update _ _ _) _ => unfold Deployments_Update
  | |- emits (ReplicaSets_List _ _ _) _ => unfold ReplicaSets_List
  | |- emits time_Now _ => apply emits_now; intros ?
  | |- emits (time_Sleep _) _ => apply emits_sleep
  | |- emits (log ChanRef _) _ => apply emits_log
  | |- emits (deref_Replicas _) _ => apply emits_deref; intros
  | |- then_post _ _ _ _ _ => unfold then_post
  | |- emits (match ?x with _ => _ end) _ => destruct x eqn:?
  end.
Ltac emits_steps := repeat (emits_step; simpl).
