(* ===== verification/KubeSpec.v ===== *)
(** * What the client operations promise

    Protocols: the traces of API calls (and log lines) each operation may
    produce, with its outcome, stated independently of how the code threads
    them; the operations are proved to refine their protocols for every
    cluster. *)
From stdpp Require Import base tactics strings list gmap.
From Stdlib Require Import ZArith.
From S2P Require Import Prelude GoStrings GoConv GoTime Sorting KubeApi KubeClient KubeTrace KubeRollback.

(** ** Observations of a deployment *)

(** One invocation of a polled condition on deployment [ns/name]: it reads
    the deployment once, judges it by [ready] ([None]: it has no
    [Spec.Replicas] to dereference) and logs [lines] of what it read. *)
Inductive observes (ns name : string) (ready : Deployment → option bool)
    (lines : Deployment + string → list string) :
    outcome (bool * option string) → list api_call → list string → Prop :=
  | obs_failed e :
      observes ns name ready lines (Ret (false, Some e)) [CGet ns name (inr e)] (lines (inr e))
  | obs_seen d b :
      ready d = Some b →
      observes ns name ready lines (Ret (b, None)) [CGet ns name (inl d)] (lines (inl d))
  | obs_nil d :
      ready d = None →
      observes ns name ready lines (Panic nil_deref) [CGet ns name (inl d)] [].

Lemma obs_seen_eq ns name ready lines d b l :
  ready d = Some b → lines (inl d) = l →
  observes ns name ready lines (Ret (b, None)) [CGet ns name (inl d)] l.
Proof. intros ? <-. by apply obs_seen. Qed.

Definition is_get (ns name : string) (c : api_call) : Prop :=
  ∃ a, c = CGet ns name a.

(** A poll over such a condition only reads, and when it returns [nil] the
    last thing it read was ready. *)
Lemma turns_observes_gets ns name ready lines o t l :
  turns (observes ns name ready lines) o t l → Forall (is_get ns name) t.
Proof.
  induction 1; try (match goal with H : observes _ _ _ _ _ _ _ |- _ => inversion H; subst end);
    repeat (constructor || eauto || apply Forall_app); unfold is_get; eauto.
Qed.

Lemma turns_observes_success ns name ready lines t l :
  turns (observes ns name ready lines) (Ret None) t l →
  ∃ t' l' d, t = t' ++ [CGet ns name (inl d)] ∧ l = l' ++ lines (inl d) ∧ ready d = Some true.
Proof.
  intros H. remember (Ret None) as o eqn:Ho. revert Ho.
  induction H as [t l H|? ? ? ? ?|? ? ? ?|? ? ? ? ?|t l o t' l' H _ IH]; intros; simplify_eq.
  - inversion H; subst. by exists [], [], d.
  - destruct IH as (t'' & l'' & d & -> & -> & ?); [done|].
    exists (t ++ t''), (l ++ l''), d. by rewrite <-!app_assoc.
Qed.

(** No panic when [ready] never fails, or fails only on missing replicas. *)
Lemma turns_observes_no_panic ns name ready lines o t l w :
  turns (observes ns name ready lines) o t l → o = Panic w →
  w = nil_deref ∧ ∃ d, ready d = None.
Proof.
  induction 1; intros; simplify_eq; [|by auto].
  match goal with H : observes _ _ _ _ _ _ _ |- _ => inversion H; subst end. eauto.
Qed.

(** Goals on a verdict or its line, with the replicas read known. *)
Ltac by_replicas :=
  repeat match goal with
  | H : spec_Replicas _ = _ |- _ => rewrite H
  | H : _ = true |- _ => rewrite H
  | H : _ = false |- _ => rewrite H
  end; simpl;
  repeat match goal with
  | H : _ = true |- _ => rewrite H
  | H : _ = false |- _ => rewrite H
  end; done.

Section specs.
Context {W : Type} `{!KubeApi W} `{!PollUntil W} `{!SortSlice}.
Variables (ns name : string).

(** ** Scaling *)

Definition scale_ready (replicas : Z) (d : Deployment) : option bool :=
  Some (bool_decide (AvailableReplicas (dep_Status d) = replicas)).

Definition scale_done_line : string := "✅ Масштабирование завершено успешно.".

Definition scale_lines (replicas : Z) (a : Deployment + string) : list string :=
  match a with
  | inr e => ["Ошибка чтения Deployment: " +:+ e]
  | inl d =>
      let n := AvailableReplicas (dep_Status d) in
      scale_progress n replicas :: if decide (n = replicas) then [scale_done_line] else []
  end.

Definition scale_announce (replicas : Z) : string :=
  "🔧 Масштабируем Deployment " +:+ name +:+ " в namespace " +:+ ns
  +:+ " до " +:+ FormatInt replicas +:+ " реплик...".

Inductive scale_protocol (replicas : Z) :
    outcome (option string) → list api_call → list string → Prop :=
  | scale_get_failed e :
      scale_protocol replicas (Ret (Some e)) [CGet ns name (inr e)]
        [get_deployment_failed e ns name]
  | scale_update_failed dep e :
      scale_protocol replicas (Ret (Some e))
        [CGet ns name (inl dep); CUpdate ns (set_Replicas replicas dep) (inr e)]
        [scale_announce replicas; "Ошибка обновления Deployment: " +:+ e]
  | scale_waited dep dep' o t l :
      turns (observes ns name (scale_ready replicas) (scale_lines replicas)) o t l →
      scale_protocol replicas o
        (CGet ns name (inl dep) :: CUpdate ns (set_Replicas replicas dep) (inl dep') :: t)
        (scale_announce replicas :: "🚀 Масштабирование запущено..." :: l).

Lemma scale_cond_observes cs replicas :
  emits (scale_cond (mkK8sClient (Some cs)) ns name replicas ChanRef)
    (observes ns name (scale_ready replicas) (scale_lines replicas)).
Proof.
  unfold scale_cond. emits_steps.
  - apply obs_seen_eq; [unfold scale_ready; by rewrite bool_decide_eq_true_2|].
    simpl. by rewrite decide_True.
  - apply obs_seen_eq; [unfold scale_ready; by rewrite bool_decide_eq_false_2|].
    simpl. by rewrite decide_False.
  - apply obs_failed.
Qed.

Definition scale_body cs replicas : GoM (kst W) (option string) :=
  ScaleDeploymentWithLogs (mkK8sClient (Some cs)) ns name replicas ChanRef.

Lemma scale_body_protocol cs replicas s :
  log_closed s = false →
  wp (scale_body cs replicas)
    (λ o s', ∃ tr lg, calls s' = calls s ++ tr ∧ log_sent s' = log_sent s ++ lg ∧
                      log_closed s' = true ∧ scale_protocol replicas o tr lg) s.
Proof.
  intros Hs. apply emits_defer_close; [|done]. simpl. emits_steps.
  - eapply emits_poll; [apply scale_cond_observes|].
    intros o t l Ht. simpl. by apply scale_waited.
  - apply scale_update_failed.
  - apply scale_get_failed.
Qed.

(** ** Restart *)

Definition restart_verdict (d : Deployment) : option bool :=
  restart_ready d <$> spec_Replicas (dep_Spec d).

Definition restart_done_line : string := "✅ Rollout завершён успешно.".

Definition restart_lines (a : Deployment + string) : list string :=
  match a with
  | inr e => ["Ошибка чтения Deployment: " +:+ e]
  | inl d =>
      match spec_Replicas (dep_Spec d) with
      | None => []
      | Some r =>
          ("🌀 Прогресс: обновлено " +:+
           FormatInt (UpdatedReplicas (dep_Status d)) +:+ "/" +:+ FormatInt r +:+
           ", готово " +:+ FormatInt (AvailableReplicas (dep_Status d)))
          :: if restart_ready d r then [restart_done_line] else []
      end
  end.

(** The only change of a restart: the pod template's restart annotation. *)
Definition restarted (stamp : string) (d : Deployment) : Deployment :=
  set_Template (restarted_template stamp (spec_Template (dep_Spec d))) d.

Inductive restart_protocol : outcome (option string) → list api_call → list string → Prop :=
  | restart_get_failed e :
      restart_protocol (Ret (Some e)) [CGet ns name (inr e)]
        [get_deployment_failed e ns name]
  | restart_update_failed dep t e :
      restart_protocol (Ret (Some e))
        [CGet ns name (inl dep); CUpdate ns (restarted (Format_RFC3339Nano t) dep) (inr e)]
        ["Ошибка обновления Deployment: " +:+ e]
  | restart_waited dep t dep' o tr l :
      turns (observes ns name restart_verdict restart_lines) o tr l →
      restart_protocol o
        (CGet ns name (inl dep) :: CUpdate ns (restarted (Format_RFC3339Nano t) dep) (inl dep') :: tr)
        ("🚀 Rollout restart запущен..." :: l).

Lemma restart_cond_observes cs :
  emits (restart_cond (mkK8sClient (Some cs)) ns name ChanRef)
    (observes ns name restart_verdict restart_lines).
Proof.
  unfold restart_cond. emits_steps.
  - apply obs_seen_eq; unfold restart_verdict, restart_lines; by_replicas.
  - apply obs_seen_eq; unfold restart_verdict, restart_lines; by_replicas.
  - apply obs_nil. unfold restart_verdict. by_replicas.
  - apply obs_failed.
Qed.

Definition restart_body cs : GoM (kst W) (option string) :=
  RestartDeploymentWithLogs (mkK8sClient (Some cs)) ns name ChanRef.

Lemma restart_body_protocol cs s :
  log_closed s = false →
  wp (restart_body cs)
    (λ o s', ∃ tr lg, calls s' = calls s ++ tr ∧ log_sent s' = log_sent s ++ lg ∧
                      log_closed s' = true ∧ restart_protocol o tr lg) s.
Proof.
  intros Hs. apply emits_defer_close; [|done]. simpl. emits_steps.
  - eapply emits_poll; [apply restart_cond_observes|].
    intros o t' l Ht. simpl. by apply restart_waited.
  - by apply restart_update_failed.
  - apply restart_get_failed.
Qed.

(** ** Rollback *)

Definition rollback_verdict (d : Deployment) : option bool :=
  rollback_ready d <$> spec_Replicas (dep_Spec d).

Definition rollback_lines (a : Deployment + string) : list string :=
  match a with
  | inr e => ["[rollback] Ошибка чтения deployment: " +:+ e]
  | inl d =>
      match spec_Replicas (dep_Spec d) with
      | None => []
      | Some r =>
          let st := dep_Status d in
          ["[rollback] Статус: доступно " +:+ FormatInt (AvailableReplicas st) +:+
           "/" +:+ FormatInt r +:+ ", обновлено: " +:+ FormatInt (UpdatedReplicas st) +:+
           ", всего: " +:+ FormatInt (st_Replicas st) +:+
           ", недоступно: " +:+ FormatInt (UnavailableReplicas st)]
      end
  end.

(** How the update loop ended. *)
Inductive update_end := Applied | Exhausted | Refused (err : string).

(** [update_attempts n template e tr]: at most [n] read-modify-write rounds
    of [template], each of which is a conflict but the last. *)
Inductive update_attempts (template : PodTemplateSpec) :
    nat → update_end → list api_call → Prop :=
  | ua_exhausted : update_attempts template 0 Exhausted []
  | ua_unreadable n e :
      update_attempts template (S n)
        (Refused ("ошибка получения deployment перед Update: " +:+ e)) [CGet ns name (inr e)]
  | ua_applied n d d' :
      update_attempts template (S n) Applied
        [CGet ns name (inl d); CUpdate ns (set_Template template d) (inl d')]
  | ua_refused n d e :
      Contains e conflict_text = false →
      update_attempts template (S n) (Refused ("ошибка обновления deployment: " +:+ e))
        [CGet ns name (inl d); CUpdate ns (set_Template template d) (inr e)]
  | ua_conflict n d e r tr :
      Contains e conflict_text = true → update_attempts template n r tr →
      update_attempts template (S n) r
        (CGet ns name (inl d) :: CUpdate ns (set_Template template d) (inr e) :: tr).

Definition update_result (r : update_end) : option string :=
  match r with Refused e => Some e | _ => None end.

Lemma update_template_attempts n cs template :
  emits (update_template n (mkK8sClient (Some cs)) ns name template ChanRef)
    (λ o tr _, ∃ r, o = Ret (update_result r) ∧ update_attempts template n r tr).
Proof.
  induction n as [|n IH]; simpl.
  - apply emits_ret. exists Exhausted. split; [done|constructor].
  - emits_steps.
    + exists Applied. split; [done|constructor].
    + eapply emits_mono; [apply IH|]. simpl. intros o tr _ (r & -> & Hr).
      exists r. split; [done|by constructor].
    + eexists (Refused _). split; [done|by constructor].
    + eexists (Refused _). split; [done|by constructor].
Qed.

Arguments update_template : simpl never.

Lemma rollback_cond_observes cs :
  emits (rollback_cond (mkK8sClient (Some cs)) ns name ChanRef)
    (observes ns name rollback_verdict rollback_lines).
Proof.
  unfold rollback_cond. emits_steps.
  - apply obs_seen_eq; unfold rollback_verdict, rollback_lines; by_replicas.
  - apply obs_nil. unfold rollback_verdict. by_replicas.
  - apply obs_failed.
Qed.

Definition wait_result (o : outcome (option string)) : outcome (option string) :=
  match o with
  | Ret (Some e) => Ret (Some ("ошибка ожидания завершения отката: " +:+ e))
  | o => o
  end.

(** The last line of the log tells a rollback that returned [nil]. *)
Definition rollback_done_line : string := "[rollback] Откат deployment успешно завершен".

(** [rs] is the ReplicaSet a rollback of [dep] to [revision] selects among
    the listed ones. *)
Inductive selected (revision : Z) (dep : Deployment) (listed : list ReplicaSet)
    (rs : ReplicaSet) : Prop :=
  | selected_intro curRevStr curRev line :
      2 ≤ length listed →
      dep_Annotations dep !! revision_key = Some curRevStr →
      ParseInt curRevStr = (curRev, None) →
      select_target (sort_Slice newer listed) curRev revision = inl (rs, line) →
      selected revision dep listed rs.

(** The traces of a rollback to [revision]: reads, and once a target is
    selected the update loop with its template and the poll. *)
Inductive rollback_protocol (revision : Z) : outcome (option string) → list api_call → Prop :=
  | rb_no_deployment e :
      rollback_protocol revision (Ret (Some ("ошибка получения deployment: " +:+ e)))
        [CGet ns name (inr e)]
  | rb_no_selector dep e :
      rollback_protocol revision (Ret (Some ("ошибка создания селектора: " +:+ e)))
        [CGet ns name (inl dep)]
  | rb_no_list dep sel e :
      rollback_protocol revision (Ret (Some ("ошибка получения списка ReplicaSets: " +:+ e)))
        [CGet ns name (inl dep); CList ns sel (inr e)]
  | rb_no_target dep sel listed e :
      (∀ rs, ¬ selected revision dep listed rs) →
      rollback_protocol revision (Ret (Some e))
        [CGet ns name (inl dep); CList ns sel (inl listed)]
  | rb_refused dep sel listed rs e tr :
      selected revision dep listed rs →
      update_attempts (rs_Template rs) 5 (Refused e) tr →
      rollback_protocol revision (Ret (Some e))
        (CGet ns name (inl dep) :: CList ns sel (inl listed) :: tr)
  | rb_waited dep sel listed rs r tr o t l :
      selected revision dep listed rs →
      update_attempts (rs_Template rs) 5 r tr → r = Applied ∨ r = Exhausted →
      turns (observes ns name rollback_verdict rollback_lines) o t l →
      rollback_protocol revision (wait_result o)
        (CGet ns name (inl dep) :: CList ns sel (inl listed) :: tr ++ t).

Lemma log_replicasets_silent i l :
  emits (log_replicasets (W := W) ChanRef i l) (λ o tr _, o = Ret tt ∧ tr = []).
Proof.
  revert i. induction l as [|rs l IH]; intros i; simpl; emits_steps; [done|].
  eapply emits_mono; [apply IH|]. by intros o tr lg [-> ->].
Qed.

(** The outcome and the trace of [rollback_apply]. *)
Definition applied (template : PodTemplateSpec) (o : outcome (option string))
    (tr : list api_call) (_ : list string) : Prop :=
  (∃ e, o = Ret (Some e) ∧ update_attempts template 5 (Refused e) tr) ∨
  (∃ r t1 t2 o' l, update_attempts template 5 r t1 ∧ (r = Applied ∨ r = Exhausted) ∧
     turns (observes ns name rollback_verdict rollback_lines) o' t2 l ∧
     o = wait_result o' ∧ tr = t1 ++ t2).

Lemma rollback_apply_applied cs rs :
  emits (rollback_apply (mkK8sClient (Some cs)) ns name rs ChanRef) (applied (rs_Template rs)).
Proof.
  unfold rollback_apply. do 3 (emits_step; simpl).
  eapply emits_mono; [apply update_template_attempts|].
  intros o tr lg (r & -> & Hr). unfold then_post at 1.
  destruct r as [| |e]; simpl;
    [..|apply emits_ret; left; rewrite app_nil_r; eauto].
  all: do 3 (emits_step; simpl);
    eapply emits_poll; [apply rollback_cond_observes|]; intros o t l Ht;
    destruct o as [[e|]|w]; simpl; emits_steps; right;
    eexists _, _, _, _, l; split_and!; try done; eauto; simpl; by rewrite ?app_nil_r.
Qed.

Lemma applied_protocol revision dep sel listed rs o tr lg :
  selected revision dep listed rs → applied (rs_Template rs) o tr lg →
  rollback_protocol revision o (CGet ns name (inl dep) :: CList ns sel (inl listed) :: tr).
Proof.
  intros Hs [(e & -> & Hu)|(r & t1 & t2 & o' & l & Hu & Hr & Ht & -> & ->)];
    [by eapply rb_refused|by eapply rb_waited].
Qed.

Lemma not_selected_err revision dep listed curRevStr curRev le rs :
  dep_Annotations dep !! revision_key = Some curRevStr →
  ParseInt curRevStr = (curRev, None) →
  select_target (sort_Slice newer listed) curRev revision = inr le →
  ¬ selected revision dep listed rs.
Proof. intros ??? []. congruence. Qed.

Lemma rollback_select_protocol cs revision dep sel listed :
  emits (rollback_select (mkK8sClient (Some cs)) ns name revision dep listed ChanRef)
    (λ o tr _, rollback_protocol revision o (CGet ns name (inl dep) :: CList ns sel (inl listed) :: tr)).
Proof.
  unfold rollback_select. do 3 (emits_step; simpl).
  eapply emits_mono; [apply log_replicasets_silent|]. intros _ _ lg [-> ->]. simpl.
  rewrite (Permutation_length (sort_Slice_perm newer listed)).
  destruct (decide (length listed < 2)) as [Hlen|Hlen].
  { emits_steps. apply rb_no_target. intros rs []. lia. }
  destruct (dep_Annotations dep !! revision_key) as [curRevStr|] eqn:Hcur.
  2: { emits_steps. apply rb_no_target. intros rs []. congruence. }
  destruct (ParseInt curRevStr) as [curRev [pe|]] eqn:Hp.
  { emits_steps. apply rb_no_target. intros rs []. congruence. }
  destruct (select_target _ curRev revision) as [[rs line]|[line err]] eqn:Hsel.
  - do 2 (emits_step; simpl). eapply emits_mono; [apply rollback_apply_applied|].
    intros o tr lg' Ha. simpl. eapply applied_protocol; [|exact Ha]. eapply selected_intro; eauto. lia.
  - emits_steps. apply rb_no_target. intros rs. by eapply not_selected_err.
Qed.

(** ** The log of a rollback *)

(** The success line ends the log of a run that returns [nil], and is in no
    other log. *)
Definition done_logged (o : outcome (option string)) (lg : list string) : Prop :=
  match o with
  | Ret None => ∃ l, lg = l ++ [rollback_done_line] ∧ rollback_done_line ∉ l
  | _ => rollback_done_line ∉ lg
  end.

(** A part that does not log the success line. *)
Definition not_yet {A} (m : GoM (kst W) A) : Prop := emits m (λ _ _ lg, rollback_done_line ∉ lg).

Lemma not_yet_bind {A B} (m : GoM (kst W) A) (f : A → GoM (kst W) B) :
  not_yet m → (∀ a, not_yet (f a)) → not_yet (m ≫= f).
Proof.
  intros Hm Hf. apply emits_bind. eapply emits_mono; [exact Hm|]. intros [a|w] tr lg Hlg; [|exact Hlg].
  eapply emits_mono; [apply Hf|]. intros o tr' lg' Hlg'. by rewrite elem_of_app; intros [|].
Qed.

Lemma not_yet_log msg : rollback_done_line ≠ msg → not_yet (log ChanRef msg).
Proof. intros Hm. apply emits_log. by intros ?%list_elem_of_singleton. Qed.

Lemma not_yet_poll interval cond : not_yet cond → not_yet (PollUntilContextCancel interval cond).
Proof.
  intros Hc. eapply emits_poll; [exact Hc|]. intros o t l. induction 1; [done..|].
  by rewrite elem_of_app; intros [|].
Qed.

Lemma done_logged_bind {A} (m : GoM (kst W) A) (f : A → GoM (kst W) (option string)) :
  not_yet m → (∀ a, emits (f a) (λ o _ lg, done_logged o lg)) → emits (m ≫= f) (λ o _ lg, done_logged o lg).
Proof.
  intros Hm Hf. apply emits_bind. eapply emits_mono; [exact Hm|]. intros [a|w] tr lg Hlg; [|exact Hlg].
  eapply emits_mono; [apply Hf|]. intros [[e|]|w] tr' lg' Hlg'; simpl in *.
  - by rewrite elem_of_app; intros [|].
  - destruct Hlg' as (l & -> & Hl). exists (lg ++ l). rewrite <-app_assoc. split; [done|].
    by rewrite elem_of_app; intros [|].
  - by rewrite elem_of_app; intros [|].
Qed.

(** A failure is reported by another line, and that is all. *)
Lemma done_logged_failed e : emits (W := W) (mret (Some e)) (λ o _ lg, done_logged o lg).
Proof. apply emits_ret. apply not_elem_of_nil. Qed.
Lemma done_logged_done :
  emits (W := W) (log ChanRef rollback_done_line;; mret None) (λ o _ lg, done_logged o lg).
Proof. emits_steps. exists []. split; [done|]. apply not_elem_of_nil. Qed.

Ltac other_line := solve [discriminate | vm_compute; discriminate].
Ltac not_yet_step :=
  lazymatch goal with
  | |- not_yet (mbind _ _) => apply not_yet_bind; [|intros ?]
  | |- not_yet (log ChanRef _) => apply not_yet_log; other_line
  | |- not_yet (PollUntilContextCancel _ _) => apply not_yet_poll
  | |- not_yet (match ?x with _ => _ end) => destruct x eqn:?
  | |- not_yet (if ?x then _ else _) => destruct x eqn:?
  | |- not_yet _ => unfold not_yet; emits_steps; apply not_elem_of_nil
  end.

Lemma not_yet_log_replicasets i l : not_yet (log_replicasets ChanRef i l).
Proof. revert i. induction l as [|rs l IH]; intros i; simpl; repeat not_yet_step. apply IH. Qed.

Lemma not_yet_update_template k cs template :
  not_yet (update_template k (mkK8sClient (Some cs)) ns name template ChanRef).
Proof. induction k as [|k IH]; unfold update_template; fold update_template; repeat first [exact IH | not_yet_step]. Qed.

Lemma not_yet_rollback_cond cs : not_yet (rollback_cond (mkK8sClient (Some cs)) ns name ChanRef).
Proof. unfold rollback_cond. repeat not_yet_step. Qed.

Ltac done_step :=
  lazymatch goal with
  | |- emits (mret (Some _)) _ => apply done_logged_failed
  | |- emits (mbind _ _) _ => apply done_logged_bind; [|intros ?]
  | |- emits (match ?x with _ => _ end) _ => destruct x eqn:?
  | |- not_yet (PollUntilContextCancel _ (rollback_cond _ _ _ _)) => apply not_yet_poll, not_yet_rollback_cond
  | |- not_yet (update_template _ _ _ _ _ _) => apply not_yet_update_template
  | |- not_yet (log_replicasets _ _ _) => apply not_yet_log_replicasets
  | |- not_yet _ => not_yet_step
  end.

Lemma rollback_apply_logs cs rs :
  emits (rollback_apply (mkK8sClient (Some cs)) ns name rs ChanRef) (λ o _ lg, done_logged o lg).
Proof. unfold rollback_apply. repeat first [apply done_logged_done | done_step]. Qed.

Lemma select_target_line items curRev revision :
  match select_target items curRev revision with
  | inl (_, line) | inr (line, _) => rollback_done_line ≠ line
  end.
Proof.
  unfold select_target.
  case_decide; [destruct (find_revision _ _)|destruct (find_previous _ _)]; other_line.
Qed.

Lemma rollback_select_logs cs revision dep listed :
  emits (rollback_select (mkK8sClient (Some cs)) ns name revision dep listed ChanRef) (λ o _ lg, done_logged o lg).
Proof.
  unfold rollback_select. do 4 done_step; repeat done_step;
    match goal with H : select_target ?items ?cur ?rev = _ |- _ =>
      pose proof (select_target_line items cur rev) as Hl; rewrite H in Hl
    end; try apply rollback_apply_logs; by apply not_yet_log.
Qed.

Definition rollback_body cs revision : GoM (kst W) (option string) :=
  RollbackDeploymentWithLogs (mkK8sClient (Some cs)) ns name revision ChanRef.

Lemma rollback_body_protocol cs revision s :
  log_closed s = false →
  wp (rollback_body cs revision)
    (λ o s', ∃ tr lg, calls s' = calls s ++ tr ∧ log_sent s' = log_sent s ++ lg ∧
                      log_closed s' = true ∧ rollback_protocol revision o tr ∧
                      done_logged o lg) s.
Proof.
  intros Hs. eapply wp_mono; [apply (emits_defer_close _ (λ o tr lg,
    rollback_protocol revision o tr ∧ done_logged o lg)); [|done]|].
  2: { intros o s' (tr & lg & ? & ? & ? & ? & ?). eauto 10. }
  apply emits_conj.
  - simpl. emits_steps; [|constructor|apply rb_no_selector|apply rb_no_deployment].
    eapply emits_mono; [apply rollback_select_protocol|]. intros o tr lg Hr. exact Hr.
  - repeat first [apply rollback_select_logs | done_step].
Qed.
End specs.
