(* ===== verification/KubeTargets.v ===== *)
(** * Facts about the choice of revisions *)
From stdpp Require Import base tactics strings list gmap sorting.
From Stdlib Require Import ZArith.
From S2P Require Import Prelude GoStrings GoConv GoTime Sorting KubeApi KubeClient KubeRollback.

(** The revision annotation of a ReplicaSet. *)
Definition annotated (rs : ReplicaSet) : option string := rs_Annotations rs !! revision_key.

Lemma newer_strict_weak : strict_weak newer.
Proof.
  unfold newer. split; intros *; rewrite <-?not_true_iff_false, ?After_spec; lia.
Qed.

(** Both loops over the sorted list return the first element satisfying a
    decidable property of the annotation. *)
Section loops.
Variables (loop : list ReplicaSet → option ReplicaSet) (P : ReplicaSet → Prop).
Hypothesis loop_nil : loop [] = None.
Hypothesis loop_cons : ∀ rs l, P rs ∧ loop (rs :: l) = Some rs ∨ ¬ P rs ∧ loop (rs :: l) = loop l.

Lemma loop_None l : loop l = None → Forall (λ x, ¬ P x) l.
Proof.
  induction l as [|rs l IH]; [constructor|].
  destruct (loop_cons rs l) as [[? ->]|[? ->]]; [done|]. constructor; auto.
Qed.

Lemma loop_Some less l rs :
  loop l = Some rs → StronglySorted (not_after less) l →
  rs ∈ l ∧ P rs ∧ ∀ x, x ∈ l → P x → less x rs = false ∨ x = rs.
Proof.
  intros Hl Hs. induction Hs as [|y l Hs IH Hy]; [congruence|].
  destruct (loop_cons y l) as [[HP Hc]|[HP Hc]]; rewrite Hc in Hl.
  - injection Hl as ->. split_and!; [constructor|done|].
    intros x [->|Hx]%elem_of_cons _; [by right|left].
    rewrite Forall_forall in Hy. by apply Hy.
  - destruct (IH Hl) as (Hin & HPrs & Hall). split_and!; [by constructor|done|].
    intros x [->|Hx]%elem_of_cons HPx; [done|by apply Hall].
Qed.
End loops.

Lemma find_revision_cons revision rs l :
  annotated rs = Some (FormatInt revision) ∧ find_revision revision (rs :: l) = Some rs ∨
  annotated rs ≠ Some (FormatInt revision) ∧
    find_revision revision (rs :: l) = find_revision revision l.
Proof.
  unfold annotated. simpl. destruct (rs_Annotations rs !! revision_key); [|by right].
  case_decide; [left; by subst|right; split; congruence].
Qed.

(** The property tested by the loop for the previous revision. *)
Definition has_number (target : Z) (rs : ReplicaSet) : Prop :=
  ∃ text, annotated rs = Some text ∧ (ParseInt text).1 = target.

Lemma find_previous_cons target rs l :
  has_number target rs ∧ find_previous target (rs :: l) = Some rs ∨
  ¬ has_number target rs ∧ find_previous target (rs :: l) = find_previous target l.
Proof.
  unfold has_number, annotated. simpl.
  destruct (rs_Annotations rs !! revision_key) as [t|] eqn:E; [|right; split; [|done]].
  - case_decide; [left; eauto|right; split; [|done]]. intros (t' & [= <-] & ?). done.
  - intros (t' & ? & _). done.
Qed.

Section select.
Context `{!SortSlice}.

(** [rs] is a newest ReplicaSet of [listed] satisfying [P]. *)
Definition newest (P : ReplicaSet → Prop) (listed : list ReplicaSet) (rs : ReplicaSet) : Prop :=
  rs ∈ listed ∧ P rs ∧ ∀ x, x ∈ listed → P x → newer x rs = false.

Lemma newer_irrefl rs : newer rs rs = false.
Proof. apply (sw_irrefl _ newer_strict_weak). Qed.

Lemma loop_newest loop P listed rs :
  loop [] = None →
  (∀ rs l, P rs ∧ loop (rs :: l) = Some rs ∨ ¬ P rs ∧ loop (rs :: l) = loop l) →
  loop (sort_Slice newer listed) = Some rs → newest P listed rs.
Proof.
  intros Hn Hc Hl.
  destruct (loop_Some loop P Hn Hc newer _ _ Hl) as (Hin & HP & Hall).
  { apply sort_Slice_sorted, newer_strict_weak. }
  assert (∀ x, x ∈ sort_Slice newer listed ↔ x ∈ listed) as Helem.
  { intros x. by rewrite (sort_Slice_perm newer listed). }
  split_and!; [by apply Helem|done|]. intros x Hx%Helem HPx.
  destruct (Hall x Hx HPx) as [?| ->]; [done|apply newer_irrefl].
Qed.

Lemma loop_absent loop (P : ReplicaSet → Prop) listed :
  (∀ rs l, P rs ∧ loop (rs :: l) = Some rs ∨ ¬ P rs ∧ loop (rs :: l) = loop l) →
  loop (sort_Slice newer listed) = None → ∀ rs, rs ∈ listed → ¬ P rs.
Proof.
  intros Hc Hl%(loop_None loop P Hc) rs Hrs.
  rewrite (sort_Slice_perm newer listed), Forall_forall in Hl. auto.
Qed.

(** What [select_target] chooses: by the annotation's text for an explicit
    revision, by its parsed value for the one before the current. *)
Definition wanted (curRev revision : Z) (rs : ReplicaSet) : Prop :=
  if decide (0 < revision)%Z then annotated rs = Some (FormatInt revision)
  else has_number (to_int64 (curRev - 1)) rs.

Lemma select_target_spec listed curRev revision :
  match select_target (sort_Slice newer listed) curRev revision with
  | inl (rs, _) => newest (wanted curRev revision) listed rs
  | inr _ => ∀ rs, rs ∈ listed → ¬ wanted curRev revision rs
  end.
Proof.
  unfold select_target, wanted. destruct (decide (0 < revision)%Z).
  - destruct (find_revision revision _) as [rs|] eqn:E.
    + by eapply loop_newest, E; [|apply find_revision_cons].
    + by eapply loop_absent, E; apply find_revision_cons.
  - destruct (find_previous _ _) as [rs|] eqn:E.
    + by eapply loop_newest, E; [|apply find_previous_cons].
    + by eapply loop_absent, E; apply find_previous_cons.
Qed.
End select.
