(* ===== verification/Cluster.v ===== *)
(** * A concrete cluster

    An executable instance of [KubeApi], for evaluating the client on
    concrete inputs: deployments by namespace and name, a controller that
    brings the status of every deployment in line with its spec whenever time
    passes, and optimistic concurrency as a number of updates still to be
    refused with the API server's conflict answer. *)
From stdpp Require Import base tactics strings list gmap.
From Stdlib Require Import ZArith.
From S2P Require Import Prelude GoStrings GoConv GoTime GoContext KubeApi.

Record Cluster := mkCluster {
  cl_deployments : gmap (string * string) Deployment;
  cl_replicasets : list ReplicaSet;
  cl_pods : list Pod;
  cl_conflicts : nat;
  cl_clock : Z;              (** in nanoseconds *)
  cl_deadline : option Z;    (** of the context in force *)
}.

(** The status the controller aims at. *)
Definition settle (d : Deployment) : Deployment :=
  match spec_Replicas (dep_Spec d) with
  | None => d
  | Some r => mkDeployment (dep_Annotations d) (Generation d) (dep_Spec d)
                (mkDeploymentStatus r r r 0 (Generation d)) (dep_rest d)
  end.

Definition conflict_answer : string :=
  "Operation cannot be fulfilled on deployments.apps: the object has been modified; please apply your changes to the latest version and try again".

Definition not_found (name : string) : string :=
  "deployments.apps " +:+ dquote +:+ name +:+ dquote +:+ " not found".

Definition bump (d : Deployment) : Deployment :=
  mkDeployment (dep_Annotations d) (Generation d + 1) (dep_Spec d) (dep_Status d) (dep_rest d).

(** The end of a wait of [d] that the deadline cuts short. *)
Definition wait_until (d : Z) (w : Cluster) : Z :=
  match cl_deadline w with
  | Some dl => Z.max (cl_clock w) (Z.min (cl_clock w + d) dl)
  | None => cl_clock w + d
  end.

Section names.
(** The name an updated object is stored under. *)
Variable name : string.

Definition cluster_update (ns : string) (d : Deployment) (w : Cluster) :
    (Deployment + string) * Cluster :=
  match cl_conflicts w with
  | S n => (inr conflict_answer,
            mkCluster (cl_deployments w) (cl_replicasets w) (cl_pods w) n (cl_clock w)
              (cl_deadline w))
  | O =>
      match cl_deployments w !! (ns, name) with
      | None => (inr (not_found name), w)
      | Some _ => (inl (bump d),
                   mkCluster (<[(ns, name) := bump d]> (cl_deployments w))
                     (cl_replicasets w) (cl_pods w) 0 (cl_clock w)
                     (cl_deadline w))
      end
  end.

Definition cluster_api : KubeApi Cluster := {|
  api_deployment_get ns n w :=
    match cl_deployments w !! (ns, n) with
    | Some d => (inl d, w)
    | None => (inr (not_found n), w)
    end;
  api_deployment_update := cluster_update;
  api_replicasets_list ns sel w := (inl (cl_replicasets w), w);
  api_pod_get ns n w :=
    match list_find (λ p, pod_Name p = n) (cl_pods w) with
    | Some (_, p) => (inl p, w)
    | None => (inr "pod not found", w)
    end;
  api_pods_list ns w := (inl (cl_pods w), w);
  api_pod_logs ns n opts w := (inl "log of the pod", w);
  api_selector_string sel := inl (selector_source sel);
  api_now w := (mkTime (cl_clock w / Second) (cl_clock w mod Second) 0, w);
  api_sleep n w := mkCluster (cl_deployments w) (cl_replicasets w) (cl_pods w)
                     (cl_conflicts w) (cl_clock w + n * Second) (cl_deadline w);
  api_elapse d w := mkCluster (settle <$> cl_deployments w) (cl_replicasets w) (cl_pods w)
                    (cl_conflicts w) (wait_until d w) (cl_deadline w);
  api_log_wait w := w;
|}.
End names.

(** Contexts by the clock of the cluster. *)
Definition set_deadline (d : option Z) (w : Cluster) : Cluster :=
  mkCluster (cl_deployments w) (cl_replicasets w) (cl_pods w) (cl_conflicts w) (cl_clock w) d.

Definition cluster_ctx : GoContext Cluster := {|
  ctx_with_timeout d w := set_deadline (Some (cl_clock w + d)%Z) w;
  ctx_cancel := set_deadline None;
  ctx_deadline_exceeded w :=
    match cl_deadline w with Some d => bool_decide (d ≤ cl_clock w)%Z | None => false end;
|}.

(** A deployment [prod/api] at revision 3 with three ReplicaSets. *)
Definition template (image : string) : PodTemplateSpec := mkTemplate None [image] EmptyString.

Definition sample_deployment : Deployment :=
  mkDeployment {[ "deployment.kubernetes.io/revision" := "3" ]} 7
    (mkDeploymentSpec (Some 2%Z) (mkSelector "app=api") (template "api:v3"))
    (mkDeploymentStatus 2 2 2 0 7) EmptyString.

Definition sample_rs (rev : string) (sec : Z) : ReplicaSet :=
  mkReplicaSet ("api-" +:+ rev) {[ "deployment.kubernetes.io/revision" := rev ]}
    (mkTime sec 0 0) (template ("api:v" +:+ rev)) 0 0.

Definition sample_cluster (conflicts : nat) : Cluster :=
  mkCluster {[ ("prod", "api") := sample_deployment ]}
    [sample_rs "1" 100; sample_rs "2" 200; sample_rs "3" 300]
    [mkPod "api-1" "Running"] conflicts (1000 * Second) None.

(** A call that starts with a fresh channel. *)
Definition fresh_call {W} (w : W) : kst W := mkKst w [] false [].
