(* ===== verification/KubeProps.v ===== *)
(** * Properties of the kube client

    Corollaries of the protocols of [KubeSpec] and of the choice of revisions
    in [KubeTargets], with evaluations on the cluster of [Cluster]. *)
From stdpp Require Import base tactics strings list gmap sorting.
From Stdlib Require Import ZArith.
From S2P Require Import Prelude GoStrings GoConv GoTime Sorting KubeApi KubeClient KubeTrace.
From S2P Require Import KubeRollback KubeSpec KubeTargets Cluster.

(** ** Traces *)

Definition is_update (c : api_call) : bool := match c with CUpdate _ _ _ => true | _ => false end.

Definition updates (tr : list api_call) : list api_call := List.filter is_update tr.

Lemma gets_no_update ns name t : Forall (is_get ns name) t → updates t = [].
Proof. by induction 1 as [|c t [a ->] _ IH]. Qed.

Lemma updates_app t1 t2 : updates (t1 ++ t2) = updates t1 ++ updates t2.
Proof. apply List.filter_app. Qed.

(** The template every update of the loop carries. *)
Definition update_of (ns : string) (template : PodTemplateSpec) (c : api_call) : Prop :=
  ∃ d a, c = CUpdate ns (set_Template template d) a.

Lemma update_attempts_updates ns name template n r tr :
  update_attempts ns name template n r tr →
  length (updates tr) ≤ n ∧ Forall (update_of ns template) (updates tr).
Proof.
  unfold update_of, updates.
  induction 1; simpl in *; try solve [split; [lia|repeat constructor; eauto]].
  destruct IHupdate_attempts. split; [lia|]. constructor; eauto.
Qed.

(** A loop that ends [Applied] had its last update accepted. *)
Lemma update_attempts_applied ns name template n tr :
  update_attempts ns name template n Applied tr →
  ∃ tr' d d', tr = tr' ++ [CUpdate ns (set_Template template d) (inl d')].
Proof.
  intros H. remember Applied as r eqn:Hr. induction H; simplify_eq.
  - by eexists [_], d, d'.
  - destruct IHupdate_attempts as (tr' & d1 & d' & ->); [done|].
    eexists (_ :: _ :: tr'), d1, d'. done.
Qed.

(** A loop that ends [Exhausted] had all its updates refused as conflicts. *)
Definition conflicted (ns : string) (template : PodTemplateSpec) (c : api_call) : Prop :=
  ∃ d e, c = CUpdate ns (set_Template template d) (inr e) ∧ Contains e conflict_text = true.

Lemma update_attempts_exhausted ns name template n tr :
  update_attempts ns name template n Exhausted tr →
  length (updates tr) = n ∧ Forall (conflicted ns template) (updates tr).
Proof.
  unfold conflicted, updates. intros H. remember Exhausted as r eqn:Hr.
  induction H; simplify_eq; [split; [done|constructor]|].
  destruct IHupdate_attempts as [Hn HF]; [done|]. simpl. split; [by rewrite Hn|].
  constructor; eauto.
Qed.

Section scale.
Context {W : Type} `{!KubeApi W} `{!PollUntil W}.
Abbreviation scale ns name cs r :=
  (ScaleDeploymentWithLogs (mkK8sClient (Some cs)) ns name r ChanRef).

(** C5: [ScaleDeploymentWithLogs] refines its protocol for every cluster:
    started with an open channel it makes exactly the API calls and logs
    exactly the lines the protocol allows for its outcome, and leaves the
    channel closed ([client.go:108]; the tests go on using the channel, which
    by [channel_is_used_up] panics). *)
Theorem scale_refines_protocol ns name cs r (s s' : kst W) o :
  log_closed s = false → scale ns name cs r s = (o, s') →
  ∃ tr lg, calls s' = calls s ++ tr ∧ log_sent s' = log_sent s ++ lg ∧
           log_closed s' = true ∧ scale_protocol ns name r o tr lg.
Proof. intros Hs Hrun. by eapply wp_run in Hrun; [|apply scale_body_protocol]. Qed.

Lemma scale_success_run ns name cs r (s s' : kst W) :
  log_closed s = false → scale ns name cs r s = (Ret None, s') →
  ∃ dep dep' reads final lg,
    calls s' = calls s ++ CGet ns name (inl dep)
                 :: CUpdate ns (set_Replicas r dep) (inl dep') :: reads ++
                 [CGet ns name (inl final)] ∧
    Forall (is_get ns name) reads ∧
    AvailableReplicas (dep_Status final) = r ∧
    log_sent s' = log_sent s ++ lg ++ [scale_done_line].
Proof.
  intros Hs Hrun. eapply wp_run in Hrun; [|by apply scale_body_protocol].
  destruct Hrun as (tr & lg & -> & -> & _ & Hp). inversion Hp; subst.
  pose proof (turns_observes_gets _ _ _ _ _ _ _ H) as Hg.
  apply turns_observes_success in H as (t' & l' & d & -> & -> & Hd).
  injection Hd as Hd%bool_decide_eq_true. apply Forall_app in Hg as [Hg _].
  simpl scale_lines. rewrite decide_True by done.
  eexists dep, dep', t', d, (_ :: _ :: l' ++ [_]). split_and!; try done.
  simpl. by rewrite <-app_assoc.
Qed.

(** When scaling returns [nil], the deployment was read, one update was
    made that changes nothing but the replica count, to the requested one,
    and was accepted; afterwards it was only read, the last time with
    exactly that many replicas available, and the log ends with the line
    that says so. *)
Theorem scale_success ns name cs r (s s' : kst W) :
  log_closed s = false → scale ns name cs r s = (Ret None, s') →
  ∃ dep dep' reads final lg,
    calls s' = calls s ++ CGet ns name (inl dep)
                 :: CUpdate ns (set_Replicas r dep) (inl dep') :: reads ++
                 [CGet ns name (inl final)] ∧
    Forall (is_get ns name) reads ∧
    AvailableReplicas (dep_Status final) = r ∧
    log_sent s' = log_sent s ++ lg ++ [scale_done_line].
Proof. apply scale_success_run. Qed.

(** With a channel to log on, scaling never panics: every run returns,
    with or without an error, also when the client has no clientset. *)
Theorem scale_never_panics ns name c r (s : kst W) :
  log_closed s = false →
  ∃ e s', ScaleDeploymentWithLogs c ns name r ChanRef s = (Ret e, s') ∧ log_closed s' = true.
Proof.
  intros Hs. destruct c as [[cs|]].
  - destruct (scale ns name cs r s) as [o s'] eqn:Hscale. pose proof Hscale as Hrun.
    eapply wp_run in Hrun; [|by apply scale_body_protocol].
    destruct Hrun as (tr & lg & _ & _ & Hc & Hp).
    destruct o as [e|w]; [by exists e, s'|]. inversion Hp; subst.
    destruct (turns_observes_no_panic _ _ _ _ _ _ _ w H eq_refl) as [_ [d Hd]]. discriminate Hd.
  - unfold ScaleDeploymentWithLogs, defer, chan_close. simpl. rewrite Hs. by eauto.
Qed.
End scale.

(** The cluster of the witnesses: [prod/api] with two replicas. *)
Definition run_on {A} (m : ∀ (K : KubeApi Cluster), PollUntil Cluster → GoM (kst Cluster) A)
    (ticks : nat) (w : Cluster) : outcome A * kst Cluster :=
  m (cluster_api "api") (@poll_n Cluster (cluster_api "api") ticks) (fresh_call w).

Definition scale_run (ticks conflicts : nat) (r : Z) : outcome (option string) * kst Cluster :=
  run_on (λ K P, ScaleDeploymentWithLogs (mkK8sClient (Some TheClientset)) "prod" "api" r ChanRef)
    ticks (sample_cluster conflicts).

Lemma scale_refines_protocol_witness :
  ∃ tr lg, calls (scale_run 10 1 5).2 = [] ++ tr ∧ log_sent (scale_run 10 1 5).2 = [] ++ lg ∧
    log_closed (scale_run 10 1 5).2 = true ∧
    scale_protocol "prod" "api" 5 (scale_run 10 1 5).1 tr lg.
Proof.
  apply (@scale_refines_protocol Cluster (cluster_api "api") (@poll_n Cluster (cluster_api "api") 10)
    "prod" "api" TheClientset 5 (fresh_call (sample_cluster 1))); [reflexivity|].
  exact (surjective_pairing (scale_run 10 1 5)).
Defined.

Lemma scale_success_witness :
  ∃ dep dep' reads final lg,
    calls (scale_run 10 0 5).2 = [] ++ CGet "prod" "api" (inl dep)
      :: CUpdate "prod" (set_Replicas 5 dep) (inl dep') :: reads ++ [CGet "prod" "api" (inl final)] ∧
    Forall (is_get "prod" "api") reads ∧
    AvailableReplicas (dep_Status final) = 5%Z ∧
    log_sent (scale_run 10 0 5).2 = [] ++ lg ++ [scale_done_line].
Proof.
  apply (@scale_success Cluster (cluster_api "api") (@poll_n Cluster (cluster_api "api") 10)
    "prod" "api" TheClientset 5 (fresh_call (sample_cluster 0))); [reflexivity|].
  vm_compute. reflexivity.
Defined.

Lemma scale_never_panics_witness :
  ∃ e s', run_on (λ K P, ScaleDeploymentWithLogs (mkK8sClient None) "prod" "api" 5 ChanRef) 10
    (sample_cluster 0) = (Ret e, s') ∧ log_closed s' = true.
Proof.
  apply (@scale_never_panics Cluster (cluster_api "api") (@poll_n Cluster (cluster_api "api") 10)
    "prod" "api" (mkK8sClient None) 5 (fresh_call (sample_cluster 0))). reflexivity.
Defined.

(** Each of the three operations panics when its channel is nil, whatever
    the cluster answers: the check in the [log] closure does not help, because
    the deferred [close] runs on the nil channel. *)
Theorem nil_channel_panics {W} `{!KubeApi W} `{!PollUntil W} `{!SortSlice}
    c ns name (r rev : Z) (s : kst W) :
  (ScaleDeploymentWithLogs c ns name r ChanNil s).1 = Panic "close of nil channel" ∧
  (RestartDeploymentWithLogs c ns name ChanNil s).1 = Panic "close of nil channel" ∧
  (RollbackDeploymentWithLogs c ns name rev ChanNil s).1 = Panic "close of nil channel".
Proof.
  assert (∀ m : GoM (kst W) (option string),
    (defer (chan_close ChanNil) m s).1 = Panic "close of nil channel") as Hd.
  { intros m. unfold defer. by destruct (m s). }
  split_and!; apply Hd.
Qed.

(** ** One channel, one operation *)

(** The operations that are given a channel for their log. *)
Inductive log_op := OpScale (replicas : Z) | OpRestart | OpRollback (revision : Z).

Definition run_log_op {W} `{!KubeApi W} `{!PollUntil W} `{!SortSlice} (c : K8sClient) (ns name : string)
    (op : log_op) : GoM (kst W) (option string) :=
  match op with
  | OpScale replicas => ScaleDeploymentWithLogs c ns name replicas ChanRef
  | OpRestart => RestartDeploymentWithLogs c ns name ChanRef
  | OpRollback revision => RollbackDeploymentWithLogs c ns name revision ChanRef
  end.

Section one_channel.
Context {W : Type} `{KA : !KubeApi W} `{PU : !PollUntil W} `{SS : !SortSlice}.
Implicit Types s : kst W.

Lemma deferred_close_closes {A} (m : GoM (kst W) A) s : log_closed (defer (chan_close ChanRef) m s).2 = true.
Proof. unfold defer. destruct (m s) as [o s1]. simpl. by destruct (log_closed s1) eqn:E. Qed.

Lemma deferred_close_panics {A} (m : GoM (kst W) A) s :
  log_closed (m s).2 = true → (defer (chan_close ChanRef) m s).1 = Panic "close of closed channel".
Proof. unfold defer. destruct (m s) as [o s1]. simpl. by intros ->. Qed.

(** What is left of an operation once it logs on a closed channel: nothing. *)
Lemma log_on_closed {A} msg (f : unit → GoM (kst W) A) s :
  log_closed s = true → (log ChanRef msg ≫= f) s = (Panic "send on closed channel", s).
Proof. intros Hs. unfold mbind, GoM_bind, log, chan_send. by rewrite Hs. Qed.

Lemma record_call_closed {A B} cs (op : W → A * W) entry (f : A → GoM (kst W) B) s :
  (∀ a s', log_closed s' = log_closed s → log_closed (f a s').2 = true) → log_closed s = true →
  log_closed ((with_clientset cs (record_call op entry) ≫= f) s).2 = true.
Proof.
  intros Hf Hs. destruct cs; [|done]. unfold mbind, GoM_bind, with_clientset, record_call.
  destruct (op (world s)) as [a w]. by apply Hf.
Qed.

Lemma run_log_op_closed c ns name op s :
  log_closed s = true → (run_log_op c ns name op s).1 = Panic "close of closed channel".
Proof.
  intros Hs. destruct op; simpl; apply deferred_close_panics; [..|by rewrite log_on_closed].
  - destruct (clientset c) as [cs|]; [|done]. apply record_call_closed; [|done].
    intros [d|e] s1 Hs1; rewrite log_on_closed by congruence; simpl; congruence.
  - destruct (clientset c) as [cs|]; [|done]. apply record_call_closed; [|done].
    intros [d|e] s1 Hs1; [|rewrite log_on_closed by congruence; simpl; congruence].
    unfold mbind at 1, GoM_bind at 1, time_Now. destruct (api_now (world s1)) as [t w]. simpl.
    apply record_call_closed; [|simpl; congruence].
    intros [d'|e] s2 Hs2; simpl in *; rewrite log_on_closed by congruence; simpl; congruence.
Qed.

(** C17: an operation takes its channel for itself: however it ended, a
    [close] of the channel by its caller panics, and so does every further
    operation that is given the channel.  Both are done in
    [internal/kube/ut/client_test.go], the first also in
    [tests/integration/kube_integration_test.go]. *)
Theorem channel_is_used_up c ns name op c' ns' name' op' s :
  let s' := (run_log_op c ns name op s).2 in
  (chan_close ChanRef s').1 = Panic "close of closed channel" ∧
  (run_log_op c' ns' name' op' s').1 = Panic "close of closed channel".
Proof.
  assert (log_closed (run_log_op c ns name op s).2 = true) as Hc.
  { destruct op; apply deferred_close_closes. }
  split; [|by apply run_log_op_closed]. unfold chan_close. by rewrite Hc.
Qed.
End one_channel.

(** ** Convergence

    The cluster as time passes between reads, and the available replicas read
    at each turn. *)
Section convergence.
Context {W : Type} `{KW : !KubeApi W}.
Variables (ns name : string).

Definition watch_step (w : W) : W :=
  api_elapse (2 * Second)%Z (api_log_wait (api_deployment_get ns name w).2).
Definition available (w : W) : option Z :=
  match (api_deployment_get ns name w).1 with
  | inl d => Some (AvailableReplicas (dep_Status d))
  | inr _ => None
  end.

Lemma scale_cond_turn cs r (s : kst W) n :
  log_closed s = false → available (world s) = Some n →
  ∃ s', scale_cond (mkK8sClient (Some cs)) ns name r ChanRef s =
          (Ret (bool_decide (n = r), None), s') ∧ log_closed s' = false ∧
        (n ≠ r → world s' = api_log_wait (api_deployment_get ns name (world s)).2).
Proof.
  intros Hs Ha. unfold available in Ha.
  unfold scale_cond, Deployments_Get, with_clientset, record_call, log, chan_send,
    mbind, GoM_bind, mret, GoM_ret. simpl.
  destruct (api_deployment_get ns name (world s)) as [[d|e] w']; [|done].
  injection Ha as Ha. simpl. rewrite Hs. simpl. rewrite Ha.
  case_decide as Hd; [rewrite bool_decide_eq_true_2 by done|rewrite bool_decide_eq_false_2 by done];
    simpl; rewrite ?Hs; eexists; (split; [reflexivity|]); (split; [done|]); [by intros Hn|done].
Qed.

(** A poll of the scale condition ends at the first turn that reads [r]. *)
Lemma poll_ticks_converges cs r k ticks (s : kst W) :
  log_closed s = false → k ≤ ticks →
  (∀ i, i < k → ∃ n, available (Nat.iter i watch_step (world s)) = Some n ∧ n ≠ r) →
  available (Nat.iter k watch_step (world s)) = Some r →
  ∃ s', poll_ticks ticks (2 * Second)%Z (scale_cond (mkK8sClient (Some cs)) ns name r ChanRef) s =
          (Ret None, s') ∧ log_closed s' = false.
Proof.
  revert ticks s. induction k as [|k IH]; intros ticks s Hs Hk Hbefore Hat.
  - destruct (scale_cond_turn cs r s r Hs Hat) as (s' & Hc & Hs' & _).
    rewrite bool_decide_eq_true_2 in Hc by done. exists s'. by destruct ticks; simpl; rewrite Hc.
  - destruct (Hbefore 0) as (n & Hn & Hne); [lia|].
    destruct (scale_cond_turn cs r s n Hs Hn) as (s' & Hc & Hs' & Hw).
    rewrite bool_decide_eq_false_2 in Hc by done.
    destruct ticks as [|ticks]; [lia|]. simpl. rewrite Hc.
    apply IH; [done|lia|..]; simpl; unfold elapse; simpl; rewrite Hw by done;
      change (api_elapse (2 * Second)%Z (api_log_wait (api_deployment_get ns name (world s)).2)) with (watch_step (world s)).
    + intros i Hi. rewrite <-Nat.iter_succ_r. apply Hbefore. lia.
    + by rewrite <-Nat.iter_succ_r.
Qed.

(** Out of time: no turn reads [r]. *)
Lemma poll_ticks_times_out cs r ticks (s : kst W) :
  log_closed s = false →
  (∀ i, i ≤ ticks → ∃ n, available (Nat.iter i watch_step (world s)) = Some n ∧ n ≠ r) →
  ∃ s', poll_ticks ticks (2 * Second)%Z (scale_cond (mkK8sClient (Some cs)) ns name r ChanRef) s =
          (Ret (Some "context deadline exceeded"), s') ∧ log_closed s' = false.
Proof.
  revert s. induction ticks as [|ticks IH]; intros s Hs Hall;
    (destruct (Hall 0) as (n & Hn & Hne); [lia|]);
    destruct (scale_cond_turn cs r s n Hs Hn) as (s' & Hc & Hs' & Hw);
    rewrite bool_decide_eq_false_2 in Hc by done; simpl; rewrite Hc; [eauto|].
  apply IH; [done|]. simpl. unfold elapse; simpl. rewrite Hw by done.
  change (api_elapse (2 * Second)%Z (api_log_wait (api_deployment_get ns name (world s)).2)) with (watch_step (world s)).
  intros i Hi. rewrite <-Nat.iter_succ_r. apply Hall. lia.
Qed.

Definition scale_in_time cs r ticks : GoM (kst W) (option string) :=
  @ScaleDeploymentWithLogs W KW (poll_n ticks) (mkK8sClient (Some cs)) ns name r ChanRef.

Lemma scale_in_time_poll cs r ticks (s : kst W) dep w1 dep' w2 o :
  log_closed s = false →
  api_deployment_get ns name (world s) = (inl dep, w1) →
  api_deployment_update ns (set_Replicas r dep) (api_log_wait w1) = (inl dep', w2) →
  (∀ s2, log_closed s2 = false → world s2 = api_log_wait w2 → ∃ s3,
    poll_ticks ticks (2 * Second)%Z (scale_cond (mkK8sClient (Some cs)) ns name r ChanRef) s2 = (o, s3) ∧
    log_closed s3 = false) →
  (scale_in_time cs r ticks s).1 = o.
Proof.
  intros Hs Hget Hupd Hpoll.
  unfold scale_in_time, ScaleDeploymentWithLogs, defer, Deployments_Get, Deployments_Update,
    with_clientset, record_call, log, chan_send, mbind, GoM_bind. simpl.
  rewrite Hget. simpl. rewrite Hs. simpl. rewrite Hupd. simpl.
  match goal with |- context [poll_ticks _ _ _ ?s2] => destruct (Hpoll s2) as (s3 & Hp & Hs3) end;
    [done..|].
  rewrite Hp. unfold chan_close. by rewrite Hs3.
Qed.

(** Scaling converges: if the update is accepted and the deployment,
    read every two seconds, first shows the requested number of available
    replicas at turn [k], within the deadline of [ticks] intervals, the
    operation returns [nil]. *)
Theorem scale_converges cs r ticks k (s : kst W) dep w1 dep' w2 :
  log_closed s = false →
  api_deployment_get ns name (world s) = (inl dep, w1) →
  api_deployment_update ns (set_Replicas r dep) (api_log_wait w1) = (inl dep', w2) →
  k ≤ ticks →
  (∀ i, i < k → ∃ n, available (Nat.iter i watch_step (api_log_wait w2)) = Some n ∧ n ≠ r) →
  available (Nat.iter k watch_step (api_log_wait w2)) = Some r →
  (scale_in_time cs r ticks s).1 = Ret None.
Proof.
  intros Hs Hget Hupd Hk Hb Ha. eapply scale_in_time_poll; [done..|].
  intros s2 Hs2 Hw2. rewrite <-Hw2 in *. by eapply poll_ticks_converges.
Qed.

(** Scaling gives up at the deadline: if no read within [ticks]
    intervals shows the requested number of replicas, the operation returns
    the context's error, though the update was accepted. *)
Theorem scale_times_out cs r ticks (s : kst W) dep w1 dep' w2 :
  log_closed s = false →
  api_deployment_get ns name (world s) = (inl dep, w1) →
  api_deployment_update ns (set_Replicas r dep) (api_log_wait w1) = (inl dep', w2) →
  (∀ i, i ≤ ticks → ∃ n, available (Nat.iter i watch_step (api_log_wait w2)) = Some n ∧ n ≠ r) →
  (scale_in_time cs r ticks s).1 = Ret (Some "context deadline exceeded").
Proof.
  intros Hs Hget Hupd Ha. eapply scale_in_time_poll; [done..|].
  intros s2 Hs2 Hw2. rewrite <-Hw2 in *. by eapply poll_ticks_times_out.
Qed.
End convergence.

Lemma scale_converges_witness :
  (@scale_in_time Cluster (cluster_api "api") "prod" "api" TheClientset 5 10
     (fresh_call (sample_cluster 0))).1 = Ret None.
Proof.
  eapply (@scale_converges Cluster (cluster_api "api") "prod" "api" TheClientset 5 10 1);
    [reflexivity|vm_compute; reflexivity|vm_compute; reflexivity|lia| |vm_compute; reflexivity].
  intros [|i] Hi; [|lia]. exists 2%Z. split; [vm_compute; reflexivity|lia].
Defined.

(** The controller never reaches a negative replica count within no time. *)
Lemma scale_times_out_witness :
  (@scale_in_time Cluster (cluster_api "api") "prod" "api" TheClientset 5 0
     (fresh_call (sample_cluster 0))).1 = Ret (Some "context deadline exceeded").
Proof.
  eapply (@scale_times_out Cluster (cluster_api "api") "prod" "api" TheClientset 5 0);
    [reflexivity|vm_compute; reflexivity|vm_compute; reflexivity|].
  intros i Hi. assert (i = 0) as -> by lia. exists 2%Z. split; [vm_compute; reflexivity|lia].
Defined.
