(* ===== verification/RollbackProps.v ===== *)
(** * Properties of restart, rollback and the list of revisions *)
From stdpp Require Import base tactics strings list gmap sorting.
From Stdlib Require Import ZArith.
From S2P Require Import Prelude GoStrings GoConv GoTime Sorting KubeApi KubeClient KubeTrace.
From S2P Require Import KubeRollback KubeSpec KubeTargets Cluster KubeProps.

(** What "complete" means: the status fields for [n] replicas after a restart
    and after a rollback, and the deployment a restart writes. *)
Definition rolled_out (d : Deployment) (n : Z) : Prop :=
  let st := dep_Status d in
  (Generation d ≤ ObservedGeneration st)%Z ∧ UpdatedReplicas st = n ∧ AvailableReplicas st = n ∧
  UnavailableReplicas st = 0%Z.
Definition with_restart_stamp (stamp : string) (d : Deployment) : Deployment :=
  let t := spec_Template (dep_Spec d) in
  set_Template
    (mkTemplate (Some (<["kubectl.kubernetes.io/restartedAt" := stamp]> (default ∅ (tmpl_annotations t))))
       (tmpl_images t) (tmpl_rest t)) d.

Lemma restart_ready_spec d n : restart_ready d n = true → rolled_out d n.
Proof. unfold restart_ready, rolled_out. rewrite !andb_true_iff, !bool_decide_eq_true. tauto. Qed.

Section restart.
Context {W : Type} `{!KubeApi W} `{!PollUntil W}.
Abbreviation restart ns name cs :=
  (RestartDeploymentWithLogs (mkK8sClient (Some cs)) ns name ChanRef).

(** C11: When a restart returns [nil], one update was made and accepted: of
    the deployment as read, changed in nothing but the restart annotation of
    its pod template; the last read shows the rollout complete for the
    replicas of its spec, the log ends by saying so, and the channel is closed
    (which the tests do once more: see [channel_is_used_up]). *)
Theorem restart_success ns name cs (s s' : kst W) :
  log_closed s = false → restart ns name cs s = (Ret None, s') →
  ∃ dep stamp dep' reads final n lg,
    calls s' = calls s ++ CGet ns name (inl dep)
                 :: CUpdate ns (with_restart_stamp stamp dep) (inl dep') :: reads ++
                 [CGet ns name (inl final)] ∧
    Forall (is_get ns name) reads ∧
    spec_Replicas (dep_Spec final) = Some n ∧ rolled_out final n ∧
    log_sent s' = log_sent s ++ lg ++ [restart_done_line] ∧ log_closed s' = true.
Proof.
  intros Hs Hrun. eapply wp_run in Hrun; [|by apply restart_body_protocol].
  destruct Hrun as (tr & lg & -> & -> & Hc & Hp). inversion Hp; subst.
  pose proof (turns_observes_gets _ _ _ _ _ _ _ H) as Hg.
  apply turns_observes_success in H as (t' & l' & d & -> & -> & Hd).
  apply Forall_app in Hg as [Hg _].
  unfold restart_verdict in Hd. apply fmap_Some in Hd as (n & Hn & Hr).
  simpl restart_lines. rewrite Hn, <-Hr.
  eexists dep, (Format_RFC3339Nano t), dep', t', d, n, (_ :: l' ++ [_]).
  split_and!; try done; [by apply restart_ready_spec|]. simpl. by rewrite <-app_assoc.
Qed.
End restart.

(** The restart annotation is the only thing a restarted template gains:
    every other annotation, the images and the rest are kept, and a nil map
    becomes a map with that one entry. *)
Theorem restarted_template_frame stamp t :
  tmpl_images (restarted_template stamp t) = tmpl_images t ∧
  tmpl_rest (restarted_template stamp t) = tmpl_rest t ∧
  ∃ m, tmpl_annotations (restarted_template stamp t) = Some m ∧
       m !! restarted_key = Some stamp ∧
       ∀ k, k ≠ restarted_key → m !! k = default ∅ (tmpl_annotations t) !! k.
Proof.
  split_and!; [done..|]. eexists. split_and!; [done|apply lookup_insert_eq|].
  intros k Hk. by apply lookup_insert_ne.
Qed.

Section rollback.
Context {W : Type} `{!KubeApi W} `{!PollUntil W} `{SS : !SortSlice}.
Abbreviation rollback ns name cs rev :=
  (RollbackDeploymentWithLogs (mkK8sClient (Some cs)) ns name rev ChanRef).

(** C6: [RollbackDeploymentWithLogs] refines its protocol for every cluster
    and every sort: reads, the choice of a ReplicaSet, at most five rounds
    of update, a poll; the channel is closed at the end; the success line
    ends the log of every run that returns [nil], where it occurs once, and
    occurs in the log of no other run.  (The tests close the channel once
    more, which panics: see [channel_is_used_up].) *)
Theorem rollback_refines_protocol ns name cs rev (s s' : kst W) o :
  log_closed s = false → rollback ns name cs rev s = (o, s') →
  ∃ tr lg, calls s' = calls s ++ tr ∧ log_sent s' = log_sent s ++ lg ∧
           log_closed s' = true ∧ rollback_protocol ns name rev o tr ∧ done_logged o lg.
Proof. intros Hs Hrun. by eapply wp_run in Hrun; [|apply rollback_body_protocol]. Qed.

(** What a rollback writes: in every run, with any outcome, at most five
    updates, each writing the template of the ReplicaSet selected for the
    requested revision into the deployment as just read; and no update at
    all when no ReplicaSet is selected. *)
Theorem rollback_updates ns name cs rev (s s' : kst W) o :
  log_closed s = false → rollback ns name cs rev s = (o, s') →
  ∃ tr, calls s' = calls s ++ tr ∧
    (updates tr = [] ∨
     ∃ dep listed rs, selected rev dep listed rs ∧
       length (updates tr) ≤ 5 ∧ Forall (update_of ns (rs_Template rs)) (updates tr)).
Proof.
  intros Hs Hrun. eapply wp_run in Hrun; [|by apply rollback_body_protocol].
  destruct Hrun as (tr & lg & HC & _ & _ & Hp & _). exists tr. split; [done|].
  inversion Hp; subst; try by left.
  - right. exists dep, listed, rs. split; [done|]. simpl. by eapply update_attempts_updates.
  - right. exists dep, listed, rs. split; [done|]. simpl. rewrite updates_app.
    match goal with H : turns _ _ _ _ |- _ =>
      rewrite (gets_no_update ns name t), app_nil_r by exact (turns_observes_gets _ _ _ _ _ _ _ H)
    end.
    by eapply update_attempts_updates.
Qed.


(** C10: The rollback target, for every sort that [sort.Slice] may be: the
    ReplicaSet chosen is listed, carries the revision asked for (or the one
    before the current, when none is asked for), and no other candidate is
    newer; when none is chosen no listed ReplicaSet was a candidate. *)
Theorem select_target_correct listed curRev revision :
  match select_target (sort_Slice newer listed) curRev revision with
  | inl (rs, _) => newest (wanted curRev revision) listed rs
  | inr _ => ∀ rs, rs ∈ listed → ¬ wanted curRev revision rs
  end.
Proof. apply select_target_spec. Qed.
End rollback.

(** The evaluation of a rollback on the sample cluster. *)
Definition rollback_run (ticks conflicts : nat) (rev : Z) : outcome (option string) * kst Cluster :=
  run_on (λ K P, RollbackDeploymentWithLogs (mkK8sClient (Some TheClientset)) "prod" "api" rev ChanRef)
    ticks (sample_cluster conflicts).

Definition image_of (w : Cluster) : option (list string) :=
  (λ d, tmpl_images (spec_Template (dep_Spec d))) <$> cl_deployments w !! ("prod", "api").

(** A rollback may report success without having rolled back: when the
    five attempts all meet a version conflict the loop is simply left, and the
    old rollout, already complete, satisfies the poll.  On the sample cluster
    with five conflicts the operation returns [nil] and logs the success line
    while no update was accepted and the deployment keeps its image. *)
Theorem rollback_false_success :
  (rollback_run 10 5 1).1 = Ret None ∧
  [rollback_done_line] `suffix_of` log_sent (rollback_run 10 5 1).2 ∧
  Forall (λ c, ∀ ns d d', c ≠ CUpdate ns d (inl d')) (calls (rollback_run 10 5 1).2) ∧
  image_of (world (rollback_run 10 5 1).2) = Some ["api:v3"] ∧
  image_of (world (rollback_run 10 4 1).2) = Some ["api:v1"].
Proof.
  split_and!; [by vm_compute| |by vm_compute; repeat constructor|by vm_compute..].
  vm_compute. by repeat first [reflexivity | apply suffix_cons_r].
Qed.

(** Rollback has no guard for a client without clientset, unlike scaling
    and restart, which return an error: it logs one line, then panics on the
    nil interface, and the deferred close still runs. *)
Theorem rollback_uninitialised_panics {W} `{!KubeApi W} `{!PollUntil W} `{SS : !SortSlice}
    ns name r rev (s : kst W) :
  log_closed s = false →
  RollbackDeploymentWithLogs (mkK8sClient None) ns name rev ChanRef s =
    (Panic nil_deref,
     mkKst (api_log_wait (world s)) (log_sent s ++ ["[rollback] Получаем deployment..."]) true (calls s)) ∧
  (ScaleDeploymentWithLogs (mkK8sClient None) ns name r ChanRef s).1 =
    Ret (Some "client not initialized") ∧
  (RestartDeploymentWithLogs (mkK8sClient None) ns name ChanRef s).1 =
    Ret (Some "client not initialized").
Proof.
  intros Hs.
  unfold RollbackDeploymentWithLogs, ScaleDeploymentWithLogs, RestartDeploymentWithLogs,
    defer, chan_close, log, chan_send, mbind, GoM_bind. simpl. by rewrite Hs.
Qed.

(** ** The list of revisions *)

Section revisions.
Context {W : Type} `{!KubeApi W} `{SS : !SortSlice}.

(** The answer of [ListAvailableRevisions], from the answers of its calls. *)
Lemma list_revisions_run c cs ns name (s s1 s2 : kst W) dep sel listed :
  clientset c = Some cs →
  Deployments_Get (Some cs) ns name s = (Ret (inl dep), s1) →
  api_selector_string (spec_Selector (dep_Spec dep)) = inl sel →
  ReplicaSets_List (Some cs) ns sel s1 = (Ret (inl listed), s2) →
  ListAvailableRevisions c ns name s =
    (Ret (sort_Slice by_revision (omap revision_info listed), None), s2).
Proof.
  intros Hc Hg Hsel Hl. unfold ListAvailableRevisions, GetClientset, mbind, GoM_bind.
  by rewrite Hc, Hg, Hsel, Hl.
Qed.

(** [ListAvailableRevisions] lists, in ascending order of revision,
    exactly one entry for every listed ReplicaSet that carries a revision
    annotation, with its number, name and first image. *)
Theorem list_revisions_correct c cs ns name (s s1 s2 : kst W) dep sel listed :
  clientset c = Some cs →
  Deployments_Get (Some cs) ns name s = (Ret (inl dep), s1) →
  api_selector_string (spec_Selector (dep_Spec dep)) = inl sel →
  ReplicaSets_List (Some cs) ns sel s1 = (Ret (inl listed), s2) →
  ∃ revisions,
    ListAvailableRevisions c ns name s = (Ret (revisions, None), s2) ∧
    StronglySorted (λ a b, Revision a ≤ Revision b)%Z revisions ∧
    revisions ≡ₚ omap revision_info listed.
Proof.
  intros Hc Hg Hsel Hl. eexists. split_and!; [by eapply list_revisions_run| |apply sort_Slice_perm].
  pose proof (sort_Slice_sorted by_revision (omap revision_info listed)
                (strict_weak_key Revision)) as Hs.
  induction Hs as [|x l _ IH Hx]; constructor; [done|].
  eapply Forall_impl; [done|]. unfold not_after, by_revision.
  intros y Hy%bool_decide_eq_false. lia.
Qed.

(** Listing and rolling back agree on what a revision is: a ReplicaSet
    whose annotation is the decimal text of a positive revision is listed
    under that number, and a rollback to it selects a newest ReplicaSet with
    that annotation. *)
Theorem listed_revision_selectable (listed : list ReplicaSet) rs rev curRev :
  rs ∈ listed → (0 < rev ≤ max_int64)%Z → annotated rs = Some (FormatInt rev) →
  (∃ image, mkRevisionInfo rev (rs_Name rs) image ∈ omap revision_info listed) ∧
  ∃ target line, select_target (sort_Slice newer listed) curRev rev = inl (target, line) ∧
    newest (λ x, annotated x = Some (FormatInt rev)) listed target.
Proof.
  intros Hin Hrev Hann. split.
  - eexists. apply list_elem_of_omap. exists rs. split; [done|].
    unfold revision_info, map_get. unfold annotated in Hann. rewrite Hann. simpl.
    rewrite decide_False; [rewrite Sscanf_d_FormatInt; [done|]|].
    + unfold is_int64, min_int64. unfold max_int64 in *. lia.
    + destruct rev as [|p|p]; [lia| |lia]. apply (pretty_N_nonempty (N.pos p)).
  - pose proof (select_target_spec listed curRev rev) as Hsel.
    assert (∀ x, wanted curRev rev x ↔ annotated x = Some (FormatInt rev)) as Hw.
    { intros x. unfold wanted. by rewrite decide_True by lia. }
    destruct (select_target _ curRev rev) as [[target line]|e].
    + exists target, line. split; [done|]. destruct Hsel as (? & ?%Hw & Hall).
      split_and!; [done|done|]. intros x Hx HPx. by apply Hall, Hw.
    + by destruct (Hsel rs Hin); apply Hw.
Qed.
End revisions.

(** ** Witnesses *)

Abbreviation api := (cluster_api "api").
Abbreviation poll10 := (@poll_n Cluster (cluster_api "api") 10).

Definition restart_run (conflicts : nat) : outcome (option string) * kst Cluster :=
  run_on (λ K P, RestartDeploymentWithLogs (mkK8sClient (Some TheClientset)) "prod" "api" ChanRef)
    10 (sample_cluster conflicts).

Lemma restart_success_witness :
  ∃ dep stamp dep' reads final n lg,
    calls (restart_run 0).2 = [] ++ CGet "prod" "api" (inl dep)
      :: CUpdate "prod" (with_restart_stamp stamp dep) (inl dep') :: reads ++ [CGet "prod" "api" (inl final)] ∧
    Forall (is_get "prod" "api") reads ∧
    spec_Replicas (dep_Spec final) = Some n ∧ rolled_out final n ∧
    log_sent (restart_run 0).2 = [] ++ lg ++ [restart_done_line] ∧
    log_closed (restart_run 0).2 = true.
Proof.
  apply (@restart_success Cluster api poll10 "prod" "api" TheClientset
    (fresh_call (sample_cluster 0))); [reflexivity|].
  vm_compute. reflexivity.
Defined.

Lemma rollback_refines_protocol_witness :
  ∃ tr lg, calls (rollback_run 10 1 2).2 = [] ++ tr ∧ log_sent (rollback_run 10 1 2).2 = [] ++ lg ∧
    log_closed (rollback_run 10 1 2).2 = true ∧
    rollback_protocol "prod" "api" 2 (rollback_run 10 1 2).1 tr ∧
    done_logged (rollback_run 10 1 2).1 lg.
Proof.
  apply (@rollback_refines_protocol Cluster api poll10 _ "prod" "api" TheClientset 2
    (fresh_call (sample_cluster 1))); [reflexivity|].
  exact (surjective_pairing (rollback_run 10 1 2)).
Defined.

Lemma rollback_updates_witness :
  ∃ tr, calls (rollback_run 10 3 1).2 = [] ++ tr ∧
    (updates tr = [] ∨
     ∃ dep listed rs, selected 1 dep listed rs ∧
       length (updates tr) ≤ 5 ∧ Forall (update_of "prod" (rs_Template rs)) (updates tr)).
Proof.
  apply (@rollback_updates Cluster api poll10 _ "prod" "api" TheClientset 1
    (fresh_call (sample_cluster 3)) _ (rollback_run 10 3 1).1); [reflexivity|].
  exact (surjective_pairing (rollback_run 10 3 1)).
Defined.


Lemma rollback_uninitialised_panics_witness :
  run_on (λ K P, RollbackDeploymentWithLogs (mkK8sClient None) "prod" "api" 1 ChanRef) 10
    (sample_cluster 0) =
    (Panic nil_deref,
     mkKst (sample_cluster 0) ["[rollback] Получаем deployment..."] true []) .
Proof.
  exact (proj1 (@rollback_uninitialised_panics Cluster api poll10 _ "prod" "api" 1 1
    (fresh_call (sample_cluster 0)) eq_refl)).
Defined.

Lemma list_revisions_correct_witness :
  ∃ revisions,
    @ListAvailableRevisions Cluster api _ (mkK8sClient (Some TheClientset)) "prod" "api"
      (fresh_call (sample_cluster 0)) =
      (Ret (revisions, None), (@ListAvailableRevisions Cluster api _
        (mkK8sClient (Some TheClientset)) "prod" "api" (fresh_call (sample_cluster 0))).2) ∧
    StronglySorted (λ a b, Revision a ≤ Revision b)%Z revisions ∧
    revisions ≡ₚ omap revision_info (cl_replicasets (sample_cluster 0)).
Proof.
  eapply (@list_revisions_correct Cluster api _ (mkK8sClient (Some TheClientset)) TheClientset
    "prod" "api" (fresh_call (sample_cluster 0)) _ _ sample_deployment "app=api");
    [reflexivity|vm_compute; reflexivity|reflexivity|vm_compute; reflexivity].
Defined.

Lemma listed_revision_selectable_witness :
  (∃ image, mkRevisionInfo 2 "api-2" image ∈ omap revision_info (cl_replicasets (sample_cluster 0))) ∧
  ∃ target line, select_target (sort_Slice newer (cl_replicasets (sample_cluster 0))) 3 2 =
      inl (target, line) ∧
    newest (λ x, annotated x = Some (FormatInt 2)) (cl_replicasets (sample_cluster 0)) target.
Proof.
  apply (listed_revision_selectable (cl_replicasets (sample_cluster 0)) (sample_rs "2" 200) 2 3).
  - apply list_elem_of_further, list_elem_of_here.
  - unfold max_int64. lia.
  - reflexivity.
Defined.
