(* ===== verification/GoFloat.v ===== *)
(** * [float64]: parsing, printing, division, conversion

    A [float64] is a [spec_float] of precision 53 and maximal exponent 1024,
    the executable IEEE 754 model of the Standard Library.  [ParseFloat] reads
    the grammar of [strconv.ParseFloat] and rounds the exact value once, to
    nearest even; [Format_f] is [%.<prec>f], exact and rounded half to even. *)
From Stdlib Require Import SpecFloat.
From stdpp Require Import base tactics strings pretty list.
From Stdlib Require Import ZArith Lia.
From S2P Require Import Prelude GoStrings GoConv.
Local Open Scope Z_scope.

Abbreviation float64 := spec_float.
#[export] Instance float64_eq_dec : EqDecision float64.
Proof. solve_decision. Defined.

Definition zero64 : float64 := S754_zero false.
Definition one64 : float64 := S754_finite false (2 ^ 52) (-52).

(** The float nearest to [m / d], for positive [m] and [d]. *)
Definition round_ratio (neg : bool) (m d : positive) : float64 :=
  let '(q, e, loc) := SFdiv_core_binary 53 1024 (Zpos m) 0 (Zpos d) 0 in
  binary_round_aux 53 1024 neg q e loc.

Definition float_of_Z (z : Z) : float64 := binary_normalize 53 1024 z 0 false.

(** The float nearest to [(-1)^neg * m * 10^e], with the cut-offs of
    [decimal.floatBits] ([dp] is the position of the decimal point). *)
Definition round_decimal (neg : bool) (m : Z) (e dp : Z) : float64 :=
  match m with
  | Zpos m =>
      if decide (310 < dp) then S754_infinity neg
      else if decide (dp < -330) then S754_zero neg
      else match e with
           | Zneg k => round_ratio neg m (10 ^ k)
           | _ => round_ratio neg (m * Z.to_pos (10 ^ e)) 1
           end
  | _ => S754_zero neg
  end.

(** The float nearest to [(-1)^neg * m * 2^e]. *)
Definition round_binary (neg : bool) (m : Z) (e : Z) : float64 :=
  match m with
  | Zpos m => if decide (2000 < e + Zpos (digits2_pos m)) then S754_infinity neg
              else if decide (e + Zpos (digits2_pos m) < -2000) then S754_zero neg
              else binary_round 53 1024 neg m e
  | _ => S754_zero neg
  end.

Definition lower (a : ascii) : ascii :=
  let n := N_of_ascii a in
  if decide (65 ≤ n ≤ 90)%N then ascii_of_N (n + 32) else a.

Fixpoint to_lower (s : string) : string :=
  match s with EmptyString => EmptyString | String a s' => String (lower a) (to_lower s') end.

(** The value of a mantissa digit in base 10 or 16. *)
Definition mant_digit (hex : bool) (a : ascii) : option Z :=
  match digit_val a with
  | Some d => Some d
  | None =>
      let n := Z.of_N (N_of_ascii (lower a)) in
      if decide (hex = true ∧ 97 ≤ n ≤ 102) then Some (n - 87) else None
  end.

(** The mantissa loop of [readFloat]: digits, at most one point, underscores.
    [scale] counts the digits after the point. *)
Record mantissa := mkMantissa {
  mn_value : Z; mn_scale : Z; mn_nd : Z; mn_dot : bool; mn_digits : bool; mn_under : bool }.

Fixpoint read_mantissa (hex : bool) (m : mantissa) (s : string) : mantissa * string :=
  match s with
  | EmptyString => (m, s)
  | String a s' =>
      if decide (a = "_"%char) then
        read_mantissa hex (mkMantissa (mn_value m) (mn_scale m) (mn_nd m) (mn_dot m)
                             (mn_digits m) true) s'
      else if decide (a = "."%char) then
        if mn_dot m then (m, s)
        else read_mantissa hex (mkMantissa (mn_value m) (mn_scale m) (mn_nd m) true
                                  (mn_digits m) (mn_under m)) s'
      else match mant_digit hex a with
           | None => (m, s)
           | Some d =>
               let v := mn_value m * (if hex then 16 else 10) + d in
               read_mantissa hex
                 (mkMantissa v (if mn_dot m then mn_scale m + 1 else mn_scale m)
                    (if decide (v = 0) then mn_nd m else mn_nd m + 1)
                    (mn_dot m) true (mn_under m)) s'
           end
  end.

(** Exponent digits, saturating as the library does; underscores are noted. *)
Fixpoint read_exponent (e : Z) (under : bool) (s : string) : Z * bool * string :=
  match s with
  | EmptyString => (e, under, s)
  | String a s' =>
      if decide (a = "_"%char) then read_exponent e true s'
      else match digit_val a with
           | None => (e, under, s)
           | Some d => read_exponent (if decide (e < 10000) then e * 10 + d else e) under s'
           end
  end.

(** [underscoreOK]: underscores only between digits or after a base prefix. *)
Inductive under_state := UStart | UDigit | UUnder | UOther.

Fixpoint underscore_loop (hex : bool) (st : under_state) (s : string) : bool :=
  match s with
  | EmptyString => match st with UUnder => false | _ => true end
  | String a s' =>
      if decide (a = "_"%char) then
        match st with UDigit => underscore_loop hex UUnder s' | _ => false end
      else match mant_digit hex a with
           | Some _ => underscore_loop hex UDigit s'
           | None => match st with UUnder => false | _ => underscore_loop hex UOther s' end
           end
  end.

Definition underscoreOK (hex : bool) (unsigned : string) : bool :=
  match hex, unsigned with
  | true, String _ (String _ digits) => underscore_loop true UDigit digits
  | _, _ => underscore_loop false UStart unsigned
  end.

(** The infinities and the NaN, with the sign already cut. *)
Definition special (signed neg : bool) (u : string) : option float64 :=
  let l := to_lower u in
  if decide (l = "inf" ∨ l = "infinity") then Some (S754_infinity neg)
  else if decide (signed = false ∧ l = "nan") then Some S754_nan
  else None.

Definition hex_prefix (u : string) : bool :=
  match u with
  | String z (String x (String _ _)) => bool_decide (z = "0"%char) && bool_decide (lower x = "x"%char)
  | _ => false
  end.

Definition drop2 (u : string) : string :=
  match u with String _ (String _ r) => r | _ => u end.

(** The exponent part after the mantissa: its value, whether it is present,
    and whether it had underscores; [None] is a syntax error.  The whole
    input must be consumed. *)
Definition exponent_part (mark : ascii) (s : string) : option (Z * bool * bool) :=
  match s with
  | EmptyString => Some (0, false, false)
  | String a s' =>
      if decide (lower a = mark) then
        let '(neg, digits) := cut_sign s' in
        match digits with
        | String d _ =>
            match digit_val d with
            | None => None
            | Some _ =>
                match read_exponent 0 false digits with
                | (e, under, EmptyString) => Some (if neg then - e else e, true, under)
                | _ => None
                end
            end
        | EmptyString => None
        end
      else None
  end.

Definition syntax_error : float64 * option NumError := (zero64, Some ErrSyntax).

Definition ParseFloat (s : string) : float64 * option NumError :=
  let '(neg, u) := cut_sign s in
  match special (bool_decide (u ≠ s)) neg u with
  | Some f => (f, None)
  | None =>
      let hex := hex_prefix u in
      let '(m, rest) := read_mantissa hex (mkMantissa 0 0 0 false false false)
                          (if hex then drop2 u else u) in
      match exponent_part (if hex then "p"%char else "e"%char) rest with
      | None => syntax_error
      | Some (e, present, under) =>
          if decide (mn_digits m = false ∨ (hex = true ∧ present = false) ∨
                     ((mn_under m || under) = true ∧ underscoreOK hex u = false))
          then syntax_error
          else
            let f := if hex then round_binary neg (mn_value m) (e - 4 * mn_scale m)
                     else round_decimal neg (mn_value m) (e - mn_scale m)
                            (mn_nd m - mn_scale m + e) in
            match f with
            | S754_infinity _ => (f, Some ErrRange)
            | _ => (f, None)
            end
      end
  end.

(** ** Printing *)

(** [n / d] rounded half to even. *)
Definition div_half_even (n d : Z) : Z :=
  let q := n / d in
  match 2 * (n mod d) ?= d with
  | Lt => q
  | Gt => q + 1
  | Eq => if Z.even q then q else q + 1
  end.

(** [m * 2^e * 10^k] as a fraction. *)
Definition scaled_num (m : positive) (e : Z) (k : Z) : Z * Z :=
  (Zpos m * 2 ^ Z.max 0 e * 10 ^ Z.max 0 k, 2 ^ Z.max 0 (- e) * 10 ^ Z.max 0 (- k)).

Definition pad_left (width : nat) (s : string) : string :=
  str_concat (replicate (width - String.length s) "0") +:+ s.

(** [%.<prec>f] of a non-negative number of units of [10^-prec]. *)
Definition place_point (prec : nat) (units : Z) : string :=
  let p := 10 ^ Z.of_nat prec in
  FormatInt (units / p) +:+
  match prec with O => EmptyString | _ => "." +:+ pad_left prec (FormatInt (units mod p)) end.

Definition sign_text (neg : bool) : string := if neg then "-" else EmptyString.

Definition Format_f (prec : nat) (f : float64) : string :=
  match f with
  | S754_nan => "NaN"
  | S754_infinity false => "+Inf"
  | S754_infinity true => "-Inf"
  | S754_zero neg => sign_text neg +:+ place_point prec 0
  | S754_finite neg m e =>
      let (n, d) := scaled_num m e (Z.of_nat prec) in
      sign_text neg +:+ place_point prec (div_half_even n d)
  end.

(** ** [%v]: the shortest digits that read back as the same float *)

(** The position of the decimal point of [n / d]: the least [k] with
    [n / d < 10^k], searched next to an estimate from the binary logarithm. *)
Definition below_pow10 (n d k : Z) : bool :=
  n * 10 ^ Z.max 0 (- k) <? d * 10 ^ Z.max 0 k.
Fixpoint least_dp (fuel : nat) (n d k : Z) : Z :=
  match fuel with
  | O => k
  | S fuel => if below_pow10 n d k then k else least_dp fuel n d (k + 1)
  end.
Definition decimal_point (n d : Z) : Z :=
  least_dp 6 n d ((Z.log2 n - Z.log2 d) * 30103 / 100000 - 2).

(** The decimals of [len] digits around [n / d], nearest first: digits as an
    integer, in units of [10^(dp - len)]. *)
Definition candidates (n d dp len : Z) : list Z :=
  let p := n * 10 ^ Z.max 0 (len - dp) in
  let q := d * 10 ^ Z.max 0 (dp - len) in
  let low := p / q in
  match 2 * (p mod q) ?= q with
  | Lt => [low; low + 1]
  | Gt => [low + 1; low]
  | Eq => if Z.even low then [low; low + 1] else [low + 1; low]
  end.

Fixpoint shortest (fuel : nat) (len : Z) (f : float64) (n d dp : Z) : Z * Z :=
  match fuel with
  | O => (0, 0)
  | S fuel =>
      match List.filter (λ c, bool_decide (round_decimal false c (dp - len) dp = f))
              (candidates n d dp len) with
      | c :: _ => (c, len)
      | [] => shortest fuel (len + 1) f n d dp
      end
  end.

(** Digits without trailing zeros, and the position of the point. *)
Fixpoint strip_zeros (fuel : nat) (c : Z) : Z :=
  match fuel with
  | O => c
  | S fuel => if decide (c mod 10 = 0) then strip_zeros fuel (c / 10) else c
  end.
Definition shortest_digits (m : positive) (e : Z) : string * Z :=
  let (n, d) := scaled_num m e 0 in
  let dp := decimal_point n d in
  let (c, len) := shortest 17 1 (S754_finite false m e) n d dp in
  let dp := if decide (10 ^ len <= c) then dp + 1 else dp in
  (FormatInt (strip_zeros 17 c), dp).

Fixpoint zeros (n : nat) : string :=
  match n with O => EmptyString | S n => String "0" (zeros n) end.

(** [%e] with the digits as they are. *)
Definition scientific (digits : string) (dp : Z) : string :=
  let x := dp - 1 in
  match digits with
  | EmptyString => EmptyString
  | String a rest =>
      String a (match rest with EmptyString => EmptyString | _ => "." +:+ rest end)
      +:+ "e" +:+ (if decide (x < 0) then "-" else "+") +:+ pad_left 2 (FormatInt (Z.abs x))
  end.

(** [%f] with the digits as they are. *)
Definition positional (digits : string) (dp : Z) : string :=
  let len := Z.of_nat (String.length digits) in
  if decide (dp <= 0) then "0." +:+ zeros (Z.to_nat (- dp)) +:+ digits
  else if decide (len <= dp) then digits +:+ zeros (Z.to_nat (dp - len))
  else String.substring 0 (Z.to_nat dp) digits +:+ "." +:+
       String.substring (Z.to_nat dp) (Z.to_nat (len - dp)) digits.

Definition Format_v (f : float64) : string :=
  match f with
  | S754_nan => "NaN"
  | S754_infinity false => "+Inf"
  | S754_infinity true => "-Inf"
  | S754_zero neg => sign_text neg +:+ "0"
  | S754_finite neg m e =>
      let (digits, dp) := shortest_digits m e in
      sign_text neg +:+
      (if decide (dp - 1 < -4 \/ 6 <= dp - 1) then scientific digits dp else positional digits dp)
  end.

(** [int64(f)]: truncation; outside the range of [int64] the conversion is
    implementation-defined, and on amd64 gives the least [int64]. *)
Definition int64_of_float (f : float64) : Z :=
  match f with
  | S754_finite neg m e =>
      let t := if decide (0 ≤ e) then Zpos m * 2 ^ e else Zpos m / 2 ^ (- e) in
      let z := if neg then - t else t in
      if decide (min_int64 ≤ z ≤ max_int64) then z else min_int64
  | S754_zero _ => 0
  | _ => min_int64
  end.

Definition float_div (a b : float64) : float64 := SFdiv 53 1024 a b.
Definition float_eq (a b : float64) : bool := SFeqb a b.

Example parse_half : ParseFloat "0.5" = (S754_finite false 4503599627370496 (-53), None).
Proof. vm_compute. reflexivity. Qed.
Example parse_exp : ParseFloat "1e+06" = (float_of_Z 1000000, None).
Proof. vm_compute. reflexivity. Qed.
Example parse_bad : (ParseFloat "1.2.3").2 = Some ErrSyntax ∧ (ParseFloat "1e999").2 = Some ErrRange.
Proof. vm_compute. done. Qed.
Example parse_special : ParseFloat "+Inf" = (S754_infinity false, None) ∧ ParseFloat "NaN" = (S754_nan, None).
Proof. vm_compute. done. Qed.
Example parse_hex : ParseFloat "0x1p-1" = ParseFloat "0.5" ∧ ParseFloat "1_0" = (float_of_Z 10, None).
Proof. vm_compute. done. Qed.
Example parse_one : ParseFloat "1" = (one64, None).
Proof. vm_compute. reflexivity. Qed.
Example format_two : Format_f 2 (ParseFloat "0.125").1 = "0.12" ∧ Format_f 2 (ParseFloat "1.2").1 = "1.20".
Proof. vm_compute. done. Qed.
Example format_mib :
  Format_f 0 (float_div (float_div (float_of_Z 1073741824) (float_of_Z 1024)) (float_of_Z 1024)) = "1024".
Proof. vm_compute. reflexivity. Qed.
Example format_v :
  Format_v (ParseFloat "1700000000.123").1 = "1.700000000123e+09" ∧ Format_v (ParseFloat "0.1").1 = "0.1" ∧
  Format_v (ParseFloat "100000").1 = "100000" ∧ Format_v (ParseFloat "1e6").1 = "1e+06" ∧
  Format_v (ParseFloat "-0.00001234").1 = "-1.234e-05" ∧ Format_v (ParseFloat "12.5").1 = "12.5" ∧
  Format_v (ParseFloat "5e-324").1 = "5e-324" ∧ Format_v (ParseFloat "1.7976931348623157e308").1 = "1.7976931348623157e+308" ∧
  Format_v (ParseFloat "5.684341886080802e-14").1 = "5.684341886080802e-14" ∧ Format_v one64 = "1".
Proof. vm_compute. repeat split. Qed.
Example to_int : int64_of_float (ParseFloat "5.9").1 = 5 ∧ int64_of_float (ParseFloat "-5.9").1 = -5.
Proof. vm_compute. done. Qed.
