(* ===== verification/Monitoring.v ===== *)
(** * [internal/monitoring/client.go]

    The Prometheus and Alertmanager client.  [net/http], [net/url] and
    [encoding/json] meet the outside world here: sending a request with the
    settings of an [http.Client], reading and closing the body of the
    response, decoding what was read, and parsing URLs are operations of the
    class [Http] over an abstract state of the network [N], without laws.  The
    context of a request is part of that state. *)
From Stdlib Require Import SpecFloat.
From stdpp Require Import base tactics strings list gmap.
From Stdlib Require Import ZArith.
From S2P Require Import Prelude GoStrings GoConv GoTime GoFloat.

(** ** Data *)

(** A decoded [interface{}]: numbers are [float64]; the program only prints
    arrays and objects, which are their [%v] text here. *)
Inductive jvalue :=
  | JNull | JBool (b : bool) | JNumber (x : float64) | JString (s : string) | JOther (text : string).

Record PromResult := mkPromResult { Metric : gmap string string; Value : list jvalue }.

Record PrometheusQueryResponse := mkQueryResponse {
  q_Status : string; ResultType : string; q_Result : list PromResult }.

Record PrometheusLabelResponse := mkLabelResponse { l_Status : string; l_Data : list string }.

Record Alert := mkAlert {
  Labels : gmap string string;
  Annotations : gmap string string;
  State : string;
  ActiveAt : Time;
  AlertValue : string;
}.

(** [http.Client] with its [http.Transport], as far as [NewClient] sets them. *)
Record tlsConfig := mkTlsConfig { InsecureSkipVerify : bool }.
Record httpTransport := mkTransport { TLSClientConfig : tlsConfig }.
Record http_Client := mkHttpClient { Timeout : Duration; client_Transport : httpTransport }.

Record Client := mkClient {
  httpClient : http_Client;
  prometheusURL : string; alertmanagerURL : string; user : string; pass : string }.

(** The [http.Client] of every client: ten seconds, and no check of the
    server's certificate. *)
Definition default_http : http_Client :=
  mkHttpClient (10 * Second)%Z (mkTransport (mkTlsConfig true)).

(** A GET request: its endpoint, the query parameter added to it, and its
    basic authentication. *)
Record Request := mkRequest {
  req_endpoint : string;
  req_query : option (string * string);
  req_auth : option (string * string);
}.

(** A response; its body is a stream, which [resp_Body] identifies. *)
Record Response := mkResponse { StatusCode : Z; resp_Status : string; resp_Body : string }.

(** ** The world of the client *)

Class Http (N : Type) := {
  http_Do : http_Client → Request → N → (Response + string) * N;
  (** [json.NewDecoder(resp.Body).Decode(&x)]: the body is read as far as the
      decoder needs it. *)
  decode_query : Response → N → (PrometheusQueryResponse + string) * N;
  decode_labels : Response → N → (PrometheusLabelResponse + string) * N;
  decode_alerts : Response → N → (list Alert + string) * N;
  (** [resp.Body.Close()] *)
  body_Close : Response → N → N;
  (** [http.NewRequestWithContext]'s error for an endpoint, if any. *)
  request_error : string → option string;
  (** [url.Parse]: [None] an error, [Some None] no userinfo, else the user
      name and the password ([None] when the URL holds none). *)
  url_parse : string → option (option (string * option string));
  (** [url.ParseRequestURI]'s error. *)
  request_uri_error : string → option string;
}.

Section client.
Context {N : Type} `{HN : !Http N}.
Abbreviation M := (GoM N).

Definition net {A} (op : N → A * N) : M A := λ n, let (a, n') := op n in (Ret a, n').
Definition httpClient_Do (c : Client) (req : Request) : M (Response + string) :=
  net (http_Do (httpClient c) req).
Definition close_body (resp : Response) : M unit := modify (body_Close resp).

(** ** NewClient *)

Definition NewClient (prometheusURL alertmanagerURL : string) : Client + string :=
  let '(user, pass) :=
    match url_parse prometheusURL with
    | Some (Some (u, p)) => (u, default EmptyString p)
    | _ => (EmptyString, EmptyString)
    end in
  match (if decide (prometheusURL = EmptyString) then None else request_uri_error prometheusURL) with
  | Some err => inr ("invalid prometheus URL: " +:+ err)
  | None =>
      match (if decide (alertmanagerURL = EmptyString) then None
             else request_uri_error alertmanagerURL) with
      | Some err => inr ("invalid alertmanager URL: " +:+ err)
      | None =>
          inl (mkClient default_http prometheusURL alertmanagerURL user pass)
      end
  end.

(** Every client has the same [http.Client]. *)
Lemma NewClient_http purl aurl c : NewClient purl aurl = inl c → httpClient c = default_http.
Proof. unfold NewClient. intros Hc. repeat case_match; simplify_eq; done. Qed.

(** The authentication a client adds: only with both a user and a password. *)
Definition basic_auth (c : Client) : option (string * string) :=
  if decide (user c ≠ EmptyString ∧ pass c ≠ EmptyString) then Some (user c, pass c) else None.

(** ** GetActiveAlerts *)

Definition GetActiveAlerts (c : Client) : M (list Alert + string) :=
  let endpoint := alertmanagerURL c +:+ "/api/v2/alerts" in
  match request_error endpoint with
  | Some err => mret (inr ("failed to create request: " +:+ err))
  | None =>
      r ← httpClient_Do c (mkRequest endpoint None (basic_auth c));
      match r with
      | inr err => mret (inr ("failed to execute request to alertmanager: " +:+ err))
      | inl resp =>
          defer (close_body resp)
            (if decide (StatusCode resp ≠ 200%Z) then
               mret (inr ("alertmanager returned non-OK status: " +:+ resp_Status resp))
             else
               decoded ← net (decode_alerts resp);
               match decoded with
               | inr err => mret (inr ("failed to decode alertmanager response: " +:+ err))
               | inl alerts => mret (inl alerts)
               end)
      end
  end.

(** ** ListMetrics and Query *)

(** The selector [job=~"^<job>.*"] of the queries. *)
Definition job_matcher (jobName : string) : string :=
  "job=~" +:+ dquote +:+ "^" +:+ jobName +:+ ".*" +:+ dquote.

Definition ListMetrics (c : Client) (jobName : string) : M (list string + string) :=
  let endpoint := prometheusURL c +:+ "/api/v1/label/__name__/values" in
  match request_error endpoint with
  | Some err => mret (inr ("failed to create request: " +:+ err))
  | None =>
      r ← httpClient_Do c (mkRequest endpoint
            (Some ("match[]", "{" +:+ job_matcher jobName +:+ "}")) (basic_auth c));
      match r with
      | inr err => mret (inr ("failed to execute request: " +:+ err))
      | inl resp =>
          defer (close_body resp)
            (if decide (StatusCode resp ≠ 200%Z) then
               mret (inr ("prometheus returned non-OK status: " +:+ resp_Status resp))
             else
               decoded ← net (decode_labels resp);
               match decoded with
               | inr err => mret (inr ("failed to decode prometheus response: " +:+ err))
               | inl promResp =>
                   if decide (l_Status promResp ≠ "success") then
                     mret (inr ("prometheus returned non-success status: " +:+ l_Status promResp))
                   else mret (inl (l_Data promResp))
               end)
      end
  end.

Definition Query (c : Client) (query : string) : M (PrometheusQueryResponse + string) :=
  let endpoint := prometheusURL c +:+ "/api/v1/query" in
  match request_error endpoint with
  | Some err => mret (inr ("failed to create request: " +:+ err))
  | None =>
      r ← httpClient_Do c (mkRequest endpoint (Some ("query", query)) (basic_auth c));
      match r with
      | inr err => mret (inr ("failed to execute request: " +:+ err))
      | inl resp =>
          defer (close_body resp)
            (if decide (StatusCode resp ≠ 200%Z) then
               mret (inr ("prometheus returned non-OK status: " +:+ resp_Status resp))
             else
               decoded ← net (decode_query resp);
               match decoded with
               | inr err => mret (inr ("failed to decode prometheus response: " +:+ err))
               | inl promResp =>
                   if decide (q_Status promResp ≠ "success") then
                     mret (inr ("prometheus returned non-success status: " +:+ q_Status promResp))
                   else mret (inl promResp)
               end)
      end
  end.
End client.
