(* ===== verification/HttpTrace.v ===== *)
(** * What the monitoring client does to the network

    The operations of [Monitoring] over a network that records what happens
    to it: which request is sent, and what becomes of the body of its answer. *)
From Stdlib Require Import SpecFloat.
From stdpp Require Import base tactics strings list gmap.
From Stdlib Require Import ZArith.
From S2P Require Import Prelude GoStrings GoConv GoTime GoFloat Monitoring.

Inductive http_event :=
  | Failed (hc : http_Client) (req : Request)
  | Answered (hc : http_Client) (req : Request) (resp : Response)
  | BodyRead (resp : Response)
  | BodyClosed (resp : Response).

Section traced.
Context {N : Type} `{HN : !Http N}.

(** The network of [HN] with a record of the exchanges, oldest first. *)
Definition noting {A} (op : N → A * N) (e : A → http_event) (s : N * list http_event) :
    A * (N * list http_event) :=
  let (a, n) := op s.1 in (a, (n, s.2 ++ [e a])).

Definition traced : Http (N * list http_event) := {|
  http_Do hc req := noting (http_Do hc req)
    (λ r, match r with inl resp => Answered hc req resp | inr _ => Failed hc req end);
  decode_query resp := noting (decode_query resp) (λ _, BodyRead resp);
  decode_labels resp := noting (decode_labels resp) (λ _, BodyRead resp);
  decode_alerts resp := noting (decode_alerts resp) (λ _, BodyRead resp);
  body_Close resp s := (body_Close resp s.1, s.2 ++ [BodyClosed resp]);
  request_error := request_error (N := N);
  url_parse := url_parse (N := N);
  request_uri_error := request_uri_error (N := N);
|}.

(** The exchange an operation may leave behind: the request could not be
    built; it was sent and failed; it was answered, and the body was read only
    after a status 200, and closed in any case, once and last. *)
Definition one_exchange (hc : http_Client) (req : Request) (tr : list http_event) : Prop :=
  tr = [] ∨ tr = [Failed hc req] ∨
  ∃ resp, tr = Answered hc req resp :: (if decide (StatusCode resp = 200%Z) then [BodyRead resp] else [])
               ++ [BodyClosed resp].

Ltac exchange_cases :=
  unfold mbind, GoM_bind, httpClient_Do, net, defer, close_body, modify, mret, GoM_ret; simpl;
  unfold noting; simpl;
  destruct (http_Do _ _ _) as [[resp|err] n1]; simpl; [|by eexists; split; [|right; left]];
  destruct (decide (StatusCode resp ≠ 200%Z)) as [?|?%dec_stable]; simpl;
  [|match goal with |- context [?dec resp n1] => destruct (dec resp n1) as [[d|e] n2] end; simpl;
    try case_decide; simpl];
  (eexists; split; [by rewrite <-?app_assoc|]); right; right; exists resp; by case_decide.

(** C21: an operation makes one request, to its own endpoint, with the client's
    credentials when it has both a user and a password; and whatever the
    answer is, the body of the response is closed exactly once, at the end,
    so that no connection is lost.  (The matcher of [ListMetrics] is that of
    [client.go:122], a prefix of the job; [client_test.go] expects the job.) *)
Theorem client_requests c query job n tr :
  let ends {A} (m : GoM (N * list http_event) A) req :=
    ∃ ev, (m (n, tr)).2.2 = tr ++ ev ∧ one_exchange (httpClient c) req ev in
  ends (GetActiveAlerts (HN := traced) c)
    (mkRequest (alertmanagerURL c +:+ "/api/v2/alerts") None (basic_auth c)) ∧
  ends (ListMetrics (HN := traced) c job)
    (mkRequest (prometheusURL c +:+ "/api/v1/label/__name__/values")
       (Some ("match[]", "{" +:+ job_matcher job +:+ "}")) (basic_auth c)) ∧
  ends (Query (HN := traced) c query)
    (mkRequest (prometheusURL c +:+ "/api/v1/query") (Some ("query", query)) (basic_auth c)).
Proof.
  intros ends. split_and!; unfold ends; [unfold GetActiveAlerts|unfold ListMetrics|unfold Query];
    simpl; (destruct (request_error _); [exists []; rewrite app_nil_r; split; [done|by left]|]);
    exchange_cases.
Qed.
End traced.
