(* ===== verification/Dashboard.v ===== *)
(** * [internal/monitoring/dashboard.go]

    [GetStatusDashboard] launches eight goroutines that query Prometheus and
    write into one map of pod statuses under a mutex, and waits for them on a
    [WaitGroup].  The goroutines are the processes of a transition system:
    [main_step] is the launching goroutine, [thread_step t] a query's; a
    schedule is a list of choices between them. *)
From Stdlib Require Import SpecFloat.
From stdpp Require Import base tactics strings list gmap.
From Stdlib Require Import ZArith.
From S2P Require Import Prelude GoStrings GoConv GoTime GoFloat Monitoring.

Record PodStatus := mkPodStatus {
  PodName : string;
  Phase : string;
  Ready : bool;
  CPUUsageCores : float64;
  CPULimitCores : float64;
  MemoryUsageBytes : float64;
  MemoryLimitBytes : float64;
  Restarts : Z;
  OOMKilled : bool;
}.

Definition new_pod_status (name : string) : PodStatus :=
  mkPodStatus name EmptyString false zero64 zero64 zero64 zero64 0 false.

Record ServiceStatusDashboard := mkDashboard {
  ServiceName : string; Alerts : list Alert; Pods : list PodStatus }.

(** ** The queries *)

(** The eight goroutines, by the field they fill. *)
Inductive task := TCpuUsage | TCpuLimit | TMemUsage | TMemLimit | TRestarts | TReady | TPhase | TOom.
#[export] Instance task_eq_dec : EqDecision task.
Proof. solve_decision. Defined.

(** The six goroutines of the [queries] map, then the other two. *)
Definition query_tasks : list task := [TCpuUsage; TCpuLimit; TMemUsage; TMemLimit; TRestarts; TReady].
Definition all_tasks : list task := query_tasks ++ [TPhase; TOom].

Definition quoted (s : string) : string := dquote +:+ s +:+ dquote.

Definition query_of (t : task) (podsRegex : string) : string :=
  let pods := "pod=~" +:+ quoted podsRegex in
  let containers := "container!=" +:+ quoted EmptyString +:+ ", image!~" +:+ quoted ".*pause.*" in
  match t with
  | TCpuUsage => "sum(rate(container_cpu_usage_seconds_total{" +:+ pods +:+ ", " +:+ containers
                 +:+ "}[5m])) by (pod)"
  | TCpuLimit => "sum(kube_pod_container_resource_limits{" +:+ pods +:+ ", resource="
                 +:+ quoted "cpu" +:+ "}) by (pod)"
  | TMemUsage => "sum(container_memory_working_set_bytes{" +:+ pods +:+ ", " +:+ containers
                 +:+ "}) by (pod)"
  | TMemLimit => "sum(kube_pod_container_resource_limits{" +:+ pods +:+ ", resource="
                 +:+ quoted "memory" +:+ "}) by (pod)"
  | TRestarts => "sum(kube_pod_container_status_restarts_total{" +:+ pods +:+ "}) by (pod)"
  | TReady => "kube_pod_status_ready{condition=" +:+ quoted "true" +:+ ", " +:+ pods +:+ "}"
  | TPhase => "kube_pod_status_phase{" +:+ pods +:+ "} > 0"
  | TOom => "kube_pod_container_status_last_terminated_reason{" +:+ pods +:+ ", reason="
            +:+ quoted "OOMKilled" +:+ "}"
  end.

(** The [parser] closures of the six numeric queries. *)
Definition set_number (t : task) (v : float64) (p : PodStatus) : PodStatus :=
  let '(mkPodStatus n ph rd cu cl mu ml rs oom) := p in
  match t with
  | TCpuUsage => mkPodStatus n ph rd v cl mu ml rs oom
  | TCpuLimit => mkPodStatus n ph rd cu v mu ml rs oom
  | TMemUsage => mkPodStatus n ph rd cu cl v ml rs oom
  | TMemLimit => mkPodStatus n ph rd cu cl mu v rs oom
  | TRestarts => mkPodStatus n ph rd cu cl mu ml (int64_of_float v) oom
  | TReady => if float_eq v one64 then mkPodStatus n ph true cu cl mu ml rs oom else p
  | _ => p
  end.
Definition set_phase (phase : string) (p : PodStatus) : PodStatus :=
  let '(mkPodStatus n _ rd cu cl mu ml rs oom) := p in mkPodStatus n phase rd cu cl mu ml rs oom.
Definition set_oom (p : PodStatus) : PodStatus :=
  let '(mkPodStatus n ph rd cu cl mu ml rs _) := p in mkPodStatus n ph rd cu cl mu ml rs true.

(** [result.Value[1].(string)] *)
Definition sample_text (r : PromResult) : outcome string :=
  match Value r !! 1 with
  | None => Panic "index out of range"
  | Some (JString s) => Ret s
  | Some _ => Panic "interface conversion: interface {} is not string"
  end.

(** What one sample does to the status of its pod: the loop bodies of
    [queryAndParse], [queryAndParseLabel] and the OOM goroutine once the pod
    is known to exist.  [Ret None] is a [continue]. *)
Definition sample_effect (t : task) (r : PromResult) : outcome (option (PodStatus → PodStatus)) :=
  match t with
  | TPhase => Ret (set_phase <$> Metric r !! "phase")
  | TOom => Ret (Some set_oom)
  | _ =>
      match sample_text r with
      | Panic w => Panic w
      | Ret s => match ParseFloat s with
                 | (_, Some _) => Ret None
                 | (v, None) => Ret (Some (set_number t v))
                 end
      end
  end.

(** One iteration of the result loop of task [t]. *)
Definition apply_sample (t : task) (r : PromResult) (pods : gmap string PodStatus) :
    outcome (gmap string PodStatus) :=
  match Metric r !! "pod" with
  | None => Ret pods
  | Some podName =>
      match pods !! podName with
      | None => Ret pods
      | Some podStatus =>
          match sample_effect t r with
          | Panic w => Panic w
          | Ret None => Ret pods
          | Ret (Some f) => Ret (<[podName := f podStatus]> pods)
          end
      end
  end.

(** ** The goroutines *)

Inductive tstate :=
  | Unborn                            (** not launched yet *)
  | Querying                          (** launched, before its query *)
  | Waiting (rest : list PromResult)  (** answered, before [mu.Lock()] *)
  | Critical (rest : list PromResult) (** holding the mutex *)
  | Exiting                           (** past [mu.Unlock()], before [wg.Done()] *)
  | Done.

Inductive main_pc :=
  | Launching (tasks : list task)     (** [wg.Add(1); go ...] for each of these *)
  | Joining                           (** in [wg.Wait()] *)
  | Joined.

Record cstate (N : Type) := mkCstate {
  c_net : N;
  c_main : main_pc;
  c_threads : task → tstate;
  c_mutex : option task;
  c_wg : nat;
  c_pods : gmap string PodStatus;
  c_answers : task → list PromResult;  (** the samples each goroutine got *)
  c_crashed : option string;           (** a panic in a goroutine ends the process *)
}.
Arguments mkCstate {N}.
Arguments c_net {N}.
Arguments c_main {N}.
Arguments c_threads {N}.
Arguments c_mutex {N}.
Arguments c_wg {N}.
Arguments c_pods {N}.
Arguments c_answers {N}.
Arguments c_crashed {N}.

Definition set_task {A} (f : task → A) (t : task) (a : A) : task → A :=
  λ t', if decide (t' = t) then a else f t'.

Section goroutines.
Context {N : Type} `{!Http N}.
Variables (c : Client) (podsRegex : string).
Abbreviation st := (cstate N).

(** The launching goroutine. *)
Definition main_step (s : st) : option st :=
  match c_crashed s, c_main s with
  | None, Launching (t :: rest) =>
      Some (mkCstate (c_net s) (Launching rest) (set_task (c_threads s) t Querying) (c_mutex s)
              (S (c_wg s)) (c_pods s) (c_answers s) None)
  | None, Launching [] =>
      Some (mkCstate (c_net s) Joining (c_threads s) (c_mutex s) (c_wg s) (c_pods s)
              (c_answers s) None)
  | None, Joining =>
      if decide (c_wg s = 0)
      then Some (mkCstate (c_net s) Joined (c_threads s) (c_mutex s) (c_wg s) (c_pods s)
                   (c_answers s) None)
      else None
  | _, _ => None
  end.

(** The samples a goroutine goes on with: none after an error or an answer
    that is not a vector, when it returns at once. *)
Definition usable (r : PrometheusQueryResponse + string) : option (list PromResult) :=
  match r with
  | inl resp => if decide (ResultType resp = "vector") then Some (q_Result resp) else None
  | inr _ => None
  end.

(** One step of the goroutine of [t]. *)
Definition thread_step (t : task) (s : st) : option st :=
  match c_crashed s, c_threads s t with
  | None, Querying =>
      match Query c (query_of t podsRegex) (c_net s) with
      | (Ret r, n) =>
          match usable r with
          | Some samples =>
              Some (mkCstate n (c_main s) (set_task (c_threads s) t (Waiting samples)) (c_mutex s)
                      (c_wg s) (c_pods s) (set_task (c_answers s) t samples) None)
          | None =>
              Some (mkCstate n (c_main s) (set_task (c_threads s) t Exiting) (c_mutex s)
                      (c_wg s) (c_pods s) (set_task (c_answers s) t []) None)
          end
      | (Panic w, n) =>
          Some (mkCstate n (c_main s) (c_threads s) (c_mutex s) (c_wg s) (c_pods s)
                  (c_answers s) (Some w))
      end
  | None, Waiting samples =>
      match c_mutex s with
      | Some _ => None
      | None =>
          Some (mkCstate (c_net s) (c_main s) (set_task (c_threads s) t (Critical samples))
                  (Some t) (c_wg s) (c_pods s) (c_answers s) None)
      end
  | None, Critical (r :: rest) =>
      match apply_sample t r (c_pods s) with
      | Ret pods =>
          Some (mkCstate (c_net s) (c_main s) (set_task (c_threads s) t (Critical rest))
                  (c_mutex s) (c_wg s) pods (c_answers s) None)
      | Panic w =>
          Some (mkCstate (c_net s) (c_main s) (c_threads s) (c_mutex s) (c_wg s) (c_pods s)
                  (c_answers s) (Some w))
      end
  | None, Critical [] =>
      Some (mkCstate (c_net s) (c_main s) (set_task (c_threads s) t Exiting) None (c_wg s)
              (c_pods s) (c_answers s) None)
  | None, Exiting =>
      Some (mkCstate (c_net s) (c_main s) (set_task (c_threads s) t Done) (c_mutex s)
              (pred (c_wg s)) (c_pods s) (c_answers s) None)
  | _, _ => None
  end.

(** A schedule picks who moves; a choice that cannot move is skipped. *)
Inductive choice := Main | Thread (t : task).

Definition choose (ch : choice) (s : st) : option st :=
  match ch with Main => main_step s | Thread t => thread_step t s end.

Inductive cstep (s s' : st) : Prop :=
  | cstep_intro ch : choose ch s = Some s' → cstep s s'.

Fixpoint run_schedule (schedule : list choice) (s : st) : st :=
  match schedule with
  | [] => s
  | ch :: rest => run_schedule rest (default s (choose ch s))
  end.

(** The state before the first [go]: every pod has an empty status. *)
Definition initial_pods (names : list string) : gmap string PodStatus :=
  list_to_map ((λ n, (n, new_pod_status n)) <$> names).

Definition launch_state (names : list string) (order : list task) (n : N) : st :=
  mkCstate n (Launching order) (λ _, Unborn) None 0 (initial_pods names) (λ _, []) None.
End goroutines.

(** ** The operation *)

Section dashboard.
Context {N : Type} `{!Http N}.
Abbreviation M := (GoM N).

Definition pods_query (namespace jobName : string) : string :=
  "up{" +:+ job_matcher jobName +:+ ", namespace=" +:+ quoted namespace +:+ "}".

(** The set [podNames] built by the loop, as a map to unit. *)
Fixpoint pod_name_set (results : list PromResult) : gmap string unit :=
  match results with
  | [] => ∅
  | r :: rest =>
      match Metric r !! "pod" with
      | Some podName => <[podName := tt]> (pod_name_set rest)
      | None => pod_name_set rest
      end
  end.

Definition getPodNamesForJob (order : RangeOrder) (c : Client) (namespace jobName : string) :
    M (list string + string) :=
  r ← Query c (pods_query namespace jobName);
  match r with
  | inr err => mret (inr err)
  | inl resp =>
      if decide (ResultType resp ≠ "vector") then
        mret (inr ("unexpected result type for pod name query: " +:+ ResultType resp))
      else mret (inl (map_range order (pod_name_set (q_Result resp))).*1)
  end.

(** The filter of the alert loop: the job exactly, and the namespace unless
    none is asked for. *)
Definition alert_matches (namespace jobName : string) (a : Alert) : bool :=
  bool_decide (map_get (Labels a) "job" = jobName) &&
  (bool_decide (namespace = EmptyString) ||
   bool_decide (map_get (Labels a) "namespace" = namespace)).

(** The whole operation under a schedule of its goroutines and the orders of
    its three [range]s over maps.  [None]: the schedule is too short for the
    operation to return.  A panic of a goroutine ends the process. *)
Record runtime := mkRuntime {
  names_order : RangeOrder;
  launch_order : list task;
  pods_order : RangeOrder;
  schedule : list choice;
}.

Definition join_goroutines (rt : runtime) (c : Client) (names : list string) (n : N) :
    option (outcome (gmap string PodStatus) * N) :=
  let s := run_schedule c (Join names "|") (schedule rt) (launch_state names (launch_order rt) n) in
  match c_crashed s, c_main s with
  | Some w, _ => Some (Panic w, c_net s)
  | None, Joined => Some (Ret (c_pods s), c_net s)
  | None, _ => None
  end.

Definition GetStatusDashboard (rt : runtime) (c : Client) (namespace jobName : string) (n : N) :
    option (outcome (ServiceStatusDashboard + string) * N) :=
  match getPodNamesForJob (names_order rt) c namespace jobName n with
  | (Panic w, n1) => Some (Panic w, n1)
  | (Ret (inr err), n1) =>
      Some (Ret (inr ("could not get pod names for job " +:+ jobName +:+ ": " +:+ err)), n1)
  | (Ret (inl []), n1) => Some (Ret (inl (mkDashboard jobName [] [])), n1)
  | (Ret (inl podNames), n1) =>
      match GetActiveAlerts c n1 with
      | (Panic w, n2) => Some (Panic w, n2)
      | (Ret answer, n2) =>
          let alerts := match answer with
                        | inl all => List.filter (alert_matches namespace jobName) all
                        | inr _ => []
                        end in
          match join_goroutines rt c podNames n2 with
          | Some (Ret pods, n3) =>
              Some (Ret (inl (mkDashboard jobName alerts (map_range (pods_order rt) pods).*2)), n3)
          | Some (Panic w, n3) => Some (Panic w, n3)
          | None => None
          end
      end
  end.
End dashboard.
