(* ===== verification/DashboardFacts.v ===== *)
(** * The goroutines of the dashboard: invariants and confluence *)
From Stdlib Require Import SpecFloat.
From Stdlib Require Import Relation_Operators Lexicographic_Product.
From stdpp Require Import base tactics strings list gmap relations.
From Stdlib Require Import ZArith Lia.
From S2P Require Import Prelude GoStrings GoConv GoTime GoFloat Monitoring Dashboard.

(** ** Fields

    Each task owns one field of a pod status; what it writes there depends on
    nothing else, and it writes nothing else. *)
Inductive fvalue := FF (f : float64) | FZ (z : Z) | FB (b : bool) | FS (s : string).

Definition field (t : task) (p : PodStatus) : fvalue :=
  match t with
  | TCpuUsage => FF (CPUUsageCores p)
  | TCpuLimit => FF (CPULimitCores p)
  | TMemUsage => FF (MemoryUsageBytes p)
  | TMemLimit => FF (MemoryLimitBytes p)
  | TRestarts => FZ (Restarts p)
  | TReady => FB (Ready p)
  | TPhase => FS (Phase p)
  | TOom => FB (OOMKilled p)
  end.

Lemma pod_status_ext p q : PodName p = PodName q → (∀ t, field t p = field t q) → p = q.
Proof.
  destruct p, q. intros Hn Hf. simpl in Hn. subst.
  pose proof (Hf TCpuUsage); pose proof (Hf TCpuLimit); pose proof (Hf TMemUsage);
  pose proof (Hf TMemLimit); pose proof (Hf TRestarts); pose proof (Hf TReady);
  pose proof (Hf TPhase); pose proof (Hf TOom). simpl in *. congruence.
Qed.

(** The effect of one sample on the status of pod [p]. *)
Definition sample_step (t : task) (p : string) (s : PodStatus) (r : PromResult) : PodStatus :=
  if decide (Metric r !! "pod" = Some p) then
    match sample_effect t r with Ret (Some f) => f s | _ => s end
  else s.

Definition samples_on (t : task) (p : string) (rs : list PromResult) (s : PodStatus) : PodStatus :=
  foldl (sample_step t p) s rs.

Lemma sample_effect_cases t r f :
  sample_effect t r = Ret (Some f) →
  (∃ v, f = set_number t v ∧ t ≠ TPhase ∧ t ≠ TOom) ∨ (∃ ph, t = TPhase ∧ f = set_phase ph) ∨
  (t = TOom ∧ f = set_oom).
Proof.
  unfold sample_effect. destruct t; simpl;
    try (destruct (sample_text r) as [txt|]; [|done];
         destruct (ParseFloat txt) as [v [e|]]; intros [= <-]; left; by eexists).
  - destruct (Metric r !! "phase"); intros [= <-]. right; left. by eexists.
  - intros [= <-]. by right; right.
Qed.

Lemma set_number_frame t v s :
  PodName (set_number t v s) = PodName s ∧ ∀ t', t' ≠ t → field t' (set_number t v s) = field t' s.
Proof. destruct s, t; (split; [|intros []]); simpl; intros; repeat case_match; done. Qed.

Lemma effect_frame t r f s :
  sample_effect t r = Ret (Some f) →
  PodName (f s) = PodName s ∧ ∀ t', t' ≠ t → field t' (f s) = field t' s.
Proof.
  intros [(v & -> & _ & _)|[(ph & -> & ->)|[-> ->]]]%sample_effect_cases;
    [apply set_number_frame| |]; (destruct s; split; [done|by intros []]).
Qed.

Lemma effect_own t r f s1 s2 :
  sample_effect t r = Ret (Some f) → field t s1 = field t s2 →
  field t (f s1) = field t (f s2).
Proof.
  intros [(v & -> & _ & _)|[(ph & -> & ->)|[-> ->]]]%sample_effect_cases; destruct s1, s2;
    [|done..]. destruct t; simpl; intros; try done. by case_match.
Qed.

Lemma sample_step_frame t p r s :
  PodName (sample_step t p s r) = PodName s ∧
  ∀ t', t' ≠ t → field t' (sample_step t p s r) = field t' s.
Proof.
  unfold sample_step. case_decide; [|done].
  destruct (sample_effect t r) as [[f|]|] eqn:E; [|done..]. by apply effect_frame with r.
Qed.

Lemma sample_step_own t p r s1 s2 :
  field t s1 = field t s2 → field t (sample_step t p s1 r) = field t (sample_step t p s2 r).
Proof.
  unfold sample_step. intros H. case_decide; [|done].
  destruct (sample_effect t r) as [[f|]|] eqn:E; [|done..]. by apply effect_own with r.
Qed.

Lemma samples_on_frame t p rs s :
  PodName (samples_on t p rs s) = PodName s ∧
  ∀ t', t' ≠ t → field t' (samples_on t p rs s) = field t' s.
Proof.
  revert s. induction rs as [|r rs IH]; intros s; [done|]. simpl.
  destruct (IH (sample_step t p s r)) as [-> Hf], (sample_step_frame t p r s) as [-> Hf'].
  split; [done|]. intros t' Ht'. by rewrite Hf, Hf'.
Qed.

Lemma samples_on_own t p rs s1 s2 :
  field t s1 = field t s2 → field t (samples_on t p rs s1) = field t (samples_on t p rs s2).
Proof.
  revert s1 s2. induction rs as [|r rs IH]; intros s1 s2 H; [done|].
  by apply IH, sample_step_own.
Qed.

Lemma samples_on_snoc t p rs r s :
  samples_on t p (rs ++ [r]) s = sample_step t p (samples_on t p rs s) r.
Proof. unfold samples_on. by rewrite foldl_app. Qed.

(** ** Maps of statuses *)

(** A sample that the loop of [t] can take when the pods are [names]: if its
    pod is known, its value is a string. *)
Definition good_sample (names : list string) (t : task) (r : PromResult) : Prop :=
  ∀ p, Metric r !! "pod" = Some p → p ∈ names → is_ret (sample_effect t r) = true.

(** [pods] holds for each of [names] the statuses [view] describes. *)
Definition holds (names : list string) (pods : gmap string PodStatus)
    (view : task → list PromResult) : Prop :=
  (∀ p, is_Some (pods !! p) ↔ p ∈ names) ∧
  ∀ p s, pods !! p = Some s →
    PodName s = p ∧
    ∀ t, field t s = field t (samples_on t p (view t) (new_pod_status p)).

Lemma holds_initial names : holds names (initial_pods names) (λ _, []).
Proof.
  unfold holds, initial_pods. split.
  - intros p. rewrite <-elem_of_dom, dom_list_to_map_L, elem_of_list_to_set, <-list_fmap_compose.
    simpl. by rewrite list_fmap_id.
  - intros p s Hs%elem_of_list_to_map_2%list_elem_of_fmap.
    destruct Hs as (n & [= -> ->] & _). done.
Qed.

Lemma holds_unique names pods1 pods2 view :
  holds names pods1 view → holds names pods2 view → pods1 = pods2.
Proof.
  intros [Hd1 H1] [Hd2 H2]. apply map_eq. intros p.
  destruct (pods1 !! p) as [s1|] eqn:E1, (pods2 !! p) as [s2|] eqn:E2; [|exfalso..|done].
  - destruct (H1 _ _ E1) as [Hn1 Hf1], (H2 _ _ E2) as [Hn2 Hf2]. f_equal.
    apply pod_status_ext; [congruence|]. intros t. by rewrite Hf1, Hf2.
  - assert (is_Some (pods2 !! p)) as [? ?]; [|congruence]. apply Hd2, Hd1. eauto.
  - assert (is_Some (pods1 !! p)) as [? ?]; [|congruence]. apply Hd1, Hd2. eauto.
Qed.

(** One sample, taken by the loop of [t]: it panics on a bad sample, and
    otherwise extends the view of [t] by the sample. *)
Lemma apply_sample_holds names t r pods view :
  holds names pods view →
  match apply_sample t r pods with
  | Ret pods' => good_sample names t r ∧ holds names pods' (set_task view t (view t ++ [r]))
  | Panic _ => ¬ good_sample names t r
  end.
Proof.
  intros [Hd Hf]. unfold apply_sample, good_sample.
  assert (∀ (Hsame : ∀ p s, pods !! p = Some s → sample_step t p s r = s),
            holds names pods (set_task view t (view t ++ [r]))) as Hkeep.
  { intros Hsame. split; [done|]. intros p s Hs. destruct (Hf p s Hs) as [Hn Hfs].
    split; [done|]. intros t'. unfold set_task. case_decide as Ht; [subst t'|apply Hfs].
    rewrite samples_on_snoc, <-(sample_step_own t p r s) by apply Hfs. by rewrite Hsame. }
  destruct (Metric r !! "pod") as [q|] eqn:Hq; simpl.
  2:{ split; [done|]. apply Hkeep. intros p s _. unfold sample_step. by rewrite Hq. }
  destruct (pods !! q) as [sq|] eqn:Hsq.
  2:{ split.
      - intros p [= <-] Hp%Hd. rewrite Hsq in Hp. by destruct Hp.
      - apply Hkeep. intros p s Hs. unfold sample_step. rewrite decide_False; [done|congruence]. }
  assert (q ∈ names) as Hin by (apply Hd; eauto).
  destruct (sample_effect t r) as [[f|]|w] eqn:E.
  - split; [done|]. split.
    { intros p. rewrite <-Hd, lookup_insert_is_Some. split; [|by destruct (decide (q = p)); auto].
      intros [<-|[_ ?]]; [by rewrite Hsq|done]. }
    intros p s. rewrite lookup_insert_Some. intros [[<- <-]|[Hne Hs]].
    + destruct (Hf q sq Hsq) as [Hn Hfs], (effect_frame t r f sq E) as [Hn' Hf'].
      split; [congruence|]. intros t'. unfold set_task. case_decide as Ht; [subst t'|by rewrite Hf'].
      rewrite samples_on_snoc. unfold sample_step. rewrite Hq, decide_True, E by done.
      by eapply effect_own.
    + destruct (Hf p s Hs) as [Hn Hfs]. split; [done|]. intros t'. unfold set_task.
      case_decide; [subst t'|apply Hfs]. rewrite samples_on_snoc. unfold sample_step.
      rewrite decide_False by congruence. apply Hfs.
  - split; [done|]. apply Hkeep. intros p s _. unfold sample_step. rewrite E. by case_decide.
  - intros Hg. specialize (Hg q eq_refl Hin). done.
Qed.
