(* ===== verification/DashboardConc.v ===== *)
(** * The dashboard's goroutines: invariant, termination, confluence

    One inductive invariant of [Dashboard.cstep] carries mutual exclusion,
    the count of the [WaitGroup] and the contents of the shared map. *)
From Stdlib Require Import SpecFloat.
From stdpp Require Import base tactics strings list gmap relations.
From Stdlib Require Import ZArith Lia.
From S2P Require Import Prelude GoStrings GoConv GoTime GoFloat Monitoring Dashboard DashboardFacts.

(** ** Sums over the eight tasks *)

Lemma elem_of_all_tasks t : t ∈ all_tasks.
Proof. destruct t; set_solver. Qed.

Definition task_sum {A} (f : A → nat) (th : task → A) : nat := sum_list_with (f ∘ th) all_tasks.

Lemma task_sum_set {A} (f : A → nat) (th : task → A) t a :
  task_sum f (set_task th t a) + f (th t) = task_sum f th + f a.
Proof. destruct t; unfold task_sum, set_task; simpl; lia. Qed.

Lemma task_sum_zero {A} (f : A → nat) (th : task → A) :
  task_sum f th = 0 → ∀ t, f (th t) = 0.
Proof. unfold task_sum. simpl. intros ? []; lia. Qed.

Lemma task_sum_nonzero {A} (f : A → nat) (th : task → A) :
  task_sum f th ≠ 0 → ∃ t, f (th t) ≠ 0.
Proof.
  unfold task_sum. induction all_tasks as [|t l IH]; simpl; [done|]. intros H.
  destruct (decide (f (th t) = 0)); [apply IH; lia|by exists t].
Qed.

Lemma set_task_same {A} (th : task → A) t a : set_task th t a t = a.
Proof. unfold set_task. by rewrite decide_True. Qed.
Lemma set_task_other {A} (th : task → A) t t' a : t' ≠ t → set_task th t a t' = th t'.
Proof. intros. unfold set_task. by rewrite decide_False. Qed.

(** A statement about every task after an update of one. *)
Lemma set_task_forall {A} (P : task → A → Prop) (th : task → A) t a :
  (∀ t', P t' (th t')) → P t a → ∀ t', P t' (set_task th t a t').
Proof. intros Hall Ha t'. unfold set_task. case_decide; [by subst|apply Hall]. Qed.

Definition is_active (x : tstate) : nat :=
  match x with Unborn | Done => 0 | _ => 1 end.

Section invariant.
Context {N : Type} `{HttpN : !Http N}.
Variables (c : Client) (podsRegex : string) (names : list string).
Abbreviation st := (cstate N).
Abbreviation step := (cstep c podsRegex).
Implicit Types s : st.

Lemma Query_returns q (n : N) : is_ret (Query c q n).1 = true.
Proof.
  unfold Query. destruct (request_error _); [done|].
  unfold mbind, GoM_bind, httpClient_Do, net, defer, close_body, modify.
  destruct (http_Do _ _ n) as [[resp|e] n']; [|done]. case_decide; [done|].
  destruct (decode_query _ _) as [[pr|e] n'']; [|done]. by case_decide.
Qed.

(** What is known of one goroutine: the samples it was answered, those it
    has already written ([view]). *)
Definition thread_inv (answers view : list PromResult) (x : tstate) : Prop :=
  match x with
  | Unborn | Querying => view = []
  | Waiting rest => view = [] ∧ answers = rest
  | Critical rest => answers = view ++ rest
  | Exiting | Done => answers = view
  end.

(** The answer of [t] is what one of its queries gave. *)
Definition answered (t : task) (answers : list PromResult) : Prop :=
  ∃ n r n', Query c (query_of t podsRegex) n = (Ret r, n') ∧ answers = default [] (usable r).

Definition main_inv (main : main_pc) (th : task → tstate) : Prop :=
  match main with
  | Launching l => NoDup l ∧ ∀ t, t ∈ l ↔ th t = Unborn
  | Joining => ∀ t, th t ≠ Unborn
  | Joined => ∀ t, th t = Done
  end.

Definition mutex_inv (mutex : option task) (th : task → tstate) : Prop :=
  ∀ t, mutex = Some t ↔ ∃ rest, th t = Critical rest.

Record inv (s : st) (view : task → list PromResult) : Prop := mkInv {
  inv_main : main_inv (c_main s) (c_threads s);
  inv_mutex : mutex_inv (c_mutex s) (c_threads s);
  inv_wg : c_wg s = task_sum is_active (c_threads s);
  inv_thread : ∀ t, thread_inv (c_answers s t) (view t) (c_threads s t);
  inv_answered : ∀ t, c_threads s t ≠ Unborn → c_threads s t ≠ Querying →
    answered t (c_answers s t);
  inv_pods : holds names (c_pods s) view;
  inv_good : ∀ t r, r ∈ view t → good_sample names t r;
  inv_crashed : ∀ w, c_crashed s = Some w →
    ∃ t r, r ∈ c_answers s t ∧ answered t (c_answers s t) ∧ ¬ good_sample names t r;
}.

Lemma inv_launch order n :
  order ≡ₚ all_tasks → inv (launch_state names order n) (λ _, []).
Proof.
  intros Ho. split; simpl; try done.
  - split; [rewrite Ho; by apply (bool_decide_unpack _); vm_compute|].
    intros t. rewrite Ho. split; [done|]. intros _. apply elem_of_all_tasks.
  - intros t. split; [done|]. by intros [].
  - apply holds_initial.
  - by intros t r ?%not_elem_of_nil.
Qed.

(** What a goroutine's move does to the parts of the invariant. *)
Definition critical (x : tstate) : Prop := ∃ rest, x = Critical rest.

Lemma main_inv_move main th t x :
  main_inv main th → th t ≠ Unborn → th t ≠ Done → x ≠ Unborn → main_inv main (set_task th t x).
Proof.
  destruct main as [l| |]; simpl.
  - intros [Hnd Hl] Hu _ Hx. split; [done|]. intros t'. unfold set_task.
    case_decide as Ht; [|apply Hl]. subst t'. rewrite Hl. done.
  - intros Hall _ _ Hx. by apply (set_task_forall (λ _ x, x ≠ Unborn)).
  - intros Hall _ Hd. by destruct Hd.
Qed.

Lemma mutex_inv_move mutex th t x :
  mutex_inv mutex th → ¬ critical (th t) → ¬ critical x → mutex_inv mutex (set_task th t x).
Proof.
  intros Hm Ht Hx t'. unfold set_task. case_decide as E; [subst t'|apply Hm].
  rewrite (Hm t). by split; intros ?; exfalso; eauto.
Qed.

Lemma mutex_inv_hold th t rest :
  (∀ t', critical (th t') → t' = t) → mutex_inv (Some t) (set_task th t (Critical rest)).
Proof.
  intros Honly t'. unfold set_task. case_decide as E; [subst t'; naive_solver|].
  split; [congruence|]. intros H%Honly. done.
Qed.

Lemma mutex_inv_release th t x :
  (∀ t', critical (th t') → t' = t) → ¬ critical x → mutex_inv None (set_task th t x).
Proof.
  intros Honly Hx t'. split; [done|]. unfold set_task. case_decide as E; [done|].
  intros Ht'%Honly. done.
Qed.

Lemma mutex_inv_only mutex th t :
  mutex_inv mutex th → critical (th t) → ∀ t', critical (th t') → t' = t.
Proof. intros Hm Ht%Hm t' Ht'%Hm. congruence. Qed.

Lemma mutex_inv_free th t : mutex_inv None th → ∀ t', critical (th t') → t' = t.
Proof. intros Hm t' Ht'%Hm. done. Qed.

Lemma wg_move th t x n :
  n = task_sum is_active th → is_active x = is_active (th t) →
  n = task_sum is_active (set_task th t x).
Proof. intros -> E. pose proof (task_sum_set is_active th t x). lia. Qed.

Lemma inv_main_step s s' view : inv s view → main_step s = Some s' → inv s' view.
Proof.
  intros I. unfold main_step. destruct (c_crashed s) eqn:Ec; [done|].
  pose proof (inv_main s view I) as Hm.
  destruct (c_main s) as [[|t l]| |] eqn:Em; simpl in Hm; [..|done].
  - intros [= <-]. destruct I. split; simpl; try done.
    intros t Hu. by apply Hm, elem_of_nil in Hu.
  - intros [= <-]. destruct Hm as [Hnd Hl]. apply NoDup_cons in Hnd as [Hnt Hnd].
    assert (c_threads s t = Unborn) as Ht by (apply Hl; left).
    destruct I as [_ Imu Iwg Ith Ian Ipo Igo Icr]. split; simpl; try done.
    + split; [done|]. intros t'. unfold set_task. case_decide as E; [by subst t'|].
      rewrite <-Hl, elem_of_cons. naive_solver.
    + apply mutex_inv_move; [done|rewrite Ht|]; by intros [? ?].
    + rewrite Iwg. pose proof (task_sum_set is_active (c_threads s) t Querying).
      rewrite Ht in *. simpl in *. lia.
    + apply (set_task_forall (λ t', thread_inv (c_answers s t') (view t'))); [done|].
      specialize (Ith t). by rewrite Ht in Ith.
    + intros t'. unfold set_task. case_decide; [done|apply Ian].
  - case_decide as Hwg; [|done]. intros [= <-].
    destruct I as [_ Imu Iwg Ith Ian Ipo Igo Icr]. split; simpl; try done.
    intros t. specialize (Hm t). rewrite Hwg in Iwg. symmetry in Iwg.
    pose proof (task_sum_zero _ _ Iwg t) as Hz. by destruct (c_threads s t).
Qed.

Lemma inv_crash s view t r w n :
  inv s view → r ∈ c_answers s t → answered t (c_answers s t) → ¬ good_sample names t r →
  inv (mkCstate n (c_main s) (c_threads s) (c_mutex s) (c_wg s) (c_pods s) (c_answers s) (Some w))
      view.
Proof. intros [] ? ? ?. split; simpl; try done. intros. by exists t, r. Qed.

(** Moves of a goroutine, with what they owe to the invariant. *)
Lemma inv_move s view view' t x mutex wg answers pods n :
  inv s view → c_crashed s = None →
  c_threads s t ≠ Unborn → c_threads s t ≠ Done → x ≠ Unborn →
  mutex_inv mutex (set_task (c_threads s) t x) →
  wg = task_sum is_active (set_task (c_threads s) t x) →
  (∀ t', t' ≠ t → answers t' = c_answers s t' ∧ view' t' = view t') →
  thread_inv (answers t) (view' t) x →
  (x ≠ Querying → answered t (answers t)) →
  holds names pods view' →
  (∀ r, r ∈ view' t → good_sample names t r) →
  inv (mkCstate n (c_main s) (set_task (c_threads s) t x) mutex wg pods answers None) view'.
Proof.
  intros [Ima Imu Iwg Ith Ian Ipo Igo Icr] Hc Hu Hd Hx Hmu Hwg Hother Hth Han Hpo Hgo.
  split; simpl; try done.
  - by apply main_inv_move.
  - intros t'. unfold set_task. case_decide; [by subst t'|].
    destruct (Hother t') as [-> ->]; auto.
  - intros t'. unfold set_task. case_decide; [subst t'; auto|].
    destruct (Hother t') as [-> _]; auto.
  - intros t' r. destruct (decide (t' = t)) as [->|Hne]; [apply Hgo|].
    destruct (Hother t' Hne) as [_ ->]. apply Igo.
Qed.

(** A sample taken in the critical section: it is added to the goroutine's
    share of the view, or it ends the process. *)
Lemma inv_sample t r rest s s' view :
  inv s view → c_threads s t = Critical (r :: rest) → thread_step c podsRegex t s = Some s' →
  ∃ view', inv s' view'.
Proof.
  intros I Et. pose proof I as [Ima Imu Iwg Ith Ian Ipo Igo Icr].
  unfold thread_step. destruct (c_crashed s) eqn:Ec; [done|]. rewrite Et.
  specialize (Ith t) as Itht. specialize (Ian t) as Iant. rewrite Et in Itht, Iant. simpl in Itht.
  pose proof (apply_sample_holds names t r (c_pods s) view Ipo) as Happ.
  destruct (apply_sample t r (c_pods s)) as [pods|w]; intros [= <-].
  - destruct Happ as [Hgood Hpods]. exists (set_task view t (view t ++ [r])).
    apply inv_move with view; rewrite ?Et, ?set_task_same; try done.
    + assert (c_mutex s = Some t) as -> by (apply Imu; rewrite Et; by eexists).
      eapply mutex_inv_hold, mutex_inv_only; [done|]. rewrite Et. by eexists.
    + eapply wg_move; [done|by rewrite Et].
    + intros t' Ht'. by rewrite set_task_other.
    + simpl. by rewrite <-app_assoc.
    + by intros ?; apply Iant.
    + intros r' [Hr| ->%list_elem_of_singleton]%elem_of_app; [by apply Igo|done].
  - exists view. apply inv_crash with t r; try done; [|by apply Iant].
    rewrite Itht. apply elem_of_app. right. left.
Qed.

Lemma inv_thread_step t s s' view :
  inv s view → thread_step c podsRegex t s = Some s' → ∃ view', inv s' view'.
Proof.
  intros I. pose proof I as [Ima Imu Iwg Ith Ian Ipo Igo Icr].
  unfold thread_step. destruct (c_crashed s) eqn:Ec; [done|].
  specialize (Ith t) as Itht. specialize (Ian t) as Iant.
  destruct (c_threads s t) as [| |rest|[|r rest]| |] eqn:Et; simpl in Itht; [done|..|done].
  - destruct (Query c (query_of t podsRegex) (c_net s)) as [[resp|w] n] eqn:Eq.
    2:{ pose proof (Query_returns (query_of t podsRegex) (c_net s)) as Hq. by rewrite Eq in Hq. }
    destruct (usable resp) as [samples|] eqn:Eu; intros [= <-]; exists view;
      apply inv_move with view; rewrite ?Et, ?set_task_same; try done;
      try (apply mutex_inv_move; [done|rewrite Et|]; by intros [? ?]);
      try (eapply wg_move; [done|by rewrite Et]);
      try (by intros t' Ht'; rewrite set_task_other by done);
      try (intros _; eexists _, _, _; split; [done|by rewrite Eu]); try apply Igo; by rewrite Itht.
  - destruct (c_mutex s) eqn:Em; [done|]. intros [= <-]. exists view.
    destruct Itht as [Hv Ha].
    apply inv_move with view; rewrite ?Et; try done; [..|by intros ?; apply Iant|apply Igo].
    + by eapply mutex_inv_hold, mutex_inv_free.
    + eapply wg_move; [done|by rewrite Et].
    + simpl. by rewrite Hv, Ha.
  - intros [= <-]. exists view. rewrite app_nil_r in Itht.
    apply inv_move with view; rewrite ?Et; try done; [..|by intros ?; apply Iant|apply Igo].
    + eapply mutex_inv_release; [|by intros [? ?]]. eapply mutex_inv_only; [done|]. by eexists.
    + eapply wg_move; [done|by rewrite Et].
  - intros Hs. apply (inv_sample t r rest s s' view I Et). unfold thread_step. by rewrite Ec, Et.
  - intros [= <-]. exists view.
    apply inv_move with view; rewrite ?Et; try done; [..|by intros ?; apply Iant|apply Igo].
    + apply mutex_inv_move; [done|rewrite Et|]; by intros [? ?].
    + rewrite Iwg. pose proof (task_sum_set is_active (c_threads s) t Done) as Hs.
      rewrite Et in Hs. simpl in Hs. lia.
Qed.

Lemma inv_reachable s s' view : inv s view → rtc step s s' → ∃ view', inv s' view'.
Proof.
  intros I Hr. revert view I. induction Hr as [|s1 s2 s3 [[|t] Hch] _ IH]; intros view I; [by eexists|..].
  - eapply IH, inv_main_step; done.
  - destruct (inv_thread_step _ _ _ _ I Hch) as [view' I']. by eapply IH.
Qed.
End invariant.
