(* ===== verification/DashboardProps.v ===== *)
(** * Properties of the dashboard

    Termination, absence of deadlock, mutual exclusion and schedule
    independence of the goroutines of [GetStatusDashboard], and the result of
    the whole operation. *)
From Stdlib Require Import SpecFloat.
From stdpp Require Import base tactics strings list gmap relations.
From Stdlib Require Import ZArith Lia.
From S2P Require Import Prelude GoStrings GoConv GoTime GoFloat Monitoring Dashboard DashboardFacts DashboardConc.

(** The sequential reference: every pod gets all answers, one task after the
    other. *)
Definition pod_report (answers : task → list PromResult) (n : string) : PodStatus :=
  foldr (λ t s, samples_on t n (answers t) s) (new_pod_status n) all_tasks.
Definition report (names : list string) (answers : task → list PromResult) : gmap string PodStatus :=
  list_to_map ((λ n, (n, pod_report answers n)) <$> names).

Lemma pod_report_fields answers n (l : list task) :
  NoDup l →
  let s := foldr (λ t s, samples_on t n (answers t) s) (new_pod_status n) l in
  PodName s = n ∧
  ∀ t, field t s = field t (if decide (t ∈ l) then samples_on t n (answers t) (new_pod_status n)
                            else new_pod_status n).
Proof.
  induction l as [|t0 l IH]; intros Hnd; simpl.
  { by split. }
  apply NoDup_cons in Hnd as [Hnt Hnd]. destruct (IH Hnd) as [Hn Hf]. clear IH.
  destruct (samples_on_frame t0 n (answers t0)
              (foldr (λ t s, samples_on t n (answers t) s) (new_pod_status n) l)) as [Hn' Hf'].
  split; [by rewrite Hn'|]. intros t. destruct (decide (t = t0)) as [->|Hne].
  - rewrite decide_True by left. apply samples_on_own. rewrite Hf. by rewrite decide_False.
  - rewrite Hf', Hf by done. by destruct (decide (t ∈ l)), (decide (t ∈ t0 :: l)) as [?|?]; set_solver.
Qed.

Lemma NoDup_all_tasks : NoDup all_tasks.
Proof. apply (bool_decide_unpack _). by vm_compute. Qed.

Lemma report_holds names answers : holds names (report names answers) answers.
Proof.
  unfold holds, report. split.
  - intros p. rewrite <-elem_of_dom, dom_list_to_map_L, elem_of_list_to_set, <-list_fmap_compose.
    simpl. by rewrite list_fmap_id.
  - intros p s Hs%elem_of_list_to_map_2%list_elem_of_fmap.
    destruct Hs as (n & [= -> ->] & _).
    destruct (pod_report_fields answers n all_tasks NoDup_all_tasks) as [Hn Hf].
    split; [done|]. intros t. specialize (Hf t). 
    by rewrite decide_True in Hf by apply elem_of_all_tasks.
Qed.

Section goroutines.
Context {N : Type} `{HttpN : !Http N}.
Variables (c : Client) (podsRegex : string) (names : list string).
Abbreviation st := (cstate N).
Abbreviation step := (cstep c podsRegex).
Implicit Types s : st.

(** ** The measure *)

Definition to_start (x : tstate) : nat := match x with Unborn => 2 | Querying => 1 | _ => 0 end.
Definition to_write (x : tstate) : nat :=
  match x with
  | Waiting l => 3 + length l | Critical l => 2 + length l | Exiting => 1 | _ => 0
  end.
Definition main_weight (m : main_pc) : nat :=
  match m with Launching _ => 2 | Joining => 1 | Joined => 0 end.

Definition measure1 s : nat :=
  task_sum to_start (c_threads s) + main_weight (c_main s) +
  match c_crashed s with None => 1 | Some _ => 0 end.
Definition measure2 s : nat := task_sum to_write (c_threads s).

Definition smaller s' s : Prop :=
  measure1 s' < measure1 s ∨ measure1 s' = measure1 s ∧ measure2 s' < measure2 s.

Lemma smaller_move s s' t x :
  c_crashed s = None → c_crashed s' = None → c_main s' = c_main s →
  c_threads s' = set_task (c_threads s) t x →
  to_start x < to_start (c_threads s t) ∨
  to_start x = to_start (c_threads s t) ∧ to_write x < to_write (c_threads s t) →
  smaller s' s.
Proof.
  unfold smaller, measure1, measure2. intros -> -> -> ->.
  pose proof (task_sum_set to_start (c_threads s) t x).
  pose proof (task_sum_set to_write (c_threads s) t x). lia.
Qed.

Lemma step_smaller s s' view : inv c podsRegex names s view → step s s' → smaller s' s.
Proof.
  intros I [[|t] Hch]; simpl in Hch.
  - unfold main_step in Hch. destruct (c_crashed s) eqn:Ec; [done|].
    pose proof (inv_main _ _ _ _ _ I) as Hm.
    destruct (c_main s) as [[|t l]| |] eqn:Em; [..|done]; simpl in Hm.
    + injection Hch as <-. left. unfold measure1. simpl. rewrite Ec, Em. simpl. lia.
    + injection Hch as <-. assert (c_threads s t = Unborn) as Ht by (apply Hm; left).
      left. unfold measure1. simpl. rewrite Ec, Em. simpl.
      pose proof (task_sum_set to_start (c_threads s) t Querying) as Hs.
      rewrite Ht in Hs. simpl in Hs. lia.
    + case_decide; [|done]. injection Hch as <-. left. unfold measure1. simpl.
      rewrite Ec, Em. simpl. lia.
  - unfold thread_step in Hch. destruct (c_crashed s) eqn:Ec; [done|].
    assert (∀ w n, smaller (mkCstate n (c_main s) (c_threads s) (c_mutex s) (c_wg s) (c_pods s)
                              (c_answers s) (Some w)) s) as Hcrash.
    { intros w n. left. unfold measure1. simpl. rewrite Ec. lia. }
    destruct (c_threads s t) as [| |rest|[|r rest]| |] eqn:Et; [done|..|done];
      repeat case_match; simplify_eq; try done;
      (eapply smaller_move; [done..|]; rewrite Et; simpl; lia).
Qed.

Lemma smaller_wf : well_founded smaller.
Proof.
  intros s. remember (measure1 s) as a eqn:Ha. remember (measure2 s) as b eqn:Hb.
  revert b s Ha Hb. induction a as [a IHa] using lt_wf_ind. intros b.
  induction b as [b IHb] using lt_wf_ind. intros s -> ->. constructor.
  intros s' [Hlt|[Heq Hlt]]; [by eapply IHa|]. eapply IHb; done.
Qed.

Lemma inv_terminates s view : inv c podsRegex names s view → Acc (flip step) s.
Proof.
  revert view. induction (smaller_wf s) as [s _ IH]. intros view I. constructor. intros s' Hs.
  assert (∃ view', inv c podsRegex names s' view') as [view' I'].
  { eapply inv_reachable; [done|]. by apply rtc_once. }
  eapply IH; [|done]. by eapply step_smaller.
Qed.

(** ** Progress *)

Lemma thread_moves t s :
  c_crashed s = None → c_threads s t ≠ Unborn → c_threads s t ≠ Done →
  (c_mutex s = None ∨ critical (c_threads s t) ∨ to_start (c_threads s t) = 1 ∨ c_threads s t = Exiting) →
  ∃ s', step s s'.
Proof.
  intros Hc Hu Hd Hm. cut (∃ s', thread_step c podsRegex t s = Some s').
  { intros [s' Hs]. exists s'. by exists (Thread t). }
  unfold thread_step. rewrite Hc.
  destruct (c_threads s t) as [| |rest|[|r rest]| |] eqn:Et; try done.
  - destruct (Query _ _ _) as [[resp|w] n]; [|by eexists]. destruct (usable _); by eexists.
  - destruct (c_mutex s); [|by eexists]. destruct Hm as [Hm|[[? Hm]|[Hm|Hm]]]; done.
  - by eexists.
  - destruct (apply_sample _ _ _); by eexists.
  - by eexists.
Qed.

Lemma inv_progress s view :
  inv c podsRegex names s view → c_crashed s = None → c_main s = Joined ∨ ∃ s', step s s'.
Proof.
  intros I Hc. pose proof (inv_main _ _ _ _ _ I) as Hm.
  destruct (c_main s) as [[|t l]| |] eqn:Em; [..|by left]; right.
  - eexists. exists Main. simpl. unfold main_step. by rewrite Hc, Em.
  - eexists. exists Main. simpl. unfold main_step. by rewrite Hc, Em.
  - destruct (decide (c_wg s = 0)) as [Hwg|Hwg].
    { eexists. exists Main. simpl. unfold main_step. by rewrite Hc, Em, decide_True. }
    destruct (c_mutex s) as [t|] eqn:Emu.
    + apply (inv_mutex _ _ _ _ _ I) in Emu as [rest Ht].
      apply thread_moves with t; rewrite ?Ht; try done. right; left. by eexists.
    + assert (∃ t, is_active (c_threads s t) ≠ 0) as [t Ht].
      { apply task_sum_nonzero. by rewrite <-(inv_wg _ _ _ _ _ I). }
      apply thread_moves with t; [done|..|by left]; by destruct (c_threads s t).
Qed.

(** ** Theorems about the goroutines *)

Lemma joined_report s view :
  inv c podsRegex names s view → c_main s = Joined →
  c_pods s = report names (c_answers s) ∧ ∀ t, answered c podsRegex t (c_answers s t).
Proof.
  intros I Hj. pose proof (inv_main _ _ _ _ _ I) as Hd. rewrite Hj in Hd. simpl in Hd.
  assert (∀ t, c_answers s t = view t) as Hv.
  { intros t. pose proof (inv_thread _ _ _ _ _ I t) as Ht. by rewrite Hd in Ht. }
  split; [|intros t; by apply (inv_answered _ _ _ _ _ I); rewrite Hd].
  apply holds_unique with names (c_answers s); [|apply report_holds].
  destruct (inv_pods _ _ _ _ _ I) as [Hdom Hf]. split; [done|].
  intros p q Hp. destruct (Hf p q Hp) as [Hn Hfield]. split; [done|].
  intros t. by rewrite Hv.
Qed.

(** C12: whatever the schedule of the eight goroutines and whatever the order
    in which they are launched, when [wg.Wait()] has returned the shared map
    is the sequential reference [report] over the answers the goroutines
    received, and each answer is one of a query of its goroutine: no write is
    lost and no field depends on the interleaving. *)
Theorem dashboard_schedule_independent order n s :
  order ≡ₚ all_tasks → rtc step (launch_state names order n) s → c_main s = Joined →
  c_pods s = report names (c_answers s) ∧ ∀ t, answered c podsRegex t (c_answers s t).
Proof.
  intros Ho Hr. destruct (inv_reachable _ _ _ _ _ _ (inv_launch _ _ _ _ _ Ho) Hr) as [view I].
  by apply joined_report with view.
Qed.

(** C13: the launching goroutine and the eight queries always stop: no
    infinite schedule exists, and a state from which nobody can move is one
    in which a goroutine has panicked or [wg.Wait()] has returned, so the
    mutex and the [WaitGroup] never deadlock. *)
Theorem dashboard_stops order n :
  order ≡ₚ all_tasks →
  Acc (flip step) (launch_state names order n) ∧
  ∀ s, rtc step (launch_state names order n) s →
    c_crashed s = None → c_main s = Joined ∨ ∃ s', step s s'.
Proof.
  intros Ho. pose proof (inv_launch c podsRegex names order n Ho) as I. split.
  - by eapply inv_terminates.
  - intros s Hr Hc. destruct (inv_reachable _ _ _ _ _ _ I Hr) as [view I'].
    by eapply inv_progress.
Qed.

(** At most one goroutine at a time is between [mu.Lock()] and
    [mu.Unlock()], it is the holder of the mutex, and past [wg.Wait()] every
    goroutine is done: the pods are read without a concurrent writer. *)
Theorem dashboard_mutual_exclusion order n s :
  order ≡ₚ all_tasks → rtc step (launch_state names order n) s →
  (∀ t1 t2 l1 l2, c_threads s t1 = Critical l1 → c_threads s t2 = Critical l2 → t1 = t2) ∧
  (∀ t l, c_threads s t = Critical l → c_mutex s = Some t) ∧
  (c_main s = Joined → ∀ t, c_threads s t = Done).
Proof.
  intros Ho Hr. destruct (inv_reachable _ _ _ _ _ _ (inv_launch _ _ _ _ _ Ho) Hr) as [view I].
  pose proof (inv_mutex _ _ _ _ _ I) as Hmu. repeat split.
  - intros t1 t2 l1 l2 H1 H2. by apply (mutex_inv_only _ _ t2 Hmu); eexists.
  - intros t l Ht. apply Hmu. by eexists.
  - intros Hj. pose proof (inv_main _ _ _ _ _ I) as Hm. by rewrite Hj in Hm.
Qed.

(** The process crashes in a goroutine exactly because of a malformed
    sample: a crash means some answer holds a sample of a known pod whose
    [Value[1]] is missing or not a string, and when the operation gets past
    [wg.Wait()] no answer held one. *)
Theorem dashboard_crash order n s :
  order ≡ₚ all_tasks → rtc step (launch_state names order n) s →
  (∀ w, c_crashed s = Some w →
     ∃ t r, r ∈ c_answers s t ∧ answered c podsRegex t (c_answers s t) ∧ ¬ good_sample names t r) ∧
  (c_main s = Joined → ∀ t r, r ∈ c_answers s t → good_sample names t r).
Proof.
  intros Ho Hr. destruct (inv_reachable _ _ _ _ _ _ (inv_launch _ _ _ _ _ Ho) Hr) as [view I].
  split; [apply I|]. intros Hj t r Ht. apply (inv_good _ _ _ _ _ I t r).
  pose proof (inv_main _ _ _ _ _ I) as Hd. rewrite Hj in Hd.
  pose proof (inv_thread _ _ _ _ _ I t) as Hv. rewrite Hd in Hv. simpl in Hv. by rewrite <-Hv.
Qed.
End goroutines.

(** ** The whole operation *)

Section operation.
Context {N : Type} `{HttpN : !Http N}.
Variables (c : Client).

Lemma run_schedule_rtc podsRegex sched (s : cstate N) :
  rtc (cstep c podsRegex) s (run_schedule c podsRegex sched s).
Proof.
  revert s. induction sched as [|ch sched IH]; intros s; simpl; [done|].
  destruct (choose c podsRegex ch s) as [s'|] eqn:E; simpl; [|apply IH].
  eapply rtc_l; [by exists ch|apply IH].
Qed.

Lemma run_schedule_app podsRegex l k (s : cstate N) :
  run_schedule c podsRegex (l ++ k) s = run_schedule c podsRegex k (run_schedule c podsRegex l s).
Proof. revert s. induction l as [|ch l IH]; intros s; [done|apply IH]. Qed.

(** Every run can be continued until the operation is over. *)
Lemma run_to_end podsRegex (s : cstate N) :
  Acc (flip (cstep c podsRegex)) s →
  (∀ s', rtc (cstep c podsRegex) s s' → c_crashed s' = None →
     c_main s' = Joined ∨ ∃ s'', cstep c podsRegex s' s'') →
  ∃ sched, let s' := run_schedule c podsRegex sched s in
    c_crashed s' ≠ None ∨ c_main s' = Joined.
Proof.
  induction 1 as [s _ IH]. intros Hp.
  destruct (c_crashed s) eqn:Ec. { exists []. left. simpl. by rewrite Ec. }
  destruct (Hp s) as [Hj|[s' Hs]]; [done|done|by exists []; right|].
  destruct (IH s' Hs) as [sched Hsched]. { intros s'' Hr. apply Hp. by eapply rtc_l. }
  destruct Hs as [ch Hch]. exists (ch :: sched). simpl. by rewrite Hch.
Qed.

Lemma getPodNamesForJob_NoDup o ns job n names n' :
  getPodNamesForJob o c ns job n = (Ret (inl names), n') → NoDup names.
Proof.
  unfold getPodNamesForJob, mbind, GoM_bind.
  destruct (Query c _ n) as [[[resp|e]|w] n1]; [|done..].
  case_decide; [done|]. intros [= <- _]. apply NoDup_map_range.
Qed.

Lemma join_goroutines_inv rt names n pods n' :
  launch_order rt ≡ₚ all_tasks →
  join_goroutines rt c names n = Some (Ret pods, n') →
  ∃ answers, pods = report names answers ∧ ∀ t, answered c (Join names "|") t (answers t).
Proof.
  intros Ho. unfold join_goroutines. pose proof (run_schedule_rtc (Join names "|") (schedule rt)
    (launch_state names (launch_order rt) n)) as Hr.
  set (s := run_schedule _ _ _ _) in *.
  destruct (c_crashed s) eqn:Ec; [done|]. destruct (c_main s) eqn:Em; [done..|].
  intros [= <- _]. exists (c_answers s).
  destruct (inv_reachable _ _ _ _ _ _ (inv_launch c (Join names "|") names _ n Ho) Hr) as [view I].
  by apply joined_report with view.
Qed.

Lemma report_pods o names answers :
  NoDup names → (map_range o (report names answers)).*2 ≡ₚ pod_report answers <$> names.
Proof.
  intros Hnd. rewrite (map_range_perm o). unfold report.
  rewrite map_to_list_to_map; rewrite <-list_fmap_compose; [done|].
  simpl. by rewrite list_fmap_id.
Qed.

Lemma pod_report_name answers n : PodName (pod_report answers n) = n.
Proof. by destruct (pod_report_fields answers n all_tasks NoDup_all_tasks). Qed.

Lemma pod_name_set_elem results p :
  is_Some (pod_name_set results !! p) ↔ ∃ r, r ∈ results ∧ Metric r !! "pod" = Some p.
Proof.
  induction results as [|r rest IH]; simpl.
  - rewrite lookup_empty, is_Some_alt. split; [done|]. by intros (r & ?%not_elem_of_nil & _).
  - destruct (Metric r !! "pod") as [q|] eqn:E.
    + rewrite lookup_insert_is_Some', IH. split.
      * intros [<-|(r' & Hr & Hp)]; [by exists r; split; [left|]|]. exists r'. by split; [right|].
      * intros (r' & [->|Hr]%elem_of_cons & Hp); [left; congruence|right; by exists r'].
    + rewrite IH. split; intros (r' & Hr & Hp); exists r'; (split; [|done]).
      * by right.
      * apply elem_of_cons in Hr as [->|?]; [congruence|done].
Qed.

(** When the [up] query is answered, [getPodNamesForJob] lists, each
    once and whatever the map order, exactly the values of the [pod] label of
    the samples; an answer that is not a vector is an error. *)
Theorem getPodNamesForJob_exact o ns job n resp n' :
  Query c (pods_query ns job) n = (Ret (inl resp), n') →
  match getPodNamesForJob o c ns job n with
  | (Ret (inl names), _) =>
      ResultType resp = "vector" ∧ NoDup names ∧
      ∀ p, p ∈ names ↔ ∃ r, r ∈ q_Result resp ∧ Metric r !! "pod" = Some p
  | (Ret (inr e), _) =>
      ResultType resp ≠ "vector" ∧
      e = "unexpected result type for pod name query: " +:+ ResultType resp
  | (Panic _, _) => False
  end.
Proof.
  intros Hq. unfold getPodNamesForJob, mbind, GoM_bind. rewrite Hq.
  destruct (decide (ResultType resp = "vector")) as [Hv|Hv].
  2:{ by rewrite decide_True. }
  rewrite decide_False by (intros Hn; by apply Hn). split; [done|]. split; [apply NoDup_map_range|].
  intros p. rewrite <-pod_name_set_elem, list_elem_of_fmap. split.
  - intros ([q []] & -> & Hin%elem_of_map_range). by eexists.
  - intros [[] Hp]. exists (p, tt). by rewrite elem_of_map_range.
Qed.

(** What a dashboard [r] owes to the run of [getPodNamesForJob] and to the
    alerts read after it. *)
Definition dashboard_report (rt : runtime) (ns job : string) (n : N) (r : ServiceStatusDashboard + string) : Prop :=
  match r, getPodNamesForJob (names_order rt) c ns job n with
  | inr e, (Ret (inr e'), _) => e = "could not get pod names for job " +:+ job +:+ ": " +:+ e'
  | inl d, (Ret (inl names), n1) =>
      ServiceName d = job ∧ (PodName <$> Pods d) ≡ₚ names ∧ NoDup names ∧
      (∃ answers, Pods d ≡ₚ pod_report answers <$> names ∧
         (names ≠ [] → ∀ t, answered c (Join names "|") t (answers t))) ∧
      Alerts d = match names, (GetActiveAlerts c n1).1 with
                 | _ :: _, Ret (inl all) => List.filter (alert_matches ns job) all
                 | _, _ => []
                 end
  | _, _ => False
  end.

Lemma GetStatusDashboard_report rt ns job n r n' :
  launch_order rt ≡ₚ all_tasks →
  GetStatusDashboard rt c ns job n = Some (Ret r, n') → dashboard_report rt ns job n r.
Proof.
  intros Ho. unfold dashboard_report, GetStatusDashboard.
  destruct (getPodNamesForJob _ _ _ _ _) as [[[[|p names]|e]|w] n1] eqn:En; [|..|done].
  - intros [= <- <-]. simpl. repeat split; [done|constructor|]. by exists (λ _, []).
  - apply getPodNamesForJob_NoDup in En.
    destruct (GetActiveAlerts c n1) as [[answer|w] n2]; [|done].
    destruct (join_goroutines _ _ _ _) as [[[pods|w] n3]|] eqn:Ej; [|done..].
    intros [= <- <-]. destruct (join_goroutines_inv _ _ _ _ _ Ho Ej) as (answers & -> & Ha).
    cbn [ServiceName Pods Alerts fst]. split; [done|].
    split; [|split; [done|split; [|by destruct answer]]].
    + rewrite report_pods, <-list_fmap_compose by done.
      rewrite (list_fmap_ext _ id) by (intros; apply pod_report_name). by rewrite list_fmap_id.
    + exists answers. split; [by apply report_pods|done].
  - by intros [= <- <-].
Qed.

(** C14: the result of [GetStatusDashboard], for every schedule and every
    iteration order of its maps.  An error is exactly a failed query for the
    pod names; otherwise the dashboard carries the job's name, each pod of the
    job once with the sequential report of the answers of the eight queries,
    and the active alerts of the job (and namespace, if one is given), none
    when Alertmanager failed.  ([dashboard_test.go] expects an empty dashboard
    where the code returns the error, and pods that no query for names gave.) *)
Theorem GetStatusDashboard_result rt ns job n r n' :
  launch_order rt ≡ₚ all_tasks →
  GetStatusDashboard rt c ns job n = Some (Ret r, n') →
  match r, getPodNamesForJob (names_order rt) c ns job n with
  | inr e, (Ret (inr e'), _) => e = "could not get pod names for job " +:+ job +:+ ": " +:+ e'
  | inl d, (Ret (inl names), n1) =>
      ServiceName d = job ∧ (PodName <$> Pods d) ≡ₚ names ∧ NoDup names ∧
      (∃ answers, Pods d ≡ₚ pod_report answers <$> names ∧
         (names ≠ [] → ∀ t, answered c (Join names "|") t (answers t))) ∧
      Alerts d = match names, (GetActiveAlerts c n1).1 with
                 | _ :: _, Ret (inl all) => List.filter (alert_matches ns job) all
                 | _, _ => []
                 end
  | _, _ => False
  end.
Proof. apply GetStatusDashboard_report. Qed.

(** [GetStatusDashboard] returns: any schedule can be continued into one
    under which the operation has returned (or a goroutine has crashed the
    process). *)
Theorem GetStatusDashboard_returns rt ns job n :
  launch_order rt ≡ₚ all_tasks →
  ∃ more, GetStatusDashboard (mkRuntime (names_order rt) (launch_order rt) (pods_order rt)
            (schedule rt ++ more)) c ns job n ≠ None.
Proof.
  intros Ho. unfold GetStatusDashboard. cbn [names_order pods_order launch_order schedule].
  destruct (getPodNamesForJob _ _ _ _ _) as [[[[|p names]|e]|w] n1]; [by exists []| |by exists []|by exists []].
  destruct (GetActiveAlerts c n1) as [[answer|w] n2]; [|by exists []].
  pose proof (run_schedule_rtc (Join (p :: names) "|") (schedule rt)
    (launch_state (p :: names) (launch_order rt) n2)) as Hr.
  destruct (inv_reachable _ _ _ _ _ _ (inv_launch c _ _ _ n2 Ho) Hr) as [view I].
  destruct (run_to_end _ _ (inv_terminates _ _ _ _ _ I)) as [more Hmore].
  { intros s' Hr' Hc. destruct (inv_reachable _ _ _ _ _ _ I Hr') as [view' I'].
    by eapply inv_progress. }
  exists more. unfold join_goroutines. cbn [schedule launch_order]. rewrite run_schedule_app.
  cbv zeta in Hmore. destruct (c_crashed _) eqn:Ec; [done|].
  destruct Hmore as [?|Hj]; [done|]. by rewrite Hj.
Qed.
End operation.

(** ** A sample Prometheus

    It answers every query with two samples, one of a pod nobody asked for,
    and counts the requests. *)
Module Sample.
Definition sample (pod : string) : PromResult :=
  mkPromResult (<["pod" := pod]> (<["phase" := "Running"]> ∅)) [JNumber zero64; JString "1"].

Lemma sample_pod pod : Metric (sample pod) !! "pod" = Some pod.
Proof. apply lookup_insert_eq. Qed.

Definition body_of (req : Request) : string :=
  match req_query req with Some (_, q) => q | None => "alerts" end.

Definition sample_query (body : string) : PrometheusQueryResponse + string :=
  if HasPrefix body "up{"
  then inl (mkQueryResponse "success" "vector" [sample "api-1"; sample "api-2"; mkPromResult ∅ []])
  else inl (mkQueryResponse "success" "vector" [sample "api-1"; sample "ghost"]).

Definition sample_alert (job : string) : Alert := mkAlert {["job" := job]} ∅ "firing" (mkTime 0 0 0) "1".

#[export] Instance sample_http : Http nat := {|
  http_Do hc req n := (inl (mkResponse 200 "200 OK" (body_of req)), S n);
  request_error _ := None;
  url_parse _ := Some None;
  request_uri_error _ := None;
  decode_query resp n := (sample_query (resp_Body resp), n);
  decode_labels _ n := (inl (mkLabelResponse "success" []), n);
  decode_alerts _ n := (inl [sample_alert "api"; sample_alert "db"], n);
  body_Close _ n := n;
|}.

Definition sample_client : Client := mkClient default_http "http://prom" "http://am" EmptyString EmptyString.
Definition two_pods : list string := ["api-1"; "api-2"].

(** Round robin, the last task first. *)
Definition round_robin : list choice :=
  concat (replicate 40 (Main :: Main :: rev (Thread <$> all_tasks))).

Definition sample_run : cstate nat :=
  run_schedule sample_client "api-1|api-2" round_robin (launch_state two_pods all_tasks 0).

Definition sample_runtime : runtime :=
  mkRuntime list_order all_tasks reverse_order round_robin.

Example sample_run_joined : c_main sample_run = Joined.
Proof. vm_compute. reflexivity. Qed.

Lemma dashboard_schedule_independent_witness :
  c_pods sample_run = report two_pods (c_answers sample_run) ∧
  ∀ t, answered sample_client "api-1|api-2" t (c_answers sample_run t).
Proof.
  apply (dashboard_schedule_independent sample_client "api-1|api-2" two_pods all_tasks 0);
    [reflexivity|apply run_schedule_rtc|vm_compute; reflexivity].
Defined.

Lemma dashboard_stops_witness :
  Acc (flip (cstep sample_client "x")) (launch_state two_pods all_tasks 0).
Proof. apply (dashboard_stops sample_client "x" two_pods all_tasks 0). reflexivity. Defined.

Lemma dashboard_mutual_exclusion_witness :
  c_main sample_run = Joined ∧ ∀ t, c_threads sample_run t = Done.
Proof.
  split; [vm_compute; reflexivity|].
  apply (dashboard_mutual_exclusion sample_client "api-1|api-2" two_pods all_tasks 0);
    [reflexivity|apply run_schedule_rtc|vm_compute; reflexivity].
Defined.

Lemma dashboard_crash_witness :
  c_main sample_run = Joined ∧ ∀ t r, r ∈ c_answers sample_run t → good_sample two_pods t r.
Proof.
  split; [vm_compute; reflexivity|].
  apply (dashboard_crash sample_client "api-1|api-2" two_pods all_tasks 0);
    [reflexivity|apply run_schedule_rtc|vm_compute; reflexivity].
Defined.

Definition sample_dashboard : ServiceStatusDashboard :=
  mkDashboard "api" [sample_alert "api"]
    [new_pod_status "api-2"; mkPodStatus "api-1" "Running" true one64 one64 one64 one64 1 true].

Example sample_dashboard_value :
  GetStatusDashboard sample_runtime sample_client EmptyString "api" 0
  = Some (Ret (inl sample_dashboard), 10).
Proof. vm_compute. reflexivity. Qed.

Lemma GetStatusDashboard_result_witness :
  ∃ names n1, getPodNamesForJob list_order sample_client EmptyString "api" 0 = (Ret (inl names), n1)
    ∧ (PodName <$> Pods sample_dashboard) ≡ₚ names.
Proof.
  destruct (getPodNamesForJob list_order sample_client EmptyString "api" 0)
    as [[[names|e]|w] n1] eqn:E; [|vm_compute in E; discriminate..].
  exists names, n1. split; [reflexivity|].
  pose proof (GetStatusDashboard_result sample_client sample_runtime EmptyString "api" 0
    (inl sample_dashboard) 10) as H.
  cbn [names_order sample_runtime] in H. rewrite E in H.
  apply H; [reflexivity|vm_compute; reflexivity].
Defined.

Lemma getPodNamesForJob_exact_witness :
  ∃ names n', getPodNamesForJob reverse_order sample_client "ns" "api" 0 = (Ret (inl names), n') ∧
    ∀ p, p ∈ names ↔ p = "api-1" ∨ p = "api-2".
Proof.
  pose proof (getPodNamesForJob_exact sample_client reverse_order "ns" "api" 0
    (mkQueryResponse "success" "vector" [sample "api-1"; sample "api-2"; mkPromResult ∅ []]) 1
    eq_refl) as H.
  destruct (getPodNamesForJob reverse_order sample_client "ns" "api" 0) as [[[names|e]|w] n'];
    [|by destruct H|done].
  destruct H as (_ & _ & H). exists names, n'. split; [reflexivity|]. intros p. rewrite H. simpl. split.
  - intros (r & Hr & Hp). repeat apply elem_of_cons in Hr as [->|Hr];
      [| | |by apply not_elem_of_nil in Hr]; [rewrite sample_pod in Hp..|done]; left + right; congruence.
  - intros [->| ->]; eexists; (split; [|apply sample_pod]); set_solver.
Defined.

Lemma GetStatusDashboard_returns_witness :
  ∃ more, GetStatusDashboard (mkRuntime list_order all_tasks list_order ([Main] ++ more))
            sample_client EmptyString "api" 0 ≠ None.
Proof.
  apply (GetStatusDashboard_returns sample_client
    (mkRuntime list_order all_tasks list_order [Main])). reflexivity.
Defined.
End Sample.
