(* ===== verification/Messages.v ===== *)
(** * The texts sent to Telegram

    [escapeMarkdown] and [FormatDashboardForTelegram] of
    [internal/bot/handlers/metrics_handlers.go], [GenerateAlertsMessage] of
    [alert_handlers.go] and its twin [checkAlerts] of
    [internal/app/poller_alert.go]. *)
From Stdlib Require Import SpecFloat.
From stdpp Require Import base tactics strings list gmap.
From Stdlib Require Import ZArith.
From S2P Require Import Prelude GoStrings GoConv GoTime GoFloat Monitoring Dashboard.

(** ** Escaping *)

Definition backslash : string := "\".

(** The bytes of the replacer, in its order. *)
Definition special_bytes : list ascii :=
  ["_"; "*"; "["; "]"; "("; ")"; "~"; "`"; ">"; "#"; "+"; "-"; "="; "|"; "{"; "}"; "."; "!"]%char.

Definition escape_table : list (ascii * string) :=
  (λ a, (a, backslash +:+ String a EmptyString)) <$> special_bytes.

Definition escapeMarkdown (s : string) : string := Replace escape_table s.

(** ** The list of alerts *)

Definition alerts_title : string := "🔍 *Проверка алертов:*" +:+ nl +:+ nl.
Definition alerts_active : string := "🔥 *Активные алерты:*" +:+ nl.
Definition alerts_none : string := "✅ *Нет активных алертов*" +:+ nl.

(** One alert, with [f] applied to each of its fields. *)
Definition alert_block (f : string → string) (a : Alert) : string :=
  "> *" +:+ f (map_get (Labels a) "alertname") +:+ "*" +:+ nl +:+
  match Annotations a !! "description" with
  | Some desc => "  _" +:+ f desc +:+ "_" +:+ nl
  | None => EmptyString
  end +:+
  match Labels a !! "severity" with
  | Some severity => "  Severity: `" +:+ f severity +:+ "`" +:+ nl
  | None => EmptyString
  end +:+ nl.

Definition alerts_text (f : string → string) (alerts : list Alert) : string :=
  alerts_title +:+
  match alerts with
  | [] => alerts_none
  | _ => alerts_active +:+ str_concat (alert_block f <$> alerts)
  end.

Section alerts.
Context {N : Type} `{!Http N}.

Definition GenerateAlertsMessage (c : Client) : GoM N (string + string) :=
  r ← GetActiveAlerts c;
  match r with
  | inr err => mret (inr ("ошибка получения активных алертов: " +:+ err))
  | inl alerts => mret (inl (alerts_text escapeMarkdown alerts))
  end.

(** [checkAlerts]: the text it logs, or its error. *)
Definition checkAlerts (c : Client) : GoM N (string + string) :=
  r ← GetActiveAlerts c;
  match r with
  | inr err => mret (inr err)
  | inl alerts => mret (inl (alerts_text id alerts))
  end.
End alerts.

(** ** The dashboard *)

Definition pod_status_text (pod : PodStatus) : string * string :=
  if Ready pod then ("✅", "Ready")
  else if decide (Phase pod = "Running") then ("⏳", "Not Ready")
  else if decide (Phase pod = "Pending") then ("⌛️", "Pending")
  else if decide (Phase pod = "Succeeded") then ("🏁", "Succeeded")
  else ("❌", Phase pod).

Definition MiB (bytes : float64) : float64 :=
  float_div (float_div bytes (float_of_Z 1024)) (float_of_Z 1024).

Definition pod_block (pod : PodStatus) : string :=
  let '(statusIcon, statusText) := pod_status_text pod in
  "```--------------------------------```" +:+ nl +:+
  "*Под:* `" +:+ escapeMarkdown (PodName pod) +:+ "`" +:+ nl +:+
  "*Статус:* " +:+ statusIcon +:+ " " +:+ escapeMarkdown statusText +:+ nl +:+
  "*CPU:* `" +:+ Format_f 2 (CPUUsageCores pod) +:+ " / " +:+ Format_f 2 (CPULimitCores pod)
    +:+ "` cores" +:+ nl +:+
  "*Память:* `" +:+ Format_f 0 (MiB (MemoryUsageBytes pod)) +:+ " / "
    +:+ Format_f 0 (MiB (MemoryLimitBytes pod)) +:+ "` MiB" +:+ nl +:+
  "*Перезапуски:* `" +:+ FormatInt (Restarts pod) +:+ "`" +:+ nl +:+
  if OOMKilled pod then "*OOMKilled:* 💀 `true`" +:+ nl else EmptyString.

Definition dashboard_alert (a : Alert) : string :=
  let summary := map_get (Annotations a) "summary" in
  let summary := if decide (summary = EmptyString) then "Нет описания." else summary in
  "> *" +:+ escapeMarkdown (map_get (Labels a) "alertname") +:+ ":* " +:+ escapeMarkdown summary
  +:+ nl.

Definition FormatDashboardForTelegram (d : ServiceStatusDashboard) : string :=
  "*Статус сервиса: `" +:+ escapeMarkdown (ServiceName d) +:+ "`*" +:+ nl +:+ nl +:+
  match Alerts d with
  | [] => "✅ *Нет активных алертов*\n\n "
  | alerts => "🔥 *Активные алерты:*\n " +:+ str_concat (dashboard_alert <$> alerts) +:+ nl
  end +:+
  match Pods d with
  | [] => "🤷‍♂️ *Подов по запросу не найдено\.*" +:+ nl
  | pods => "💻 *Поды:*\n " +:+ str_concat (pod_block <$> pods)
  end.

(** ** Reading an escaped text back

    MarkdownV2, as the messages rely on it: a backslash takes the byte after
    it literally, and a byte of the table that no backslash precedes is
    markup.  [plain_text s] is the text [s] displays if [s] holds no markup. *)
Fixpoint plain_text (s : string) : option string :=
  match s with
  | EmptyString => Some EmptyString
  | String a s' =>
      if decide (a = "\"%char) then
        match s' with
        | EmptyString => None
        | String b s'' => String b <$> plain_text s''
        end
      else if decide (a ∈ special_bytes) then None
      else String a <$> plain_text s'
  end.

Lemma replacement_special a : a ∈ special_bytes → replacement escape_table a = String "\" (String a EmptyString).
Proof. intros Ha. repeat (apply elem_of_cons in Ha as [->|Ha]; [done|]). by apply elem_of_nil in Ha. Qed.

Lemma backslash_not_special : "\"%char ∉ special_bytes.
Proof. apply (bool_decide_unpack _). by vm_compute. Qed.

Lemma replacement_fst table a : a ∉ table.*1 → replacement table a = String a EmptyString.
Proof.
  induction table as [|[old new] table IH]; simpl; [done|].
  intros [Hne Hin]%not_elem_of_cons. by rewrite decide_False, IH.
Qed.

Lemma escape_table_fst : escape_table.*1 = special_bytes.
Proof. done. Qed.

Lemma replacement_plain a : a ∉ special_bytes → replacement escape_table a = String a EmptyString.
Proof. intros Ha. apply replacement_fst. by rewrite escape_table_fst. Qed.

Lemma escape_cons a s :
  escapeMarkdown (String a s) =
  (if decide (a ∈ special_bytes) then String "\" (String a EmptyString) else String a EmptyString)
  +:+ escapeMarkdown s.
Proof.
  unfold escapeMarkdown. cbn [Replace]. case_decide; [by rewrite replacement_special|by rewrite replacement_plain].
Qed.

(** A text without any byte of the table is left as it is. *)
Lemma escape_id s : (∀ a, a ∈ bytes s → a ∉ special_bytes) → escapeMarkdown s = s.
Proof.
  induction s as [|a s IH]; intros Hs; [done|]. simpl in Hs. rewrite escape_cons, IH by (intros b Hb; apply Hs; by right).
  by rewrite decide_False by (apply Hs; left).
Qed.

(** C39: escaping is exact for a text without backslashes: the escaped text
    holds no markup and displays the text, byte for byte. *)
Theorem escapeMarkdown_plain s : no_byte "\" s → plain_text (escapeMarkdown s) = Some s.
Proof.
  induction s as [|a s IH]; [done|]. intros [Hne Hs]%no_byte_cons. rewrite escape_cons.
  case_decide as Ha; str_simpl; simpl.
  - by rewrite IH.
  - rewrite decide_False, decide_False, IH by done. done.
Qed.

Lemma escapeMarkdown_plain_witness :
  plain_text (escapeMarkdown "api-1 (eu).log!") = Some "api-1 (eu).log!".
Proof. apply escapeMarkdown_plain. by apply (bool_decide_unpack _). Defined.

(** A backslash is not escaped, so it undoes the escape of the special
    byte after it: that byte becomes markup in the message. *)
Theorem escapeMarkdown_backslash l a r :
  no_byte "\" l → a ∈ special_bytes →
  plain_text (escapeMarkdown (l +:+ backslash +:+ String a r)) = None.
Proof.
  intros Hl Ha. induction l as [|b l IH]; str_simpl.
  - unfold backslash. str_simpl. rewrite !escape_cons.
    rewrite (decide_False _ _ backslash_not_special), (decide_True _ _ Ha).
    str_simpl. cbn [plain_text]. rewrite !decide_True by done.
    destruct (decide (a = "\"%char)) as [->|Hne].
    { by apply backslash_not_special in Ha. }
    by rewrite (decide_True _ _ Ha).
  - apply no_byte_cons in Hl as [Hb Hl]. rewrite escape_cons. case_decide; str_simpl; cbn [plain_text].
    + rewrite decide_True by done. by rewrite IH.
    + rewrite !decide_False by done. by rewrite IH.
Qed.

Lemma escapeMarkdown_backslash_witness :
  plain_text (escapeMarkdown ("C:" +:+ backslash +:+ "_x")) = None.
Proof.
  apply (escapeMarkdown_backslash "C:" "_" "x"); by apply (bool_decide_unpack _).
Defined.

(** ** The two lists of alerts *)

(** No field shown for an alert holds a byte of the table. *)
Definition plain (s : string) : Prop := ∀ a, a ∈ bytes s → a ∉ special_bytes.
Definition plain_alert (a : Alert) : Prop :=
  plain (map_get (Labels a) "alertname") ∧
  (∀ d, Annotations a !! "description" = Some d → plain d) ∧
  (∀ v, Labels a !! "severity" = Some v → plain v).

Lemma alert_block_plain a : plain_alert a → alert_block escapeMarkdown a = alert_block id a.
Proof.
  intros (Hn & Hd & Hs). unfold alert_block. rewrite (escape_id _ Hn).
  destruct (Annotations a !! "description") as [d|]; [rewrite (escape_id d) by by apply Hd|];
    (destruct (Labels a !! "severity") as [v|]; [rewrite (escape_id v) by by apply Hs|]); done.
Qed.

Section messages.
Context {N : Type} `{HttpN : !Http N}.

Lemma alerts_text_plain alerts :
  Forall plain_alert alerts → alerts_text escapeMarkdown alerts = alerts_text id alerts.
Proof.
  intros Hp. unfold alerts_text. f_equal.
  destruct alerts as [|a0 l0]; [done|]. f_equal. f_equal.
  induction Hp as [|a l Ha _ IH]; [done|]. cbn. by rewrite alert_block_plain, IH.
Qed.

(** C40: the periodic check and the [/alerts] command agree: from the same
    state of Alertmanager they make the same request, both fail or neither
    does (the command with its own prefix to the error), and when no shown
    field holds a special byte they produce the same text. *)
Theorem checkAlerts_GenerateAlertsMessage c (n : N) :
  (checkAlerts c n).2 = (GenerateAlertsMessage c n).2 ∧
  match (GetActiveAlerts c n).1, (checkAlerts c n).1, (GenerateAlertsMessage c n).1 with
  | Ret (inr e), Ret (inr e1), Ret (inr e2) =>
      e1 = e ∧ e2 = "ошибка получения активных алертов: " +:+ e
  | Ret (inl alerts), Ret (inl t1), Ret (inl t2) => Forall plain_alert alerts → t1 = t2
  | Panic w, Panic w1, Panic w2 => w1 = w ∧ w2 = w
  | _, _, _ => False
  end.
Proof.
  unfold checkAlerts, GenerateAlertsMessage, mbind, GoM_bind.
  destruct (GetActiveAlerts c n) as [[[alerts|e]|w] n']; simpl; [|done..].
  split; [done|]. intros Hp. symmetry. by apply alerts_text_plain.
Qed.
End messages.

(** ** The dashboard's line ends *)

(** The [\n] of three of the dashboard's literals is a backslash and an
    [n], which MarkdownV2 displays as an [n]. *)
Definition literal_newline : string := backslash +:+ "n".

Lemma contains_left s t u : Contains s u = true → Contains (s +:+ t) u = true.
Proof. intros (l & r & ->)%Contains_spec. apply Contains_spec. exists l, (r +:+ t). by str_simpl. Qed.
Lemma contains_right s t u : Contains t u = true → Contains (s +:+ t) u = true.
Proof. intros (l & r & ->)%Contains_spec. apply Contains_spec. exists (s +:+ l), r. by str_simpl. Qed.

(** Every dashboard with pods, and every dashboard without alerts,
    carries a literal backslash followed by [n] where a line should end. *)
Theorem dashboard_literal_newline d :
  Alerts d = [] ∨ Pods d ≠ [] →
  Contains (FormatDashboardForTelegram d) literal_newline = true.
Proof.
  intros Hd. unfold FormatDashboardForTelegram.
  apply contains_right, contains_right, contains_right, contains_right, contains_right.
  destruct Hd as [-> |Hp]; [apply contains_left; vm_compute; reflexivity|].
  apply contains_right. destruct (Pods d); [done|].
  apply contains_left. vm_compute. reflexivity.
Qed.

Lemma dashboard_literal_newline_witness :
  Contains (FormatDashboardForTelegram (mkDashboard "api" [] [])) literal_newline = true.
Proof. apply dashboard_literal_newline. by left. Defined.
