(* ===== verification/Repository.v ===== *)
(** * [internal/db/models] and [internal/db/repository]

    The repository functions are chains of gorm calls.  gorm and PostgreSQL
    are not under [src/]: a chain is recorded as a [query], and what ends a
    chain ([Find], [First], [Scan], [Create], [Update], [Delete]) is an
    operation of the class [Gorm] over an abstract database [W], whose
    laws are in [Database].  An operation answers with the value its destination holds
    afterwards and with the error, which the code returns side by side. *)
From stdpp Require Import base tactics strings list gmap.
From Stdlib Require Import ZArith Lia.
From S2P Require Import Prelude GoStrings GoConv GoTime.

(** ** The models *)

Record User := mkUser {
  u_ID : Z; u_Login : string; u_Password : string; u_IsDuty : bool; u_JobStatus : string }.
Record UserLabel := mkUserLabel {
  ul_ID : Z; ul_UserID : Z; ul_User : User; ul_Label : string }.
Record IncidentHistory := mkIncident { ih_Time : Time; ih_ID : Z; ih_Status : string }.
Record Operation := mkOperation { op_Time : Time; op_ID : Z; op_Text : string }.

(** The zero values of [time.Time] (the year 1), [User] and [UserLabel]. *)
Definition zero_time : Time := mkTime (-62135596800) 0 0.
Definition zero_user : User := mkUser 0 EmptyString EmptyString false EmptyString.

(** [models.User] is the key of a map. *)
#[export] Instance User_eq_dec : EqDecision User.
Proof. solve_decision. Defined.
#[export] Instance User_countable : Countable User.
Proof.
  apply (inj_countable' (λ u, (u_ID u, u_Login u, u_Password u, u_IsDuty u, u_JobStatus u))
           (λ '(i, l, p, d, j), mkUser i l p d j)).
  by intros [].
Defined.

(** The tables of the schema, and the type of their rows. *)
Inductive model := MUser | MUserLabel | MIncidentHistory | MOperation.
Definition row (m : model) : Type :=
  match m with
  | MUser => User | MUserLabel => UserLabel
  | MIncidentHistory => IncidentHistory | MOperation => Operation
  end.

(** The columns gorm derives from the fields of the structs. *)
Definition columns (m : model) : list string :=
  match m with
  | MUser => ["id"; "login"; "password"; "is_duty"; "job_status"]
  | MUserLabel => ["id"; "user_id"; "label"]
  | MIncidentHistory => ["time"; "id"; "status"]
  | MOperation => ["time"; "id"; "text"]
  end.

(** ** Queries *)

Inductive gval := GUint (n : Z) | GBool (b : bool) | GStr (s : string) | GTime (t : Time).

Record query := mkQuery {
  q_table : option string;
  q_select : option string;
  q_joins : list string;
  q_preload : list string;
  q_where : list (string * list gval);
  q_order : list string;
}.

(** [config.DB] and the chain methods. *)
Definition DB : query := mkQuery None None [] [] [] [].
Definition Where (cond : string) (args : list gval) (q : query) : query :=
  mkQuery (q_table q) (q_select q) (q_joins q) (q_preload q) (q_where q ++ [(cond, args)]) (q_order q).
Definition Order (by_ : string) (q : query) : query :=
  mkQuery (q_table q) (q_select q) (q_joins q) (q_preload q) (q_where q) (q_order q ++ [by_]).
Definition Joins (j : string) (q : query) : query :=
  mkQuery (q_table q) (q_select q) (q_joins q ++ [j]) (q_preload q) (q_where q) (q_order q).
Definition Preload (p : string) (q : query) : query :=
  mkQuery (q_table q) (q_select q) (q_joins q) (q_preload q ++ [p]) (q_where q) (q_order q).
Definition Table (t : string) (q : query) : query :=
  mkQuery (Some t) (q_select q) (q_joins q) (q_preload q) (q_where q) (q_order q).
Definition Select (s : string) (q : query) : query :=
  mkQuery (q_table q) (Some s) (q_joins q) (q_preload q) (q_where q) (q_order q).

Class Gorm (W : Type) := {
  (** Whether the variable [config.DB] holds a handle, and its assignment. *)
  gorm_DB : W → bool;
  gorm_set_DB : W → W;
  gorm_set_DB_opens w : gorm_DB (gorm_set_DB w) = true;
  (** [gorm.Open(postgres.Open(dsn), ...)]: only [InitDB] assigns the variable. *)
  gorm_Open : string → W → option string * W;
  gorm_Open_keeps dsn w : gorm_DB (gorm_Open dsn w).2 = gorm_DB w;
  gorm_AutoMigrate : list model → W → option string * W;
  gorm_Find (m : model) : query → W → (list (row m) * option string) * W;
  (** [First], with the primary key given as an inline condition, if any. *)
  gorm_First (m : model) : query → option Z → W → (row m * option string) * W;
  gorm_Create (m : model) : row m → W → (row m * option string) * W;
  gorm_Update (m : model) : query → string → gval → W → option string * W;
  gorm_Delete (m : model) : Z → W → option string * W;
  (** [Scan] into a struct of a [User] and a [Label]. *)
  gorm_Scan : query → W → (list (User * string) * option string) * W;
  gorm_now : W → Time * W;
}.

Section repository.
Context {W : Type} `{!Gorm W}.
Abbreviation M := (GoM W).

(** An operation of the world as a computation, and a call of a method of
    [config.DB]: on the nil handle it panics. *)
Definition lift_op {A} (op : W → A * W) : M A := λ w, let (a, w') := op w in (Ret a, w').
Definition on_DB {A} (op : W → A * W) : M A := λ w,
  if gorm_DB w then lift_op op w else (Panic nil_deref, w).

Definition Find (m : model) (q : query) : M (list (row m) * option string) := on_DB (gorm_Find m q).
Definition First (m : model) (q : query) (key : option Z) : M (row m * option string) :=
  on_DB (gorm_First m q key).
Definition Create (m : model) (r : row m) : M (row m * option string) := on_DB (gorm_Create m r).
Definition Update (m : model) (q : query) (col : string) (v : gval) : M (option string) :=
  on_DB (gorm_Update m q col v).
Definition Now : M Time := lift_op gorm_now.

(** [t.Add(-seconds)] *)
Definition ago (seconds : Z) (t : Time) : Time :=
  mkTime (unix_sec t - seconds) (nsec t) (zone_off t).

(** ** [incident_history_repo.go] *)

Definition CreateIncident (status : string) : M (IncidentHistory * option string) :=
  now ← Now; Create MIncidentHistory (mkIncident now 0 status).

Definition GetUserIncidents (userID : Z) : M (list IncidentHistory * option string) :=
  Find MIncidentHistory (Order "created_at desc" (Where "user_id = ?" [GUint userID] DB)).

Definition GetRecentIncidents : M (list IncidentHistory * option string) :=
  now ← Now;
  Find MIncidentHistory (Order "time desc" (Where "time > ?" [GTime (ago (24 * 3600) now)] DB)).

Definition UpdateIncidentStatus (incidentID : Z) (newStatus : string) : M (option string) :=
  Update MIncidentHistory (Where "id = ?" [GUint incidentID] DB) "status" (GStr newStatus).

Definition GetIncidentsByStatus (status : string) : M (list IncidentHistory * option string) :=
  Find MIncidentHistory (Order "time desc" (Where "status = ?" [GStr status] DB)).

(** ** [operation_repo.go] *)

Definition CreateOperation (text : string) : M (option string) :=
  now ← Now; r ← Create MOperation (mkOperation now 0 text); mret r.2.

Definition GetRecentOperations : M (list Operation * option string) :=
  now ← Now;
  Find MOperation (Order "time desc" (Where "time > ?" [GTime (ago (5 * 60) now)] DB)).

Definition GetUserOperations (userID : Z) : M (list Operation * option string) :=
  Find MOperation (Order "created_at desc" (Where "user_id = ?" [GUint userID] DB)).

Definition GetOperationByID (id : Z) : M (Operation * option string) := First MOperation DB (Some id).

(** ** [user_repo.go] *)

Definition CreateUser (login password jobStatus : string) : M (User * option string) :=
  Create MUser (mkUser 0 login password false jobStatus).

Definition GetUserByID (id : Z) : M (User * option string) := First MUser DB (Some id).

Definition UpdateUserDutyStatus (userID : Z) (isDuty : bool) : M (option string) :=
  Update MUser (Where "id = ?" [GUint userID] DB) "is_duty" (GBool isDuty).

Definition GetAllUsers : M (list User * option string) := Find MUser DB.

Definition GetDutyUsers : M (list User * option string) :=
  Find MUser (Where "is_duty = ?" [GBool true] DB).

Definition AuthenticateUser (login password : string) : M bool :=
  r ← First MUser (Where "login = ? AND password = ?" [GStr login; GStr password] DB) None;
  mret (match r.2 with None => true | Some _ => false end).

(** ** [user_label_repo.go] *)

Definition CreateUserLabel (userID : Z) (label : string) : M (UserLabel * option string) :=
  Create MUserLabel (mkUserLabel 0 0 (mkUser userID EmptyString EmptyString false EmptyString) label).

Definition GetUserLabels (userID : Z) : M (list UserLabel * option string) :=
  Find MUserLabel (Where "user_id = ?" [GUint userID] (Preload "User" DB)).

Definition DeleteUserLabel (labelID : Z) : M (option string) := on_DB (gorm_Delete MUserLabel labelID).

Definition UpdateUserLabel (labelID : Z) (newLabel : string) : M (option string) :=
  Update MUserLabel (Where "id = ?" [GUint labelID] DB) "label" (GStr newLabel).

Definition GetLabelByName (label : string) : M (UserLabel * option string) :=
  First MUserLabel (Where "label = ?" [GStr label] DB) None.

Definition GetDutyUsersByLabel (label : string) : M (list User * option string) :=
  Find MUser (Where "user_labels.label = ? AND users.is_duty = ?" [GStr label; GBool true]
    (Joins "JOIN user_labels ON user_labels.user_id = users.id" DB)).

(** The grouping loop of [GetDutyUsersWithLabels]. *)
Fixpoint group_labels (rows : list (User * string)) (result : gmap User (list string)) :
    gmap User (list string) :=
  match rows with
  | [] => result
  | (user, label) :: rest =>
      group_labels rest (<[user := default [] (result !! user) ++ [label]]> result)
  end.

(** [None] is the nil map returned with an error. *)
Definition GetDutyUsersWithLabels : M (option (gmap User (list string)) * option string) :=
  r ← on_DB (gorm_Scan (Where "users.is_duty = ?" [GBool true]
        (Joins "JOIN user_labels ON user_labels.user_id = users.id"
          (Select "users.*, user_labels.label" (Table "users" DB)))));
  match r.2 with
  | Some err => mret (None, Some err)
  | None => mret (Some (group_labels r.1 ∅), None)
  end.
End repository.

(** ** Facts *)

Definition labels_of (u : User) (rows : list (User * string)) : list string :=
  (filter (λ r, r.1 = u) rows).*2.

Lemma group_labels_lookup rows result u :
  group_labels rows result !! u =
    match labels_of u rows with
    | [] => result !! u
    | labels => Some (default [] (result !! u) ++ labels)
    end.
Proof.
  revert result. induction rows as [|[v l] rows IH]; intros result; [done|]. simpl. rewrite IH.
  unfold labels_of. rewrite filter_cons. simpl. destruct (decide (v = u)) as [->|Hne].
  - rewrite lookup_insert_eq, fmap_cons. destruct ((filter _ rows).*2) as [|l' ls]; [done|].
    simpl. by rewrite <-app_assoc.
  - by rewrite lookup_insert_ne.
Qed.

Lemma elem_of_labels_of u label rows : label ∈ labels_of u rows ↔ (u, label) ∈ rows.
Proof.
  unfold labels_of. rewrite list_elem_of_fmap. split.
  - intros ([v l] & -> & [<- Hin]%list_elem_of_filter). done.
  - intros Hin. exists (u, label). by rewrite list_elem_of_filter.
Qed.

Lemma group_labels_dom rows u : u ∈ dom (group_labels rows ∅) ↔ ∃ label, (u, label) ∈ rows.
Proof.
  rewrite elem_of_dom, group_labels_lookup, lookup_empty. setoid_rewrite <-elem_of_labels_of.
  destruct (labels_of u rows) as [|l ls].
  - split; [by intros []|]. by intros [l Hl%not_elem_of_nil].
  - split; [intros _; exists l; left|by eexists].
Qed.

Lemma group_labels_labels rows u ls : group_labels rows ∅ !! u = Some ls → ls = labels_of u rows.
Proof. rewrite group_labels_lookup, lookup_empty. destruct (labels_of u rows); [done|]. by intros [= <-]. Qed.
