(* ===== verification/Database.v ===== *)
(** * What the repository relies on: PostgreSQL behind gorm

    The text of a condition is related to a small abstract syntax, whose
    meaning is that of SQL on the values of a row; the class [Database] states
    how the operations of [Gorm] answer a query with such a condition.  The
    laws are those of the documentation of SQL and gorm, restricted to the
    statements the repository makes; an operation may always fail. *)
From stdpp Require Import base tactics strings list gmap sorting.
From Stdlib Require Import ZArith.
From S2P Require Import Prelude GoStrings GoConv GoTime Repository.

#[export] Instance gval_eq_dec : EqDecision gval.
Proof. solve_decision. Defined.

(** ** Conditions *)

Inductive condition :=
  | CEq (column : string)       (** [column = ?] *)
  | CGt (column : string)       (** [column > ?] *)
  | CAnd (left right : condition).

Fixpoint condition_text (p : condition) : string :=
  match p with
  | CEq c => c +:+ " = ?"
  | CGt c => c +:+ " > ?"
  | CAnd l r => condition_text l +:+ " AND " +:+ condition_text r
  end.

Fixpoint condition_columns (p : condition) : list string :=
  match p with
  | CEq c | CGt c => [c]
  | CAnd l r => condition_columns l ++ condition_columns r
  end.

(** The placeholders of a condition. *)
Fixpoint arity (p : condition) : nat :=
  match p with CEq _ | CGt _ => 1 | CAnd l r => arity l + arity r end.

(** The value of a column reference in a row. *)
Definition env : Type := list (string * gval).
Fixpoint column_value (c : string) (e : env) : option gval :=
  match e with
  | [] => None
  | (c', v) :: rest => if decide (c = c') then Some v else column_value c rest
  end.

Fixpoint holds (p : condition) (args : list gval) (e : env) : bool :=
  match p with
  | CEq c => bool_decide (column_value c e = head args ∧ head args ≠ None)
  | CGt c =>
      match column_value c e, args with
      | Some (GTime t), GTime u :: _ => After t u
      | Some (GUint n), GUint k :: _ => bool_decide (k < n)%Z
      | _, _ => false
      end
  | CAnd l r => holds l (take (arity l) args) e && holds r (drop (arity l) args) e
  end.

(** ** Rows as environments *)

Definition fields (m : model) : row m → env :=
  match m return row m → env with
  | MUser => λ u, [("id", GUint (u_ID u)); ("login", GStr (u_Login u)); ("password", GStr (u_Password u));
                   ("is_duty", GBool (u_IsDuty u)); ("job_status", GStr (u_JobStatus u))]
  | MUserLabel => λ l, [("id", GUint (ul_ID l)); ("user_id", GUint (ul_UserID l)); ("label", GStr (ul_Label l))]
  | MIncidentHistory => λ i, [("time", GTime (ih_Time i)); ("id", GUint (ih_ID i)); ("status", GStr (ih_Status i))]
  | MOperation => λ o, [("time", GTime (op_Time o)); ("id", GUint (op_ID o)); ("text", GStr (op_Text o))]
  end.

Lemma fields_columns m r : (fields m r).*1 = columns m.
Proof. by destruct m. Qed.

(** The row of a join of [users] and [user_labels], by qualified names. *)
Definition qualify (table : string) (e : env) : env := (λ cv, (table +:+ "." +:+ cv.1, cv.2)) <$> e.
Definition joined_env (u : User) (l : UserLabel) : env :=
  qualify "users" (fields MUser u) ++ qualify "user_labels" (fields MUserLabel l).

(** The inner join on [user_labels.user_id = users.id], and those of its rows
    that satisfy a condition. *)
Definition join_labels (users : list User) (labels : list UserLabel) : list (User * UserLabel) :=
  u ← users; l ← labels; if decide (ul_UserID l = u_ID u) then [(u, l)] else [].
Definition joined_rows (p : condition) (args : list gval) (users : list User) (labels : list UserLabel) :
    list (User * UserLabel) :=
  List.filter (λ ul, holds p args (joined_env ul.1 ul.2)) (join_labels users labels).

(** ** Assignments of an [Update] *)

Definition set_column (m : model) (c : string) (v : gval) : row m → row m :=
  match m return row m → row m with
  | MUser => λ u,
      match v with
      | GBool b => if decide (c = "is_duty")
                   then mkUser (u_ID u) (u_Login u) (u_Password u) b (u_JobStatus u) else u
      | _ => u
      end
  | MUserLabel => λ l,
      match v with
      | GStr s => if decide (c = "label") then mkUserLabel (ul_ID l) (ul_UserID l) (ul_User l) s else l
      | _ => l
      end
  | MIncidentHistory => λ i,
      match v with
      | GStr s => if decide (c = "status") then mkIncident (ih_Time i) (ih_ID i) s else i
      | _ => i
      end
  | MOperation => λ o, o
  end.

Definition row_id (m : model) : row m → Z :=
  match m return row m → Z with
  | MUser => u_ID | MUserLabel => ul_ID | MIncidentHistory => ih_ID | MOperation => op_ID
  end.

(** A row under the identifier the database has given it, as gorm leaves it in
    the object; for a label also the key of its user. *)
Definition with_id (m : model) (id : Z) : row m → row m :=
  match m return row m → row m with
  | MUser => λ u, mkUser id (u_Login u) (u_Password u) (u_IsDuty u) (u_JobStatus u)
  | MUserLabel => λ l, mkUserLabel id (u_ID (ul_User l)) (ul_User l) (ul_Label l)
  | MIncidentHistory => λ i, mkIncident (ih_Time i) id (ih_Status i)
  | MOperation => λ o, mkOperation (op_Time o) id (op_Text o)
  end.

(** The row as the table keeps it: a label holds the key of its user and not
    the user, a column of type [timestamptz] holds its value to the
    precision [db_time] of the server. *)
Definition kept (db_time : Time → Time) (m : model) : row m → row m :=
  match m return row m → row m with
  | MUser => λ u, u
  | MUserLabel => λ l, mkUserLabel (ul_ID l) (ul_UserID l) zero_user (ul_Label l)
  | MIncidentHistory => λ i, mkIncident (db_time (ih_Time i)) (ih_ID i) (ih_Status i)
  | MOperation => λ o, mkOperation (db_time (op_Time o)) (op_ID o) (op_Text o)
  end.

(** What [Create] is given here: no identifier yet, and a label with the key of
    its user. *)
Definition creatable (m : model) : row m → Prop :=
  match m return row m → Prop with
  | MUserLabel => λ l, ul_ID l = 0%Z ∧ u_ID (ul_User l) ≠ 0%Z
  | m => λ r, row_id m r = 0%Z
  end.

(** The user with a key, and a label with its user loaded. *)
Definition user_with (id : Z) (users : list User) : option User :=
  head (List.filter (λ u, bool_decide (u_ID u = id)) users).
Definition with_owner (users : list User) (l : UserLabel) : UserLabel :=
  mkUserLabel (ul_ID l) (ul_UserID l) (default zero_user (user_with (ul_UserID l) users)) (ul_Label l).

(** ** The order of an answer: the text of [Order("time desc")] *)

Definition row_time (m : model) : row m → option Time :=
  match m return row m → option Time with
  | MIncidentHistory => λ i, Some (ih_Time i)
  | MOperation => λ o, Some (op_Time o)
  | _ => λ _, None
  end.

(** [r] may stand before [r'] when the newest come first. *)
Definition not_older (m : model) (r r' : row m) : Prop :=
  match row_time m r, row_time m r' with
  | Some t, Some t' => After t' t = false
  | _, _ => True
  end.

Definition in_order (m : model) (order : list string) (rs : list (row m)) : Prop :=
  order = ["time desc"] → StronglySorted (not_older m) rs.

(** The column an order compares. *)
Definition order_column (o : string) : option string :=
  match Cut " " o with Some (c, rest) => if decide (rest = "desc") then Some c else None | None => None end.

(** ** The database *)

(** A query over one table with at most one condition. *)
Definition simple_query (where_ : list (string * list gval)) (order : list string) : query :=
  mkQuery None None [] [] where_ order.
Definition where_of (pa : option (condition * list gval)) : list (string * list gval) :=
  match pa with Some (p, args) => [(condition_text p, args)] | None => [] end.
Definition selected_by (pa : option (condition * list gval)) (e : env) : bool :=
  match pa with Some (p, args) => holds p args e | None => true end.

(** The condition speaks of columns of the table, one argument each. *)
Definition well_formed (m : model) (pa : option (condition * list gval)) : Prop :=
  match pa with
  | Some (p, args) => condition_columns p ⊆ columns m ∧ arity p = length args
  | None => True
  end.

(** The names of the columns of the join. *)
Definition joined_columns : list string :=
  ((λ c, "users." +:+ c) <$> columns MUser) ++ ((λ c, "user_labels." +:+ c) <$> columns MUserLabel).
Definition well_formed_joined (p : condition) (args : list gval) : Prop :=
  condition_columns p ⊆ joined_columns ∧ arity p = length args.

Definition duty_join : string := "JOIN user_labels ON user_labels.user_id = users.id".

Class Database (W : Type) `{!Gorm W} := {
  (** The contents of the tables. *)
  rows (m : model) : W → list (row m);

  (** A query leaves the tables as they are; without an error it has found
      exactly the rows that satisfy its condition. *)
  find_keeps m q w m' : rows m' (gorm_Find m q w).2 = rows m' w;
  find_rows m pa order w rs :
    (gorm_Find m (simple_query (where_of pa) order) w).1 = (rs, None) → well_formed m pa →
    rs ≡ₚ List.filter (λ r, selected_by pa (fields m r)) (rows m w) ∧ in_order m order rs;
  (** A column that is not in the table is an error. *)
  find_unknown m p args order w :
    Forall (no_byte " ") (condition_columns p) →
    (∃ c, c ∈ condition_columns p ++ omap order_column order ∧ c ∉ columns m) →
    ∃ err, (gorm_Find m (simple_query (where_of (Some (p, args))) order) w).1.2 = Some err;

  (** [First] finds a row that satisfies its condition, or fails; with a
      reachable database it fails only when there is none. *)
  reachable : W → Prop;
  first_keeps m q k w m' : rows m' (gorm_First m q k w).2 = rows m' w;
  first_row m pa w r :
    (gorm_First m (simple_query (where_of pa) []) None w).1 = (r, None) → well_formed m pa →
    r ∈ rows m w ∧ selected_by pa (fields m r) = true;
  first_found m pa w r :
    reachable w → well_formed m pa → r ∈ rows m w → selected_by pa (fields m r) = true →
    (gorm_First m (simple_query (where_of pa) []) None w).1.2 = None;

  (** The join of users and labels, for [Find] and for [Scan]. *)
  find_joined p args w us :
    (gorm_Find MUser (mkQuery None None [duty_join] [] [(condition_text p, args)] []) w).1 = (us, None) →
    well_formed_joined p args →
    us ≡ₚ (joined_rows p args (rows MUser w) (rows MUserLabel w)).*1;
  scan_joined p args w us :
    (gorm_Scan (mkQuery (Some "users") (Some "users.*, user_labels.label") [duty_join] []
                  [(condition_text p, args)] []) w).1 = (us, None) →
    well_formed_joined p args →
    us ≡ₚ (λ ul, (ul.1, ul_Label ul.2)) <$> joined_rows p args (rows MUser w) (rows MUserLabel w);

  (** [Preload("User")] loads the user of every label found. *)
  find_owned pa w ls :
    (gorm_Find MUserLabel (mkQuery None None [] ["User"] (where_of pa) []) w).1 = (ls, None) →
    well_formed MUserLabel pa →
    ls ≡ₚ with_owner (rows MUser w) <$>
      List.filter (λ l, selected_by pa (fields MUserLabel l)) (rows MUserLabel w);

  (** The precision of a stored time. *)
  db_time : Time → Time;
  (** A row is stored under an identifier of its own. *)
  create_row m r w r' w' :
    gorm_Create m r w = ((r', None), w') → creatable m r →
    (∃ id, r' = with_id m id r ∧ ∀ v, v ∈ rows m w → row_id m v ≠ id) ∧
    rows m w' = rows m w ++ [kept db_time m r'];
  (** With a label its user is stored, unless a user has that key already
      (an association is inserted [ON CONFLICT DO NOTHING]); no other table
      changes. *)
  create_owner l w r' w' :
    gorm_Create MUserLabel l w = ((r', None), w') → creatable MUserLabel l →
    rows MUser w' = rows MUser w ++
      match user_with (u_ID (ul_User l)) (rows MUser w) with Some _ => [] | None => [ul_User l] end;
  create_others m r w r' w' m' :
    gorm_Create m r w = ((r', None), w') → m' ≠ m → (m = MUserLabel → m' ≠ MUser) →
    rows m' w' = rows m' w;
  (** [Update] assigns one column of the rows that satisfy the condition. *)
  update_rows m p args c v w w' :
    gorm_Update m (simple_query [(condition_text p, args)] []) c v w = (None, w') →
    well_formed m (Some (p, args)) → c ∈ columns m →
    rows m w' = (λ r, if holds p args (fields m r) then set_column m c v r else r) <$> rows m w ∧
    ∀ m', m' ≠ m → rows m' w' = rows m' w;
  delete_rows m id w w' :
    gorm_Delete m id w = (None, w') →
    rows m w' = List.filter (λ r, bool_decide (row_id m r ≠ id)) (rows m w) ∧
    ∀ m', m' ≠ m → rows m' w' = rows m' w;

  (** An operation that fails changes nothing. *)
  create_fails m r w r' err w' :
    gorm_Create m r w = ((r', Some err), w') → ∀ m', rows m' w' = rows m' w;
  update_fails m q c v w err w' :
    gorm_Update m q c v w = (Some err, w') → ∀ m', rows m' w' = rows m' w;
}.

(** ** Facts *)

Lemma elem_of_join_labels users labels u l :
  (u, l) ∈ join_labels users labels ↔ u ∈ users ∧ l ∈ labels ∧ ul_UserID l = u_ID u.
Proof.
  unfold join_labels. rewrite list_elem_of_bind. split.
  - intros (u' & Hin & Hu'). apply list_elem_of_bind in Hin as (l' & Hin & Hl').
    case_decide; [|by apply not_elem_of_nil in Hin]. apply list_elem_of_singleton in Hin. by simplify_eq.
  - intros (Hu & Hl & Heq). exists u. split; [|done]. apply list_elem_of_bind. exists l.
    split; [|done]. rewrite decide_True by done. by left.
Qed.

Lemma elem_of_filter_bool {A} (f : A → bool) (l : list A) x : x ∈ List.filter f l ↔ x ∈ l ∧ f x = true.
Proof. rewrite !list_elem_of_In. apply filter_In. Qed.

Lemma user_with_Some id users u : user_with id users = Some u → u ∈ users ∧ u_ID u = id.
Proof.
  unfold user_with. intros Hu. destruct (List.filter _ users) as [|v vs] eqn:E; [done|]. injection Hu as ->.
  assert (u ∈ List.filter (λ u, bool_decide (u_ID u = id)) users) as Hin by (rewrite E; left).
  apply elem_of_filter_bool in Hin as [Hin Hid]. by apply bool_decide_eq_true in Hid.
Qed.

Lemma user_with_None id users : user_with id users = None ↔ ∀ u, u ∈ users → u_ID u ≠ id.
Proof.
  unfold user_with. split.
  - intros Hn u Hin Hid. destruct (List.filter _ users) as [|v vs] eqn:E; [|done].
    apply (not_elem_of_nil u). rewrite <-E. apply elem_of_filter_bool. by rewrite bool_decide_true.
  - intros Hall. destruct (List.filter _ users) as [|v vs] eqn:E; [done|].
    assert (v ∈ List.filter (λ u, bool_decide (u_ID u = id)) users) as Hin by (rewrite E; left).
    apply elem_of_filter_bool in Hin as [Hin Hid%bool_decide_eq_true]. by destruct (Hall v Hin).
Qed.
