(* ===== verification/RepositoryProps.v ===== *)
(** * What the repository functions compute from the tables

    Each lookup of [internal/db/repository] against the laws of [Database]:
    the rows it returns are described by a predicate on the tables, whatever
    the state of the database. *)
From stdpp Require Import base tactics strings list gmap sorting.
From Stdlib Require Import ZArith Lia.
From S2P Require Import Prelude GoStrings GoConv GoTime Repository Database.

Section lookups.
Context {W : Type} `{G : !Gorm W} `{DBW : !Database W}.
Implicit Types w : W.

(** A call that returns was made on an open handle. *)
Lemma on_DB_inv {A} (op : W → A * W) w a w' :
  on_DB op w = (Ret a, w') → gorm_DB w = true ∧ op w = (a, w').
Proof.
  unfold on_DB, lift_op. destruct (gorm_DB w); [|done]. destruct (op w) as [b v]. by intros [= -> ->].
Qed.

Lemma on_DB_open {A} (op : W → A * W) w : gorm_DB w = true → on_DB op w = (Ret (op w).1, (op w).2).
Proof. intros Hw. unfold on_DB, lift_op. rewrite Hw. by destruct (op w). Qed.

Lemma Find_keeps m q w r w' m' : gorm_Find m q w = (r, w') → rows m' w' = rows m' w.
Proof. intros Hf. pose proof (find_keeps m q w m') as Hk. by rewrite Hf in Hk. Qed.

(** The rows of a successful [Find] over one table, when the condition is the
    text of [pa]. *)
Lemma Find_rows m pa order w rs w' :
  Find m (simple_query (where_of pa) order) w = (Ret (rs, None), w') → well_formed m pa →
  (∀ r, r ∈ rs ↔ r ∈ rows m w ∧ selected_by pa (fields m r) = true) ∧
  in_order m order rs ∧ ∀ m', rows m' w' = rows m' w.
Proof.
  intros [_ Hf]%on_DB_inv Hwf. destruct (find_rows m pa order w rs) as [Hp Ho]; [by rewrite Hf|done|].
  split; [|split; [done|]].
  - intros r. by rewrite Hp, elem_of_filter_bool.
  - intros m'. by apply (Find_keeps _ _ _ _ _ m' Hf).
Qed.

(** ** Accounts *)

Definition login_condition : condition := CAnd (CEq "login") (CEq "password").

Definition has_account (login password : string) (u : User) : Prop :=
  u_Login u = login ∧ u_Password u = password.

Lemma login_condition_holds login password u :
  holds login_condition [GStr login; GStr password] (fields MUser u) = true ↔ has_account login password u.
Proof.
  unfold has_account. simpl. rewrite andb_true_iff, !bool_decide_eq_true.
  split; [intros [[[= ->] _] [[= ->] _]]; done|]. by intros [-> ->].
Qed.

(** The check of a password answers from the first matching row. *)
Lemma AuthenticateUser_run login password w :
  gorm_DB w = true →
  ∃ w', AuthenticateUser login password w =
    (Ret (match (gorm_First MUser (simple_query (where_of (Some (login_condition,
              [GStr login; GStr password]))) []) None w).1.2 with None => true | Some _ => false end), w') ∧
    ∀ m, rows m w' = rows m w.
Proof.
  intros Hw. unfold AuthenticateUser, mbind, GoM_bind, First. rewrite on_DB_open by done.
  eexists. split; [reflexivity|]. intros m. apply first_keeps.
Qed.

Lemma authenticate_correct login password w :
  gorm_DB w = true → reachable w →
  ∃ b w', AuthenticateUser login password w = (Ret b, w') ∧
    (b = true ↔ ∃ u, u ∈ rows MUser w ∧ has_account login password u) ∧
    ∀ m, rows m w' = rows m w.
Proof.
  intros Hw Hr. destruct (AuthenticateUser_run login password w Hw) as (w' & Hrun & Hk).
  eexists _, w'. split; [exact Hrun|]. split; [|done].
  destruct (gorm_First _ _ _ _) as [[u err] w1] eqn:E. simpl. split.
  - destruct err as [err|]; [done|]. intros _. exists u.
    destruct (first_row MUser (Some (login_condition, [GStr login; GStr password])) w u)
      as [Hin Hsel]; [by rewrite E|by apply (bool_decide_unpack _)|].
    split; [done|]. by apply login_condition_holds.
  - intros (v & Hin & Hv).
    pose proof (first_found MUser (Some (login_condition, [GStr login; GStr password])) w v Hr) as Hf.
    rewrite E in Hf. simpl in Hf. rewrite Hf; [done|by apply (bool_decide_unpack _)|done|].
    by apply login_condition_holds.
Qed.

(** C19: a password check, with a reachable database, answers true exactly
    when some user has that login and that password, and changes no table. *)
Theorem AuthenticateUser_correct login password w :
  gorm_DB w = true → reachable w →
  ∃ b w', AuthenticateUser login password w = (Ret b, w') ∧
    (b = true ↔ ∃ u, u ∈ rows MUser w ∧ u_Login u = login ∧ u_Password u = password) ∧
    ∀ m, rows m w' = rows m w.
Proof. apply authenticate_correct. Qed.

(** A user that [CreateUser] has stored can log in with the login and the
    password given, and no other, is not on duty, and has an identifier no
    other user has. *)
Theorem created_user_can_log_in login password job w u w1 :
  CreateUser login password job w = (Ret (u, None), w1) → gorm_DB w1 = true → reachable w1 →
  u_IsDuty u = false ∧ (∀ v, v ∈ rows MUser w → u_ID v ≠ u_ID u) ∧
  (∃ w2, AuthenticateUser login password w1 = (Ret true, w2)) ∧
  ∀ password', (∀ v, v ∈ rows MUser w → u_Login v ≠ login) → password' ≠ password →
    ∃ w2, AuthenticateUser login password' w1 = (Ret false, w2).
Proof.
  intros [_ Hc]%on_DB_inv Hopen Hr.
  destruct (create_row MUser _ _ _ _ Hc eq_refl) as ((id & -> & Hid) & Hrows).
  split; [done|]. split; [done|]. split.
  - destruct (authenticate_correct login password w1 Hopen Hr) as (b & w2 & Ha & Hb & _).
    exists w2. rewrite Ha. repeat f_equal. apply Hb. eexists. rewrite Hrows.
    split; [apply elem_of_app; right; by left|done].
  - intros password' Hfresh Hne.
    destruct (authenticate_correct login password' w1 Hopen Hr) as (b & w2 & Ha & Hb & _).
    exists w2. rewrite Ha. repeat f_equal. apply not_true_is_false. intros Htrue%Hb.
    destruct Htrue as (v & Hin & Hl & Hp). rewrite Hrows in Hin.
    apply elem_of_app in Hin as [Hin| ->%list_elem_of_singleton]; [by apply (Hfresh v)|]. by apply Hne.
Qed.

(** ** People on duty *)

(** [u] is on duty for [label]. *)
Definition on_duty_for w (label : string) (u : User) : Prop :=
  u ∈ rows MUser w ∧ u_IsDuty u = true ∧
  ∃ l, l ∈ rows MUserLabel w ∧ ul_UserID l = u_ID u ∧ ul_Label l = label.

Definition duty_condition : condition := CAnd (CEq "user_labels.label") (CEq "users.is_duty").

Lemma duty_condition_holds label u l :
  holds duty_condition [GStr label; GBool true] (joined_env u l) = true ↔
    ul_Label l = label ∧ u_IsDuty u = true.
Proof.
  simpl. rewrite andb_true_iff, !bool_decide_eq_true.
  split; [intros [[[= ->] _] [[= ->] _]]; done|]. by intros [-> ->].
Qed.

Lemma duty_users_spec label w us w' :
  GetDutyUsersByLabel label w = (Ret (us, None), w') →
  (∀ u, u ∈ us ↔ on_duty_for w label u) ∧ ∀ m, rows m w' = rows m w.
Proof.
  intros [_ Hf]%on_DB_inv. split.
  - intros u. rewrite (find_joined duty_condition [GStr label; GBool true] w us);
      [|exact (f_equal fst Hf)|by apply (bool_decide_unpack _)].
    unfold joined_rows, on_duty_for. rewrite list_elem_of_fmap. split.
    + intros ([v l] & -> & [Hj Hh]%elem_of_filter_bool). apply elem_of_join_labels in Hj as (Hv & Hl & Heq).
      apply duty_condition_holds in Hh as [Hlab Hd]. by eauto 10.
    + intros (Hu & Hd & l & Hl & Heq & Hlab). exists (u, l). split; [done|].
      apply elem_of_filter_bool. split; [by apply elem_of_join_labels|by apply duty_condition_holds].
  - intros m. by apply (Find_keeps MUser _ _ _ _ m Hf).
Qed.

(** [GetDutyUsersByLabel] returns exactly the users that are on duty and
    carry the label. *)
Theorem GetDutyUsersByLabel_correct label w us w' :
  GetDutyUsersByLabel label w = (Ret (us, None), w') →
  ∀ u, u ∈ us ↔ u ∈ rows MUser w ∧ u_IsDuty u = true ∧
    ∃ l, l ∈ rows MUserLabel w ∧ ul_UserID l = u_ID u ∧ ul_Label l = label.
Proof. intros H. apply (duty_users_spec label w us w' H). Qed.

(** [GetDutyUsersWithLabels] groups the rows it scanned without loss, in their
    order; a database error gives the nil map and that error. *)
Lemma GetDutyUsersWithLabels_groups w m e w' :
  GetDutyUsersWithLabels w = (Ret (m, e), w') →
  ∃ rs, (gorm_Scan (mkQuery (Some "users") (Some "users.*, user_labels.label") [duty_join] []
      [("users.is_duty = ?", [GBool true])] []) w).1 = (rs, e) ∧
    match m, e with
    | Some g, None =>
        (∀ u, u ∈ dom g ↔ ∃ l, (u, l) ∈ rs) ∧ ∀ u ls, g !! u = Some ls → ls = labels_of u rs
    | None, Some _ => True
    | _, _ => False
    end.
Proof.
  unfold GetDutyUsersWithLabels, mbind, GoM_bind, on_DB. destruct (gorm_DB w); [|done].
  unfold lift_op. set (q := Where _ _ _). change (mkQuery _ _ _ _ _ _) with q.
  destruct (gorm_Scan q w) as [[rs err] w1]. simpl. intros Hr. exists rs.
  destruct err as [err|]; injection Hr as <- <- <-; [done|]. split; [done|].
  split; [apply group_labels_dom|apply group_labels_labels].
Qed.

(** C37: [GetDutyUsersWithLabels]: the map holds exactly the users on duty that
    carry a label, each with exactly its labels; a database error gives the
    nil map and that error. *)
Theorem GetDutyUsersWithLabels_correct w m e w' :
  GetDutyUsersWithLabels w = (Ret (m, e), w') →
  match m, e with
  | Some g, None =>
      (∀ u, u ∈ dom g ↔ ∃ label, on_duty_for w label u) ∧
      ∀ u ls, g !! u = Some ls → ∀ label, label ∈ ls ↔ on_duty_for w label u
  | None, Some _ => True
  | _, _ => False
  end.
Proof.
  intros (rs & Hscan & Hg)%GetDutyUsersWithLabels_groups. destruct m as [g|], e as [e|]; try done.
  destruct Hg as [Hdom Hls].
  assert (∀ u label, (u, label) ∈ rs ↔ on_duty_for w label u) as Hrs.
  { intros u label. rewrite (scan_joined (CEq "users.is_duty") [GBool true] w rs Hscan)
      by by apply (bool_decide_unpack _).
    unfold joined_rows, on_duty_for. rewrite list_elem_of_fmap. split.
    - intros ([v l] & [= -> ->] & [Hj Hh]%elem_of_filter_bool).
      apply elem_of_join_labels in Hj as (Hv & Hl & Heq). apply bool_decide_eq_true in Hh as [[= Hd] _].
      by eauto 10.
    - intros (Hu & Hd & l & Hl & Heq & <-). exists (u, l). split; [done|].
      apply elem_of_filter_bool. split; [by apply elem_of_join_labels|].
      apply bool_decide_eq_true. simpl. by rewrite Hd. }
  split.
  - intros u. rewrite Hdom. by setoid_rewrite Hrs.
  - intros u ls ->%Hls label. by rewrite elem_of_labels_of, Hrs.
Qed.

(** After [UpdateUserDutyStatus] has returned nil, the users of
    [GetDutyUsers] are those on duty before, but for the user updated, who is
    among them exactly if the new status says so. *)
Theorem UpdateUserDutyStatus_roster id isDuty w w1 us w2 :
  UpdateUserDutyStatus id isDuty w = (Ret None, w1) → GetDutyUsers w1 = (Ret (us, None), w2) →
  ∀ u, u ∈ us ↔
    if decide (u_ID u = id)
    then isDuty = true ∧ u_IsDuty u = true ∧ ∃ v, v ∈ rows MUser w ∧
         u = mkUser (u_ID v) (u_Login v) (u_Password v) true (u_JobStatus v)
    else u ∈ rows MUser w ∧ u_IsDuty u = true.
Proof.
  intros [_ Hu]%on_DB_inv Hf u.
  destruct (update_rows MUser (CEq "id") [GUint id] _ _ _ _ Hu) as [Hrows _];
    [by apply (bool_decide_unpack _)|by apply (bool_decide_unpack _)|].
  destruct (Find_rows MUser (Some (CEq "is_duty", [GBool true])) [] _ _ _ Hf) as (Hus & _);
    [by apply (bool_decide_unpack _)|].
  rewrite Hus, Hrows, list_elem_of_fmap. simpl. rewrite bool_decide_eq_true.
  assert (∀ v, bool_decide (Some (GUint (u_ID v)) = Some (GUint id) ∧ Some (GUint id) ≠ None)
            = bool_decide (u_ID v = id)) as Hid.
  { intros v. apply bool_decide_ext. split; [by intros [[= ?] _]|by intros ->]. }
  setoid_rewrite Hid. split.
  - intros [(v & -> & Hv) [[= Hd] _]]. destruct (decide (u_ID v = id)) as [Hvid|Hvid].
    + rewrite bool_decide_true in * by done. simpl in *. rewrite decide_True by done.
      subst isDuty. split; [done|]. split; [done|]. by exists v.
    + rewrite bool_decide_false in * by done. by rewrite decide_False.
  - case_decide as Huid.
    + intros (-> & Hd & v & Hv & ->). simpl in Huid. split; [|done].
      exists v. by rewrite bool_decide_true.
    + intros [Hu' Hd]. split; [|by rewrite Hd]. exists u. by rewrite bool_decide_false.
Qed.

(** ** History *)

Definition recent_condition : condition := CGt "time".

(** C38: [GetRecentIncidents] returns exactly the incidents of the last 24
    hours, counted from the clock at the call, the newest first; and
    [GetRecentOperations] the operations of the last five minutes. *)
Theorem recent_history w :
  (∀ rs w', GetRecentIncidents w = (Ret (rs, None), w') →
     (∀ i, i ∈ rs ↔ i ∈ rows MIncidentHistory (gorm_now w).2 ∧
                    After (ih_Time i) (ago (24 * 3600) (gorm_now w).1) = true) ∧
     StronglySorted (λ i j, After (ih_Time j) (ih_Time i) = false) rs) ∧
  (∀ rs w', GetRecentOperations w = (Ret (rs, None), w') →
     (∀ o, o ∈ rs ↔ o ∈ rows MOperation (gorm_now w).2 ∧
                    After (op_Time o) (ago (5 * 60) (gorm_now w).1) = true) ∧
     StronglySorted (λ i j, After (op_Time j) (op_Time i) = false) rs).
Proof.
  unfold GetRecentIncidents, GetRecentOperations, mbind, GoM_bind, Now, lift_op.
  destruct (gorm_now w) as [t w1]. split; intros rs w' Hf.
  - destruct (Find_rows MIncidentHistory (Some (recent_condition, [GTime (ago (24 * 3600) t)])) ["time desc"]
      _ _ _ Hf) as (Hrs & Ho & _); [by apply (bool_decide_unpack _)|]. split; [apply Hrs|by apply Ho].
  - destruct (Find_rows MOperation (Some (recent_condition, [GTime (ago (5 * 60) t)])) ["time desc"]
      _ _ _ Hf) as (Hrs & Ho & _); [by apply (bool_decide_unpack _)|]. split; [apply Hrs|by apply Ho].
Qed.

(** No table of incidents or operations records a user: the columns of the
    models have no [user_id] and no [created_at], so [GetUserIncidents] and
    [GetUserOperations] never return without an error. *)
Theorem user_queries_fail userID w w' :
  (∀ rs e, GetUserIncidents userID w = (Ret (rs, e), w') → e ≠ None) ∧
  (∀ rs e, GetUserOperations userID w = (Ret (rs, e), w') → e ≠ None).
Proof.
  assert (∀ m, "user_id" ∉ columns m → ∀ rs e,
            Find m (Order "created_at desc" (Where "user_id = ?" [GUint userID] DB)) w = (Ret (rs, e), w') →
            e ≠ None) as Hfail.
  { intros m Hm rs e [_ Hf]%on_DB_inv.
    destruct (find_unknown m (CEq "user_id") [GUint userID] ["created_at desc"] w) as [err Herr].
    - by apply (bool_decide_unpack _).
    - exists "user_id". split; [left|done].
    - intros ->. apply (f_equal (λ r, r.1.2)) in Hf. discriminate (eq_trans (eq_sym Herr) Hf). }
  split; intros rs e Hf; [apply (Hfail MIncidentHistory) in Hf|apply (Hfail MOperation) in Hf];
    try done; by apply (bool_decide_unpack _).
Qed.
End lookups.
