(* ===== verification/MemDb.v ===== *)
(** * A database in memory

    An executable instance of [Gorm] that satisfies the laws of [Database]:
    tables are lists, the text of a condition is parsed back, and every
    statement outside that language is answered by an error. *)
From stdpp Require Import base tactics strings list gmap sorting.
From Stdlib Require Import ZArith Lia.
From S2P Require Import Prelude GoStrings GoConv GoTime Repository Database RepositoryProps.

(** ** Parsing a condition *)

Fixpoint parse_words (words : list string) : option (list condition) :=
  match words with
  | [c; op; "?"] =>
      if decide (op = "=") then Some [CEq c] else if decide (op = ">") then Some [CGt c] else None
  | c :: op :: "?" :: "AND" :: rest =>
      ps ← parse_words rest;
      if decide (op = "=") then Some (CEq c :: ps)
      else if decide (op = ">") then Some (CGt c :: ps) else None
  | _ => None
  end.

Definition parse_condition (text : string) : option (list condition) :=
  parse_words (Split text " ").

(** The comparisons of a condition, from left to right. *)
Fixpoint comparisons (p : condition) : list condition :=
  match p with CAnd l r => comparisons l ++ comparisons r | _ => [p] end.

Fixpoint all_hold (ps : list condition) (args : list gval) (e : env) : bool :=
  match ps, args with
  | [], [] => true
  | p :: ps, a :: args => holds p [a] e && all_hold ps args e
  | _, _ => false
  end.

Lemma all_hold_app ps qs args args' e :
  length args = length ps → all_hold (ps ++ qs) (args ++ args') e = all_hold ps args e && all_hold qs args' e.
Proof.
  revert args. induction ps as [|p ps IH]; intros [|a args] Hlen; try discriminate Hlen; [done|].
  cbn [app all_hold]. injection Hlen as Hlen. by rewrite IH, andb_assoc.
Qed.

Lemma length_comparisons p : length (comparisons p) = arity p.
Proof. induction p; simpl; [done..|]. rewrite length_app. lia. Qed.

Lemma all_hold_comparisons p args e :
  arity p = length args → all_hold (comparisons p) args e = holds p args e.
Proof.
  revert args. induction p as [c|c|l IHl r IHr]; intros args Hlen;
    [destruct args as [|a [|]]; try discriminate Hlen; apply andb_true_r..|].
  simpl in *. rewrite <-(take_drop (arity l) args) at 1.
  rewrite all_hold_app by (rewrite length_take, length_comparisons; lia).
  rewrite IHl, IHr; [done|rewrite length_drop; lia|rewrite length_take; lia].
Qed.

Lemma Split_comparison c op rest :
  no_byte " " c → no_byte " " op →
  Split (c +:+ String " " (op +:+ String " " ("?" +:+ String " " ("AND" +:+ String " " rest)))) " " =
  c :: op :: "?" :: "AND" :: Split rest " ".
Proof. intros Hc Ho. rewrite !Split_cons; [done|by apply (bool_decide_unpack _)..|done|done]. Qed.

Lemma Split_last c op :
  no_byte " " c → no_byte " " op → Split (c +:+ String " " (op +:+ String " " "?")) " " = [c; op; "?"].
Proof. intros Hc Ho. rewrite !Split_cons, Split_word; [done|by apply (bool_decide_unpack _)|done|done]. Qed.

(** The words of [p] followed by another condition. *)
Lemma parse_and p rest ps :
  Forall (no_byte " ") (condition_columns p) → parse_words (Split rest " ") = Some ps →
  parse_words (Split (condition_text p +:+ " AND " +:+ rest) " ") = Some (comparisons p ++ ps).
Proof.
  revert rest ps. induction p as [c|c|l IHl r IHr]; intros rest ps Hc Hps; cbn [condition_text].
  - inversion_clear Hc as [|? ? Hn _]. rewrite str_app_assoc.
    refine (eq_trans (f_equal parse_words (Split_comparison c "=" rest Hn _)) _);
      [by apply (bool_decide_unpack _)|].
    cbn. by rewrite Hps.
  - inversion_clear Hc as [|? ? Hn _]. rewrite str_app_assoc.
    refine (eq_trans (f_equal parse_words (Split_comparison c ">" rest Hn _)) _);
      [by apply (bool_decide_unpack _)|].
    cbn. by rewrite Hps.
  - cbn [condition_columns] in Hc. apply Forall_app in Hc as [Hl Hr]. cbn [comparisons].
    rewrite !str_app_assoc, <-app_assoc. apply IHl; [done|]. by apply IHr.
Qed.

Lemma parse_condition_text p :
  Forall (no_byte " ") (condition_columns p) → parse_condition (condition_text p) = Some (comparisons p).
Proof.
  unfold parse_condition. induction p as [c|c|l IHl r IHr]; intros Hc; cbn [condition_text].
  - inversion_clear Hc as [|? ? Hn _].
    refine (f_equal parse_words (Split_last c "=" Hn _)). by apply (bool_decide_unpack _).
  - inversion_clear Hc as [|? ? Hn _].
    refine (f_equal parse_words (Split_last c ">" Hn _)). by apply (bool_decide_unpack _).
  - cbn [condition_columns] in Hc. apply Forall_app in Hc as [Hl Hr]. apply parse_and; [done|by apply IHr].
Qed.

(** ** The tables *)

Record MemDb := mkMemDb {
  m_users : list User;
  m_labels : list UserLabel;
  m_incidents : list IncidentHistory;
  m_operations : list Operation;
  m_clock : Time;
  m_up : bool;       (** the server answers *)
  m_open : bool;     (** [config.DB] holds a handle *)
}.

Definition table_of (m : model) (db : MemDb) : list (row m) :=
  match m return list (row m) with
  | MUser => m_users db | MUserLabel => m_labels db
  | MIncidentHistory => m_incidents db | MOperation => m_operations db
  end.

Definition set_table (m : model) : list (row m) → MemDb → MemDb :=
  match m return list (row m) → MemDb → MemDb with
  | MUser => λ l db, mkMemDb l (m_labels db) (m_incidents db) (m_operations db) (m_clock db) (m_up db) (m_open db)
  | MUserLabel => λ l db, mkMemDb (m_users db) l (m_incidents db) (m_operations db) (m_clock db) (m_up db) (m_open db)
  | MIncidentHistory => λ l db, mkMemDb (m_users db) (m_labels db) l (m_operations db) (m_clock db) (m_up db) (m_open db)
  | MOperation => λ l db, mkMemDb (m_users db) (m_labels db) (m_incidents db) l (m_clock db) (m_up db) (m_open db)
  end.

Lemma table_set m l db : table_of m (set_table m l db) = l.
Proof. by destruct m. Qed.
Lemma table_set_ne m m' l db : m' ≠ m → table_of m' (set_table m l db) = table_of m' db.
Proof. by destruct m, m'. Qed.

Definition zero_row (m : model) : row m :=
  match m return row m with
  | MUser => zero_user
  | MUserLabel => mkUserLabel 0 0 zero_user EmptyString
  | MIncidentHistory => mkIncident zero_time 0 EmptyString
  | MOperation => mkOperation zero_time 0 EmptyString
  end.

Definition fresh_id (m : model) (db : MemDb) : Z := (1 + foldr Z.max 0 (row_id m <$> table_of m db))%Z.

(** A [timestamptz] holds microseconds. *)
Definition to_microseconds (t : Time) : Time :=
  mkTime (unix_sec t) (nsec t - nsec t mod 1000) (zone_off t).

(** ** Statements *)

(** The comparisons of a [Where] over the given columns. *)
Definition where_clause (cols : list string) (cond : string * list gval) : option (list condition) :=
  ps ← parse_condition cond.1;
  if decide (Forall (λ c, c ∈ cols) (ps ≫= condition_columns)) then Some ps else None.

Definition refused : string := "ERROR: column does not exist (SQLSTATE 42703)".
Definition no_server : string := "dial tcp: connection refused".

Definition selection (m : model) (q : query) (db : MemDb) : list (row m) + string :=
  if negb (m_up db) then inr no_server
  else if decide (q_joins q ≠ [] ∨ q_table q ≠ None ∨ ¬ Forall (λ c, c ∈ columns m) (omap order_column (q_order q)))
  then inr refused
  else match q_where q with
       | [] => inl (table_of m db)
       | [cond] =>
           match where_clause (columns m) cond with
           | Some ps => inl (List.filter (λ r, all_hold ps cond.2 (fields m r)) (table_of m db))
           | None => inr refused
           end
       | _ => inr refused
       end.

#[export] Instance not_older_dec m : RelDecision (not_older m).
Proof. intros r r'. unfold not_older. destruct (row_time m r), (row_time m r'); apply _. Defined.

Definition ordered (m : model) (order : list string) (rs : list (row m)) : list (row m) :=
  if decide (order = ["time desc"]) then merge_sort (not_older m) rs else rs.

Definition join_selection (cond : string * list gval) (db : MemDb) : list (User * UserLabel) + string :=
  if negb (m_up db) then inr no_server
  else match where_clause joined_columns cond with
       | Some ps => inl (List.filter (λ ul, all_hold ps cond.2 (joined_env ul.1 ul.2))
                           (join_labels (m_users db) (m_labels db)))
       | None => inr refused
       end.

Definition mem_joined (q : query) (db : MemDb) : list (User * UserLabel) + string :=
  match q_where q with
  | [cond] => if decide (q_joins q = [duty_join]) then join_selection cond db else inr refused
  | _ => inr refused
  end.

Definition preloaded (m : model) (q : query) (db : MemDb) : list (row m) → list (row m) :=
  match m return list (row m) → list (row m) with
  | MUserLabel => λ ls, if decide (q_preload q = ["User"]) then with_owner (m_users db) <$> ls else ls
  | _ => λ rs, rs
  end.

Definition mem_find (m : model) (q : query) (db : MemDb) : list (row m) * option string :=
  match m, q_joins q return list (row m) * option string with
  | MUser, _ :: _ => match mem_joined q db with
                     | inl rs => (rs.*1, None)
                     | inr err => ([], Some err)
                     end
  | m, _ => match selection m q db with
            | inl rs => (preloaded m q db (ordered m (q_order q) rs), None)
            | inr err => ([], Some err)
            end
  end.

Definition mem_first (m : model) (q : query) (key : option Z) (db : MemDb) : row m * option string :=
  match selection m q db with
  | inr err => (zero_row m, Some err)
  | inl rs =>
      match List.filter (λ r, match key with Some k => bool_decide (row_id m r = k) | None => true end) rs with
      | r :: _ => (r, None)
      | [] => (zero_row m, Some "record not found")
      end
  end.

(** The user stored with a label. *)
Definition with_association (m : model) : row m → MemDb → MemDb :=
  match m return row m → MemDb → MemDb with
  | MUserLabel => λ l db,
      match user_with (u_ID (ul_User l)) (m_users db) with
      | Some _ => db
      | None => set_table MUser (m_users db ++ [ul_User l]) db
      end
  | _ => λ _ db, db
  end.

Definition mem_create (m : model) (r : row m) (db : MemDb) : (row m * option string) * MemDb :=
  if m_up db
  then let r' := with_id m (fresh_id m db) r in
       ((r', None), with_association m r (set_table m (table_of m db ++ [kept to_microseconds m r']) db))
  else ((r, Some no_server), db).

Definition mem_update (m : model) (q : query) (c : string) (v : gval) (db : MemDb) : option string * MemDb :=
  match q_where q with
  | [cond] =>
      match where_clause (columns m) cond with
      | Some ps =>
          if m_up db && bool_decide (c ∈ columns m)
          then (None, set_table m ((λ r, if all_hold ps cond.2 (fields m r) then set_column m c v r else r)
                                     <$> table_of m db) db)
          else (Some no_server, db)
      | None => (Some refused, db)
      end
  | _ => (Some refused, db)
  end.

Definition mem_delete (m : model) (id : Z) (db : MemDb) : option string * MemDb :=
  if m_up db
  then (None, set_table m (List.filter (λ r, bool_decide (row_id m r ≠ id)) (table_of m db)) db)
  else (Some no_server, db).

Definition mem_scan (q : query) (db : MemDb) : list (User * string) * option string :=
  match mem_joined q db with
  | inl rs => ((λ ul, (ul.1, ul_Label ul.2)) <$> rs, None)
  | inr err => ([], Some err)
  end.

Definition with_handle (db : MemDb) : MemDb :=
  mkMemDb (m_users db) (m_labels db) (m_incidents db) (m_operations db) (m_clock db) (m_up db) true.

#[export] Instance mem_gorm : Gorm MemDb := {|
  gorm_DB := m_open;
  gorm_set_DB := with_handle;
  gorm_set_DB_opens _ := eq_refl;
  gorm_Open _ db := (if m_up db then None else Some no_server, db);
  gorm_Open_keeps _ _ := eq_refl;
  gorm_AutoMigrate _ db := (if m_up db then None else Some no_server, db);
  gorm_Find m q db := (mem_find m q db, db);
  gorm_First m q k db := (mem_first m q k db, db);
  gorm_Create := mem_create;
  gorm_Update := mem_update;
  gorm_Delete := mem_delete;
  gorm_Scan q db := (mem_scan q db, db);
  gorm_now db := (m_clock db, db);
|}.

(** ** The laws *)

Lemma where_clause_text cols p args :
  Forall (no_byte " ") cols → condition_columns p ⊆ cols →
  where_clause cols (condition_text p, args) = Some (comparisons p).
Proof.
  intros Hsp Hcols. unfold where_clause. cbn [fst].
  rewrite parse_condition_text by (apply Forall_forall; intros c Hc; eapply Forall_forall, Hcols; done).
  cbn. rewrite decide_True; [done|]. apply Forall_forall. intros c Hc. apply Hcols.
  clear -Hc. induction p as [c'|c'|l IHl r IHr]; simpl in *;
    [done..|]. rewrite bind_app in Hc. apply elem_of_app in Hc as [Hc|Hc]; apply elem_of_app; auto.
Qed.

Lemma columns_no_space m : Forall (no_byte " ") (columns m).
Proof. destruct m; by apply (bool_decide_unpack _). Qed.
Lemma joined_no_space : Forall (no_byte " ") joined_columns.
Proof. by apply (bool_decide_unpack _). Qed.

#[export] Instance not_older_trans m : Transitive (not_older m).
Proof.
  intros x y z. unfold not_older. destruct m; simpl; try done;
    rewrite <-!not_true_iff_false, !After_spec; lia.
Qed.
#[export] Instance not_older_total m : Total (not_older m).
Proof.
  intros x y. unfold not_older. destruct m; simpl; try (by left);
    rewrite <-!not_true_iff_false, !After_spec; lia.
Qed.

(** The rows a simple query selects. *)
Lemma selection_simple m pa order db rs :
  selection m (simple_query (where_of pa) order) db = inl rs → well_formed m pa →
  rs = List.filter (λ r, selected_by pa (fields m r)) (table_of m db).
Proof.
  unfold selection. destruct (m_up db); [|done]. simpl. case_decide; [done|].
  destruct pa as [[p args]|]; simpl.
  - intros Hsel [Hc Hlen]. rewrite where_clause_text in Hsel by (done || apply columns_no_space).
    injection Hsel as <-. apply filter_ext. intros r. by apply all_hold_comparisons.
  - intros [= <-] _. by rewrite filter_true.
Qed.

Lemma selection_up m pa db :
  m_up db = true → well_formed m pa →
  selection m (simple_query (where_of pa) []) db =
    inl (List.filter (λ r, selected_by pa (fields m r)) (table_of m db)).
Proof.
  intros Hup Hwf. destruct (selection m (simple_query (where_of pa) []) db) as [rs|err] eqn:E.
  - by rewrite (selection_simple _ _ _ _ _ E Hwf).
  - exfalso. unfold selection in E. rewrite Hup in E. cbn [negb] in E.
    rewrite decide_False in E by (intros [?|[?|Hn]]; [done..|]; by apply Hn, Forall_nil).
    cbn [q_where simple_query] in E.
    destruct pa as [[p args]|]; simpl in *; [|done]. destruct Hwf as [Hc _].
    by rewrite where_clause_text in E by (done || apply columns_no_space).
Qed.

Lemma mem_find_simple m pa order db rs :
  mem_find m (simple_query (where_of pa) order) db = (rs, None) → well_formed m pa →
  rs = ordered m order (List.filter (λ r, selected_by pa (fields m r)) (table_of m db)).
Proof.
  intros Hf Hwf.
  assert (∃ rs', selection m (simple_query (where_of pa) order) db = inl rs' ∧ rs = ordered m order rs')
    as (rs' & Hs & ->).
  { destruct m; simpl in Hf; destruct (selection _ _ _) as [rs'|]; simplify_eq; by eexists. }
  by rewrite (selection_simple _ _ _ _ _ Hs Hwf).
Qed.

Lemma ordered_spec m order rs : ordered m order rs ≡ₚ rs ∧ in_order m order (ordered m order rs).
Proof.
  unfold ordered, in_order. case_decide; [|done]. split; [apply merge_sort_Permutation|].
  intros _. apply StronglySorted_merge_sort; apply _.
Qed.

Lemma mem_joined_rows p args q db rs :
  mem_joined q db = inl rs → q_where q = [(condition_text p, args)] → well_formed_joined p args →
  rs = joined_rows p args (m_users db) (m_labels db).
Proof.
  intros Hj Hq [Hc Hlen]. unfold mem_joined in Hj. rewrite Hq in Hj. case_decide; [|done].
  unfold join_selection in Hj. destruct (m_up db); [|done]. simpl in Hj.
  rewrite where_clause_text in Hj by (done || apply joined_no_space). injection Hj as <-.
  apply filter_ext. intros ul. by apply all_hold_comparisons.
Qed.

Lemma fresh_id_fresh m db r : r ∈ table_of m db → row_id m r ≠ fresh_id m db.
Proof.
  unfold fresh_id. intros Hr Heq.
  assert (∀ l, r ∈ l → (row_id m r ≤ foldr Z.max 0 (row_id m <$> l))%Z) as Hmax.
  { induction l as [|r' l IH]; [by intros ?%not_elem_of_nil|].
    rewrite fmap_cons. cbn [foldr]. intros [->|Hin]%elem_of_cons; [lia|]. specialize (IH Hin). lia. }
  specialize (Hmax _ Hr). lia.
Qed.

Lemma selection_unknown m p args order db :
  Forall (no_byte " ") (condition_columns p) →
  (∃ c, c ∈ condition_columns p ++ omap order_column order ∧ c ∉ columns m) →
  ∃ err, selection m (simple_query (where_of (Some (p, args))) order) db = inr err.
Proof.
  intros Hsp (c & Hc & Hm). unfold selection. destruct (m_up db); simpl; [|by eexists].
  case_decide as Ho; [by eexists|]. unfold where_clause. simpl. rewrite parse_condition_text by done.
  simpl. rewrite decide_False; [by eexists|]. intros Hall. apply Hm.
  apply elem_of_app in Hc as [Hc|Hc].
  - clear -Hc Hall. induction p as [c'|c'|l IHl r IHr]; simpl in *;
      [by eapply Forall_forall in Hall..|]. rewrite bind_app in Hall. apply Forall_app in Hall as [Hl Hr].
    apply elem_of_app in Hc as [Hc|Hc]; auto.
  - destruct (decide (Forall (λ c, c ∈ columns m) (omap order_column order))) as [Hf|Hf].
    + by eapply Forall_forall in Hf.
    + exfalso. apply Ho. auto.
Qed.

(** Every label with its user. *)
Lemma mem_find_owned pa db ls :
  mem_find MUserLabel (mkQuery None None [] ["User"] (where_of pa) []) db = (ls, None) →
  well_formed MUserLabel pa →
  ls ≡ₚ with_owner (m_users db) <$> List.filter (λ l, selected_by pa (fields MUserLabel l)) (m_labels db).
Proof.
  unfold mem_find. simpl. change (selection MUserLabel (mkQuery None None [] ["User"] (where_of pa) []) db)
    with (selection MUserLabel (simple_query (where_of pa) []) db).
  destruct (selection _ _ _) as [rs|err] eqn:E; [|done]. intros Hf Hwf.
  rewrite (selection_simple _ _ _ _ _ E Hwf) in Hf. by injection Hf as <-.
Qed.

Lemma association_others m (r : row m) db m' :
  (m = MUserLabel → m' ≠ MUser) → table_of m' (with_association m r db) = table_of m' db.
Proof.
  intros Hu. destruct m; try done. simpl. destruct (user_with _ _); [done|].
  destruct m'; try done. by destruct (Hu eq_refl).
Qed.

Lemma table_association m (r : row m) rs db :
  (m = MUserLabel → m ≠ MUser) → table_of m (with_association m r (set_table m rs db)) = rs.
Proof. intros Hu. by rewrite association_others, table_set. Qed.

Lemma association_users (l : UserLabel) rs db :
  table_of MUser (with_association MUserLabel l (set_table MUserLabel rs db)) =
  table_of MUser db ++ match user_with (u_ID (ul_User l)) (m_users db) with Some _ => [] | None => [ul_User l] end.
Proof. simpl. destruct (user_with _ _); simpl; [by rewrite app_nil_r|done]. Qed.

#[export] Instance mem_database : Database MemDb.
Proof.
  refine {| rows := table_of; reachable := λ db, m_up db = true; db_time := to_microseconds |}.
  - done.
  - intros m pa order db rs Hf Hwf. simpl in Hf. rewrite (mem_find_simple _ _ _ _ _ Hf Hwf).
    apply ordered_spec.
  - intros m p args order db Hsp Hu.
    destruct (selection_unknown m p args order db Hsp Hu) as [err Hs]. exists err.
    simpl. destruct m; unfold mem_find; simpl in *; by rewrite Hs.
  - done.
  - intros m pa db r Hf Hwf. simpl in Hf. unfold mem_first in Hf.
    destruct (selection _ _ _) as [rs|err] eqn:E; [|done].
    rewrite filter_true in Hf. destruct rs as [|r' rs]; [done|]. injection Hf as ->.
    apply (elem_of_filter_bool (λ r, selected_by pa (fields m r))).
    rewrite <-(selection_simple _ _ _ _ _ E Hwf). left.
  - intros m pa db r Hup Hwf Hin Hsel. simpl. unfold mem_first. rewrite selection_up by done.
    rewrite filter_true. destruct (List.filter _ _) as [|r' rs] eqn:E; [|done].
    exfalso. apply (not_elem_of_nil r). rewrite <-E. by apply elem_of_filter_bool.
  - intros p args db us Hf Hwf. simpl in Hf.
    destruct (mem_joined _ _) as [rs|] eqn:E; simplify_eq. f_equiv.
    by rewrite (mem_joined_rows p args _ _ _ E eq_refl Hwf).
  - intros p args db us Hf Hwf. simpl in Hf. unfold mem_scan in Hf.
    destruct (mem_joined _ _) as [rs|] eqn:E; simplify_eq.
    by rewrite (mem_joined_rows p args _ _ _ E eq_refl Hwf).
  - intros pa db ls Hf Hwf. by apply mem_find_owned.
  - intros m r db r' db' Hc _. simpl in Hc. unfold mem_create in Hc. destruct (m_up db); [|done].
    injection Hc as <- <-. split; [|apply table_association; by destruct m].
    exists (fresh_id m db). split; [done|]. intros v. apply fresh_id_fresh.
  - intros l db l' db' Hc _. simpl in Hc. unfold mem_create in Hc. destruct (m_up db); [|done].
    injection Hc as _ <-. apply association_users.
  - intros m r db r' db' m' Hc Hm Hu. simpl in Hc. unfold mem_create in Hc. destruct (m_up db); [|done].
    injection Hc as _ <-. rewrite association_others by done. by apply table_set_ne.
  - intros m p args c v db db' Hu [Hc Hlen] Hcol. simpl in Hu. unfold mem_update in Hu. simpl in Hu.
    rewrite where_clause_text in Hu by (done || apply columns_no_space).
    rewrite bool_decide_true in Hu by done. rewrite andb_true_r in Hu.
    destruct (m_up db); [|done]. injection Hu as <-. rewrite table_set. split; [|intros; by apply table_set_ne].
    apply list_fmap_ext. intros i r _. by rewrite all_hold_comparisons.
  - intros m id db db' Hd. simpl in Hd. unfold mem_delete in Hd. destruct (m_up db); [|done].
    injection Hd as <-. rewrite table_set. split; [done|]. intros; by apply table_set_ne.
  - intros m r db r' err db' Hc. simpl in Hc. unfold mem_create in Hc.
    destruct (m_up db); simplify_eq. done.
  - intros m q c v db err db' Hu. simpl in Hu. unfold mem_update in Hu. by repeat (case_match; simplify_eq).
Defined.

(** ** A sample *)
Module Sample.
Definition ann : User := mkUser 1 "ann" "pw" true "on call".
Definition bob : User := mkUser 2 "bob" "pw" true "on call".
Definition cat : User := mkUser 3 "cat" "pw" false "at home".
Definition label (id user : Z) (text : string) : UserLabel := mkUserLabel id user zero_user text.
Definition at_second (s : Z) : Time := mkTime s 0 0.

Definition office : MemDb := mkMemDb [ann; bob; cat]
  [label 1 1 "env=prod"; label 2 2 "team=db"; label 3 3 "env=prod"; label 4 1 "team=web"]
  [mkIncident (at_second 10) 1 "old"; mkIncident (at_second 100000) 2 "open"; mkIncident (at_second 100100) 3 "new"]
  [mkOperation (at_second 100000) 1 "scale"] (at_second 100200) true true.

Lemma AuthenticateUser_correct_witness :
  ∃ b w', AuthenticateUser "ann" "pw" office = (Ret b, w') ∧
    (b = true ↔ ∃ u, u ∈ rows MUser office ∧ u_Login u = "ann" ∧ u_Password u = "pw") ∧
    ∀ m, rows m w' = rows m office.
Proof. apply (AuthenticateUser_correct "ann" "pw" office); reflexivity. Defined.

Definition hired : outcome (User * option string) * MemDb := CreateUser "dan" "s3cret" "new" office.

Lemma created_user_can_log_in_witness :
  ∃ u, hired.1 = Ret (u, None) ∧ u_IsDuty u = false ∧ u_ID u = 4%Z ∧
    ∃ w2, AuthenticateUser "dan" "s3cret" hired.2 = (Ret true, w2).
Proof.
  exists (mkUser 4 "dan" "s3cret" false "new"). split; [reflexivity|].
  destruct (created_user_can_log_in "dan" "s3cret" "new" office (mkUser 4 "dan" "s3cret" false "new") hired.2)
    as (Hd & _ & Hin & _); [vm_compute; reflexivity..|]. split; [exact Hd|split; [reflexivity|exact Hin]].
Defined.

Definition on_duty_prod : outcome (list User * option string) * MemDb := GetDutyUsersByLabel "env=prod" office.

Lemma GetDutyUsersByLabel_correct_witness :
  on_duty_prod.1 = Ret ([ann], None) ∧
  ∀ u, u ∈ [ann] ↔ u ∈ rows MUser office ∧ u_IsDuty u = true ∧
    ∃ l, l ∈ rows MUserLabel office ∧ ul_UserID l = u_ID u ∧ ul_Label l = "env=prod".
Proof.
  split; [vm_compute; reflexivity|].
  apply (GetDutyUsersByLabel_correct "env=prod" office [ann] on_duty_prod.2). vm_compute. reflexivity.
Defined.

Definition scanned : list (User * string) := [(ann, "env=prod"); (ann, "team=web"); (bob, "team=db")].
Definition groups : gmap User (list string) := group_labels scanned ∅.

Lemma office_groups : GetDutyUsersWithLabels office = (Ret (Some groups, None), office).
Proof.
  unfold GetDutyUsersWithLabels, mbind, GoM_bind, on_DB. change (gorm_DB office) with true. cbv iota.
  unfold lift_op. set (q := Where _ _ _).
  assert (gorm_Scan q office = ((scanned, None), office)) as -> by (vm_compute; reflexivity). reflexivity.
Qed.

Lemma GetDutyUsersWithLabels_correct_witness :
  groups !! ann = Some ["env=prod"; "team=web"] ∧ ∀ u, u ∈ dom groups ↔ ∃ l, on_duty_for office l u.
Proof.
  split; [vm_compute; reflexivity|].
  exact (proj1 (GetDutyUsersWithLabels_correct office (Some groups) None office office_groups)).
Defined.

Definition retired : MemDb := (UpdateUserDutyStatus 2 false office).2.

Lemma UpdateUserDutyStatus_roster_witness :
  (GetDutyUsers retired).1 = Ret ([ann], None) ∧
  (ann ∈ [ann] ↔ if decide (u_ID ann = 2%Z) then False else ann ∈ rows MUser office ∧ u_IsDuty ann = true).
Proof.
  split; [vm_compute; reflexivity|].
  assert (UpdateUserDutyStatus 2 false office = (Ret None, retired)) as Hu by (vm_compute; reflexivity).
  assert (GetDutyUsers retired = (Ret ([ann], None), retired)) as Hg by (vm_compute; reflexivity).
  exact (UpdateUserDutyStatus_roster 2 false office retired [ann] retired Hu Hg ann).
Defined.

Definition recent : list IncidentHistory :=
  [mkIncident (at_second 100100) 3 "new"; mkIncident (at_second 100000) 2 "open"].

Lemma recent_history_witness :
  (GetRecentIncidents office).1 = Ret (recent, None) ∧
  StronglySorted (λ i j, After (ih_Time j) (ih_Time i) = false) recent.
Proof.
  split; [vm_compute; reflexivity|].
  apply (proj1 (recent_history office) recent (GetRecentIncidents office).2). vm_compute. reflexivity.
Defined.
End Sample.
