(* ===== verification/RepositoryLife.v ===== *)
(** * The life of a label and of an incident

    Sequences of repository calls: what a row that one call has stored means
    to the calls that follow, until it is changed or deleted. *)
From stdpp Require Import base tactics strings list gmap sorting.
From Stdlib Require Import ZArith Lia.
From S2P Require Import Prelude GoStrings GoConv GoTime Repository Database RepositoryProps MemDb.

Section life.
Context {W : Type} `{G : !Gorm W} `{DBW : !Database W}.
Implicit Types w : W.

(** ** Single calls *)

Lemma key_holds m id (r : row m) :
  holds (CEq "id") [GUint id] (fields m r) = bool_decide (row_id m r = id).
Proof.
  destruct m; simpl; apply bool_decide_ext; (split; [by intros [[= ?] _]|by intros ->]).
Qed.

(** What [Update] by key does to the rows of its table. *)
Lemma Update_by_key m id c v w w' :
  Update m (Where "id = ?" [GUint id] DB) c v w = (Ret None, w') → "id" ∈ columns m → c ∈ columns m →
  rows m w' = (λ r, if decide (row_id m r = id) then set_column m c v r else r) <$> rows m w ∧
  ∀ m', m' ≠ m → rows m' w' = rows m' w.
Proof.
  intros [_ Hu]%on_DB_inv Hid Hc.
  destruct (update_rows m (CEq "id") [GUint id] c v w w' Hu) as [Hrows Hothers]; [|done|].
  { split; [by intros x ->%list_elem_of_singleton|done]. }
  split; [|done]. rewrite Hrows. apply list_fmap_ext. intros _ r _. rewrite key_holds.
  by case_decide; [rewrite bool_decide_true|rewrite bool_decide_false].
Qed.

(** A label stored for a user. *)
Lemma CreateUserLabel_stores uid label w l w1 :
  CreateUserLabel uid label w = (Ret (l, None), w1) → uid ≠ 0%Z →
  ul_UserID l = uid ∧ ul_Label l = label ∧
  (∀ k, k ∈ rows MUserLabel w → ul_ID k ≠ ul_ID l) ∧
  rows MUserLabel w1 = rows MUserLabel w ++ [mkUserLabel (ul_ID l) uid zero_user label] ∧
  rows MUser w1 = rows MUser w ++
    match user_with uid (rows MUser w) with
    | Some _ => []
    | None => [mkUser uid EmptyString EmptyString false EmptyString]
    end.
Proof.
  intros [_ Hc]%on_DB_inv Huid.
  assert (creatable MUserLabel (mkUserLabel 0 0 (mkUser uid EmptyString EmptyString false EmptyString) label))
    as Hnew by done.
  destruct (create_row MUserLabel _ _ _ _ Hc Hnew) as ((id & -> & Hid) & Hrows).
  pose proof (create_owner _ _ _ _ Hc Hnew) as Husers. done.
Qed.

Definition owner_condition : condition := CEq "user_id".

Lemma owner_holds uid (l : UserLabel) :
  holds owner_condition [GUint uid] (fields MUserLabel l) = bool_decide (ul_UserID l = uid).
Proof. simpl. apply bool_decide_ext. split; [by intros [[= ?] _]|by intros ->]. Qed.

(** [GetUserLabels]: the labels of the user, each with its user. *)
Lemma GetUserLabels_rows uid w ls w' :
  GetUserLabels uid w = (Ret (ls, None), w') →
  ls ≡ₚ with_owner (rows MUser w) <$>
    List.filter (λ l, bool_decide (ul_UserID l = uid)) (rows MUserLabel w).
Proof.
  intros [_ Hf]%on_DB_inv.
  rewrite (find_owned (Some (owner_condition, [GUint uid])) w ls (f_equal fst Hf))
    by by apply (bool_decide_unpack _).
  f_equiv. cbn [selected_by].
  by rewrite (filter_ext _ _ (owner_holds uid) (rows MUserLabel w)).
Qed.

(** ** Labels *)

(** C24: after a label has been stored for a user: the labels listed for this user
    are those there were and the new one, with the user; the users on duty
    for the text are those there were and this user, if on duty; and deleting
    the label leaves the table of labels as it was. *)
Theorem label_life uid label w l w1 :
  CreateUserLabel uid label w = (Ret (l, None), w1) → uid ≠ 0%Z →
  (∀ ls w2, GetUserLabels uid w1 = (Ret (ls, None), w2) →
     ls ≡ₚ (with_owner (rows MUser w1) <$>
              List.filter (λ k, bool_decide (ul_UserID k = uid)) (rows MUserLabel w)) ++
           [mkUserLabel (ul_ID l) uid (default zero_user (user_with uid (rows MUser w1))) label]) ∧
  (∀ lab us w2, GetDutyUsersByLabel lab w1 = (Ret (us, None), w2) →
     ∀ u, u ∈ us ↔ on_duty_for w lab u ∨
       lab = label ∧ u ∈ rows MUser w ∧ u_ID u = uid ∧ u_IsDuty u = true) ∧
  (∀ w2, DeleteUserLabel (ul_ID l) w1 = (Ret None, w2) →
     rows MUserLabel w2 = rows MUserLabel w ∧ rows MUser w2 = rows MUser w1).
Proof.
  intros Hc Huid. destruct (CreateUserLabel_stores _ _ _ _ _ Hc Huid) as (_ & _ & Hfresh & Hlabels & Husers).
  split; [|split].
  - intros ls w2 Hg. rewrite (GetUserLabels_rows _ _ _ _ Hg), Hlabels, List.filter_app, fmap_app.
    simpl. by rewrite bool_decide_true.
  - intros lab us w2 Hd u. rewrite (proj1 (duty_users_spec _ _ _ _ Hd) u).
    unfold on_duty_for. rewrite Hlabels, Husers. setoid_rewrite elem_of_app.
    setoid_rewrite list_elem_of_singleton.
    assert (u ∈ match user_with uid (rows MUser w) with
                | Some _ => [] | None => [mkUser uid EmptyString EmptyString false EmptyString] end →
            u_IsDuty u = false) as Hoff.
    { destruct (user_with _ _); [by intros ?%not_elem_of_nil|by intros ->%list_elem_of_singleton]. }
    split.
    + intros ([Hu|Hu%Hoff] & Hduty & k & [Hk| ->] & Howner & Hlab); try congruence; simpl in *; eauto 10.
    + intros [(Hu & Hduty & k & Hk & Howner & Hlab)|(-> & Hu & Hid & Hduty)]; [by eauto 10|].
      split; [by left|]. split; [done|]. eexists. split; [by right|done].
  - intros w2 [_ Hd]%on_DB_inv. destruct (delete_rows MUserLabel _ _ _ Hd) as [Hrows Hothers].
    split; [|by apply Hothers]. rewrite Hrows, Hlabels, List.filter_app. simpl.
    rewrite bool_decide_false by (intros Hne; by apply Hne). rewrite app_nil_r.
    apply forallb_filter_id, forallb_forall. intros k Hk%list_elem_of_In. by apply bool_decide_true, Hfresh.
Qed.

(** C25: a label for a number that is no user's: the call succeeds, and opens an
    account with an empty login and an empty password, which the password
    check accepts. *)
Theorem label_opens_account uid label w l w1 :
  CreateUserLabel uid label w = (Ret (l, None), w1) → uid ≠ 0%Z →
  (∀ u, u ∈ rows MUser w → u_ID u ≠ uid) →
  rows MUser w1 = rows MUser w ++ [mkUser uid EmptyString EmptyString false EmptyString] ∧
  (gorm_DB w1 = true → reachable w1 →
   ∃ w2, AuthenticateUser EmptyString EmptyString w1 = (Ret true, w2)).
Proof.
  intros Hc Huid Hnone. destruct (CreateUserLabel_stores _ _ _ _ _ Hc Huid) as (_ & _ & _ & _ & Husers).
  rewrite (proj2 (user_with_None _ _) Hnone) in Husers. split; [done|]. intros Hopen Hr.
  destruct (authenticate_correct EmptyString EmptyString w1 Hopen Hr) as (b & w2 & Ha & Hb & _).
  exists w2. rewrite Ha. repeat f_equal. apply Hb. eexists. rewrite Husers.
  split; [apply elem_of_app; right; by left|done].
Qed.

(** A label that is renamed keeps its user: the users on duty for a text are
    those with a label that reads so after the change. *)
Theorem renamed_label_moves_duty id new w w1 lab us w2 :
  UpdateUserLabel id new w = (Ret None, w1) → GetDutyUsersByLabel lab w1 = (Ret (us, None), w2) →
  ∀ u, u ∈ us ↔ u ∈ rows MUser w ∧ u_IsDuty u = true ∧
    ∃ l, l ∈ rows MUserLabel w ∧ ul_UserID l = u_ID u ∧
         (if decide (ul_ID l = id) then new else ul_Label l) = lab.
Proof.
  intros Hu Hd u. apply Update_by_key in Hu as [Hlabels Hothers]; [|by apply (bool_decide_unpack _)..].
  rewrite (proj1 (duty_users_spec _ _ _ _ Hd) u). unfold on_duty_for.
  rewrite Hothers, Hlabels by done. setoid_rewrite list_elem_of_fmap.
  do 2 (apply and_iff_compat_l). split.
  - intros (k & (l & -> & Hl) & Howner & Hlab). exists l. simpl in *. case_decide; by simplify_eq/=.
  - intros (l & Hl & Howner & Hlab). eexists. split; [by exists l|]. simpl. case_decide; by simplify_eq/=.
Qed.

(** ** Incidents *)

Definition status_condition : condition := CEq "status".

(** [GetIncidentsByStatus]: exactly the incidents of the status. *)
Lemma GetIncidentsByStatus_rows status w rs w' :
  GetIncidentsByStatus status w = (Ret (rs, None), w') →
  (∀ i, i ∈ rs ↔ i ∈ rows MIncidentHistory w ∧ ih_Status i = status) ∧
  StronglySorted (λ i j, After (ih_Time j) (ih_Time i) = false) rs.
Proof.
  intros Hf. destruct (Find_rows MIncidentHistory (Some (status_condition, [GStr status])) ["time desc"] _ _ _ Hf)
    as (Hrs & Ho & _); [by apply (bool_decide_unpack _)|]. split; [|by apply Ho].
  intros i. rewrite Hrs. simpl. rewrite bool_decide_eq_true.
  split; [by intros [Hi [[= ->] _]]|by intros [Hi ->]].
Qed.

(** C26: an incident is created with the time of the clock, is listed under the
    status it was created with, and after an update of its status under the
    new one and no other, all other incidents staying where they were. *)
Theorem incident_life status w i w1 :
  CreateIncident status w = (Ret (i, None), w1) →
  ih_Status i = status ∧ ih_Time i = (gorm_now w).1 ∧
  (∀ s rs w2, GetIncidentsByStatus s w1 = (Ret (rs, None), w2) →
     ∀ j, j ∈ rs ↔ j ∈ rows MIncidentHistory (gorm_now w).2 ∧ ih_Status j = s ∨
       s = status ∧ j = mkIncident (db_time (ih_Time i)) (ih_ID i) status) ∧
  (∀ new w2, UpdateIncidentStatus (ih_ID i) new w1 = (Ret None, w2) →
   ∀ s rs w3, GetIncidentsByStatus s w2 = (Ret (rs, None), w3) →
     ∀ j, j ∈ rs ↔ j ∈ rows MIncidentHistory (gorm_now w).2 ∧ ih_Status j = s ∨
       s = new ∧ j = mkIncident (db_time (ih_Time i)) (ih_ID i) new).
Proof.
  unfold CreateIncident, mbind, GoM_bind, Now, lift_op. destruct (gorm_now w) as [now w0].
  intros [_ Hc]%on_DB_inv. simpl.
  destruct (create_row MIncidentHistory _ _ _ _ Hc eq_refl) as ((id & -> & Hfresh) & Hrows).
  simpl in Hrows |- *. split; [done|]. split; [done|]. split.
  - intros s rs w2 Hg j. rewrite (proj1 (GetIncidentsByStatus_rows _ _ _ _ Hg)), Hrows.
    rewrite elem_of_app, list_elem_of_singleton. split.
    + intros [[Hj| ->] Hs]; [by left|by right].
    + intros [[Hj Hs]|[-> ->]]; [by split; [left|]|by split; [right|]].
  - intros new w2 Hu s rs w3 Hg j.
    apply Update_by_key in Hu as [Hrows2 _]; [|by apply (bool_decide_unpack _)..].
    rewrite (proj1 (GetIncidentsByStatus_rows _ _ _ _ Hg)), Hrows2, Hrows, fmap_app.
    simpl. rewrite decide_True by done.
    rewrite elem_of_app, list_elem_of_singleton.
    assert (((λ r : IncidentHistory, if decide (ih_ID r = id) then mkIncident (ih_Time r) (ih_ID r) new else r)
              <$> rows MIncidentHistory w0) = rows MIncidentHistory w0) as Hsame.
    { rewrite <-(list_fmap_id (rows MIncidentHistory w0)) at 2. apply list_fmap_ext.
      intros k r Hr. rewrite decide_False; [done|]. by eapply Hfresh, list_elem_of_lookup_2. }
    rewrite Hsame. split.
    + intros [[Hj| ->] Hs]; [by left|by right].
    + intros [[Hj Hs]|[-> ->]]; [by split; [left|]|by split; [right|]].
Qed.
End life.

(** ** A sample *)
Module Sample.
Import MemDb.Sample.

Definition labelled : outcome (UserLabel * option string) * MemDb := CreateUserLabel 2 "env=prod" office.
Definition new_label : UserLabel := mkUserLabel 5 2 (mkUser 2 EmptyString EmptyString false EmptyString) "env=prod".

Lemma label_life_witness :
  labelled.1 = Ret (new_label, None) ∧
  (GetDutyUsersByLabel "env=prod" labelled.2).1 = Ret ([ann; bob], None) ∧
  (bob ∈ [ann; bob] ↔ on_duty_for office "env=prod" bob ∨
     "env=prod" = "env=prod" ∧ bob ∈ rows MUser office ∧ u_ID bob = 2%Z ∧ u_IsDuty bob = true).
Proof.
  split; [vm_compute; reflexivity|]. split; [vm_compute; reflexivity|].
  assert (CreateUserLabel 2 "env=prod" office = (Ret (new_label, None), labelled.2)) as Hc
    by (vm_compute; reflexivity).
  exact (proj1 (proj2 (label_life 2 "env=prod" office new_label labelled.2 Hc ltac:(discriminate)))
           "env=prod" [ann; bob] labelled.2 ltac:(vm_compute; reflexivity) bob).
Defined.

Definition stranger : outcome (UserLabel * option string) * MemDb := CreateUserLabel 7 "env=prod" office.

Lemma label_opens_account_witness :
  rows MUser stranger.2 = [ann; bob; cat; mkUser 7 EmptyString EmptyString false EmptyString] ∧
  ∃ w2, AuthenticateUser EmptyString EmptyString stranger.2 = (Ret true, w2).
Proof.
  destruct (label_opens_account 7 "env=prod" office
    (mkUserLabel 5 7 (mkUser 7 EmptyString EmptyString false EmptyString) "env=prod") stranger.2)
    as [Husers Hlogin]; [vm_compute; reflexivity|discriminate| |].
  - apply (Forall_forall (λ v, u_ID v ≠ 7%Z) [ann; bob; cat]). by apply (bool_decide_unpack _).
  - split; [exact Husers|apply Hlogin; reflexivity].
Defined.

Definition renamed : outcome (option string) * MemDb := UpdateUserLabel 2 "env=prod" office.

Lemma renamed_label_moves_duty_witness :
  (GetDutyUsersByLabel "env=prod" renamed.2).1 = Ret ([ann; bob], None) ∧
  (bob ∈ [ann; bob] ↔ bob ∈ rows MUser office ∧ u_IsDuty bob = true ∧
    ∃ l, l ∈ rows MUserLabel office ∧ ul_UserID l = u_ID bob ∧
         (if decide (ul_ID l = 2%Z) then "env=prod" else ul_Label l) = "env=prod").
Proof.
  split; [vm_compute; reflexivity|].
  apply (renamed_label_moves_duty 2 "env=prod" office renamed.2 "env=prod" [ann; bob] renamed.2);
    vm_compute; reflexivity.
Defined.

Definition opened : outcome (IncidentHistory * option string) * MemDb := CreateIncident "open" office.
Definition outage : IncidentHistory := mkIncident (at_second 100200) 4 "open".
Definition closed : outcome (option string) * MemDb := UpdateIncidentStatus 4 "closed" opened.2.

Lemma incident_life_witness :
  opened.1 = Ret (outage, None) ∧ closed.1 = Ret None ∧
  (GetIncidentsByStatus "closed" closed.2).1 = Ret ([mkIncident (at_second 100200) 4 "closed"], None) ∧
  (outage ∈ [mkIncident (at_second 100200) 4 "closed"] ↔
     outage ∈ rows MIncidentHistory office ∧ ih_Status outage = "closed" ∨
     "closed" = "closed" ∧ outage = mkIncident (at_second 100200) 4 "closed").
Proof.
  split; [vm_compute; reflexivity|]. split; [vm_compute; reflexivity|]. split; [vm_compute; reflexivity|].
  assert (CreateIncident "open" office = (Ret (outage, None), opened.2)) as Hc by (vm_compute; reflexivity).
  destruct (incident_life "open" office outage opened.2 Hc) as (_ & _ & _ & Hlife).
  exact (Hlife "closed" closed.2 ltac:(vm_compute; reflexivity) "closed"
           [mkIncident (at_second 100200) 4 "closed"] closed.2 ltac:(vm_compute; reflexivity) outage).
Defined.
End Sample.
