(* ===== verification/DbConfig.v ===== *)
(** * [internal/db/config/db.go], [internal/db/migrations/auto.go], [internal/db/main.go]

    The connection settings come from the environment, with a default for
    each; [InitDB] opens the database and only then assigns [config.DB];
    [AutoMigrate] goes on to create the tables; the program of
    [internal/db/main.go] does nothing else.  The environment is an operation
    of a class. *)
From stdpp Require Import base tactics strings list gmap.
From Stdlib Require Import ZArith.
From S2P Require Import Prelude GoStrings GoConv GoTime Repository RepositoryProps Database MemDb.

Class Environment (W : Type) := os_Getenv : string → W → string.

Record settings := mkSettings {
  s_host : string; s_port : string; s_user : string; s_password : string; s_dbname : string }.

(** The [fmt.Sprintf] of the data source name. *)
Definition dsn (s : settings) : string :=
  "host=" +:+ s_host s +:+ " user=" +:+ s_user s +:+ " password=" +:+ s_password s +:+
  " dbname=" +:+ s_dbname s +:+ " port=" +:+ s_port s +:+ " sslmode=disable".

Section config.
Context {W : Type} `{!Environment W} `{G : !Gorm W}.
Abbreviation M := (GoM W).

Definition Getenv (key : string) : M string := λ w, (Ret (os_Getenv key w), w).

(** [v := os.Getenv(key); if v == "" { v = default_ }] *)
Definition getenv_or (key default_ : string) : M string :=
  v ← Getenv key; mret (if decide (v = EmptyString) then default_ else v).

Definition read_settings : M settings :=
  host ← getenv_or "DB_HOST" "localhost";
  port ← getenv_or "DB_PORT" "5433";
  user ← getenv_or "POSTGRES_USER" "user1";
  password ← getenv_or "POSTGRES_PASSWORD" "pass1";
  dbname ← getenv_or "POSTGRES_DB" "chatops";
  mret (mkSettings host port user password dbname).

Definition InitDB : M (option string) :=
  s ← read_settings;
  err ← lift_op (gorm_Open (dsn s));
  match err with
  | Some err => mret (Some ("failed to connect DB: " +:+ err))
  | None => modify gorm_set_DB;; mret None
  end.

Definition schema : list model := [MUser; MUserLabel; MIncidentHistory; MOperation].

Definition AutoMigrate : M (option string) :=
  err ← InitDB;
  match err with
  | Some err => mret (Some err)
  | None => on_DB (gorm_AutoMigrate schema)
  end.

(** The program of [internal/db]: [Some] is the message of [log.Fatal]. *)
Definition migrate_main : M (option string) :=
  err ← AutoMigrate;
  match err with
  | Some err => mret (Some ("Failed to migrate database:" +:+ err))
  | None => mret None
  end.

(** ** Facts *)

(** The settings in force in a state. *)
Definition setting (w : W) (key default_ : string) : string :=
  if decide (os_Getenv key w = EmptyString) then default_ else os_Getenv key w.
Definition settings_of (w : W) : settings :=
  mkSettings (setting w "DB_HOST" "localhost") (setting w "DB_PORT" "5433")
    (setting w "POSTGRES_USER" "user1") (setting w "POSTGRES_PASSWORD" "pass1")
    (setting w "POSTGRES_DB" "chatops").

Lemma InitDB_run w :
  InitDB w = match gorm_Open (dsn (settings_of w)) w with
             | (Some err, w') => (Ret (Some ("failed to connect DB: " +:+ err)), w')
             | (None, w') => (Ret None, gorm_set_DB w')
             end.
Proof.
  unfold InitDB, read_settings, getenv_or, Getenv, mbind, GoM_bind, mret, GoM_ret, lift_op.
  change (mkSettings _ _ _ _ _) with (settings_of w). by destruct (gorm_Open _ w) as [[err|] w'].
Qed.

(** What [AutoMigrate] does, on every path. *)
Inductive migrated (w : W) : option string → W → Prop :=
  | not_connected err w' :
      gorm_Open (dsn (settings_of w)) w = (Some err, w') →
      migrated w (Some ("failed to connect DB: " +:+ err)) w'
  | connected w1 err w' :
      gorm_Open (dsn (settings_of w)) w = (None, w1) →
      gorm_AutoMigrate schema (gorm_set_DB w1) = (err, w') → migrated w err w'.

Lemma AutoMigrate_run w : ∃ err w', AutoMigrate w = (Ret err, w') ∧ migrated w err w'.
Proof.
  unfold AutoMigrate, mbind, GoM_bind. rewrite InitDB_run.
  destruct (gorm_Open (dsn (settings_of w)) w) as [[err|] w1] eqn:E.
  - eexists _, _. split; [done|by apply not_connected].
  - unfold on_DB, lift_op. rewrite gorm_set_DB_opens.
    destruct (gorm_AutoMigrate schema (gorm_set_DB w1)) as [err w'] eqn:E'.
    eexists _, _. split; [done|by eapply connected].
Qed.

(** [AutoMigrate] never panics: it uses the handle only after [InitDB] has
    stored it.  Without a connection the variable [config.DB] is left as it
    was and the error says so; with one, the handle is there and what gorm
    answers to the creation of the four tables is returned. *)
Theorem AutoMigrate_cases w :
  (∀ ms v, gorm_DB (gorm_AutoMigrate ms v).2 = gorm_DB v) →
  ∃ err w', AutoMigrate w = (Ret err, w') ∧
    match (gorm_Open (dsn (settings_of w)) w).1 with
    | Some e => err = Some ("failed to connect DB: " +:+ e) ∧ gorm_DB w' = gorm_DB w
    | None => gorm_DB w' = true ∧
        err = (gorm_AutoMigrate schema (gorm_set_DB (gorm_Open (dsn (settings_of w)) w).2)).1
    end.
Proof.
  intros Hkeep. destruct (AutoMigrate_run w) as (err & w' & Hrun & Hm). exists err, w'. split; [done|].
  destruct Hm as [err w' Ho|w1 err w' Ho Hm]; rewrite Ho; simpl.
  - split; [done|]. by rewrite <-(gorm_Open_keeps (dsn (settings_of w)) w), Ho.
  - rewrite Hm. split; [|done]. by rewrite <-(gorm_set_DB_opens w1), <-(Hkeep schema (gorm_set_DB w1)), Hm.
Qed.
End config.

(** ** The data source name, read back *)

(** The words of a name, each [key=value]. *)
Definition dsn_fields (text : string) : list (option (string * string)) := Cut "=" <$> Split text " ".

(** The settings can be read back from the data source name as long as
    none of them holds a space: a name that separates settings with spaces
    writes values without quotes. *)
Theorem dsn_roundtrip s :
  Forall (no_byte " ") [s_host s; s_user s; s_password s; s_dbname s; s_port s] →
  dsn_fields (dsn s) = [Some ("host", s_host s); Some ("user", s_user s); Some ("password", s_password s);
    Some ("dbname", s_dbname s); Some ("port", s_port s); Some ("sslmode", "disable")].
Proof.
  intros H. unfold dsn_fields.
  assert (dsn s = Join ["host=" +:+ s_host s; "user=" +:+ s_user s; "password=" +:+ s_password s;
    "dbname=" +:+ s_dbname s; "port=" +:+ s_port s; "sslmode=disable"] " ") as ->.
  { unfold dsn, Join. by str_simpl. }
  rewrite Split_Join; [|done|].
  - rewrite !fmap_cons, fmap_nil. repeat f_equal; by apply (Cut_app "="); apply (bool_decide_unpack _).
  - repeat (apply Forall_cons in H as [? H]).
    repeat constructor; try (apply no_byte_app; split; [|done]); by apply (bool_decide_unpack _).
Qed.

(** A space in a value starts a setting of its own. *)
Example dsn_space :
  Some ("dbname", "other") ∈ dsn_fields (dsn (mkSettings "h" "1" "u" "p dbname=other" "chatops")).
Proof. by apply (bool_decide_unpack _). Qed.

Module Sample.
#[export] Instance office_environment : Environment MemDb := λ key _,
  if decide (key = "POSTGRES_PASSWORD") then "s3cret" else EmptyString.

Definition fresh_office (up : bool) : MemDb := mkMemDb [] [] [] [] zero_time up false.

Lemma AutoMigrate_cases_witness :
  ∃ err w', AutoMigrate (fresh_office false) = (Ret err, w') ∧
    err = Some ("failed to connect DB: " +:+ no_server) ∧ gorm_DB w' = false.
Proof.
  destruct (AutoMigrate_cases (fresh_office false)) as (err & w' & Hrun & Hcase); [reflexivity|].
  exists err, w'. split; [exact Hrun|exact Hcase].
Defined.

Lemma dsn_roundtrip_witness :
  dsn_fields (dsn (settings_of (fresh_office true))) =
    [Some ("host", "localhost"); Some ("user", "user1"); Some ("password", "s3cret");
     Some ("dbname", "chatops"); Some ("port", "5433"); Some ("sslmode", "disable")].
Proof.
  etrans; [apply (dsn_roundtrip (settings_of (fresh_office true)))|vm_compute; reflexivity].
  by apply (bool_decide_unpack _).
Defined.
End Sample.
