(* ===== verification/Alerter.v ===== *)
(** * [internal/app/alerter.go] and [db_adapter.go]

    [CheckAndNotify] looks, for each active alert, for the people on duty
    behind one of its labels.  Its two interfaces are classes; [DBAdapter] is
    the instance of the second over the repository. *)
From stdpp Require Import base tactics strings list gmap.
From Stdlib Require Import ZArith.
From S2P Require Import Prelude GoStrings GoConv GoTime Monitoring Repository.

Class MonitoringClient (W : Type) := mon_GetActiveAlerts : W → (list Alert + string) * W.

Class DutyFinder (W : Type) := duty_by_label : string → GoM W (list User * option string).

(** [DBAdapter] *)
Definition DBAdapter_GetDutyUsersByLabel {W} `{!Gorm W} (label : string) :
    GoM W (list User * option string) := GetDutyUsersByLabel label.
#[export] Instance DBAdapter {W} `{!Gorm W} : DutyFinder W := DBAdapter_GetDutyUsersByLabel.

(** [Alerter]: what answers for the alerts and what finds the people on duty. *)
Record Alerter (W : Type) := mkAlerter { monClient : MonitoringClient W; db : DutyFinder W }.
Arguments mkAlerter {W}.
Arguments monClient {W}.
Arguments db {W}.

Definition NewAlerter {W} (monClient : MonitoringClient W) (db : DutyFinder W) : Alerter W :=
  mkAlerter monClient db.

(** The state: the outside world and the notifications logged so far. *)
Record ast (W : Type) := mkAst { a_world : W; notified : list string }.
Arguments mkAst {W}.
Arguments a_world {W}.
Arguments notified {W}.

Definition label_text (kv : string * string) : string := kv.1 +:+ "=" +:+ kv.2.

Definition formatNotification (order : RangeOrder) (dutyPersonUsername : string) (alert : Alert) : string :=
  let labelsFormatted := Join ((λ kv, "- " +:+ kv.1 +:+ ": " +:+ kv.2) <$> map_range order (Labels alert)) nl in
  "УВЕДОМЛЕНИЕ ДЛЯ: @" +:+ dutyPersonUsername +:+ nl +:+
  "==================================" +:+ nl +:+
  "🚨 Сработал алерт: " +:+ map_get (Labels alert) "alertname" +:+ nl +:+ nl +:+
  "📋 Описание: " +:+ map_get (Annotations alert) "summary" +:+ nl +:+
  "📝 Дополнительно: " +:+ map_get (Annotations alert) "description" +:+ nl +:+ nl +:+
  "🏷 Метки:" +:+ nl +:+ labelsFormatted +:+ nl +:+
  "==================================".

Section alerter.
Context {W : Type} `{DF : !DutyFinder W}.
Abbreviation M := (GoM (ast W)).

Definition a_lift {A} (op : W → A * W) : M A := λ s,
  let (a, w) := op (a_world s) in (Ret a, mkAst w (notified s)).
Definition a_call {A} (op : GoM W A) : M A := λ s,
  let (o, w) := op (a_world s) in (o, mkAst w (notified s)).
Definition notify (text : string) : M unit :=
  modify (λ s, mkAst (a_world s) (notified s ++ [text])).

(** The loop over the labels of one alert; [dutyUsers] is the variable it
    assigns, kept when the map is exhausted. *)
Fixpoint find_duty (labels : list (string * string)) (dutyUsers : list User) : M (list User) :=
  match labels with
  | [] => mret dutyUsers
  | kv :: rest =>
      r ← a_call (duty_by_label (label_text kv));
      match r with
      | (users, Some err) => find_duty rest users
      | ([], None) => find_duty rest []
      | (users, None) => mret users
      end
  end.

(** The loop over the users; [order k] is the map order of the [k]th text. *)
Fixpoint notify_users (order : nat → RangeOrder) (alert : Alert) (users : list User) : M unit :=
  match users with
  | [] => mret tt
  | u :: rest =>
      notify (formatNotification (order 0) (u_Login u) alert);;
      notify_users (λ k, order (S k)) alert rest
  end.

(** The map orders one alert meets: that of the search, then one per text. *)
Record alert_orders := mkAlertOrders { search_order : RangeOrder; text_order : nat → RangeOrder }.

Fixpoint process_alerts (orders : nat → alert_orders) (alerts : list Alert) : M unit :=
  match alerts with
  | [] => mret tt
  | alert :: rest =>
      dutyUsers ← find_duty (map_range (search_order (orders 0)) (Labels alert)) [];
      notify_users (text_order (orders 0)) alert dutyUsers;;
      process_alerts (λ i, orders (S i)) rest
  end.

End alerter.

Definition CheckAndNotify {W} (a : Alerter W) (orders : nat → alert_orders) : GoM (ast W) (option string) :=
  r ← a_lift (monClient a);
  match r with
  | inr err => mret (Some ("failed to get active alerts: " +:+ err))
  | inl alerts => process_alerts (DF := db a) orders alerts;; mret None
  end.

(** ** Who is reached

    Against a database whose answers do not change while the alerts are
    processed; over the tables of the repository see [AlerterDb]. *)
Section specification.
Variable answer : string → list User * option string.

(** The users an alert reaches: those of the first label that has some, or
    what the last lookup left behind. *)
Fixpoint reached (labels : list (string * string)) (dutyUsers : list User) : list User :=
  match labels with
  | [] => dutyUsers
  | kv :: rest =>
      match answer (label_text kv) with
      | (users, Some _) => reached rest users
      | ([], None) => reached rest []
      | (users, None) => users
      end
  end.

Fixpoint texts (order : nat → RangeOrder) (alert : Alert) (users : list User) : list string :=
  match users with
  | [] => []
  | u :: rest => formatNotification (order 0) (u_Login u) alert :: texts (λ k, order (S k)) alert rest
  end.

(** Properties of [reached] when the lookups succeed. *)
Lemma reached_sound labels users u :
  u ∈ reached labels users → u ∈ users ∨ ∃ kv, kv ∈ labels ∧ u ∈ (answer (label_text kv)).1.
Proof.
  revert users. induction labels as [|kv labels IH]; intros users; simpl; [by left|].
  destruct (answer (label_text kv)) as [us e] eqn:E. intros H.
  assert (u ∈ us ∨ u ∈ reached labels us ∨ u ∈ reached labels []) as [Hu|Hu].
  { destruct us, e; auto. }
  - right. exists kv. rewrite E. split; [left|done].
  - destruct Hu as [[Hu|(kv' & Hin & Hu)]%IH|[Hu%not_elem_of_nil|(kv' & Hin & Hu)]%IH];
      [|right; exists kv'; split; [by right|done]|done|right; exists kv'; split; [by right|done]].
    right. exists kv. rewrite E. split; [left|done].
Qed.

Lemma reached_complete labels users kv :
  (∀ kv, kv ∈ labels → (answer (label_text kv)).2 = None) →
  kv ∈ labels → (answer (label_text kv)).1 ≠ [] → reached labels users ≠ [].
Proof.
  revert users. induction labels as [|kv' labels IH]; intros users He; [by intros ?%not_elem_of_nil|].
  intros Hin Hne. simpl. pose proof (He kv' (list_elem_of_here _ _)) as Hok.
  destruct (answer (label_text kv')) as [us e] eqn:E. simpl in Hok. subst e.
  destruct us; [|done]. apply elem_of_cons in Hin as [->|Hin].
  - by rewrite E in Hne.
  - apply IH; [|done..]. intros kv'' ?. apply He. by right.
Qed.
End specification.

(** ** The loops *)

Section correctness.
Context {W : Type} `{DF : !DutyFinder W}.
Variable answer : string → list User * option string.
Hypothesis stable : ∀ label w, (duty_by_label label w).1 = Ret (answer label).
Implicit Types s : ast W.

Lemma find_duty_spec labels users s :
  ∃ w, find_duty labels users s = (Ret (reached answer labels users), mkAst w (notified s)).
Proof.
  revert users s. induction labels as [|kv labels IH]; intros users s; simpl.
  - exists (a_world s). by destruct s.
  - unfold mbind, GoM_bind, a_call. pose proof (stable (label_text kv) (a_world s)) as Hst.
    destruct (duty_by_label (label_text kv) (a_world s)) as [o w1]. simpl in Hst. subst o.
    destruct (answer (label_text kv)) as [us e].
    destruct us as [|u us], e as [e|]; try apply (IH _ (mkAst w1 (notified s))). by exists w1.
Qed.

Lemma notify_users_spec order alert users s :
  notify_users order alert users s = (Ret tt, mkAst (a_world s) (notified s ++ texts order alert users)).
Proof.
  revert order s. induction users as [|u users IH]; intros order s; simpl.
  - rewrite app_nil_r. by destruct s.
  - unfold mbind, GoM_bind, notify, modify. rewrite IH. simpl. by rewrite <-app_assoc.
Qed.

End correctness.

(** ** Properties *)

Definition reached_by (answer : string → list User * option string) (o : RangeOrder) (a : Alert) :
    list User := reached answer (map_range o (Labels a)) [].

(** Every lookup of a label of the alert succeeds. *)
Definition lookups_ok (answer : string → list User * option string) (a : Alert) : Prop :=
  ∀ k v, Labels a !! k = Some v → (answer (label_text (k, v))).2 = None.

Section properties.
Context {W : Type} `{DF : !DutyFinder W}.
Variable answer : string → list User * option string.

Lemma reached_by_sound o a u :
  u ∈ reached_by answer o a → ∃ k v, Labels a !! k = Some v ∧ u ∈ (answer (label_text (k, v))).1.
Proof.
  intros [Hu%not_elem_of_nil|([k v] & Hin%elem_of_map_range & Hu)]%reached_sound; [done|].
  by exists k, v.
Qed.

Lemma reached_by_complete o a :
  lookups_ok answer a →
  (reached_by answer o a ≠ [] ↔ ∃ k v, Labels a !! k = Some v ∧ (answer (label_text (k, v))).1 ≠ []).
Proof.
  intros Hok. split.
  - destruct (reached_by answer o a) as [|u us] eqn:E; [done|]. intros _.
    destruct (reached_by_sound o a u) as (k & v & Hkv & Hu); [rewrite E; left|].
    exists k, v. split; [done|]. intros Hnil. rewrite Hnil in Hu. by apply not_elem_of_nil in Hu.
  - intros (k & v & Hkv & Hne). apply reached_complete with (k, v); [|by apply elem_of_map_range|done].
    intros [k' v'] Hin%elem_of_map_range. by apply Hok.
Qed.

(** Who is notified does not depend on the iteration order of the label
    map as long as the labels of the alert that have someone on duty agree on
    the users. *)
Theorem duty_order_independent o1 o2 a (s : ast W) :
  (∀ label w, (duty_by_label label w).1 = Ret (answer label)) → lookups_ok answer a →
  (∀ k v k' v', Labels a !! k = Some v → Labels a !! k' = Some v' →
     (answer (label_text (k, v))).1 ≠ [] → (answer (label_text (k', v'))).1 ≠ [] →
     (answer (label_text (k, v))).1 = (answer (label_text (k', v'))).1) →
  (find_duty (map_range o1 (Labels a)) [] s).1 = (find_duty (map_range o2 (Labels a)) [] s).1.
Proof.
  intros Hst Hok Hagree.
  destruct (find_duty_spec answer Hst (map_range o1 (Labels a)) [] s) as [w1 ->].
  destruct (find_duty_spec answer Hst (map_range o2 (Labels a)) [] s) as [w2 ->]. simpl. f_equal.
  assert (∀ labels, (∀ kv, kv ∈ labels → (answer (label_text kv)).2 = None) →
            reached answer labels [] = [] ∨
            ∃ kv, kv ∈ labels ∧ reached answer labels [] = (answer (label_text kv)).1 ∧
                  (answer (label_text kv)).1 ≠ []) as Hfirst.
  { induction labels as [|kv labels IH]; intros He; simpl; [by left|].
    pose proof (He kv (list_elem_of_here _ _)) as Hkv.
    destruct (answer (label_text kv)) as [us e] eqn:E. simpl in Hkv. subst e.
    destruct us as [|u us].
    - destruct IH as [IH|(kv' & Hin & IH)]; [|by left|].
      + intros kv' Hin. apply He. by right.
      + right. exists kv'. split; [by right|done].
    - right. exists kv. rewrite E. split; [left|done]. }
  assert (∀ o kv, kv ∈ map_range o (Labels a) → (answer (label_text kv)).2 = None) as He.
  { intros o [k v] Hin%elem_of_map_range. by apply Hok. }
  pose proof (reached_by_complete o1 a Hok) as Hc1. pose proof (reached_by_complete o2 a Hok) as Hc2.
  unfold reached_by in *.
  destruct (Hfirst _ (He o1)) as [E1|([k1 v1] & Hin1%elem_of_map_range & E1 & Hne1)],
    (Hfirst _ (He o2)) as [E2|([k2 v2] & Hin2%elem_of_map_range & E2 & Hne2)].
  - by rewrite E1, E2.
  - exfalso. apply (proj2 Hc1); [by exists k2, v2|done].
  - exfalso. apply (proj2 Hc2); [by exists k1, v1|done].
  - rewrite E1, E2. by apply Hagree.
Qed.
End properties.

(** ** A sample with two people on duty *)
Module Sample.
Definition ann : User := mkUser 1 "ann" "pw" true "on call".
Definition bob : User := mkUser 2 "bob" "pw" true "on call".

Definition duty (label : string) : list User * option string :=
  if decide (label = "env=prod") then ([ann], None)
  else if decide (label = "team=db") then ([bob], None) else ([], None).

Definition disk_full : Alert :=
  mkAlert (<["env" := "prod"]> {["team" := "db"]}) ∅ "firing" (mkTime 0 0 0) "1".
Definition quiet : Alert :=
  mkAlert (<["env" := "prod"]> {["severity" := "low"]}) ∅ "firing" (mkTime 0 0 0) "1".

#[export] Instance sample_duty : DutyFinder unit := λ label, mret (duty label).

Definition listed : alert_orders := mkAlertOrders list_order (λ _, list_order).
Definition start : ast unit := mkAst tt [].

Lemma duty_order_independent_witness :
  (find_duty (map_range list_order (Labels quiet)) [] start).1
  = (find_duty (map_range reverse_order (Labels quiet)) [] start).1.
Proof.
  assert (∀ k v, Labels quiet !! k = Some v → (k, v) = ("env", "prod") ∨ (k, v) = ("severity", "low")) as Hl.
  { unfold quiet. simpl. intros k v [[<- <-]|[_ [<- <-]%lookup_singleton_Some]]%lookup_insert_Some; auto. }
  apply (duty_order_independent duty); [reflexivity|..].
  - intros k v [-> | ->]%Hl; reflexivity.
  - intros k v k' v' [-> | ->]%Hl [-> | ->]%Hl; vm_compute; congruence.
Defined.

(** With two labels on call for different people, the iteration order of
    the label map, which Go leaves open, decides who is notified: one order
    notifies only [ann], the other only [bob]. *)
Theorem search_order_decides :
  ∃ o1 o2, find_duty (map_range o1 (Labels disk_full)) [] start = (Ret [ann], start) ∧
    find_duty (map_range o2 (Labels disk_full)) [] start = (Ret [bob], start).
Proof.
  exists list_order, reverse_order. split; vm_compute; reflexivity.
Qed.
End Sample.
