(* ===== verification/AlerterDb.v ===== *)
(** * The alerter over the database

    [CheckAndNotify] with the [DBAdapter] of the repository, against the laws
    of [Database]: who is notified is stated on the tables, whatever order the
    database answers in and however its state changes between the lookups. *)
From stdpp Require Import base tactics strings list gmap sorting.
From Stdlib Require Import ZArith.
From S2P Require Import Prelude GoStrings GoConv GoTime Monitoring Repository Database RepositoryProps MemDb Alerter.

Section alerter.
Context {W : Type} `{MC : !MonitoringClient W} `{G : !Gorm W} `{DBW : !Database W}.
Implicit Types s : ast W.

(** ** A nil handle *)

(** Before [InitDB] has stored a handle, the first label of the first
    alert makes the alerter panic, and nobody has been notified. *)
Theorem CheckAndNotify_needs_InitDB orders s alerts w alert rest :
  mon_GetActiveAlerts (a_world s) = (inl alerts, w) → gorm_DB w = false →
  alerts = alert :: rest → Labels alert ≠ ∅ →
  CheckAndNotify (NewAlerter MC DBAdapter) orders s = (Panic nil_deref, mkAst w (notified s)).
Proof.
  intros Hm Hdb -> Hl. unfold CheckAndNotify, mbind, GoM_bind, a_lift.
  change (monClient _) with MC. change (MC (a_world s) = (inl (alert :: rest), w)) in Hm. rewrite Hm. simpl.
  unfold mbind, GoM_bind.
  destruct (map_range _ (Labels alert)) as [|kv kvs] eqn:E.
  - exfalso. apply Hl, map_to_list_empty_iff. apply Permutation_nil_r. by rewrite <-E, map_range_perm.
  - simpl. unfold mbind, GoM_bind, a_call, duty_by_label, DBAdapter, DBAdapter_GetDutyUsersByLabel,
      GetDutyUsersByLabel, Find, on_DB. simpl. by rewrite Hdb.
Qed.

(** ** A database that answers *)

(** While the alerts are processed the state of the database stays in [ok],
    where lookups succeed; [same w w'] when the tables are the same. *)
Definition same_tables (w w' : W) : Prop := ∀ m, rows m w' = rows m w.

#[export] Instance same_tables_equiv : Equivalence same_tables.
Proof.
  split; [done|by intros w w' H m|intros w1 w2 w3 H H' m; by rewrite H', H].
Qed.
#[export] Instance on_duty_for_proper : Proper (same_tables ==> eq ==> eq ==> iff) on_duty_for.
Proof. intros w w' H l ? <- u ? <-. unfold on_duty_for. by rewrite !H. Qed.

Variable ok : W → Prop.
Hypothesis lookups_answer : ∀ label w, ok w →
  ∃ us w', GetDutyUsersByLabel label w = (Ret (us, None), w') ∧ ok w'.

(** Who an alert must reach: everybody on duty for one of its labels, and
    nobody only if no label has anybody. *)
Inductive served (w : W) (a : Alert) : list User → Prop :=
  | served_by k v us :
      Labels a !! k = Some v → us ≠ [] → (∀ u, u ∈ us ↔ on_duty_for w (label_text (k, v)) u) →
      served w a us
  | served_nobody :
      (∀ k v u, Labels a !! k = Some v → ¬ on_duty_for w (label_text (k, v)) u) → served w a [].

Lemma find_duty_served w0 labels s :
  ok (a_world s) → same_tables w0 (a_world s) →
  ∃ us w, find_duty labels [] s = (Ret us, mkAst w (notified s)) ∧ ok w ∧ same_tables w0 w ∧
    ((us ≠ [] ∧ ∃ kv, kv ∈ labels ∧ ∀ u, u ∈ us ↔ on_duty_for w0 (label_text kv) u) ∨
     (us = [] ∧ ∀ kv u, kv ∈ labels → ¬ on_duty_for w0 (label_text kv) u)).
Proof.
  revert s. induction labels as [|kv labels IH]; intros s Hok Hsame; cbn [find_duty].
  - exists [], (a_world s). split; [by destruct s|]. split_and!; [done..|]. right.
    split; [done|]. by intros kv u ?%not_elem_of_nil.
  - destruct (lookups_answer (label_text kv) (a_world s) Hok) as (us & w1 & Hget & Hok1).
    destruct (duty_users_spec _ _ _ _ Hget) as [Hus Hrows].
    assert (same_tables w0 w1) as Hsame1 by by transitivity (a_world s).
    assert (∀ u, u ∈ us ↔ on_duty_for w0 (label_text kv) u) as Hduty by (intros u; by rewrite Hus, Hsame).
    change (duty_by_label (label_text kv) (a_world s) = (Ret (us, None), w1)) in Hget.
    unfold mbind, GoM_bind, a_call. rewrite Hget.
    destruct us as [|u us].
    + destruct (IH (mkAst w1 (notified s)) Hok1 Hsame1) as (us & w & -> & Hok2 & Hsame2 & Hcase).
      exists us, w. split_and!; [done..|]. destruct Hcase as [(Hne & kv' & Hin & Hall)|(-> & Hnone)].
      * left. split; [done|]. exists kv'. split; [by right|done].
      * right. split; [done|]. intros kv' u [->|Hin]%elem_of_cons; [|by apply Hnone].
        rewrite <-Hduty. apply not_elem_of_nil.
    + exists (u :: us), w1. split_and!; [done..|]. left. split; [done|]. exists kv. split; [left|done].
Qed.

Lemma served_range w a o us :
  ((us ≠ [] ∧ ∃ kv, kv ∈ map_range o (Labels a) ∧ ∀ u, u ∈ us ↔ on_duty_for w (label_text kv) u) ∨
   (us = [] ∧ ∀ kv u, kv ∈ map_range o (Labels a) → ¬ on_duty_for w (label_text kv) u)) → served w a us.
Proof.
  intros [(Hne & [k v] & Hin%elem_of_map_range & Hall)|(-> & Hnone)]; [by eapply served_by|].
  apply served_nobody. intros k v u Hkv. by apply Hnone, elem_of_map_range.
Qed.

(** The notifications for the alerts, given who each of them reaches. *)
Fixpoint notifications (orders : nat → alert_orders) (alerts : list Alert) (uss : list (list User)) :
    list string :=
  match alerts, uss with
  | a :: alerts, us :: uss =>
      texts (text_order (orders 0)) a us ++ notifications (λ i, orders (S i)) alerts uss
  | _, _ => []
  end.

Lemma process_alerts_served w0 orders alerts s :
  ok (a_world s) → same_tables w0 (a_world s) →
  ∃ uss w, process_alerts orders alerts s =
      (Ret tt, mkAst w (notified s ++ notifications orders alerts uss)) ∧
    Forall2 (served w0) alerts uss ∧ same_tables w0 w.
Proof.
  revert orders s. induction alerts as [|a alerts IH]; intros orders s Hok Hsame; simpl.
  - exists [], (a_world s). rewrite app_nil_r. split; [by destruct s|done].
  - destruct (find_duty_served w0 (map_range (search_order (orders 0)) (Labels a)) s Hok Hsame)
      as (us & w1 & Hf & Hok1 & Hsame1 & Hcase).
    unfold mbind, GoM_bind. rewrite Hf, notify_users_spec. simpl.
    destruct (IH (λ i, orders (S i)) (mkAst w1 (notified s ++ texts (text_order (orders 0)) a us)) Hok1 Hsame1)
      as (uss & w & Hp & Hall & Hsame2).
    exists (us :: uss), w. rewrite Hp. simpl. rewrite <-app_assoc. split; [done|].
    split; [|done]. constructor; [by eapply served_range|done].
Qed.

(** C18: the alerter, end to end: when Alertmanager answers and the lookups
    succeed, the notifications are, alert by alert in the order of the answer,
    one for each user of a list that is exactly the users on duty for one of
    the labels of the alert, and empty only if nobody is on duty for any of
    them; and no table has changed. *)
Theorem alerts_reach_people_on_duty orders s alerts w :
  mon_GetActiveAlerts (a_world s) = (inl alerts, w) → ok w →
  ∃ uss w', CheckAndNotify (NewAlerter MC DBAdapter) orders s =
      (Ret None, mkAst w' (notified s ++ notifications orders alerts uss)) ∧
    Forall2 (served w) alerts uss ∧ same_tables w w'.
Proof.
  intros Hm Hok. unfold CheckAndNotify, mbind, GoM_bind, a_lift.
  change (monClient _) with MC. change (MC (a_world s) = (inl alerts, w)) in Hm. rewrite Hm.
  destruct (process_alerts_served w orders alerts (mkAst w (notified s)) Hok (reflexivity _))
    as (uss & w' & Hp & Hall & Hsame).
  exists uss, w'. unfold mbind, GoM_bind. simpl db. by rewrite Hp.
Qed.
End alerter.

(** ** A sample: the office, with an alert for one team and a quiet one *)
Module Sample.
#[local] Instance office_alerts : MonitoringClient MemDb :=
  λ db, (inl [Alerter.Sample.disk_full; Alerter.Sample.quiet], db).

Definition answering (db : MemDb) : Prop := m_up db = true ∧ m_open db = true.

Lemma office_answers label db :
  answering db → ∃ us db', GetDutyUsersByLabel label db = (Ret (us, None), db') ∧ answering db'.
Proof.
  intros [Hup Hopen]. unfold GetDutyUsersByLabel, Find, on_DB. simpl. rewrite Hopen. unfold lift_op. simpl.
  unfold mem_joined, join_selection. simpl. rewrite Hup. simpl. by eexists _, _.
Qed.

Lemma alerts_reach_people_on_duty_witness :
  let orders := λ _ : nat, Alerter.Sample.listed in
  ∃ uss w', CheckAndNotify (NewAlerter office_alerts DBAdapter) orders (mkAst MemDb.Sample.office []) =
      (Ret None, mkAst w' (notifications orders [Alerter.Sample.disk_full; Alerter.Sample.quiet] uss)) ∧
    Forall2 (served MemDb.Sample.office) [Alerter.Sample.disk_full; Alerter.Sample.quiet] uss ∧
    same_tables MemDb.Sample.office w'.
Proof.
  intros orders.
  apply (alerts_reach_people_on_duty answering office_answers orders (mkAst MemDb.Sample.office [])
    [Alerter.Sample.disk_full; Alerter.Sample.quiet] MemDb.Sample.office); [reflexivity|done].
Defined.

Definition closed_office : MemDb := mkMemDb [] [] [] [] zero_time true false.

Lemma CheckAndNotify_needs_InitDB_witness :
  CheckAndNotify (NewAlerter office_alerts DBAdapter) (λ _, Alerter.Sample.listed) (mkAst closed_office []) =
    (Panic nil_deref, mkAst closed_office []).
Proof.
  apply (CheckAndNotify_needs_InitDB (λ _, Alerter.Sample.listed) (mkAst closed_office [])
    [Alerter.Sample.disk_full; Alerter.Sample.quiet] closed_office
    Alerter.Sample.disk_full [Alerter.Sample.quiet]); [reflexivity..|].
  intros Hl. apply (f_equal (λ m : gmap string string, m !! "env")) in Hl. vm_compute in Hl. discriminate Hl.
Defined.
End Sample.
