(* ===== verification/AlertPoller.v ===== *)
(** * [internal/app/poller_alert.go]: the life of the poller

    [Start] launches a goroutine that checks once and then serves its ticker
    until the context is cancelled; [Stop] cancels the context and waits for
    the goroutines.  What one check does is [Messages.checkAlerts]; here only
    its beginning and its end matter. *)
From stdpp Require Import base tactics strings list relations.
From Stdlib Require Import Lia.
From S2P Require Import Prelude.

(** The control points of the goroutine. *)
Inductive loop_pc :=
  | Spawned                  (** launched by [Start] *)
  | InCheck                  (** in [p.checkAlerts()] *)
  | InSelect                 (** waiting in [select] *)
  | Exited.                  (** [ticker.Stop] and [wg.Done] have run *)

#[export] Instance loop_pc_eq_dec : EqDecision loop_pc.
Proof. solve_decision. Defined.

(** A goroutine, and whether its ticker's channel holds a tick. *)
Record loop := mkLoop { pc : loop_pc; tick : bool }.

Inductive stop_pc := NotStopped | InWait | Stopped.

Record poller := mkPoller {
  loops : list loop;      (** one per call of [Start] *)
  wg : nat;
  cancelled : bool;
  stop : stop_pc;
  checks : nat;           (** checks begun *)
}.

Definition NewAlertPoller : poller := mkPoller [] 0 false NotStopped 0.

Inductive event :=
  | EStart                 (** a call of [Start] *)
  | ETick (i : nat)        (** the ticker of a goroutine fires *)
  | EMove (i : nat)        (** a goroutine moves; in [select], it takes a tick *)
  | EDone (i : nat)        (** a goroutine in [select] sees the context done *)
  | EStop                  (** [Stop] cancels the context and waits *)
  | EReturn.               (** [wg.Wait] returns *)

Definition set_loop (i : nat) (l : loop) (p : poller) : poller :=
  mkPoller (<[i := l]> (loops p)) (wg p) (cancelled p) (stop p) (checks p).

Definition Start (p : poller) : poller :=
  mkPoller (loops p ++ [mkLoop Spawned false]) (S (wg p)) (cancelled p) (stop p) (checks p).

#[export] Instance event_eq_dec : EqDecision event.
Proof. solve_decision. Defined.

(** One move of goroutine [i]. *)
Definition move (i : nat) (p : poller) : option poller :=
  l ← loops p !! i;
  match pc l with
  | Spawned =>
      Some (mkPoller (<[i := mkLoop InCheck (tick l)]> (loops p)) (wg p) (cancelled p) (stop p)
              (S (checks p)))
  | InCheck => Some (set_loop i (mkLoop InSelect (tick l)) p)
  | InSelect =>
      if tick l
      then Some (mkPoller (<[i := mkLoop InCheck false]> (loops p)) (wg p) (cancelled p) (stop p)
                   (S (checks p)))
      else None
  | Exited => None
  end.

(** The other case of the [select]. *)
Definition see_done (i : nat) (p : poller) : option poller :=
  l ← loops p !! i;
  match pc l, cancelled p with
  | InSelect, true =>
      Some (mkPoller (<[i := mkLoop Exited (tick l)]> (loops p)) (pred (wg p)) true (stop p) (checks p))
  | _, _ => None
  end.

Definition Stop_cancel (p : poller) : option poller :=
  match stop p with
  | InWait => None
  | _ => Some (mkPoller (loops p) (wg p) true InWait (checks p))
  end.

Definition Stop_return (p : poller) : option poller :=
  match stop p, wg p with
  | InWait, 0 => Some (mkPoller (loops p) 0 (cancelled p) Stopped (checks p))
  | _, _ => None
  end.

Definition handle (e : event) (p : poller) : option poller :=
  match e with
  | EStart => Some (Start p)
  | ETick i => l ← loops p !! i;
               if decide (pc l = Exited) then None else Some (set_loop i (mkLoop (pc l) true) p)
  | EMove i => move i p
  | EDone i => see_done i p
  | EStop => Stop_cancel p
  | EReturn => Stop_return p
  end.

Fixpoint run (events : list event) (p : poller) : option poller :=
  match events with
  | [] => Some p
  | e :: rest => handle e p ≫= run rest
  end.

(** ** Invariant *)

Definition live (l : loop) : nat := match pc l with Exited => 0 | _ => 1 end.
Definition live_loops (p : poller) : nat := sum_list_with live (loops p).

Lemma sum_list_with_insert {A} (f : A → nat) (l : list A) i x y :
  l !! i = Some x → sum_list_with f (<[i := y]> l) + f x = sum_list_with f l + f y.
Proof.
  revert i. induction l as [|a l IH]; intros [|i] H; simplify_eq/=; [lia|].
  specialize (IH i H). lia.
Qed.

(** The [WaitGroup] counts the goroutines that have not exited. *)
Definition wg_inv (p : poller) : Prop := wg p = live_loops p.

Lemma set_pc_live p i l (x : loop) :
  loops p !! i = Some l → sum_list_with live (<[i := x]> (loops p)) + live l = live_loops p + live x.
Proof. apply sum_list_with_insert. Qed.

Lemma handle_wg e p p' : handle e p = Some p' → wg_inv p → wg_inv p'.
Proof.
  unfold wg_inv. destruct e as [|i|i|i| |]; simpl.
  - intros [= <-] Hw. unfold live_loops in *. simpl. rewrite sum_list_with_app. simpl. lia.
  - destruct (loops p !! i) as [l|] eqn:El; simpl; [|done]. case_decide; [done|].
    intros [= <-] Hw. pose proof (set_pc_live p i l (mkLoop (pc l) true) El) as Hs.
    unfold live_loops in *. simpl. unfold live in Hs at 2 4. simpl in Hs. lia.
  - unfold move. destruct (loops p !! i) as [l|] eqn:El; simpl; [|done].
    intros He Hw. destruct (pc l) eqn:Ep; [..|done]; [| |destruct (tick l) eqn:Et; [|done]];
      injection He as <-; pose proof (set_pc_live p i l) as Hs; unfold live_loops in *; simpl in *;
      [specialize (Hs (mkLoop InCheck (tick l)) El)|specialize (Hs (mkLoop InSelect (tick l)) El)
      |specialize (Hs (mkLoop InCheck false) El)];
      unfold live in Hs at 2 4; rewrite Ep in Hs; simpl in Hs; lia.
  - unfold see_done. destruct (loops p !! i) as [l|] eqn:El; simpl; [|done].
    destruct (pc l) eqn:Ep; [done..| |done]. destruct (cancelled p); [|done]. intros [= <-] Hw.
    pose proof (set_pc_live p i l (mkLoop Exited (tick l)) El) as Hs.
    unfold live_loops in *. simpl. unfold live in Hs at 2 4. rewrite Ep in Hs. simpl in Hs. lia.
  - unfold Stop_cancel. destruct (stop p); try done; by intros [= <-].
  - unfold Stop_return. destruct (stop p), (wg p) eqn:E; try done. by intros [= <-].
Qed.

Lemma run_app es1 es2 p : run (es1 ++ es2) p = run es1 p ≫= run es2.
Proof.
  revert p. induction es1 as [|e es1 IH]; intros p; [done|]. simpl.
  destruct (handle e p); simpl; [apply IH|done].
Qed.

Lemma poller_run_inv (P : poller → Prop) es p p' :
  (∀ e p p', e ∈ es → handle e p = Some p' → P p → P p') → run es p = Some p' → P p → P p'.
Proof.
  revert p. induction es as [|e es IH]; intros p Hstep; simpl; [by intros [= <-]|].
  destruct (handle e p) as [p1|] eqn:E; simpl; [|done]. intros Hr Hp.
  apply IH with p1; [|done|].
  - intros e' q q' He'. apply Hstep. by right.
  - eapply Hstep; [left|done..].
Qed.

(** Every goroutine has exited, and so many checks have begun. *)
Definition at_rest (n : nat) (p : poller) : Prop := Forall (λ l, pc l = Exited) (loops p) ∧ checks p = n.

Lemma at_rest_handle n e p p' : e ≠ EStart → handle e p = Some p' → at_rest n p → at_rest n p'.
Proof.
  intros Hne He [Hall Hn]. destruct e as [|i|i|i| |]; simpl in He; [done| | | | |].
  1,2,3: unfold move, see_done in He; destruct (loops p !! i) as [l|] eqn:El; simpl in He; [|done];
    pose proof (Forall_lookup_1 _ _ _ _ Hall El) as Hl; simpl in Hl; by rewrite Hl in He.
  - unfold Stop_cancel in He. destruct (stop p); try done; by injection He as <-.
  - unfold Stop_return in He. destruct (stop p), (wg p); try done. by injection He as <-.
Qed.

Lemma live_zero (l : list loop) : sum_list_with live l = 0 → Forall (λ l, pc l = Exited) l.
Proof.
  induction l as [|x l IH]; simpl; intros H; constructor; [|apply IH; lia].
  unfold live in H. by destruct (pc x).
Qed.

(** C32: once [Stop] has returned, no check is running and none ever begins
    again, as long as [Start] is not called again: [wg.Wait] returns only when
    every goroutine has passed [wg.Done]. *)
Theorem stop_is_final before after p0 p :
  run before NewAlertPoller = Some p0 →
  run (EReturn :: after) p0 = Some p → EStart ∉ after →
  Forall (λ l, pc l = Exited) (loops p) ∧ checks p = checks p0.
Proof.
  intros H0 Hr Hs. assert (wg_inv p0) as Hw.
  { eapply poller_run_inv; [|exact H0|done]. intros e q q' _. apply handle_wg. }
  simpl in Hr. destruct (Stop_return p0) as [p1|] eqn:E1; simpl in Hr; [|done].
  apply (poller_run_inv (at_rest (checks p0)) after p1); [|done|].
  - intros e q q' He. apply at_rest_handle. by intros ->.
  - unfold Stop_return in E1. destruct (stop p0), (wg p0) eqn:Ew; try done. injection E1 as <-.
    split; [|done]. apply live_zero. unfold wg_inv, live_loops in Hw. simpl. congruence.
Qed.

Lemma stop_is_final_witness :
  Forall (λ l, pc l = Exited) [mkLoop Exited false] ∧ 1 = 1.
Proof.
  apply (stop_is_final [EStart; EMove 0; EMove 0; EStop; EDone 0] [EStop; EReturn]
    (mkPoller [mkLoop Exited false] 0 true InWait 1) (mkPoller [mkLoop Exited false] 0 true Stopped 1));
    [reflexivity..|]. by apply (bool_decide_unpack _).
Defined.

(** ** Termination of [Stop] *)

(** The steps left when no ticker fires and nobody calls [Start]. *)
Definition settles (p p' : poller) : Prop :=
  (∃ i, handle (EMove i) p = Some p' ∨ handle (EDone i) p = Some p') ∨ handle EReturn p = Some p'.

Definition loop_weight (l : loop) : nat :=
  match pc l with Spawned => 3 | InCheck => 2 | InSelect => 1 | Exited => 0 end +
  (if tick l then 2 else 0).
Definition weight (p : poller) : nat :=
  sum_list_with loop_weight (loops p) + match stop p with Stopped => 0 | _ => 1 end.

Lemma settles_weight p p' : settles p p' → weight p' < weight p.
Proof.
  unfold weight. intros [[i [H|H]]|H]; simpl in H.
  - unfold move in H. destruct (loops p !! i) as [l|] eqn:El; simpl in H; [|done].
    destruct (pc l) eqn:Ep; [..|done]; [| |destruct (tick l) eqn:Et; [|done]]; injection H as <-; simpl;
      [pose proof (sum_list_with_insert loop_weight _ i l (mkLoop InCheck (tick l)) El) as Hs
      |pose proof (sum_list_with_insert loop_weight _ i l (mkLoop InSelect (tick l)) El) as Hs
      |pose proof (sum_list_with_insert loop_weight _ i l (mkLoop InCheck false) El) as Hs];
      unfold loop_weight in Hs at 2 4; rewrite Ep in Hs; try rewrite Et in Hs; simpl in Hs; lia.
  - unfold see_done in H. destruct (loops p !! i) as [l|] eqn:El; simpl in H; [|done].
    destruct (pc l) eqn:Ep; [done..| |done]. destruct (cancelled p); [|done]. injection H as <-. simpl.
    pose proof (sum_list_with_insert loop_weight _ i l (mkLoop Exited (tick l)) El) as Hs.
    unfold loop_weight in Hs at 2 4. rewrite Ep in Hs. simpl in Hs. lia.
  - unfold Stop_return in H. destruct (stop p), (wg p); try done. injection H as <-. simpl. lia.
Qed.

(** The context is cancelled exactly from the call of [Stop] on. *)
Definition stop_inv (p : poller) : Prop := cancelled p = true ↔ stop p ≠ NotStopped.

Lemma handle_stop_inv e p p' : handle e p = Some p' → stop_inv p → stop_inv p'.
Proof.
  unfold stop_inv. destruct e as [|i|i|i| |]; simpl.
  - by intros [= <-].
  - destruct (loops p !! i); simpl; [|done]. case_decide; [done|]. by intros [= <-].
  - unfold move. destruct (loops p !! i) as [l|]; simpl; [|done].
    destruct (pc l); [| |destruct (tick l)|]; by intros [= <-].
  - unfold see_done. destruct (loops p !! i) as [l|]; simpl; [|done].
    destruct (pc l); [done..| |done]. destruct (cancelled p) eqn:E; [|done]. by intros [= <-].
  - unfold Stop_cancel. destruct (stop p) eqn:E; try done; by intros [= <-].
  - unfold Stop_return. destruct (stop p) eqn:E, (wg p); try done. intros [= <-]. simpl. naive_solver.
Qed.

(** What holds from the call of [Stop] on. *)
Definition stopping (p : poller) : Prop := wg_inv p ∧ cancelled p = true ∧ stop p ≠ NotStopped.

Lemma stopping_start before p :
  run before NewAlertPoller = Some p → stop p = InWait → stopping p.
Proof.
  intros Hr Hs. assert (wg_inv p ∧ stop_inv p) as [Hw Hc].
  { eapply (poller_run_inv (λ p, wg_inv p ∧ stop_inv p)); [|exact Hr|by split].
    intros e q q' _ He []. split; [by eapply handle_wg|by eapply handle_stop_inv]. }
  split; [done|]. unfold stop_inv in Hc. rewrite Hs in Hc. split; [by apply Hc|by rewrite Hs].
Qed.

Lemma settles_handle p p' : settles p p' → ∃ e, handle e p = Some p'.
Proof. intros [[i [H|H]]|H]; [by exists (EMove i)|by exists (EDone i)|by exists EReturn]. Qed.

Lemma handle_stopping e p p' : handle e p = Some p' → stopping p → stopping p'.
Proof.
  intros He (Hw & Hc & Hs). assert (stop_inv p) as Hi by done.
  split; [by eapply handle_wg|]. apply (handle_stop_inv _ _ _ He) in Hi. unfold stop_inv in Hi.
  enough (cancelled p' = true) by (split; [done|by apply Hi]). clear Hi Hw.
  destruct e as [|i|i|i| |]; simpl in He.
  - by injection He as <-.
  - destruct (loops p !! i); simpl in He; [|done]. case_decide; [done|]. by injection He as <-.
  - unfold move in He. destruct (loops p !! i) as [l|]; simpl in He; [|done].
    destruct (pc l); [| |destruct (tick l)|]; try done; by injection He as <-.
  - unfold see_done in He. destruct (loops p !! i) as [l|]; simpl in He; [|done].
    rewrite Hc in He. destruct (pc l); try done. by injection He as <-.
  - unfold Stop_cancel in He. destruct (stop p); try done; by injection He as <-.
  - unfold Stop_return in He. destruct (stop p), (wg p); try done. by injection He as <-.
Qed.

Lemma live_some (l : list loop) : sum_list_with live l ≠ 0 → ∃ i x, l !! i = Some x ∧ pc x ≠ Exited.
Proof.
  induction l as [|x l IH]; simpl; [done|]. intros Hl. destruct (decide (pc x = Exited)) as [Hx|Hx].
  - destruct IH as (i & y & Hi & Hy); [unfold live in Hl at 1; by rewrite Hx in Hl|].
    by exists (S i), y.
  - by exists 0, x.
Qed.

Lemma stopping_progress p : stopping p → (∀ p', ¬ settles p p') → stop p = Stopped.
Proof.
  intros (Hw & Hc & Hs) Hfin. destruct (stop p) eqn:E; [done| |done]. exfalso.
  destruct (decide (wg p = 0)) as [Hz|Hz].
  { eapply Hfin. right. simpl. unfold Stop_return. by rewrite E, Hz. }
  rewrite Hw in Hz. apply live_some in Hz as (i & l & Hi & Hl).
  destruct (pc l) eqn:Ep; [| | |done].
  - eapply Hfin. left. exists i. left. simpl. unfold move. rewrite Hi. simpl. by rewrite Ep.
  - eapply Hfin. left. exists i. left. simpl. unfold move. rewrite Hi. simpl. by rewrite Ep.
  - eapply Hfin. left. exists i. right. simpl. unfold see_done. rewrite Hi. simpl. by rewrite Ep, Hc.
Qed.

(** The steps of a run that are the poller's own, the ticks that were
    delivered in it, and the further calls of [Stop]. *)
Definition own_step_cost (e : event) : nat := match e with EMove _ | EDone _ | EReturn => 1 | _ => 0 end.
Definition tick_cost (e : event) : nat := match e with ETick _ => 1 | _ => 0 end.
Definition stop_cost (e : event) : nat := match e with EStop => 1 | _ => 0 end.
Definition own_steps (es : list event) : nat := sum_list_with own_step_cost es.
Definition ticks (es : list event) : nat := sum_list_with tick_cost es.
Definition stops (es : list event) : nat := sum_list_with stop_cost es.

Lemma tick_weight i p p' : handle (ETick i) p = Some p' → weight p' ≤ weight p + 2.
Proof.
  simpl. destruct (loops p !! i) as [l|] eqn:El; simpl; [|done]. case_decide; [done|]. intros [= <-].
  unfold weight. simpl. pose proof (sum_list_with_insert loop_weight _ i l (mkLoop (pc l) true) El) as Hs.
  unfold loop_weight in Hs at 2 4. simpl in Hs. destruct (tick l); lia.
Qed.

(** A step is paid for by the weight; only a tick or a new [Stop] adds to it. *)
Lemma handle_weight e p p' : e ≠ EStart → handle e p = Some p' →
  weight p' + own_step_cost e ≤ weight p + 2 * tick_cost e + stop_cost e.
Proof.
  intros Hne He. destruct e as [|i|i|i| |]; [done|apply tick_weight in He; simpl; lia|..].
  1,2,4: assert (settles p p') as Hs%settles_weight by (unfold settles; eauto); simpl; lia.
  simpl in He. unfold Stop_cancel in He. unfold weight. destruct (stop p); simplify_eq/=; lia.
Qed.

Lemma run_weight es p p' : run es p = Some p' → EStart ∉ es →
  own_steps es + weight p' ≤ weight p + 2 * ticks es + stops es.
Proof.
  unfold own_steps, ticks, stops. revert p. induction es as [|e es IH]; intros p; simpl; [intros [= ->]; lia|].
  destruct (handle e p) as [p1|] eqn:E; simpl; [|done]. intros Hr [Hne Hes]%not_elem_of_cons.
  specialize (IH p1 Hr Hes). apply handle_weight in E; [lia|done].
Qed.

(** C31: a call of [Stop] returns.  In any run after it in which [Start] is not
    called, the goroutines and [wg.Wait] take at most three steps for each
    goroutine, two for each tick held or delivered and one for the return of
    each [Stop] ([weight]); so from the last tick on their steps are finitely
    many, and when none is left [Stop] has returned. *)
Theorem stop_terminates before p :
  run before NewAlertPoller = Some p → stop p = InWait →
  (∀ es p', run es p = Some p' → EStart ∉ es → own_steps es ≤ weight p + 2 * ticks es + stops es) ∧
  ∀ es p1, run es p = Some p1 → stop p1 = InWait →
    Acc (flip settles) p1 ∧
    ∀ p', rtc settles p1 p' → (∀ p'', ¬ settles p' p'') → stop p' = Stopped.
Proof.
  intros Hr Hs. split; [intros es p' He Hes; pose proof (run_weight es p p' He Hes); lia|].
  intros es p1 He Hs1. split.
  { clear. revert p1. assert (∀ n p, weight p < n → Acc (flip settles) p) as H; [|eauto].
    induction n as [|n IH]; intros p Hp; [lia|]. constructor. intros p' Hp'%settles_weight.
    apply IH. lia. }
  assert (stopping p1) as Hst.
  { apply (stopping_start (before ++ es)); [|done]. by rewrite run_app, Hr. }
  intros p' Hrtc. apply stopping_progress.
  clear Hr Hs He Hs1. induction Hrtc as [q|q p2 p3 [e He]%settles_handle _ IH]; [done|].
  by eapply IH, handle_stopping.
Qed.

Lemma stop_terminates_witness :
  own_steps [ETick 0; EMove 0; EMove 0; EDone 0; EReturn] ≤ 4 + 2 * 1 + 0 ∧
  Acc (flip settles) (mkPoller [mkLoop InSelect true] 1 true InWait 1).
Proof.
  destruct (stop_terminates [EStart; EMove 0; EMove 0; ETick 0; EStop]
    (mkPoller [mkLoop InSelect true] 1 true InWait 1)) as [H1 H2]; [reflexivity..|]. split.
  - apply (H1 [ETick 0; EMove 0; EMove 0; EDone 0; EReturn] (mkPoller [mkLoop Exited false] 0 true Stopped 2));
      [reflexivity|by apply (bool_decide_unpack _)].
  - apply (H2 [] (mkPoller [mkLoop InSelect true] 1 true InWait 1)); reflexivity.
Defined.
