(* ===== verification/PollerTime.v ===== *)
(** * How often the poller of [poller_alert.go] checks

    The life of [AlertPoller] under a clock: the ticker of a goroutine is
    made when the goroutine begins, fires once per interval at most, and holds
    one tick for a slow receiver ([time.NewTicker]). *)
From stdpp Require Import base tactics strings list.
From Stdlib Require Import ZArith Lia.
From S2P Require Import Prelude GoTime AlertPoller.
Local Open Scope Z_scope.

(** A ticker: when it was made, when it fires next, how often it has fired. *)
Record ticker := mkTicker { made : Z; due : Z; fired : nat }.

(** The poller with its interval, the tickers of its goroutines (none before
    the goroutine has made it), the clock, and the panic that has ended the
    process. *)
Record timed_poller := mkTimed {
  life : poller;
  interval : Duration;
  tickers : list (option ticker);
  now : Z;
  down : option string;
}.

Definition NewAlertPoller_every (interval : Duration) : timed_poller :=
  mkTimed NewAlertPoller interval [] 0 None.

Inductive timed_event :=
  | Elapse (d : Z)
  | Fire (i : nat) (next : Z)    (** the runtime sends a tick and rearms the ticker *)
  | Live (e : event).            (** a step of the poller's own code *)

Definition with_life (p : poller) (t : timed_poller) : timed_poller :=
  mkTimed p (interval t) (tickers t) (now t) (down t).
Definition with_tickers (tks : list (option ticker)) (t : timed_poller) : timed_poller :=
  mkTimed (life t) (interval t) tks (now t) (down t).

(** [time.NewTicker]: it panics for an interval that is not positive. *)
Definition NewTicker (ivl : Duration) (at_ : Z) : ticker + string :=
  if decide (ivl ≤ 0) then inr "non-positive interval for NewTicker" else inl (mkTicker at_ (at_ + ivl) 0).

Definition live_event (e : event) (t : timed_poller) : option timed_poller :=
  match e with
  | ETick _ => None
  | EStart => p ← handle EStart (life t); Some (with_tickers (tickers t ++ [None]) (with_life p t))
  | EMove i =>
      match tickers t !! i with
      | Some None =>
          match NewTicker (interval t) (now t) with
          | inr why => Some (mkTimed (life t) (interval t) (tickers t) (now t) (Some why))
          | inl tk => p ← handle (EMove i) (life t);
                      Some (with_tickers (<[i := Some tk]> (tickers t)) (with_life p t))
          end
      | _ => p ← handle (EMove i) (life t); Some (with_life p t)
      end
  | e => p ← handle e (life t); Some (with_life p t)
  end.

Definition timed_step (te : timed_event) (t : timed_poller) : option timed_poller :=
  match down t with
  | Some _ => None
  | None =>
      match te with
      | Elapse d => if decide (0 ≤ d) then Some (mkTimed (life t) (interval t) (tickers t) (now t + d) None) else None
      | Fire i next =>
          match tickers t !! i with
          | Some (Some tk) =>
              if decide (due tk ≤ now t ∧ due tk + interval t ≤ next)
              then p ← handle (ETick i) (life t);
                   Some (with_tickers (<[i := Some (mkTicker (made tk) next (S (fired tk)))]> (tickers t))
                           (with_life p t))
              else None
          | _ => None
          end
      | Live e => live_event e t
      end
  end.

Fixpoint timed_run (tes : list timed_event) (t : timed_poller) : option timed_poller :=
  match tes with
  | [] => Some t
  | te :: rest => timed_step te t ≫= timed_run rest
  end.

(** ** Invariant *)

(** A ticker that has fired [n] times is [n] intervals old. *)
Definition ticker_inv (ivl now_ : Z) (tk : ticker) : Prop :=
  0 ≤ made tk ∧ made tk + Z.of_nat (fired tk) * ivl ≤ now_ ∧
  made tk + (Z.of_nat (fired tk) + 1) * ivl ≤ due tk.

(** The checks a ticker allows: the first one, and one for every tick. *)
Definition allowance (o : option ticker) : nat := match o with Some tk => S (fired tk) | None => 0 end.
Definition held (l : loop) : nat := if tick l then 1 else 0.

(** A goroutine has a ticker once it runs. *)
Definition in_step (l : loop) (o : option ticker) : Prop := pc l = Spawned ↔ o = None.

Record poller_inv (t : timed_poller) : Prop := {
  pi_step : Forall2 in_step (loops (life t)) (tickers t);
  pi_tickers : ∀ i tk, tickers t !! i = Some (Some tk) → ticker_inv (interval t) (now t) tk;
  pi_checks : (checks (life t) + sum_list_with held (loops (life t)) ≤ sum_list_with allowance (tickers t))%nat;
  pi_now : 0 ≤ now t;
}.

(** The same goroutine goes on, with its tick and its ticker changed. *)
Lemma poller_inv_insert t p i l l' o o' :
  poller_inv t → 0 < interval t →
  loops (life t) !! i = Some l → tickers t !! i = Some o →
  loops p = <[i := l']> (loops (life t)) → in_step l' o' →
  (∀ tk, o' = Some tk → ticker_inv (interval t) (now t) tk) →
  (checks p + held l' + allowance o ≤ checks (life t) + held l + allowance o')%nat →
  poller_inv (with_tickers (<[i := o']> (tickers t)) (with_life p t)).
Proof.
  intros [Hstep Htk Hch Hnow] Hi Hl Ho Hp Hs Ht Hc.
  pose proof (sum_list_with_insert held _ i l l' Hl) as Hsl.
  pose proof (sum_list_with_insert allowance _ i o o' Ho) as Hso.
  constructor; simpl; [rewrite Hp; by apply Forall2_insert| |rewrite Hp; lia|done].
  intros j tk [(-> & Heq & _)|[_ Hj]]%list_lookup_insert_Some; [by apply Ht|by eapply Htk].
Qed.

Lemma tickers_at t i l : poller_inv t → loops (life t) !! i = Some l →
  ∃ o, tickers t !! i = Some o ∧ in_step l o.
Proof. intros [Hs _ _ _] Hl. eapply Forall2_lookup_l in Hl as (o & Ho & Hlo); [by exists o|exact Hs]. Qed.

(** A step that leaves the tickers alone. *)
Lemma poller_inv_keep t p i l l' o :
  poller_inv t → 0 < interval t →
  loops (life t) !! i = Some l → tickers t !! i = Some o → loops p = <[i := l']> (loops (life t)) →
  in_step l' o → (checks p + held l' ≤ checks (life t) + held l)%nat → poller_inv (with_life p t).
Proof.
  intros Hinv Hi Hl Ho Hp Hs Hc.
  pose proof (poller_inv_insert t p i l l' o o Hinv Hi Hl Ho Hp Hs) as H.
  rewrite (list_insert_id _ _ _ Ho) in H. apply H; [|lia]. intros tk ->. by eapply pi_tickers.
Qed.

Lemma poller_inv_life t p :
  poller_inv t → loops p = loops (life t) → checks p = checks (life t) → poller_inv (with_life p t).
Proof. intros [Hs Ht Hc Hn] Hl Hk. constructor; simpl; by rewrite ?Hl, ?Hk. Qed.

Lemma move_inv i t t' : poller_inv t → 0 < interval t → live_event (EMove i) t = Some t' → poller_inv t'.
Proof.
  intros Hinv Hi. simpl. unfold move, NewTicker. rewrite decide_False by lia.
  destruct (loops (life t) !! i) as [l|] eqn:Hl; simpl; [|by destruct (tickers t !! i) as [[]|]].
  destruct (tickers_at t i l Hinv Hl) as (o & Ho & Hs). rewrite Ho. unfold in_step in Hs.
  destruct (pc l) eqn:Hpc, o as [tk|];
    try (exfalso; destruct Hs as [H1 H2]; discriminate (H1 eq_refl) || discriminate (H2 eq_refl)); simpl.
  - intros [= <-]. eapply poller_inv_insert; [done|done|exact Hl|exact Ho|done|done| |].
    + intros tk [= <-]. pose proof (pi_now t Hinv). unfold ticker_inv. simpl. lia.
    + unfold held. simpl. lia.
  - intros [= <-]. eapply poller_inv_keep; [done|done|exact Hl|exact Ho|done|done|]. unfold held. simpl. lia.
  - destruct (tick l) eqn:Et; simpl; [|done]. intros [= <-].
    eapply poller_inv_keep; [done|done|exact Hl|exact Ho|done|done|]. unfold held. simpl. rewrite Et. lia.
  - done.
Qed.

Lemma live_inv e t t' : poller_inv t → 0 < interval t → live_event e t = Some t' → poller_inv t'.
Proof.
  intros Hinv Hi. destruct e as [|i|i|i| |]; [|done|by apply move_inv| | |]; simpl.
  - intros [= <-]. destruct Hinv as [Hs Ht Hc Hn]. constructor; simpl; [|intros j tk| |done].
    + apply Forall2_app; [done|]. by repeat constructor.
    + intros [Hj|[_ Hj]]%lookup_app_Some; [by eapply Ht|].
      by apply list_lookup_singleton_Some in Hj as [_ ?].
    + rewrite !sum_list_with_app. simpl. lia.
  - unfold see_done. destruct (loops (life t) !! i) as [l|] eqn:Hl; simpl; [|done].
    destruct (tickers_at t i l Hinv Hl) as (o & Ho & Hs). destruct (pc l) eqn:Hpc; [done..| |done].
    destruct (cancelled (life t)); simpl; [|done]. intros [= <-].
    eapply poller_inv_keep; [done|done|exact Hl|exact Ho|done| |].
    + unfold in_step in *. simpl. rewrite <-Hs, Hpc. done.
    + unfold held. simpl. lia.
  - unfold Stop_cancel. destruct (stop (life t)); simpl; try done; intros [= <-]; by apply poller_inv_life.
  - unfold Stop_return. destruct (stop (life t)), (wg (life t)); simpl; try done. intros [= <-].
    by apply poller_inv_life.
Qed.

Lemma fire_inv i next t t' : poller_inv t → 0 < interval t → timed_step (Fire i next) t = Some t' → poller_inv t'.
Proof.
  intros Hinv Hi. unfold timed_step. destruct (down t); [done|].
  destruct (tickers t !! i) as [[tk|]|] eqn:Ho; [|done..]. case_decide as Hdue; [|done]. simpl.
  destruct (loops (life t) !! i) as [l|] eqn:Hl; simpl; [|done]. case_decide; simpl; [done|]. intros [= <-].
  destruct (tickers_at t i l Hinv Hl) as (o & Ho' & Hs). simplify_eq.
  eapply poller_inv_insert; [done|done|exact Hl|exact Ho|done| | |].
  - unfold in_step in *. simpl. split; [by intros Hp%Hs|done].
  - intros tk' [= <-]. pose proof (pi_tickers t Hinv i tk Ho) as (H0 & H1 & H2). unfold ticker_inv. simpl. lia.
  - unfold held. simpl. destruct (tick l); lia.
Qed.

Lemma timed_step_inv te t t' : poller_inv t → 0 < interval t → timed_step te t = Some t' →
  poller_inv t' ∧ interval t' = interval t.
Proof.
  intros Hinv Hi Hstep. split.
  - destruct te as [d|i next|e]; [|by eapply fire_inv|]; unfold timed_step in Hstep;
      (destruct (down t); [done|]); [|by eapply live_inv].
    case_decide as Hd; [|done]. injection Hstep as <-. destruct Hinv as [Hs Ht Hc Hn].
    constructor; simpl; [done| |done|lia]. intros i tk Hj. destruct (Ht i tk Hj) as (H0 & H1 & H2).
    unfold ticker_inv. lia.
  - unfold timed_step, live_event in Hstep. destruct (down t); [done|].
    repeat (case_match; simpl in Hstep; simplify_eq; try done); by (apply bind_Some in Hstep as (p & _ & [= <-])).
Qed.

(** ** Runs in which the goroutines keep up *)

(** A tick that is sent on time and finds no other tick held is not lost. *)
Definition keeps_up (te : timed_event) (t : timed_poller) : Prop :=
  match te with
  | Fire i next => ∃ l tk, loops (life t) !! i = Some l ∧ tick l = false ∧
                     tickers t !! i = Some (Some tk) ∧ next = due tk + interval t
  | _ => True
  end.
Fixpoint no_tick_lost (tes : list timed_event) (t : timed_poller) : Prop :=
  match tes with
  | [] => True
  | te :: rest => keeps_up te t ∧ ∀ t', timed_step te t = Some t' → no_tick_lost rest t'
  end.

(** Every tick has led to a check or is held. *)
Record exact_inv (t : timed_poller) : Prop := {
  ei_tickers : ∀ i tk, tickers t !! i = Some (Some tk) →
    due tk = made tk + (Z.of_nat (fired tk) + 1) * interval t;
  ei_checks : (checks (life t) + sum_list_with held (loops (life t)))%nat = sum_list_with allowance (tickers t);
}.

Lemma exact_insert t p i l l' o o' :
  exact_inv t → loops (life t) !! i = Some l → tickers t !! i = Some o →
  loops p = <[i := l']> (loops (life t)) →
  (∀ tk, o' = Some tk → due tk = made tk + (Z.of_nat (fired tk) + 1) * interval t) →
  (checks p + held l' + allowance o)%nat = (checks (life t) + held l + allowance o')%nat →
  exact_inv (with_tickers (<[i := o']> (tickers t)) (with_life p t)).
Proof.
  intros [Htk Hch] Hl Ho Hp Ht Hc.
  pose proof (sum_list_with_insert held _ i l l' Hl) as Hsl.
  pose proof (sum_list_with_insert allowance _ i o o' Ho) as Hso.
  constructor; simpl; [|rewrite Hp; lia].
  intros j tk [(-> & Heq & _)|[_ Hj]]%list_lookup_insert_Some; [by apply Ht|by eapply Htk].
Qed.

Lemma exact_keep t p i l l' o :
  exact_inv t → loops (life t) !! i = Some l → tickers t !! i = Some o →
  loops p = <[i := l']> (loops (life t)) →
  (checks p + held l')%nat = (checks (life t) + held l)%nat → exact_inv (with_life p t).
Proof.
  intros Hinv Hl Ho Hp Hc. pose proof (exact_insert t p i l l' o o Hinv Hl Ho Hp) as H.
  rewrite (list_insert_id _ _ _ Ho) in H. apply H; [|lia]. intros tk ->. by eapply ei_tickers.
Qed.

Lemma exact_life t p :
  exact_inv t → loops p = loops (life t) → checks p = checks (life t) → exact_inv (with_life p t).
Proof. intros [Ht Hc] Hl Hk. constructor; simpl; by rewrite ?Hl, ?Hk. Qed.

Lemma move_exact i t t' :
  poller_inv t → 0 < interval t → exact_inv t → live_event (EMove i) t = Some t' → exact_inv t'.
Proof.
  intros Hinv Hi He. simpl. unfold move, NewTicker. rewrite decide_False by lia.
  destruct (loops (life t) !! i) as [l|] eqn:Hl; simpl; [|by destruct (tickers t !! i) as [[]|]].
  destruct (tickers_at t i l Hinv Hl) as (o & Ho & Hs). rewrite Ho. unfold in_step in Hs.
  destruct (pc l) eqn:Hpc, o as [tk|];
    try (exfalso; destruct Hs as [H1 H2]; discriminate (H1 eq_refl) || discriminate (H2 eq_refl)); simpl.
  - intros [= <-]. eapply exact_insert; [done|exact Hl|exact Ho|done| |unfold held; simpl; lia].
    intros tk [= <-]. simpl. lia.
  - intros [= <-]. eapply exact_keep; [done|exact Hl|exact Ho|done|]. unfold held. simpl. lia.
  - destruct (tick l) eqn:Et; simpl; [|done]. intros [= <-].
    eapply exact_keep; [done|exact Hl|exact Ho|done|]. unfold held. simpl. rewrite Et. lia.
  - done.
Qed.

Lemma live_exact e t t' :
  poller_inv t → 0 < interval t → exact_inv t → live_event e t = Some t' → exact_inv t'.
Proof.
  intros Hinv Hi Hex. destruct e as [|i|i|i| |]; [|done|by apply move_exact| | |]; simpl.
  - intros [= <-]. destruct Hex as [Ht Hc]. constructor; simpl; [intros j tk|].
    + intros [Hj|[_ Hj]]%lookup_app_Some; [by eapply Ht|].
      by apply list_lookup_singleton_Some in Hj as [_ ?].
    + rewrite !sum_list_with_app. simpl. lia.
  - unfold see_done. destruct (loops (life t) !! i) as [l|] eqn:Hl; simpl; [|done].
    destruct (tickers_at t i l Hinv Hl) as (o & Ho & _). destruct (pc l) eqn:Hpc; [done..| |done].
    destruct (cancelled (life t)); simpl; [|done]. intros [= <-].
    eapply exact_keep; [done|exact Hl|exact Ho|done|]. unfold held. simpl. lia.
  - unfold Stop_cancel. destruct (stop (life t)); simpl; try done; intros [= <-]; by apply exact_life.
  - unfold Stop_return. destruct (stop (life t)), (wg (life t)); simpl; try done. intros [= <-].
    by apply exact_life.
Qed.

Lemma fire_exact i next t t' :
  exact_inv t → keeps_up (Fire i next) t → timed_step (Fire i next) t = Some t' → exact_inv t'.
Proof.
  intros Hex (l & tk & Hl & Hk & Ho & ->). unfold timed_step. destruct (down t); [done|].
  rewrite Ho. case_decide as Hdue; [|done]. simpl. rewrite Hl. simpl. case_decide; simpl; [done|]. intros [= <-].
  eapply exact_insert; [done|exact Hl|exact Ho|done| |unfold held; simpl; rewrite Hk; lia].
  intros tk' [= <-]. simpl. rewrite (ei_tickers t Hex i tk Ho). lia.
Qed.

Lemma timed_step_exact te t t' :
  poller_inv t → 0 < interval t → exact_inv t → keeps_up te t → timed_step te t = Some t' → exact_inv t'.
Proof.
  intros Hinv Hi Hex Hk Hstep. destruct te as [d|i next|e]; [|by eapply fire_exact|]; unfold timed_step in Hstep;
    (destruct (down t); [done|]); [|by eapply live_exact].
  case_decide as Hd; [|done]. injection Hstep as <-. destruct Hex as [Ht Hc]. by constructor.
Qed.

(** ** The rate of the checks *)

Lemma new_poller_ok ivl : poller_inv (NewAlertPoller_every ivl) ∧ interval (NewAlertPoller_every ivl) = ivl.
Proof. split; [|done]. constructor; simpl; [constructor|done|lia|lia]. Qed.

Lemma timed_run_inv ivl tes t t' :
  0 < ivl → timed_run tes t = Some t' → poller_inv t ∧ interval t = ivl →
  (poller_inv t' ∧ interval t' = ivl) ∧ (no_tick_lost tes t → exact_inv t → exact_inv t').
Proof.
  intros Hi. revert t. induction tes as [|te tes IH]; intros t; simpl.
  - by intros [= ->].
  - destruct (timed_step te t) as [t1|] eqn:E; simpl; [|done]. intros Hr [H0 H1].
    pose proof (timed_step_inv te t t1 H0 ltac:(lia) E) as [H2 H3].
    destruct (IH t1 Hr ltac:(split; [done|congruence])) as [Hinv Hex]. split; [done|].
    intros [Hk Hrest] He. apply Hex; [by apply Hrest|]. by eapply timed_step_exact; [exact H0|lia|done..].
Qed.

Lemma allowance_bound ivl now_ tks :
  0 < ivl → 0 ≤ now_ → (∀ i tk, tks !! i = Some (Some tk) → ticker_inv ivl now_ tk) →
  Z.of_nat (sum_list_with allowance tks) ≤ Z.of_nat (length tks) * (1 + now_ / ivl).
Proof.
  intros Hi Hn. induction tks as [|o tks IH]; intros Ht; [done|].
  specialize (IH (λ i, Ht (S i))). simpl. pose proof (Z.div_pos now_ ivl Hn Hi).
  assert (Z.of_nat (allowance o) ≤ 1 + now_ / ivl) as Ho; [|lia].
  destruct o as [tk|]; simpl; [|lia]. destruct (Ht 0%nat tk eq_refl) as (H0 & H1 & _).
  assert (Z.of_nat (fired tk) ≤ now_ / ivl); [|lia]. apply Z.div_le_lower_bound; lia.
Qed.

(** The checks due by [now_]: one when the goroutine began, and one for each
    interval that its ticker has seen. *)
Definition due_checks (ivl now_ : Z) (o : option ticker) : nat :=
  match o with Some tk => S (Z.to_nat ((now_ - made tk) / ivl)) | None => 0 end.

Lemma allowance_due ivl now_ tks :
  0 < ivl →
  (∀ i o, tks !! i = Some o → ∃ tk, o = Some tk ∧ now_ < due tk ∧ ticker_inv ivl now_ tk ∧
     due tk = made tk + (Z.of_nat (fired tk) + 1) * ivl) →
  sum_list_with allowance tks = sum_list_with (due_checks ivl now_) tks.
Proof.
  intros Hi. induction tks as [|o tks IH]; intros Ht; [done|]. simpl. rewrite (IH (λ i, Ht (S i))). f_equal.
  destruct (Ht 0%nat o eq_refl) as (tk & -> & Hd & (_ & H1 & _) & H2). simpl. f_equal.
  rewrite <-(Z.div_unique (now_ - made tk) ivl (Z.of_nat (fired tk))
    (now_ - made tk - ivl * Z.of_nat (fired tk))); [lia| |lia]. left. lia.
Qed.

(** C36: a poller keeps its interval.  However slow the checks are and whenever
    the goroutines run, it begins at most one check for each call of [Start] and
    one more for each interval that has gone by; and in a run in which no tick
    is lost it has begun exactly one check for each goroutine and one more for
    each interval since that goroutine began, whenever no tick is waiting to be
    sent or taken. *)
Theorem checks_keep_the_interval ivl tes t :
  0 < ivl → timed_run tes (NewAlertPoller_every ivl) = Some t →
  Z.of_nat (checks (life t)) ≤ Z.of_nat (length (loops (life t))) * (1 + now t / ivl) ∧
  (no_tick_lost tes (NewAlertPoller_every ivl) →
   Forall (λ l, tick l = false) (loops (life t)) →
   (∀ i o, tickers t !! i = Some o → ∃ tk, o = Some tk ∧ now t < due tk) →
   checks (life t) = sum_list_with (due_checks ivl (now t)) (tickers t)).
Proof.
  intros Hi Hrun. destruct (timed_run_inv ivl tes _ t Hi Hrun (new_poller_ok ivl)) as [[Hinv Hivl] Hex].
  destruct Hinv as [Hs Ht Hc Hn]. rewrite Hivl in Ht. split.
  - rewrite (Forall2_length _ _ _ Hs). pose proof (allowance_bound ivl (now t) (tickers t) Hi Hn Ht). lia.
  - intros Hlost Hnone Hdue. destruct (Hex Hlost ltac:(by constructor)) as [Hd Hsum]. rewrite Hivl in Hd.
    rewrite <-allowance_due; [|done|].
    + rewrite <-Hsum. enough (sum_list_with held (loops (life t)) = 0%nat) by lia. clear -Hnone.
      induction Hnone as [|l ls Hl _ IH]; [done|]. simpl. unfold held at 1. by rewrite Hl, IH.
    + intros i o Ho. destruct (Hdue i o Ho) as (tk & -> & Hnow). exists tk. split_and!; eauto.
Qed.

(** A poller made with an interval that is not positive ends the process as
    soon as its goroutine runs, before the first check. *)
Theorem no_interval_ends_the_process ivl :
  ivl ≤ 0 → ∃ t, timed_run [Live EStart; Live (EMove 0)] (NewAlertPoller_every ivl) = Some t ∧
    down t = Some "non-positive interval for NewTicker" ∧ checks (life t) = 0%nat.
Proof.
  intros Hi.
  assert (∀ at_, NewTicker ivl at_ = inr "non-positive interval for NewTicker") as Hnt
    by (intros at_; unfold NewTicker; by rewrite decide_True).
  eexists. split.
  - cbn -[NewTicker]. rewrite Hnt. reflexivity.
  - split; reflexivity.
Qed.

(** ** The clock forgotten *)

Definition forget (te : timed_event) : list event :=
  match te with Elapse _ => [] | Fire i _ => [ETick i] | Live e => [e] end.

Lemma timed_step_forgets te t t' :
  timed_step te t = Some t' → down t' = None → run (forget te) (life t) = Some (life t').
Proof.
  intros Hs Hd. unfold timed_step, live_event in Hs.
  destruct (down t); [done|]. destruct te as [d|i next|e]; cbn [forget run].
  - case_decide; [|done]. by injection Hs as <-.
  - repeat (case_match; try done). apply bind_Some in Hs as (p & -> & [= <-]). done.
  - repeat (case_match; try done); try (apply bind_Some in Hs as (p & -> & [= <-]); done).
    injection Hs as <-. done.
Qed.

(** A run under the clock is, but for the clock, a run of [AlertPoller]: what
    is shown there of [Stop] holds here. *)
Theorem timed_run_forgets tes t t' :
  timed_run tes t = Some t' → down t' = None → run (tes ≫= forget) (life t) = Some (life t').
Proof.
  revert t. induction tes as [|te tes IH]; intros t; simpl; [by intros [= ->]|].
  destruct (timed_step te t) as [t1|] eqn:E; simpl; [|done]. intros Hr Hd.
  assert (down t1 = None) as Hd1.
  { destruct tes as [|te' tes]; simpl in Hr; [by injection Hr as ->|].
    unfold timed_step in Hr. by destruct (down t1). }
  rewrite run_app, (timed_step_forgets _ _ _ E Hd1). by apply IH.
Qed.

(** ** A slow receiver *)

(** The interval of [startPoller]; the second check takes three intervals, and
    one tick is kept for it. *)
Definition slow_checks : list timed_event :=
  [Live EStart; Live (EMove 0); Live (EMove 0); Elapse (40 * Second); Fire 0 (80 * Second); Live (EMove 0);
   Elapse (120 * Second); Fire 0 (200 * Second); Live (EMove 0); Live (EMove 0)].

(** Checks that take ten seconds, on time. *)
Definition quick_checks : list timed_event :=
  [Live EStart; Elapse (5 * Second); Live (EMove 0); Elapse (10 * Second); Live (EMove 0);
   Elapse (30 * Second); Fire 0 (85 * Second); Live (EMove 0); Live (EMove 0);
   Elapse (40 * Second); Fire 0 (125 * Second); Live (EMove 0); Elapse (10 * Second); Live (EMove 0)].

Lemma quick_checks_no_tick_lost : no_tick_lost quick_checks (NewAlertPoller_every (40 * Second)).
Proof.
  unfold quick_checks.
  repeat (split; [first [exact I | by eexists _, _; split_and!; vm_compute; reflexivity]
                 |let H := fresh in intros ? H; vm_compute in H; injection H as <-]).
  exact I.
Qed.

Lemma checks_keep_the_interval_witness :
  (∃ t, timed_run slow_checks (NewAlertPoller_every (40 * Second)) = Some t ∧ checks (life t) = 3%nat ∧
    now t = 160 * Second ∧
    Z.of_nat (checks (life t)) ≤ Z.of_nat (length (loops (life t))) * (1 + now t / (40 * Second))) ∧
  ∃ t, timed_run quick_checks (NewAlertPoller_every (40 * Second)) = Some t ∧ now t = 95 * Second ∧
    checks (life t) = sum_list_with (due_checks (40 * Second) (now t)) (tickers t) ∧ checks (life t) = 3%nat.
Proof.
  split; (eexists; split; [vm_compute; reflexivity|]).
  - split; [reflexivity|]. split; [reflexivity|].
    refine (proj1 (checks_keep_the_interval (40 * Second) slow_checks _ _ _)); vm_compute; reflexivity.
  - split; [reflexivity|]. split; [|reflexivity].
    refine (proj2 (checks_keep_the_interval (40 * Second) quick_checks _ _ _) _ _ _);
      [vm_compute; reflexivity|vm_compute; reflexivity|exact quick_checks_no_tick_lost|by repeat constructor|].
    intros [|i] o Ho; [injection Ho as <-|discriminate Ho]. eexists. split; [reflexivity|]. vm_compute. reflexivity.
Defined.
