(* ===== verification/Signals.v ===== *)
(** * [startPoller] of [cmd/bot/main.go] and the signals of the process

    The goroutine of [startPoller] beside the poller it runs.  A signal that
    [signal.Notify] was not called for does what it does by default, which for
    SIGINT, SIGTERM and several others is to end the process; one that it was
    called for is put in the channel, which holds one, and does nothing else.
    The two goroutines and the signals take their steps in any order. *)
From stdpp Require Import base tactics strings list relations.
From Stdlib Require Import Lia.
From S2P Require Import Prelude Monitoring AlertPoller.

(** The signals of the package [syscall] that matter here, and the default of
    each, as [os/signal] documents it. *)
Inductive os_signal := SIGHUP | SIGINT | SIGQUIT | SIGABRT | SIGKILL | SIGTERM | SIGUSR1 | SIGCHLD.

#[export] Instance os_signal_eq_dec : EqDecision os_signal.
Proof. solve_decision. Defined.

Definition default_ends (sg : os_signal) : bool :=
  match sg with SIGUSR1 | SIGCHLD => false | _ => true end.

(** The control points of [startPoller]. *)
Inductive starter_pc :=
  | Creating          (** before [monitoring.NewClient] *)
  | Created           (** before [signal.Notify] *)
  | Notified          (** before [poller.Start] *)
  | Waiting           (** at [<-sigChan] *)
  | Stopping          (** in [poller.Stop] *)
  | Ended.

Record guarded := mkGuarded {
  g_pc : starter_pc;
  g_relayed : list os_signal;   (** these go to [sigChan] *)
  g_pending : bool;        (** [sigChan] holds a signal *)
  g_alive : bool;          (** the process runs *)
  g_poller : poller;
  g_log : list string;
}.

(** A step of [startPoller], a step of the poller's own goroutine or a tick,
    and a signal. *)
Inductive g_event := GStarter | GPoller (e : event) | GSignal (sg : os_signal).

#[export] Instance g_event_eq_dec : EqDecision g_event.
Proof. solve_decision. Defined.

Section starter.
Context {N : Type} `{!Http N}.
(** The two addresses of the environment. *)
Variables prometheusURL alertmanagerURL : string.

Definition goto (pc : starter_pc) (p : poller) (lines : list string) (g : guarded) : guarded :=
  mkGuarded pc (g_relayed g) (g_pending g) (g_alive g) p (g_log g ++ lines).

Definition starter_step (g : guarded) : option guarded :=
  match g_pc g with
  | Creating =>
      match NewClient (N := N) prometheusURL alertmanagerURL with
      | inr err => Some (goto Ended (g_poller g) ["Failed to create monitoring client: " +:+ err] g)
      | inl _ => Some (goto Created NewAlertPoller [] g)
      end
  | Created => Some (mkGuarded Notified [SIGINT; SIGTERM] false (g_alive g) (g_poller g) (g_log g))
  | Notified => p ← handle EStart (g_poller g); Some (goto Waiting p ["Alert poller started"] g)
  | Waiting =>
      if g_pending g then
        p ← handle EStop (g_poller g);
        Some (mkGuarded Stopping (g_relayed g) false (g_alive g) p
                (g_log g ++ ["Received shutdown signal"]))
      else None
  | Stopping => p ← handle EReturn (g_poller g); Some (goto Ended p ["Alert poller stopped"] g)
  | Ended => None
  end.

(** The events of the poller that are not calls of its methods. *)
Definition own_step (e : event) (g : guarded) : option guarded :=
  match e with
  | EStart | EStop | EReturn => None
  | _ => p ← handle e (g_poller g); Some (goto (g_pc g) p [] g)
  end.

(** A signal that finds the channel full is dropped. *)
Definition signal (sg : os_signal) (g : guarded) : guarded :=
  if decide (sg ∈ g_relayed g)
  then mkGuarded (g_pc g) (g_relayed g) true (g_alive g) (g_poller g) (g_log g)
  else mkGuarded (g_pc g) (g_relayed g) (g_pending g) (negb (default_ends sg)) (g_poller g) (g_log g).

Definition g_step (e : g_event) (g : guarded) : option guarded :=
  if g_alive g then
    match e with
    | GStarter => starter_step g
    | GPoller e => own_step e g
    | GSignal sg => Some (signal sg g)
    end
  else None.

Fixpoint g_run (es : list g_event) (g : guarded) : option guarded :=
  match es with [] => Some g | e :: rest => g_step e g ≫= g_run rest end.

Definition g_start : guarded := mkGuarded Creating [] false true NewAlertPoller [].

(** ** Invariant *)

(** How far the goroutine is, read off the poller and the channel. *)
Definition guarded_inv (g : guarded) : Prop :=
  wg_inv (g_poller g) ∧ stop_inv (g_poller g) ∧
  match g_pc g with
  | Creating | Created => g_relayed g = [] ∧ loops (g_poller g) = []
  | Notified => g_relayed g = [SIGINT; SIGTERM] ∧ loops (g_poller g) = [] ∧ stop (g_poller g) = NotStopped
  | Waiting => g_relayed g = [SIGINT; SIGTERM] ∧ length (loops (g_poller g)) = 1 ∧ stop (g_poller g) = NotStopped
  | Stopping => g_relayed g = [SIGINT; SIGTERM] ∧ length (loops (g_poller g)) = 1 ∧ stop (g_poller g) = InWait
  | Ended => Forall (λ l, pc l = Exited) (loops (g_poller g))
  end ∧
  (g_pc g = Created → stop (g_poller g) = NotStopped).

(** The poller's own events neither start nor stop it. *)
Lemma own_event_keeps e p p' :
  e ≠ EStart → e ≠ EStop → e ≠ EReturn → handle e p = Some p' →
  length (loops p') = length (loops p) ∧ stop p' = stop p.
Proof.
  intros H1 H2 H3. destruct e as [|i|i|i| |]; simpl; try done; unfold move, see_done, set_loop;
    destruct (loops p !! i) as [l|]; simpl; try done.
  - case_decide; [done|]. intros [= <-]. simpl. by rewrite length_insert.
  - destruct (pc l); [| |destruct (tick l)|]; intros [= <-]; simpl; by rewrite length_insert.
  - destruct (pc l); [done..| |done]. destruct (cancelled p); [|done].
    intros [= <-]. simpl. by rewrite length_insert.
Qed.

Lemma own_event_exited e p p' :
  e ≠ EStart → handle e p = Some p' → Forall (λ l, pc l = Exited) (loops p) →
  Forall (λ l, pc l = Exited) (loops p').
Proof. intros He Hh Hall. by destruct (at_rest_handle (checks p) e p p' He Hh). Qed.

Lemma g_step_inv e g g' : g_step e g = Some g' → guarded_inv g → guarded_inv g'.
Proof.
  unfold g_step. destruct (g_alive g); [|done]. intros Hs (Hw & Hst & Hpc & Hcr).
  destruct e as [|e|sg].
  - unfold starter_step in Hs. destruct (g_pc g) eqn:Epc; try done.
    + destruct (NewClient _ _) as [c|err]; injection Hs as <-; split_and!; simpl; try done.
      * by destruct Hpc as [? _].
      * by destruct Hpc as [_ ->].
    + injection Hs as <-. destruct Hpc as [_ Hl]. split_and!; simpl; [done..|by auto|done].
    + destruct (handle EStart (g_poller g)) as [p|] eqn:E; simpl in Hs; [|done]. injection Hs as <-.
      destruct Hpc as (Hn & Hl & Hs0).
      split_and!; simpl; [by eapply handle_wg|by eapply handle_stop_inv| |done].
      simpl in E. injection E as <-. simpl. by rewrite Hl.
    + destruct (g_pending g); [|done].
      destruct (handle EStop (g_poller g)) as [p|] eqn:E; simpl in Hs; [|done]. injection Hs as <-.
      destruct Hpc as (Hn & Hl & Hs0).
      split_and!; simpl; [by eapply handle_wg|by eapply handle_stop_inv| |done].
      simpl in E. unfold Stop_cancel in E. rewrite Hs0 in E. by injection E as <-.
    + destruct (handle EReturn (g_poller g)) as [p|] eqn:E; simpl in Hs; [|done]. injection Hs as <-.
      split_and!; simpl; [by eapply handle_wg|by eapply handle_stop_inv| |done].
      simpl in E. unfold Stop_return in E. destruct (stop (g_poller g)), (wg (g_poller g)) eqn:Ew; try done.
      injection E as <-. apply live_zero. unfold wg_inv, live_loops in Hw. simpl. congruence.
  - assert (e ≠ EStart ∧ e ≠ EStop ∧ e ≠ EReturn) as (H1 & H2 & H3) by by destruct e.
    assert (∃ p, handle e (g_poller g) = Some p ∧ g' = goto (g_pc g) p [] g) as (p & Hp & ->).
    { unfold own_step in Hs. destruct e; try done; destruct (handle _ _) as [p|]; try done;
        injection Hs as <-; by exists p. }
    destruct (own_event_keeps e (g_poller g) p) as [Hl Hs0]; [done..|].
    split_and!; simpl; [by eapply handle_wg|by eapply handle_stop_inv| |by rewrite Hs0].
    destruct (g_pc g); rewrite ?Hl, ?Hs0; try done.
    + destruct Hpc as [? Hnil]. split; [done|]. apply nil_length_inv. by rewrite Hl, Hnil.
    + destruct Hpc as [? Hnil]. split; [done|]. apply nil_length_inv. by rewrite Hl, Hnil.
    + destruct Hpc as (? & Hnil & ?). split_and!; [done| |done]. apply nil_length_inv. by rewrite Hl, Hnil.
    + by eapply own_event_exited.
  - injection Hs as <-. unfold signal. case_decide; by split_and!.
Qed.

Lemma g_run_inv es g g' : g_run es g = Some g' → guarded_inv g → guarded_inv g'.
Proof.
  revert g. induction es as [|e es IH]; intros g; simpl; [by intros [= ->]|].
  destruct (g_step e g) as [g1|] eqn:E; simpl; [|done]. intros Hr Hi. by eapply IH, g_step_inv.
Qed.

Lemma g_start_inv : guarded_inv g_start.
Proof. by split_and!. Qed.

(** ** What a signal does *)

Definition to_stop (sg : os_signal) : Prop := sg = SIGINT ∨ sg = SIGTERM.
Definition notified (g : guarded) : Prop := g_relayed g = [SIGINT; SIGTERM].

Lemma relayed_after_notify g sg : notified g → sg ∈ g_relayed g ↔ to_stop sg.
Proof.
  unfold notified, to_stop. intros ->. rewrite !elem_of_cons, elem_of_nil. naive_solver.
Qed.

(** Only a signal ends the process, and nothing takes the signals back. *)
Lemma quiet_step e g g' :
  (∀ sg, e ≠ GSignal sg) → g_step e g = Some g' → g_alive g' = true ∧ (notified g → notified g').
Proof.
  unfold g_step, notified. intros He Hs. destruct (g_alive g) eqn:Ha; [|done].
  destruct e as [|e|sg]; [| |by destruct (He sg)].
  - unfold starter_step in Hs. destruct (g_pc g); try done.
    + by destruct (NewClient _ _); injection Hs as <-.
    + by injection Hs as <-.
    + apply bind_Some in Hs as (p & _ & Hs). by injection Hs as <-.
    + destruct (g_pending g); [|done]. apply bind_Some in Hs as (p & _ & Hs). by injection Hs as <-.
    + apply bind_Some in Hs as (p & _ & Hs). by injection Hs as <-.
  - unfold own_step in Hs. destruct e; try done; apply bind_Some in Hs as (p & _ & Hs); by injection Hs as <-.
Qed.

(** A signal that stops the poller, once [signal.Notify] has been called. *)
Lemma signal_relayed sg g :
  g_alive g = true → notified g → to_stop sg →
  g_step (GSignal sg) g = Some (mkGuarded (g_pc g) (g_relayed g) true true (g_poller g) (g_log g)).
Proof.
  intros Ha Hn Hsg. unfold g_step, signal. rewrite Ha, decide_True by by apply relayed_after_notify. done.
Qed.

Lemma signal_default sg g :
  g_alive g = true → notified g → ¬ to_stop sg →
  g_step (GSignal sg) g
    = Some (mkGuarded (g_pc g) (g_relayed g) (g_pending g) (negb (default_ends sg)) (g_poller g) (g_log g)).
Proof.
  intros Ha Hn Hsg. unfold g_step, signal. rewrite Ha, decide_False; [done|]. by rewrite relayed_after_notify.
Qed.

(** No signal arrives that ends the process by default, but for the two. *)
Definition harmless (e : g_event) : Prop :=
  ∀ sg, e = GSignal sg → to_stop sg ∨ default_ends sg = false.

Lemma notified_step e g g' :
  g_step e g = Some g' → harmless e → notified g → g_alive g' = true ∧ notified g'.
Proof.
  intros Hs Hh Hn. assert (g_alive g = true) as Ha by (unfold g_step in Hs; by destruct (g_alive g)).
  destruct e as [|e|sg]; [by destruct (quiet_step GStarter g g'); auto|by destruct (quiet_step (GPoller e) g g'); auto|].
  assert (Decision (to_stop sg)) as Hdec by (unfold to_stop; apply _).
  destruct (decide (to_stop sg)) as [Hsg|Hsg].
  - rewrite signal_relayed in Hs by done. by injection Hs as <-.
  - rewrite signal_default in Hs by done. injection Hs as <-. destruct (Hh sg eq_refl) as [|Hd]; [done|].
    by rewrite Hd.
Qed.

Lemma notified_run es g g' :
  g_run es g = Some g' → Forall harmless es → notified g → g_alive g = true → g_alive g' = true ∧ notified g'.
Proof.
  revert g. induction es as [|e es IH]; intros g; simpl; [by intros [= ->]|].
  destruct (g_step e g) as [g1|] eqn:E; simpl; [|done]. intros Hr Hh Hn Ha. inversion Hh; subst.
  destruct (notified_step e g g1) as [Ha1 Hn1]; [done..|]. by apply IH with g1.
Qed.

(** Where [startPoller] is past [signal.Notify] and not yet at its end. *)
Definition past_notify (pc : starter_pc) : Prop := pc = Notified ∨ pc = Waiting ∨ pc = Stopping.

Lemma past_notify_notified es g : g_run es g_start = Some g → past_notify (g_pc g) → notified g.
Proof.
  intros Hr Hpc. destruct (g_run_inv _ _ _ Hr g_start_inv) as (_ & _ & Hc & _).
  destruct Hpc as [Hpc|[Hpc|Hpc]]; rewrite Hpc in Hc; by destruct Hc.
Qed.

(** C33: once [startPoller] is past [signal.Notify], a SIGINT or SIGTERM no
    longer ends the process, now or ever after, the end of [startPoller]
    included: all it does is to put a signal in the channel, and the bot goes on
    serving.  The signals that were not asked for still end the process, if
    that is their default; and when [startPoller] has ended, no goroutine of the
    poller is left. *)
Theorem signals_only_stop_the_poller es g es' g' :
  g_run es g_start = Some g → past_notify (g_pc g) → g_alive g = true →
  g_run es' g = Some g' → Forall harmless es' →
  g_alive g' = true ∧
  (∀ sg, to_stop sg → g_step (GSignal sg) g'
     = Some (mkGuarded (g_pc g') (g_relayed g') true true (g_poller g') (g_log g'))) ∧
  (∀ sg, ¬ to_stop sg → default_ends sg = true →
     ∃ g'', g_step (GSignal sg) g' = Some g'' ∧ g_alive g'' = false) ∧
  (g_pc g' = Ended → Forall (λ l, pc l = Exited) (loops (g_poller g'))).
Proof.
  intros H1 Hpc Ha H2 Hh.
  destruct (notified_run es' g g') as [Ha' Hn']; [done|done|by eapply past_notify_notified|done|].
  split; [done|]. split; [intros sg; by apply signal_relayed|]. split.
  - intros sg Hsg Hd. rewrite signal_default by done. eexists. split; [done|]. simpl. by rewrite Hd.
  - intros He. destruct (g_run_inv _ _ _ H2 (g_run_inv _ _ _ H1 g_start_inv)) as (_ & _ & Hc & _).
    by rewrite He in Hc.
Qed.

(** The steps that bring a goroutine at a control point to its end. *)
Definition to_exit (pc : loop_pc) : list g_event :=
  match pc with
  | Spawned => [GPoller (EMove 0); GPoller (EMove 0); GPoller (EDone 0)]
  | InCheck => [GPoller (EMove 0); GPoller (EDone 0)]
  | InSelect => [GPoller (EDone 0)]
  | Exited => []
  end.

(** C34: a signal does stop the poller: from every reachable state in which
    [startPoller] waits and a signal is pending, the shutdown can be carried
    through by the two goroutines alone, in at most five steps and without
    another signal. *)
Theorem signal_stops_the_poller es g :
  g_run es g_start = Some g → g_alive g = true → g_pc g = Waiting → g_pending g = true →
  ∃ es' g', length es' ≤ 5 ∧ (∀ sg, GSignal sg ∉ es') ∧ g_run es' g = Some g' ∧ g_pc g' = Ended ∧
    stop (g_poller g') = Stopped.
Proof.
  intros Hr Ha Hpc Hpe. destruct (g_run_inv _ _ _ Hr g_start_inv) as (Hw & _ & Hc & _).
  rewrite Hpc in Hc. destruct Hc as (_ & Hl & Hs).
  destruct g as [gpc gn gpe gal [ls w c st n] gl]. simpl in *. subst.
  destruct ls as [|[lpc lt] [|]]; try discriminate Hl. unfold wg_inv, live_loops in Hw. simpl in Hw.
  exists (GStarter :: to_exit lpc ++ [GStarter]).
  destruct lpc; simpl in Hw; subst w; (eexists; split_and!;
    [simpl; lia|by intros []; apply (bool_decide_unpack _)|reflexivity|reflexivity|reflexivity]).
Qed.
End starter.

(** ** A sample *)
Module Sample.
#[local] Instance no_http : Http unit := {|
  http_Do hc req w := (inr "connection refused", w);
  request_error _ := None;
  url_parse _ := Some None;
  request_uri_error _ := None;
  decode_query _ w := (inr "EOF", w);
  decode_labels _ w := (inr "EOF", w);
  decode_alerts _ w := (inr "EOF", w);
  body_Close _ w := w;
|}.

Definition play (es : list g_event) : guarded :=
  default g_start (g_run (N := unit) "http://p" "http://a" es g_start).
Definition started : list g_event := [GStarter; GStarter; GStarter; GPoller (EMove 0)].

Definition stopped : list g_event :=
  [GSignal SIGTERM; GStarter; GPoller (EMove 0); GPoller (EDone 0); GStarter].

(** The poller has been stopped by a SIGTERM; a SIGINT is without effect, and a
    SIGQUIT ends the process. *)
Lemma signals_only_stop_the_poller_witness :
  g_pc (play (started ++ stopped)) = Ended ∧ g_alive (play (started ++ stopped ++ [GSignal SIGINT])) = true ∧
  ∃ g'', g_step (N := unit) "http://p" "http://a" (GSignal SIGQUIT) (play (started ++ stopped ++ [GSignal SIGINT]))
    = Some g'' ∧ g_alive g'' = false.
Proof.
  split; [vm_compute; reflexivity|].
  destruct (signals_only_stop_the_poller (N := unit) "http://p" "http://a" started (play started)
    (stopped ++ [GSignal SIGINT]) (play (started ++ stopped ++ [GSignal SIGINT]))) as (Ha & _ & Hq & _).
  - vm_compute. reflexivity.
  - right. left. vm_compute. reflexivity.
  - vm_compute. reflexivity.
  - vm_compute. reflexivity.
  - unfold stopped. simpl. repeat apply Forall_cons_2; [..|apply Forall_nil_2]; intros sg [= <-]; left; (by left) || (by right).
  - split; [exact Ha|]. apply Hq; [intros [Hs|Hs]; discriminate Hs|reflexivity].
Defined.

Lemma signal_stops_the_poller_witness :
  ∃ es' g', g_run (N := unit) "http://p" "http://a" es' (play (started ++ [GSignal SIGINT])) = Some g' ∧
    g_pc g' = Ended.
Proof.
  destruct (signal_stops_the_poller (N := unit) "http://p" "http://a" (started ++ [GSignal SIGINT])
    (play (started ++ [GSignal SIGINT]))) as (es' & g' & _ & _ & Hr & Hpc & _); [vm_compute; reflexivity..|].
  exists es', g'. split; [exact Hr|exact Hpc].
Defined.
End Sample.
