(* ===== verification/LogChannel.v ===== *)
(** * The log channel of a handler

    A handler creates an unbuffered channel, starts a goroutine that passes
    what it receives on to Telegram, and calls a client operation that writes
    its log lines to the channel and closes it
    ([internal/bot/handlers/kube_handlers.go], [internal/kube/client.go]).
    This file is the interleaving of the two goroutines; [KubeHandlers] relies
    on its conclusion that the chat gets exactly the log of the operation, in
    order, and that all of it but the line in the reader's hands is there when
    the operation returns. *)
From stdpp Require Import base tactics strings list relations.
From Stdlib Require Import Lia.
From S2P Require Import Prelude.

(** What the operation still has to do: log a line ([Some]), or anything
    that does not touch the channel. *)
Definition producer := list (option string).

Inductive reader :=
  | Receiving               (** at [range logCh] *)
  | Sending (msg : string)  (** in the body of the loop *)
  | Finished.

Record chan_state := mkChan {
  todo : producer;
  closed : bool;            (** the operation has closed the channel and returned *)
  rd : reader;
  chat : list string;       (** the messages passed to [c.Send] *)
}.

Section channel.
(** The filter in the loop body: [ScaleHandler] skips empty messages. *)
Variable keep : string → bool.

Inductive chan_step : chan_state → chan_state → Prop :=
  | step_work rest r c : chan_step (mkChan (None :: rest) false r c) (mkChan rest false r c)
  | step_rendezvous msg rest c :
      chan_step (mkChan (Some msg :: rest) false Receiving c) (mkChan rest false (Sending msg) c)
  | step_close r c : chan_step (mkChan [] false r c) (mkChan [] true r c)
  | step_body l b msg c :
      chan_step (mkChan l b (Sending msg) c)
                (mkChan l b Receiving (if keep msg then c ++ [msg] else c))
  | step_end c : chan_step (mkChan [] true Receiving c) (mkChan [] true Finished c).

Definition log_lines (p : producer) : list string := omap id p.
Definition kept (msgs : list string) : list string := List.filter keep msgs.
Definition pending (r : reader) : list string := match r with Sending msg => kept [msg] | _ => [] end.

Definition chan_start (p : producer) : chan_state := mkChan p false Receiving [].

(** Delivered, in the reader's hands, and to come: always the whole log. *)
Definition chan_inv (p : producer) (s : chan_state) : Prop :=
  chat s ++ pending (rd s) ++ kept (log_lines (todo s)) = kept (log_lines p) ∧
  (closed s = true → todo s = []) ∧ (rd s = Finished → closed s = true).

Lemma chan_inv_step p s s' : chan_step s s' → chan_inv p s → chan_inv p s'.
Proof.
  unfold chan_inv. intros Hs (H & Hc & Hf). destruct Hs; simpl in *; repeat split; try done; auto.
  all: rewrite <-H; unfold kept; simpl; destruct (keep msg); simpl; by rewrite <-?app_assoc, ?app_nil_r.
Qed.

Lemma chan_inv_reach p s s' : rtc chan_step s s' → chan_inv p s → chan_inv p s'.
Proof. induction 1; eauto using chan_inv_step. Qed.

Definition chan_weight (s : chan_state) : nat :=
  3 * length (todo s) + (if closed s then 0 else 1) +
  match rd s with Receiving => 1 | Sending _ => 2 | Finished => 0 end.

Lemma chan_step_weight s s' : chan_step s s' → chan_weight s' < chan_weight s.
Proof. intros []; unfold chan_weight; simpl; lia. Qed.

Lemma chan_stuck p s :
  chan_inv p s → (∀ s', ¬ chan_step s s') → closed s = true ∧ rd s = Finished.
Proof.
  intros (_ & Hc & Hf) Hs. destruct s as [l b r c]. simpl in *.
  destruct r as [|msg|]; [|exfalso; eapply Hs, step_body|by split; [apply Hf|]].
  destruct b; [|exfalso].
  - rewrite Hc in Hs by done. exfalso. eapply Hs, step_end.
  - destruct l as [|[msg|] l]; [eapply Hs, step_close|eapply Hs, step_rendezvous|eapply Hs, step_work].
Qed.

Lemma chan_step_acc s : Acc (flip chan_step) s.
Proof.
  assert (∀ n s, chan_weight s < n → Acc (flip chan_step) s) as H; [|eauto].
  clear s. intros n. induction n as [|n IH]; intros s Hw; [lia|].
  constructor. intros s' Hs%chan_step_weight. apply IH. lia.
Qed.

(** Once the operation has returned, the reader has at most one line left. *)
Lemma delivered_at_return p s :
  rtc chan_step (chan_start p) s → closed s = true → chat s ++ pending (rd s) = kept (log_lines p).
Proof.
  intros Hr Hc. assert (chan_inv p s) as (<- & Ht & _).
  { eapply chan_inv_reach; [done|]. by repeat split. }
  rewrite Ht by done. simpl. by rewrite app_nil_r.
Qed.

Lemma delivered_at_end p s :
  rtc chan_step (chan_start p) s → (∀ s', ¬ chan_step s s') → rd s = Finished ∧ chat s = kept (log_lines p).
Proof.
  intros Hr Hs. destruct (chan_stuck p s) as [Hc Hf]; [|done|].
  { eapply chan_inv_reach; [done|]. by repeat split. }
  split; [done|]. by rewrite <-(delivered_at_return p s Hr Hc), Hf, app_nil_r.
Qed.

(** C29: whatever the interleaving of an operation and the goroutine that
    reads its log: the two never block each other for good and finitely many
    steps lead to the end; there the chat has received exactly the lines of
    the operation, in their order, and already when the operation returns all
    of them but the one in the reader's hands. *)
Theorem log_delivery p :
  Acc (flip chan_step) (chan_start p) ∧
  ∀ s, rtc chan_step (chan_start p) s →
    ((∀ s', ¬ chan_step s s') → rd s = Finished ∧ chat s = kept (log_lines p)) ∧
    (closed s = true → chat s ++ pending (rd s) = kept (log_lines p)).
Proof.
  split; [apply chan_step_acc|]. intros s Hr. split; [by apply delivered_at_end|by apply delivered_at_return].
Qed.
End channel.
