(* ===== verification/Telegram.v ===== *)
(** * Handlers of the bot: what they share

    A handler ([func(telebot.Context) error]) reads the text of the message
    it answers, talks to its component, and sends messages.  telebot and
    Telegram are not under [src/]: sending is the operation of the class
    [Telegram] over an abstract state [T].  The state of a handler keeps the
    component's world and the chat apart, and records the messages sent and
    the calls made to the Kubernetes API. *)
From stdpp Require Import base tactics strings list.
From Stdlib Require Import ZArith.
From S2P Require Import Prelude GoStrings GoTime GoContext KubeApi.

(** How a message goes out: as text, as MarkdownV2, as text with the two
    buttons of a confirmation, or as the answer to a button. *)
Inductive send_mode := Plain | MarkdownV2 | Buttons | Callback.
Record message := mkMessage { text : string; mode : send_mode }.

Class Telegram (T : Type) := tg_Send : message → T → option string * T.

Record hst (W T : Type) := mkHst {
  h_world : W;
  h_chat : T;
  h_sent : list message;
  h_calls : list api_call;
}.
Arguments mkHst {W T}.
Arguments h_world {W T}.
Arguments h_chat {W T}.
Arguments h_sent {W T}.
Arguments h_calls {W T}.

Section handlers.
Context {W T : Type} `{!Telegram T}.
Abbreviation HM := (GoM (hst W T)).

Definition c_Send_message (m : message) : HM (option string) := λ s,
  let (err, t) := tg_Send m (h_chat s) in
  (Ret err, mkHst (h_world s) t (h_sent s ++ [m]) (h_calls s)).

(** [c.Send(m)] and [c.Send(m, telebot.ModeMarkdownV2)]. *)
Definition c_Send (m : string) : HM (option string) := c_Send_message (mkMessage m Plain).
Definition c_Send_markdown (m : string) : HM (option string) := c_Send_message (mkMessage m MarkdownV2).

(** An operation of the component. *)
Definition component {A} (op : GoM W A) : HM A := λ s,
  let (o, w) := op (h_world s) in (o, mkHst w (h_chat s) (h_sent s) (h_calls s)).

(** [ctx, cancel := context.WithTimeout(context.Background(), d)] with
    [defer cancel()] around the rest of a handler. *)
Definition on_world (f : W → W) (s : hst W T) : hst W T :=
  mkHst (f (h_world s)) (h_chat s) (h_sent s) (h_calls s).

Definition within `{!GoContext W} {A} (d : Duration) (m : HM A) : HM A := λ s,
  let (o, s') := m (on_world (ctx_with_timeout d) s) in (o, on_world ctx_cancel s').

(** Messages whose errors are ignored. *)
Fixpoint send_all (msgs : list string) : HM unit :=
  match msgs with
  | [] => mret tt
  | m :: rest => c_Send m;; send_all rest
  end.

Lemma within_run `{!GoContext W} {A} d (m : HM A) s o s' :
  within d m s = (o, s') →
  ∃ s1, m (on_world (ctx_with_timeout d) s) = (o, s1) ∧ s' = on_world ctx_cancel s1.
Proof. unfold within. destruct (m _) as [o1 s1]. intros [= <- <-]. by exists s1. Qed.

(** What a handler shows of a context: nothing but the world changes hands. *)
Lemma wp_within `{!GoContext W} {A} d (m : HM A) (Q : outcome A → hst W T → Prop) s :
  wp m (λ o s', Q o (on_world ctx_cancel s')) (on_world (ctx_with_timeout d) s) → wp (within d m) Q s.
Proof. unfold wp, within. by destruct (m _). Qed.

Lemma c_Send_sent m s :
  ∃ err t, c_Send m s = (Ret err, mkHst (h_world s) t (h_sent s ++ [mkMessage m Plain]) (h_calls s)).
Proof. unfold c_Send, c_Send_message. destruct (tg_Send _ _) as [err t]. by eexists _, _. Qed.

Lemma send_all_sent msgs s :
  ∃ t, send_all msgs s = (Ret tt, mkHst (h_world s) t
         (h_sent s ++ ((λ m, mkMessage m Plain) <$> msgs)) (h_calls s)).
Proof.
  revert s. induction msgs as [|m msgs IH]; intros s; simpl.
  - exists (h_chat s). rewrite app_nil_r. by destruct s.
  - unfold mbind, GoM_bind. destruct (c_Send_sent m s) as (err & t & ->).
    edestruct IH as [t' ->]. exists t'. simpl. by rewrite <-app_assoc.
Qed.
End handlers.

#[global] Arguments within {W T _ A} d%_Z m : rename.
