(* ===== verification/KubeHandlers.v ===== *)
(** * [internal/bot/handlers/kube_handlers.go]

    The commands on deployments and pods: parsing of the command text, the
    call of the client, and the log lines passed on to the chat.

    The operation and the goroutine that reads its log run side by side, and
    a send on their unbuffered channel blocks until the reader is back from
    [c.Send]: that time passes in [api_log_wait], at every line.  The chat and
    the cluster do not see each other, so the messages are appended to the
    state after the operation; this is the state once the handler has returned
    and the reader has ended.  [with_log_channel_delivers] relates it to the
    interleavings of [LogChannel]: at the end of each the chat has received
    exactly these messages, and when the operation returns it has received
    them all but, perhaps, the line that is still in the reader's hands. *)
From stdpp Require Import base tactics strings list gmap relations.
From Stdlib Require Import ZArith Lia.
From S2P Require Import Prelude GoStrings GoConv GoTime GoContext Sorting KubeApi KubeClient KubeRollback LogChannel Telegram.
Open Scope Z_scope.

Definition space : ascii := " ".
Definition slash : ascii := "/".

Definition bad_parameters : string := "Неправильное кол-во параметров".
Definition bad_target : string := "Ошибка в парсинге namespace/name".
Definition bad_number : string := "Ошибки при чтении числа реплик".

Section handlers.
Context {W T : Type} `{!KubeApi W} `{!PollUntil W} `{!SortSlice} `{!GoContext W} `{!Telegram T}.
Abbreviation HM := (GoM (hst W T)).

(** A client operation with its log channel and the goroutine that reads it,
    once both have ended; [keep] is the filter of that goroutine. *)
Definition with_log_channel (keep : string → bool) (op : GoM (kst W) (option string)) :
    HM (option string) := λ s,
  let (o, k) := op (mkKst (h_world s) [] false []) in
  let s1 := mkHst (world k) (h_chat s) (h_sent s) (h_calls s ++ calls k) in
  let (_, s2) := send_all (kept keep (log_sent k)) s1 in
  (o, s2).

(** A client operation without a log channel. *)
Definition client_call {A} (op : GoM (kst W) A) : HM A := λ s,
  let (o, k) := op (mkKst (h_world s) [] false []) in
  (o, mkHst (world k) (h_chat s) (h_sent s) (h_calls s ++ calls k)).

Definition nonempty (msg : string) : bool := bool_decide (msg ≠ EmptyString).

Definition run_scale (c : K8sClient) (namespace name : string) (num : Z) : HM (option string) :=
  within (20 * Second) (with_log_channel nonempty (ScaleDeploymentWithLogs c namespace name (to_int32 num) ChanRef)).

Definition ScaleHandler (c : K8sClient) (text : string) : HM (option string) :=
  match SplitN text space 3 with
  | _ :: target :: count :: _ =>
      match SplitN target slash 2 with
      | namespace :: name :: _ =>
          match Atoi count with
          | (_, Some _) => c_Send bad_number
          | (num, None) => run_scale c namespace name num
          end
      | _ => c_Send bad_target
      end
  | _ => c_Send bad_parameters
  end.

Definition run_restart (c : K8sClient) (namespace name : string) : HM (option string) :=
  within (10 * Second) (with_log_channel (λ _, true) (RestartDeploymentWithLogs c namespace name ChanRef)).

Definition RestartHandler (c : K8sClient) (text : string) : HM (option string) :=
  match SplitN text space 2 with
  | _ :: target :: _ =>
      match SplitN target slash 2 with
      | namespace :: name :: _ => run_restart c namespace name
      | _ => c_Send (bad_target +:+ " ")
      end
  | _ => c_Send (bad_parameters +:+ " ")
  end.

Definition run_rollback (c : K8sClient) (namespace name : string) (num : Z) : HM (option string) :=
  within (30 * Second) (with_log_channel (λ _, true) (RollbackDeploymentWithLogs c namespace name num ChanRef)).

Definition RollbackHandler (c : K8sClient) (text : string) : HM (option string) :=
  match SplitN text space 3 with
  | _ :: target :: revision :: _ =>
      match SplitN target slash 2 with
      | namespace :: name :: _ =>
          match ParseInt revision with
          | (_, Some _) => c_Send (bad_number +:+ " ")
          | (num, None) => run_rollback c namespace name num
          end
      | _ => c_Send (bad_target +:+ " ")
      end
  | _ => c_Send (bad_parameters +:+ " ")
  end.

Definition revision_line (r : RevisionInfo) : string :=
  "Revision: " +:+ FormatInt (Revision r) +:+ ", RSName: " +:+ RSName r +:+ ", Image: " +:+ Image r.

Definition run_revisions (c : K8sClient) (namespace name : string) : HM (option string) :=
  within (10 * Second) (
    r ← client_call (ListAvailableRevisions c namespace name);
    match r with
    | (_, Some err) => mret (Some err)
    | (ans, None) => send_all (revision_line <$> ans);; mret None
    end).

Definition RevisionsHandler (c : K8sClient) (text : string) : HM (option string) :=
  match SplitN text space 2 with
  | _ :: target :: _ =>
      match SplitN target slash 2 with
      | namespace :: name :: _ => run_revisions c namespace name
      | _ => c_Send (bad_target +:+ " ")
      end
  | _ => c_Send (bad_parameters +:+ " ")
  end.

Definition run_list_pods (c : K8sClient) (namespace : string) : HM (option string) :=
  within (10 * Second) (
    r ← client_call (ListPods c namespace);
    match r with
    | (_, Some err) => mret (Some err)
    | (ans, None) => c_Send (str_concat ((λ pod, pod +:+ nl) <$> ans))
    end).

Definition ListPodsHandler (c : K8sClient) (text : string) : HM (option string) :=
  match SplitN text space 2 with
  | _ :: namespace :: _ => run_list_pods c namespace
  | _ => c_Send (bad_parameters +:+ " ")
  end.

Definition text_message (msg : string) : message := mkMessage msg Plain.

(** The messages of [with_log_channel] and those the reader passes on, in any
    interleaving of an operation that logs these lines ([p], with its steps
    that do not touch the channel) and its reader. *)
Lemma with_log_channel_delivers keep op s p ch :
  log_lines p = log_sent (op (mkKst (h_world s) [] false [])).2 →
  rtc (chan_step keep) (chan_start p) ch →
  let sent := h_sent (with_log_channel keep op s).2 in
  ((∀ ch', ¬ chan_step keep ch ch') → rd ch = Finished ∧ sent = h_sent s ++ (text_message <$> chat ch)) ∧
  (closed ch = true → sent = h_sent s ++ (text_message <$> chat ch ++ pending keep (rd ch))).
Proof.
  intros Hp Hr sent. unfold with_log_channel in sent. destruct (op _) as [o k]. simpl in Hp.
  assert (sent = h_sent s ++ (text_message <$> kept keep (log_lines p))) as ->.
  { unfold sent. match goal with |- context [send_all ?m ?s1] => destruct (send_all_sent m s1) as [t ->] end.
    by rewrite Hp. }
  split; [intros Hs; by destruct (delivered_at_end keep p ch Hr Hs) as [? ->]|].
  intros Hc. by rewrite (delivered_at_return keep p ch).
Qed.
End handlers.
