(* ===== verification/KubeHandlerProps.v ===== *)
(** * Properties of the commands on deployments

    What a command text does: well-formed texts reach the client with the
    values they spell, all others are answered without touching the cluster. *)
From stdpp Require Import base tactics strings list gmap.
From Stdlib Require Import ZArith Lia.
From S2P Require Import Prelude GoStrings GoConv GoTime GoContext Sorting KubeApi KubeClient KubeRollback KubeTrace KubeSpec Cluster KubeProps LogChannel Telegram KubeHandlers.
Open Scope Z_scope.

(** ** Command texts *)

Definition sp : string := String space EmptyString.
Definition target_text (ns name : string) : string := ns +:+ String slash name.

(** [SplitN(s, sep, 2)] and [SplitN(s, sep, 3)], case by case. *)
Lemma SplitN_2 sep s :
  (SplitN s sep 2 = [s] ∧ no_byte sep s) ∨
  ∃ a b, SplitN s sep 2 = [a; b] ∧ s = a +:+ String sep b ∧ no_byte sep a.
Proof.
  simpl. destruct (Cut sep s) as [[a b]|] eqn:E; [right|left].
  - apply Cut_Some in E as [-> Ha]. by exists a, b.
  - by apply Cut_None in E.
Qed.

Lemma SplitN_3 sep s :
  (∃ a b c, SplitN s sep 3 = [a; b; c] ∧ s = a +:+ String sep (b +:+ String sep c) ∧
     no_byte sep a ∧ no_byte sep b) ∨ (length (SplitN s sep 3) < 3)%nat.
Proof.
  destruct (SplitN_2 sep s) as [[E Hs]|(a & r & E & -> & Ha)].
  { right. unfold SplitN. rewrite genSplit_none by done. simpl. lia. }
  unfold SplitN. rewrite genSplit_cut by done.
  destruct (SplitN_2 sep r) as [[Er Hr]|(b & c & Er & -> & Hb)].
  - right. rewrite genSplit_none by done. simpl. lia.
  - left. exists a, b, c. by rewrite genSplit_cut by done.
Qed.

Lemma SplitN_3_app sep a b c :
  no_byte sep a → no_byte sep b →
  SplitN (a +:+ String sep (b +:+ String sep c)) sep 3 = [a; b; c].
Proof. intros. unfold SplitN. by rewrite !genSplit_cut. Qed.

Lemma SplitN_2_app sep a b : no_byte sep a → SplitN (a +:+ String sep b) sep 2 = [a; b].
Proof. intros. unfold SplitN. by rewrite genSplit_cut. Qed.

(** The texts of the commands. *)
Lemma SplitN_3_words cmd b c :
  no_byte space cmd → no_byte space b → SplitN (cmd +:+ sp +:+ b +:+ sp +:+ c) space 3 = [cmd; b; c].
Proof. apply SplitN_3_app. Qed.

Lemma target_no_space ns name : no_byte space ns → no_byte space name → no_byte space (target_text ns name).
Proof. intros. unfold target_text. rewrite no_byte_app, no_byte_cons. done. Qed.

Section commands.
Context {W T : Type} `{!KubeApi W} `{!PollUntil W} `{SS : !SortSlice} `{GC : !GoContext W} `{!Telegram T}.
Implicit Types s : hst W T.

(** C27: the four commands with a deployment as their target reach the client
    under their deadlines with exactly the namespace and the name that were
    typed: a namespace without spaces and slashes, a name without spaces.  A
    revision is handed to the client as typed, for any 64-bit number in
    decimal; a replica count cut to its low 32 bits, so as typed when it
    fits. *)
Theorem commands_understood c ns name n s :
  no_byte space ns → no_byte slash ns → no_byte space name → is_int64 n →
  ScaleHandler c ("/scale" +:+ sp +:+ target_text ns name +:+ sp +:+ FormatInt n) s
    = within (20 * Second) (with_log_channel nonempty
        (ScaleDeploymentWithLogs c ns name (to_int32 n) ChanRef)) s ∧
  is_int32 (to_int32 n) ∧ (∃ k, n = to_int32 n + k * 2 ^ 32) ∧ (is_int32 n → to_int32 n = n) ∧
  RollbackHandler c ("/rollback" +:+ sp +:+ target_text ns name +:+ sp +:+ FormatInt n) s
    = within (30 * Second) (with_log_channel (λ _, true)
        (RollbackDeploymentWithLogs c ns name n ChanRef)) s ∧
  RestartHandler c ("/restart" +:+ sp +:+ target_text ns name) s
    = within (10 * Second) (with_log_channel (λ _, true) (RestartDeploymentWithLogs c ns name ChanRef)) s ∧
  RevisionsHandler c ("/revisions" +:+ sp +:+ target_text ns name) s
    = within (10 * Second) (
        r ← client_call (ListAvailableRevisions c ns name);
        match r with
        | (_, Some err) => mret (Some err)
        | (ans, None) => send_all (revision_line <$> ans);; mret None
        end) s.
Proof.
  intros Hns Hsl Hname Hn. pose proof (target_no_space _ _ Hns Hname) as Ht.
  assert (∀ cmd, no_byte space cmd → SplitN (cmd +:+ sp +:+ target_text ns name) space 2
            = [cmd; target_text ns name]) as H2.
  { intros cmd Hcmd. by apply SplitN_2_app. }
  assert (SplitN (target_text ns name) slash 2 = [ns; name]) as Htgt by by apply SplitN_2_app.
  unfold ScaleHandler, RollbackHandler, RestartHandler, RevisionsHandler.
  rewrite !SplitN_3_words, !H2, Htgt, Atoi_ParseInt, ParseInt_FormatInt by (done || by apply (bool_decide_unpack _)).
  split; [done|]. destruct (to_int32_cut n) as (? & ? & ?). done.
Qed.

(** What a rejected command does: one message, nothing else. *)
Definition only_replies (s s' : hst W T) (o : outcome (option string)) : Prop :=
  ∃ reply t err, o = Ret err ∧
    s' = mkHst (h_world s) t (h_sent s ++ [mkMessage reply Plain]) (h_calls s).

Lemma c_Send_only m s o s' : c_Send m s = (o, s') → only_replies s s' o.
Proof.
  intros Hr. destruct (c_Send_sent m s) as (err & t & Hs). rewrite Hs in Hr.
  injection Hr as <- <-. by exists m, t, err.
Qed.

(** C28: [/scale] touches the cluster only for a text that is a word, a
    target [namespace/name] and a number, and then it runs the scaling of that
    target with that number, which [run_scale] cuts to 32 bits; every other
    text gets one message and no API call. *)
Theorem scale_command_cases c text s o s' :
  ScaleHandler c text s = (o, s') →
  (∃ cmd ns name num n,
     text = cmd +:+ sp +:+ target_text ns name +:+ sp +:+ num ∧ Atoi num = (n, None) ∧
     no_byte space cmd ∧ no_byte slash ns ∧ run_scale c ns name n s = (o, s')) ∨
  only_replies s s' o.
Proof.
  unfold ScaleHandler. destruct (SplitN_3 space text) as [(cmd & tgt & num & -> & -> & Hc & Ht)|Hlen].
  2:{ destruct (SplitN text space 3) as [|? [|? [|? ?]]]; simpl in Hlen; try lia;
        intros ?%c_Send_only; by right. }
  destruct (SplitN_2 slash tgt) as [[-> _]|(ns & name & -> & -> & Hns)].
  { intros ?%c_Send_only. by right. }
  destruct (Atoi num) as [n [e|]] eqn:En; intros Hr; [right; by eapply c_Send_only|left].
  by exists cmd, ns, name, num, n.
Qed.

(** The replica count of [/scale] is cut to 32 bits without a check: a
    count that differs from [n] by a multiple of 2^32 scales to [n]. *)
Theorem scale_count_wraps c ns name n k s :
  no_byte space ns → no_byte slash ns → no_byte space name →
  is_int32 n → is_int64 (n + k * 2 ^ 32) →
  ScaleHandler c ("/scale" +:+ sp +:+ target_text ns name +:+ sp +:+ FormatInt (n + k * 2 ^ 32)) s
    = within (20 * Second) (with_log_channel nonempty (ScaleDeploymentWithLogs c ns name n ChanRef)) s.
Proof.
  intros Hns Hsl Hname Hn Hk. pose proof (target_no_space _ _ Hns Hname) as Ht.
  unfold ScaleHandler. rewrite SplitN_3_words by (done || by apply (bool_decide_unpack _)).
  unfold target_text. rewrite SplitN_2_app, Atoi_ParseInt, ParseInt_FormatInt by done.
  unfold run_scale. by rewrite to_int32_wrap, to_int32_id.
Qed.

(** ** End to end *)

Lemma with_log_channel_run keep op s k o :
  op (mkKst (h_world s) [] false []) = (o, k) →
  ∃ t, with_log_channel keep op s = (o, mkHst (world k) t
         (h_sent s ++ ((λ m, mkMessage m Plain) <$> kept keep (log_sent k))) (h_calls s ++ calls k)).
Proof.
  intros Hop. unfold with_log_channel. rewrite Hop.
  match goal with |- context [send_all ?m ?s1] => destruct (send_all_sent m s1) as [t ->] end.
  by exists t.
Qed.

(** C4: when [/scale ns/name n] with a 32-bit count returns nil, the API saw
    one read, one accepted update that changes only the replica count of that
    deployment, to [n], and reads, the last with [n] replicas available; and
    once the reader of the log has ended the last message in the chat is the
    line that says so. *)
Theorem scale_command_success cs ns name n s s' :
  no_byte space ns → no_byte slash ns → no_byte space name → is_int32 n →
  ScaleHandler (mkK8sClient (Some cs))
    ("/scale" +:+ sp +:+ target_text ns name +:+ sp +:+ FormatInt n) s = (Ret None, s') →
  ∃ dep dep' reads final,
    h_calls s' = h_calls s ++ CGet ns name (inl dep)
                 :: CUpdate ns (set_Replicas n dep) (inl dep') :: reads ++ [CGet ns name (inl final)] ∧
    Forall (is_get ns name) reads ∧ AvailableReplicas (dep_Status final) = n ∧
    last (h_sent s') = Some (mkMessage scale_done_line Plain).
Proof.
  intros Hns Hsl Hname Hn Hrun. pose proof (target_no_space _ _ Hns Hname) as Ht.
  assert (is_int64 n) as Hn64 by (unfold is_int32, is_int64, min_int64, max_int64 in *; lia).
  unfold ScaleHandler in Hrun.
  rewrite SplitN_3_words in Hrun by (done || by apply (bool_decide_unpack _)).
  unfold target_text in Hrun. rewrite SplitN_2_app, Atoi_ParseInt, ParseInt_FormatInt in Hrun by done.
  unfold run_scale in Hrun. rewrite to_int32_id in Hrun by done.
  apply within_run in Hrun as (s1 & Hrun & ->). simpl h_calls. simpl h_sent.
  destruct (ScaleDeploymentWithLogs (mkK8sClient (Some cs)) ns name n ChanRef
    (mkKst (ctx_with_timeout (20 * Second) (h_world s)) [] false [])) as [o k] eqn:Ek.
  destruct (with_log_channel_run nonempty _ (on_world (ctx_with_timeout (20 * Second)) s) _ _ Ek) as [t Hw].
  rewrite Hw in Hrun. injection Hrun as -> <-. apply scale_success_run in Ek; [|done].
  destruct Ek as (dep & dep' & reads & final & lg & Hcalls & Hreads & Hav & Hlog).
  exists dep, dep', reads, final. simpl in *. rewrite Hcalls, Hlog.
  split; [done|]. split; [done|]. split; [done|].
  assert (kept nonempty (lg ++ [scale_done_line]) = kept nonempty lg ++ [scale_done_line]) as ->
    by apply List.filter_app.
  rewrite fmap_app, app_assoc. apply last_snoc.
Qed.
End commands.

(** ** On the sample cluster *)
Module Sample.
#[local] Instance sample_api : KubeApi Cluster := cluster_api "api".
#[local] Instance sample_poll : PollUntil Cluster := poll_n 10.
#[local] Instance sample_ctx : GoContext Cluster := cluster_ctx.
#[local] Instance sample_telegram : Telegram unit := λ m t, (None, t).

Definition bot_client : K8sClient := mkK8sClient (Some TheClientset).
Definition idle : hst Cluster unit := mkHst (sample_cluster 0) tt [] [].

Lemma commands_understood_witness :
  ScaleHandler bot_client "/scale prod/api 5" idle
    = within (20 * Second) (with_log_channel nonempty
        (ScaleDeploymentWithLogs bot_client "prod" "api" 5 ChanRef)) idle ∧
  RestartHandler bot_client "/restart prod/api" idle
    = within (10 * Second) (with_log_channel (λ _, true)
        (RestartDeploymentWithLogs bot_client "prod" "api" ChanRef)) idle.
Proof.
  destruct (commands_understood bot_client "prod" "api" 5 idle) as (H1 & _ & _ & _ & _ & H2 & _);
    [by apply (bool_decide_unpack _)..|done|]. split; [exact H1|exact H2].
Defined.

Definition rejected : hst Cluster unit := (ScaleHandler bot_client "/scale prod/api five" idle).2.

Lemma scale_command_cases_witness :
  (∃ cmd ns name num n,
     "/scale prod/api five" = cmd +:+ sp +:+ target_text ns name +:+ sp +:+ num ∧ Atoi num = (n, None) ∧
     no_byte space cmd ∧ no_byte slash ns ∧ run_scale bot_client ns name n idle = (Ret None, rejected)) ∨
  only_replies idle rejected (Ret None).
Proof.
  apply (scale_command_cases bot_client "/scale prod/api five" idle). vm_compute. reflexivity.
Defined.

Lemma scale_count_wraps_witness :
  ScaleHandler bot_client "/scale prod/api 4294967299" idle
  = within (20 * Second) (with_log_channel nonempty
      (ScaleDeploymentWithLogs bot_client "prod" "api" 3 ChanRef)) idle.
Proof. apply (scale_count_wraps bot_client "prod" "api" 3 1 idle); by apply (bool_decide_unpack _). Defined.

Definition scaled : outcome (option string) * hst Cluster unit :=
  ScaleHandler bot_client "/scale prod/api 5" idle.

Lemma scale_command_success_witness :
  scaled.1 = Ret None ∧
  ∃ dep dep' reads final,
    h_calls scaled.2 = CGet "prod" "api" (inl dep)
      :: CUpdate "prod" (set_Replicas 5 dep) (inl dep') :: reads ++ [CGet "prod" "api" (inl final)] ∧
    AvailableReplicas (dep_Status final) = 5.
Proof.
  split; [vm_compute; reflexivity|].
  destruct (scale_command_success TheClientset "prod" "api" 5 idle scaled.2)
    as (dep & dep' & reads & final & Hc & _ & Ha & _);
    [by apply (bool_decide_unpack _)..|vm_compute; reflexivity|].
  exists dep, dep', reads, final. split; [exact Hc|exact Ha].
Defined.
End Sample.
