(* ===== verification/Timing.v ===== *)
(** * Deadlines, and what they bound

    The documented laws of contexts, of requests made under a context and of
    [wait.PollUntilContextCancel] in terms of a clock, and a logic that counts
    the calls an operation makes to the API before the deadline of its
    context. *)
From stdpp Require Import base tactics strings list gmap.
From Stdlib Require Import ZArith Lia.
From S2P Require Import Prelude GoStrings GoConv GoTime GoContext Sorting KubeApi KubeClient KubeRollback.
Local Open Scope Z_scope.

(** A monotonic clock, and the deadline of the context in force, if any. *)
Class Clock (W : Type) `{GC : !GoContext W} := {
  clock : W → Z;
  deadline : W → option Z;
  with_timeout_clock d w : clock (ctx_with_timeout d w) = clock w;
  with_timeout_deadline d w : deadline (ctx_with_timeout d w) = Some (clock w + d);
  cancel_clock w : clock (ctx_cancel w) = clock w;
  (** [ctx.Err()] is [DeadlineExceeded] once the deadline has passed. *)
  deadline_exceeded w : ctx_deadline_exceeded w = true → ∃ d, deadline w = Some d ∧ d ≤ clock w;
}.

Section clock.
Context {W : Type} `{GC : !GoContext W} `{CK : !Clock W}.

(** Time has passed under the same context. *)
Definition later (w w' : W) : Prop := clock w ≤ clock w' ∧ deadline w' = deadline w.
(** ... and what happened was over by the deadline. *)
Definition in_time (w w' : W) : Prop :=
  later w w' ∧ ∀ d, deadline w = Some d → clock w' ≤ Z.max (clock w) d.

#[export] Instance later_preorder : PreOrder later.
Proof. split; [by intros w|intros w1 w2 w3 [? ?] [? ?]; split; [lia|congruence]]. Qed.
#[export] Instance in_time_preorder : PreOrder in_time.
Proof.
  split; [intros w; split; [done|lia]|].
  intros w1 w2 w3 [[? E] Hd1] [[? ?] Hd2]. rewrite E in *. split; [split; [lia|congruence]|].
  intros d Hd. specialize (Hd1 d Hd). specialize (Hd2 d Hd). lia.
Qed.
Lemma in_time_later w w' : in_time w w' → later w w'.
Proof. by intros []. Qed.
End clock.
#[export] Hint Resolve in_time_later : core.

(** Requests and the waits of a poll end with the context at the latest;
    [time.Sleep] and a send on a channel know no context. *)
Class KubeTime (W : Type) `{KA : !KubeApi W} `{GC : !GoContext W} `{CK : !Clock W} := {
  deployment_get_time ns name w : in_time w (api_deployment_get ns name w).2;
  deployment_update_time ns d w : in_time w (api_deployment_update ns d w).2;
  replicasets_list_time ns sel w : in_time w (api_replicasets_list ns sel w).2;
  now_time w : in_time w (api_now w).2;
  elapse_time d w : 0 ≤ d → in_time w (api_elapse d w);
  sleep_time n w : 0 ≤ n → later w (api_sleep n w);
  (** The reader of the log is under no context either. *)
  log_wait_time w : later w (api_log_wait w);
}.

Section polls.
Context {W : Type} `{KA : !KubeApi W} `{GC : !GoContext W} `{CK : !Clock W}.

(** A computation under which time does not run backwards. *)
Definition timely {A} (m : GoM (kst W) A) : Prop := ∀ s, later (world s) (world (m s).2).

(** The runs of a poll begun at [start] under the deadline [dl], from its
    turn [k]: a further turn begins at the next interval and before the
    deadline; the poll gives up only at the deadline. *)
Inductive timed_runs (interval start dl : Z) (cond : GoM (kst W) (bool * option string)) :
    Z → kst W → outcome (option string) → kst W → Prop :=
  | timed_done k s s' :
      cond s = (Ret (true, None), s') → timed_runs interval start dl cond k s (Ret None) s'
  | timed_error k s b e s' :
      cond s = (Ret (b, Some e), s') → timed_runs interval start dl cond k s (Ret (Some e)) s'
  | timed_panic k s w s' :
      cond s = (Panic w, s') → timed_runs interval start dl cond k s (Panic w) s'
  | timed_cancel k s s' :
      cond s = (Ret (false, None), s') →
      dl ≤ clock (world (elapse interval s')) →
      timed_runs interval start dl cond k s (Ret (Some "context deadline exceeded")) (elapse interval s')
  | timed_again k s s' o s'' :
      cond s = (Ret (false, None), s') →
      start + (k + 1) * interval ≤ clock (world (elapse interval s')) < dl →
      timed_runs interval start dl cond (k + 1) (elapse interval s') o s'' →
      timed_runs interval start dl cond k s o s''.
End polls.

Class TimedPoll (W : Type) `{KA : !KubeApi W} `{PU : !PollUntil W} `{GC : !GoContext W} `{CK : !Clock W} := {
  poll_in_time interval dl cond s :
    0 < interval → timely cond → deadline (world s) = Some dl →
    timed_runs interval (clock (world s)) dl cond 0 s (PollUntilContextCancel interval cond s).1
      (PollUntilContextCancel interval cond s).2;
}.

(** ** Counting calls *)

Section calls.
Context {W : Type} `{KA : !KubeApi W} `{PU : !PollUntil W} `{GC : !GoContext W} `{CK : !Clock W}
  `{KT : !KubeTime W} `{TP : !TimedPoll W}.

(** A condition on states that time does not spoil: none, or that the
    context in force has at most [D] left. *)
Class Stable (P : kst W → Prop) : Prop := {
  stable s s' : later (world s) (world s') → P s → P s';
}.
Definition anytime (s : kst W) : Prop := True.
Definition time_left (D : Z) (s : kst W) : Prop :=
  ∃ dl, deadline (world s) = Some dl ∧ dl ≤ clock (world s) + D.

#[export] Instance anytime_stable : Stable anytime.
Proof. done. Qed.
#[export] Instance time_left_stable D : Stable (time_left D).
Proof. constructor. intros s s' [? Hd] (dl & ? & ?). exists dl. split; [congruence|lia]. Qed.

(** From a state of [P], [m] makes at most [n] calls to the API, and time
    does not run backwards. *)
Definition makes (P : kst W → Prop) (n : nat) {A} (m : GoM (kst W) A) : Prop := ∀ s, P s →
  later (world s) (world (m s).2) ∧ (length (calls (m s).2) ≤ length (calls s) + n)%nat.

Lemma makes_weaken P n n' {A} (m : GoM (kst W) A) : makes P n m → (n ≤ n')%nat → makes P n' m.
Proof. intros Hm Hn s Hs. destruct (Hm s Hs). split; [done|lia]. Qed.

Lemma makes_bind P `{!Stable P} n n' {A B} (m : GoM (kst W) A) (f : A → GoM (kst W) B) :
  makes P n m → (∀ a, makes P n' (f a)) → makes P (n + n') (m ≫= f).
Proof.
  intros Hm Hf s Hs. unfold mbind, GoM_bind. specialize (Hm s Hs).
  destruct (m s) as [[a|w] s1]; simpl in *; destruct Hm as [Ht Hl]; [|split; [done|lia]].
  destruct (Hf a s1) as [Ht' Hl']; [by eapply stable|]. split; [by etrans|lia].
Qed.

(** Computations that leave the cluster alone. *)
Definition local {A} (m : GoM (kst W) A) : Prop :=
  ∀ s, later (world s) (world (m s).2) ∧ calls (m s).2 = calls s.

Lemma makes_local P n {A} (m : GoM (kst W) A) : local m → makes P n m.
Proof. intros Hm s _. destruct (Hm s) as [? ->]. split; [done|lia]. Qed.

Lemma local_ret {A} (a : A) : local (mret a).
Proof. done. Qed.
Lemma local_panic {A} w : local (A := A) (panic w).
Proof. done. Qed.
Lemma local_log ch msg : local (log ch msg).
Proof.
  intros s. unfold log, chan_send. destruct ch; [done|]. destruct (log_closed s); [done|].
  split; [apply log_wait_time|done].
Qed.
Lemma local_close ch : local (chan_close ch).
Proof. intros s. destruct ch; [done|]. simpl. by destruct (log_closed s). Qed.
Lemma local_deref d : local (deref_Replicas d).
Proof. unfold deref_Replicas. by destruct (spec_Replicas _). Qed.

Lemma local_bind {A B} (m : GoM (kst W) A) (f : A → GoM (kst W) B) :
  local m → (∀ a, local (f a)) → local (m ≫= f).
Proof.
  intros Hm Hf s. unfold mbind, GoM_bind. specialize (Hm s).
  destruct (m s) as [[a|w] s1]; simpl in *; [|done]. destruct Hm as [Ht <-], (Hf a s1) as [Ht' Hc].
  split; [by etrans|done].
Qed.

Lemma makes_record_call P {A} (op : W → A * W) entry :
  (∀ w, in_time w (op w).2) → makes P 1 (record_call op entry).
Proof.
  intros Hop s _. unfold record_call. specialize (Hop (world s)).
  destruct (op (world s)) as [a w']; simpl. rewrite length_app. simpl. split; [by apply in_time_later|lia].
Qed.

Lemma makes_with_clientset P n {A} cs (m : GoM (kst W) A) : makes P n m → makes P n (with_clientset cs m).
Proof. intros Hm. destruct cs; [done|]. by apply makes_local. Qed.

Lemma makes_Get P cs ns name : makes P 1 (Deployments_Get cs ns name).
Proof. apply makes_with_clientset, makes_record_call. intros w. apply deployment_get_time. Qed.
Lemma makes_Update P cs ns d : makes P 1 (Deployments_Update cs ns d).
Proof. apply makes_with_clientset, makes_record_call. intros w. apply deployment_update_time. Qed.
Lemma makes_List P cs ns sel : makes P 1 (ReplicaSets_List cs ns sel).
Proof. apply makes_with_clientset, makes_record_call. intros w. apply replicasets_list_time. Qed.

Lemma makes_now P : makes P 0 time_Now.
Proof.
  intros s _. unfold time_Now. pose proof (now_time (world s)).
  destruct (api_now (world s)) as [t w']; simpl. split; [by apply in_time_later|lia].
Qed.
Lemma makes_sleep P n : 0 ≤ n → makes P 0 (time_Sleep n).
Proof. intros Hn s _. simpl. split; [by apply sleep_time|lia]. Qed.

Lemma makes_defer P n {A} (cleanup : GoM (kst W) unit) (m : GoM (kst W) A) :
  local cleanup → makes P n m → makes P n (defer cleanup m).
Proof.
  intros Hc Hm s Hs. unfold defer. specialize (Hm s Hs). destruct (m s) as [o s1]. specialize (Hc s1).
  destruct (cleanup s1) as [[] s2]; simpl in *; destruct Hm as [Ht Hl], Hc as [Ht' ->];
    (split; [by etrans|done]).
Qed.

(** A poll whose turns make one call each makes one in every interval that
    begins before the deadline. *)
Definition turns_before_deadline (D interval : Z) : nat := Z.to_nat ((D + interval - 1) / interval).

Lemma turn_before_deadline D interval k :
  0 < interval → 0 ≤ k → k * interval < D → k < (D + interval - 1) / interval.
Proof. intros Hi Hk Hd. pose proof (Z.mul_succ_div_gt (D + interval - 1) interval Hi). nia. Qed.

Lemma elapse_later interval (s s' : kst W) :
  0 < interval → later (world s) (world s') → later (world s) (world (elapse interval s')).
Proof. intros ? Hs. etrans; [exact Hs|]. simpl. apply in_time_later, elapse_time. lia. Qed.

Lemma timed_runs_later interval start dl cond k s o s' :
  0 < interval → timely cond → timed_runs interval start dl cond k s o s' → later (world s) (world s').
Proof.
  intros Hi Ht. induction 1 as [k s s' E|k s b e s' E|k s w s' E|k s s' E _|k s s' o s'' E _ _ IH];
    specialize (Ht s); rewrite E in Ht; [done..|by apply elapse_later|].
  etrans; [by apply elapse_later|done].
Qed.

Lemma timed_runs_calls D interval start dl cond k s o s' :
  0 < interval → makes anytime 1 cond →
  timed_runs interval start dl cond k s o s' →
  0 ≤ k → k * interval < D → dl ≤ start + D →
  (length (calls s') ≤ length (calls s) + (turns_before_deadline D interval - Z.to_nat k))%nat.
Proof.
  intros Hi Hc Hrun. unfold turns_before_deadline.
  induction Hrun as [k s s' E|k s b e s' E|k s w s' E|k s s' E _|k s s' o s'' E Hwhen _ IH];
    intros Hk Hd Hdl; pose proof (turn_before_deadline D interval k Hi Hk Hd) as Hk';
    destruct (Hc s I) as [_ Hl]; rewrite E in Hl; simpl in Hl; [lia..|simpl; lia|].
  assert (length (calls (elapse interval s')) ≤ length (calls s) + 1)%nat as Hl' by done.
  assert ((k + 1) * interval < D) by lia. specialize (IH ltac:(lia) ltac:(lia) ltac:(lia)).
  pose proof (turn_before_deadline D interval (k + 1) Hi). lia.
Qed.

Lemma makes_timely n {A} (m : GoM (kst W) A) : makes anytime n m → timely m.
Proof. intros Hm s. by apply Hm. Qed.

Lemma makes_poll D interval cond :
  0 < interval → 0 < D → makes anytime 1 cond →
  makes (time_left D) (turns_before_deadline D interval) (PollUntilContextCancel interval cond).
Proof.
  intros Hi HD Hc s (dl & Hdl & HdD). pose proof (makes_timely 1 cond Hc) as Ht.
  pose proof (poll_in_time interval dl cond s Hi Ht Hdl) as Hrun.
  split; [exact (timed_runs_later _ _ _ _ _ _ _ _ Hi Ht Hrun)|].
  apply (timed_runs_calls D) in Hrun; [lia|done|done|lia|lia|exact HdD].
Qed.
End calls.

Create HintDb timing.
#[export] Hint Resolve makes_Get makes_Update makes_List local_ret local_panic local_log
  local_close local_deref : timing.

Section steps.
Context {W : Type} `{KA : !KubeApi W} `{GC : !GoContext W} `{CK : !Clock W}.
Context (P : kst W → Prop) `{!Stable P} {A B : Type}.

Lemma makes_call n (m : GoM (kst W) A) (f : A → GoM (kst W) B) :
  makes P 1 m → (∀ a, makes P n (f a)) → makes P (S n) (m ≫= f).
Proof. apply (makes_bind P 1). Qed.

Lemma makes_then n (m : GoM (kst W) A) (f : A → GoM (kst W) B) :
  makes P 0 m → (∀ a, makes P n (f a)) → makes P n (m ≫= f).
Proof. apply (makes_bind P 0). Qed.
End steps.

(** One step of a count. *)
Ltac makes_step :=
  lazymatch goal with
  | |- makes _ _ (mbind _ (Deployments_Get _ _ _)) => apply makes_call; [apply _|apply makes_Get|intros ?]
  | |- makes _ _ (mbind _ (Deployments_Update _ _ _)) => apply makes_call; [apply _|apply makes_Update|intros ?]
  | |- makes _ _ (mbind _ (ReplicaSets_List _ _ _)) => apply makes_call; [apply _|apply makes_List|intros ?]
  | |- makes _ _ (mbind _ time_Now) => apply makes_then; [apply _|apply makes_now|intros ?]
  | |- makes _ _ (mbind _ (time_Sleep _)) => apply makes_then; [apply _|apply makes_sleep; done|intros ?]
  | |- makes _ _ (mbind _ _) => apply makes_then; [apply _|apply makes_local; by auto with timing|intros ?]
  | |- makes _ _ (match ?x with _ => _ end) => destruct x eqn:?
  | |- makes _ _ _ => apply makes_local; by auto with timing
  end.
Ltac makes_steps := repeat makes_step.

(** ** An executable poll by the clock

    For a world whose clock advances by the whole interval of a wait. *)
Section by_clock.
Context {W : Type} `{KA : !KubeApi W} `{GC : !GoContext W} `{CK : !Clock W} `{KT : !KubeTime W}.

Definition expired (w : W) : bool :=
  match deadline w with Some d => bool_decide (d ≤ clock w) | None => false end.

Fixpoint poll_clock (fuel : nat) (interval : Duration) (cond : GoM (kst W) (bool * option string)) :
    GoM (kst W) (option string) := λ s,
  match cond s with
  | (Panic w, s') => (Panic w, s')
  | (Ret (_, Some e), s') => (Ret (Some e), s')
  | (Ret (true, None), s') => (Ret None, s')
  | (Ret (false, None), s') =>
      let s1 := elapse interval s' in
      if expired (world s1) then (Ret (Some "context deadline exceeded"), s1)
      else match fuel with
           | O => (Ret (Some "context deadline exceeded"), s1)
           | S n => poll_clock n interval cond s1
           end
  end.

(** Enough turns for the time that is left. *)
Definition poll_fuel (interval : Duration) (s : kst W) : nat :=
  match deadline (world s) with
  | Some d => Z.to_nat ((d - clock (world s)) / interval + 1)
  | None => O
  end.

Definition poll_until_deadline interval cond : GoM (kst W) (option string) :=
  λ s, poll_clock (poll_fuel interval s) interval cond s.

Lemma poll_clock_runs fuel interval cond s :
  poll_runs interval cond s (poll_clock fuel interval cond s).1 (poll_clock fuel interval cond s).2.
Proof.
  revert s. induction fuel as [|n IH]; intros s; simpl;
    destruct (cond s) as [[[[] [e|]]|w] s'] eqn:E; simpl;
    eauto using poll_done, poll_error, poll_panic; case_match; simpl;
    try (by apply poll_cancel; [|constructor]).
  eapply poll_again; eauto.
Qed.

(** A wait lasts its interval, unless it is cut short by the deadline. *)
Hypothesis elapse_exact : ∀ d w, 0 ≤ d →
  clock (api_elapse d w) = clock w + d ∨ expired (api_elapse d w) = true.

Lemma poll_clock_timed start dl cond fuel interval k s :
  0 < interval → timely cond → deadline (world s) = Some dl →
  dl - clock (world s) ≤ Z.of_nat fuel * interval → start + k * interval ≤ clock (world s) →
  timed_runs interval start dl cond k s (poll_clock fuel interval cond s).1 (poll_clock fuel interval cond s).2.
Proof.
  intros Hi Ht. revert k s. induction fuel as [|n IH]; intros k s Hdl Hf Hk; simpl;
    pose proof (Ht s) as [Hc Hd]; destruct (cond s) as [[[[] [e|]]|w] s'] eqn:E; simpl in *;
    eauto using timed_done, timed_error, timed_panic;
    pose proof (elapse_exact interval (world s') ltac:(lia)) as Hx;
    destruct (elapse_time interval (world s') ltac:(lia)) as [[Hc' Hd'] _];
    unfold expired in *; rewrite Hd', Hd, Hdl in *; case_bool_decide; simpl;
    try (apply timed_cancel; [done|]; simpl; lia); destruct Hx as [Hx|Hx]; try done.
  eapply timed_again; [exact E|simpl; lia|]. apply IH; simpl; [done|lia|lia].
Qed.

Definition clock_poll : PollUntil W :=
  {| PollUntilContextCancel := poll_until_deadline;
     PollUntilContextCancel_runs i cond s := poll_clock_runs (poll_fuel i s) i cond s |}.

Lemma clock_poll_timed : TimedPoll W (PU := clock_poll).
Proof.
  constructor. intros interval dl cond s Hi Ht Hdl. apply poll_clock_timed; [done..| |lia].
  unfold poll_fuel. rewrite Hdl. pose proof (Z.mul_succ_div_gt (dl - clock (world s)) interval Hi). nia.
Qed.
End by_clock.
