(* ===== verification/TimingProps.v ===== *)
(** * How long the commands take and how often they ask

    The commands on deployments ask the API a bounded number of times whatever
    the cluster answers, and they give up only when their time is used up. *)
From stdpp Require Import base tactics strings list gmap.
From Stdlib Require Import ZArith Lia.
From S2P Require Import Prelude GoStrings GoConv GoTime GoContext Sorting KubeApi KubeClient KubeRollback KubeTrace KubeSpec Cluster KubeProps LogChannel Telegram KubeHandlers Timing.
Local Open Scope Z_scope.

Section operations.
Context {W : Type} `{KA : !KubeApi W} `{PU : !PollUntil W} `{SS : !SortSlice} `{GC : !GoContext W} `{CK : !Clock W}
  `{KT : !KubeTime W} `{TP : !TimedPoll W}.
Variables (c : K8sClient) (ns name : string).

Lemma scale_cond_makes n : makes anytime 1 (scale_cond c ns name n ChanRef).
Proof. unfold scale_cond. makes_steps. Qed.
Lemma restart_cond_makes : makes anytime 1 (restart_cond c ns name ChanRef).
Proof. unfold restart_cond. makes_steps. Qed.
Lemma rollback_cond_makes : makes anytime 1 (rollback_cond c ns name ChanRef).
Proof. unfold rollback_cond. makes_steps. Qed.

Lemma poll_makes D n cond :
  0 < D → D ≤ Z.of_nat n * (2 * Second) → makes anytime 1 cond →
  makes (time_left D) n (PollUntilContextCancel (2 * Second) cond).
Proof.
  intros HD Hn Hc. eapply makes_weaken.
  - by apply makes_poll.
  - unfold turns_before_deadline. assert ((D + 2 * Second - 1) / (2 * Second) < Z.of_nat n + 1); [|lia].
    apply Z.div_lt_upper_bound; unfold Second in *; lia.
Qed.

Lemma scale_makes n : makes (time_left (20 * Second)) 12 (ScaleDeploymentWithLogs c ns name n ChanRef).
Proof.
  unfold ScaleDeploymentWithLogs. apply makes_defer; [apply local_close|]. makes_steps.
  apply poll_makes; [done|done|apply scale_cond_makes].
Qed.

Lemma restart_makes : makes (time_left (10 * Second)) 7 (RestartDeploymentWithLogs c ns name ChanRef).
Proof.
  unfold RestartDeploymentWithLogs. apply makes_defer; [apply local_close|]. makes_steps.
  apply poll_makes; [done|done|apply restart_cond_makes].
Qed.

Lemma update_template_makes P `{!Stable P} k template : makes P (2 * k) (update_template k c ns name template ChanRef).
Proof.
  induction k as [|k IH]; simpl; [makes_steps|].
  replace (S (k + S (k + 0)))%nat with (S (S (2 * k)))%nat by lia. makes_steps. exact IH.
Qed.

Lemma log_replicasets_local i items : local (W := W) (log_replicasets ChanRef i items).
Proof.
  revert i. induction items as [|rs items IH]; intros i; simpl; [done|].
  apply local_bind; [apply local_log|done].
Qed.
#[local] Hint Resolve log_replicasets_local : timing.

Lemma rollback_apply_makes rs : makes (time_left (30 * Second)) 25 (rollback_apply c ns name rs ChanRef).
Proof.
  unfold rollback_apply. makes_step. eapply (makes_bind _ 10 15); [apply (update_template_makes _ 5)|].
  intros e. makes_step; [makes_steps|]. makes_step.
  eapply (makes_bind _ 15 0); [|intros ?; makes_steps].
  apply poll_makes; [done|done|apply rollback_cond_makes].
Qed.

Lemma rollback_makes revision : makes (time_left (30 * Second)) 27 (RollbackDeploymentWithLogs c ns name revision ChanRef).
Proof.
  unfold RollbackDeploymentWithLogs. apply makes_defer; [apply local_close|]. makes_steps.
  unfold rollback_select. makes_steps. eapply makes_weaken; [apply rollback_apply_makes|lia].
Qed.
End operations.

(** ** The end of a wait *)

(** The error a call to the API was answered with. *)
Definition answer_error (call : api_call) : option string :=
  match call with
  | CGet _ _ (inr e) | CUpdate _ _ (inr e) | CList _ _ (inr e)
  | CPodGet _ _ (inr e) | CPods _ (inr e) | CLogs _ _ _ (inr e) => Some e
  | _ => None
  end.

(** The reader of the log is never away for longer than [D]: that is how long
    a send on the log channel waits for it. *)
Definition reader_within {W : Type} `{KA : !KubeApi W} `{GC : !GoContext W} `{CK : !Clock W} (D : Z) : Prop :=
  ∀ w : W, clock (api_log_wait w) ≤ clock w + D.

Section waiting.
Context {W : Type} `{KA : !KubeApi W} `{PU : !PollUntil W} `{GC : !GoContext W} `{CK : !Clock W}
  `{KT : !KubeTime W} `{TP : !TimedPoll W}.
Variables (D : Z) (cs : Clientset) (ns name : string) (w0 : W).
Hypothesis reader : reader_within (W := W) D.
Abbreviation client := (mkK8sClient (Some cs)).
Implicit Types s : kst W.

(** Under the context of [w0], in time but for [k] waits for the reader. *)
Definition nearly (k : nat) s : Prop :=
  later w0 (world s) ∧
  ∀ dl, deadline w0 = Some dl → clock (world s) ≤ Z.max (clock w0) dl + Z.of_nat k * D.
Definition under (k : nat) s : Prop := nearly k s ∧ log_closed s = false.

(** Why an operation ended as it did. *)
Definition end_reason (k : nat) (o : outcome (option string)) s : Prop :=
  nearly k s ∧
  match o with
  | Ret None => True
  | Ret (Some e) => (∃ call, call ∈ calls s ∧ answer_error call = Some e) ∨
                    e = "context deadline exceeded" ∧ ∃ dl, deadline w0 = Some dl ∧ dl ≤ clock (world s)
  | Panic why => why = nil_deref ∧ ∃ d, CGet ns name (inl d) ∈ calls s ∧ spec_Replicas (dep_Spec d) = None
  end.

(** ... and a turn of its poll. *)
Definition turn_reason (k : nat) (o : outcome (bool * option string)) s : Prop :=
  log_closed s = false ∧
  end_reason k (match o with Ret (_, e) => Ret e | Panic why => Panic why end) s.

Lemma reader_nonneg : 0 ≤ D.
Proof. pose proof (reader w0). destruct (log_wait_time w0). lia. Qed.

Lemma nearly_weaken k k' s : (k ≤ k')%nat → nearly k s → nearly k' s.
Proof.
  intros Hk [Ht Hd]. split; [done|]. intros dl Hdl. specialize (Hd dl Hdl). pose proof reader_nonneg. nia.
Qed.
Lemma end_reason_weaken k k' o s : (k ≤ k')%nat → end_reason k o s → end_reason k' o s.
Proof. intros Hk [Hn Ho]. split; [by eapply nearly_weaken|done]. Qed.

(** What is over by the deadline makes nothing later than it is. *)
Lemma nearly_in_time k s s' : nearly k s → in_time (world s) (world s') → nearly k s'.
Proof.
  intros [Ht Hd] [Ht' Hd']. pose proof reader_nonneg. split; [by etrans|]. intros dl Hdl. specialize (Hd dl Hdl).
  destruct Ht as [_ E]. rewrite E in Hd'. specialize (Hd' dl Hdl). nia.
Qed.

Lemma wp_record_call_time {A} (op : W → A * W) entry (Q : outcome A → kst W → Prop) k s :
  (∀ w, in_time w (op w).2) → under k s →
  (∀ a s', under k s' → calls s' = calls s ++ [entry a] → Q (Ret a) s') →
  wp (record_call op entry) Q s.
Proof.
  intros Hop [Ht Hs] HQ. unfold wp, record_call. specialize (Hop (world s)).
  destruct (op (world s)) as [a w']. apply HQ; [|done]. split; [by eapply nearly_in_time|done].
Qed.

Lemma wp_log_time msg (Q : outcome unit → kst W → Prop) k s :
  under k s → (∀ s', under (S k) s' → calls s' = calls s → Q (Ret tt) s') → wp (log ChanRef msg) Q s.
Proof.
  intros [[Ht Hd] Hs] HQ. unfold wp, log, chan_send. rewrite Hs. apply HQ; [|done]. split; [|done].
  split; simpl; [by etrans; [|apply log_wait_time]|]. intros dl Hdl. specialize (Hd dl Hdl).
  pose proof (reader (world s)). lia.
Qed.

Lemma wp_now_time (Q : outcome Time → kst W → Prop) k s :
  under k s → (∀ t s', under k s' → calls s' = calls s → Q (Ret t) s') → wp time_Now Q s.
Proof.
  intros [Ht Hs] HQ. unfold wp, time_Now. pose proof (now_time (world s)) as Hn.
  destruct (api_now (world s)) as [t w']. apply HQ; [|done]. split; [by eapply nearly_in_time|done].
Qed.

Lemma call_failed s tr call e : calls s = tr ++ [call] → answer_error call = Some e →
  ∃ call, call ∈ calls s ∧ answer_error call = Some e.
Proof. intros -> He. exists call. split; [|done]. apply elem_of_app. right. left. Qed.

(** A turn that begins before the deadline waits at most twice for the
    reader, so a poll adds the two waits of its first turn. *)
Lemma poll_reason cond k s :
  is_Some (deadline w0) → timely cond → (∀ k s, under k s → wp cond (turn_reason (2 + k)) s) → under k s →
  wp (PollUntilContextCancel (2 * Second) cond) (λ o s', log_closed s' = false ∧ end_reason (2 + k) o s') s.
Proof.
  intros [dl Hdl] Ht Hc Hs. pose proof (poll_in_time (2 * Second) dl cond s eq_refl Ht) as Hrun. unfold wp.
  specialize (Hrun ltac:(destruct Hs as [[[_ ->] _] _]; exact Hdl)).
  revert Hrun k Hs. generalize (clock (world s)), (PollUntilContextCancel (2 * Second) cond s).
  intros start [o s1] Hrun. simpl in *.
  induction Hrun as [j r r' E|j r b e r' E|j r w r' E|j r r' E Hend|j r r' o r'' E Hwhen _ IH]; intros k Hs;
    pose proof (wp_run _ _ _ _ _ (Hc k r Hs) E) as [Hl Hr]; [done..| |]; destruct Hr as [Hr _].
  - split; [exact Hl|]. split; [by eapply nearly_in_time; [exact Hr|apply elapse_time]|].
    right. split; [done|by exists dl].
  - destruct (IH O) as [Hl'' Hr''].
    + split; [|exact Hl]. destruct (nearly_in_time _ _ (elapse (2 * Second) r') Hr (elapse_time (2 * Second) _ ltac:(done))) as [? _].
      split; [done|]. rewrite Hdl. intros ? [= <-]. lia.
    + split; [done|]. eapply end_reason_weaken; [|done]. lia.
Qed.
End waiting.

Section endings.
Context {W : Type} `{KA : !KubeApi W} `{PU : !PollUntil W} `{GC : !GoContext W} `{CK : !Clock W}
  `{KT : !KubeTime W} `{TP : !TimedPoll W}.
Variables (D : Z) (cs : Clientset) (ns name : string).
Hypothesis reader : reader_within (W := W) D.
Abbreviation client := (mkK8sClient (Some cs)).

Ltac call_step :=
  unfold Deployments_Get, Deployments_Update; simpl with_clientset;
  eapply wp_record_call_time;
    [exact reader|intros ?; (apply deployment_get_time || apply deployment_update_time)|eassumption|].
Ltac log_step := eapply wp_log_time; [exact reader|eassumption|].
Ltac failed := left; eapply call_failed; [eassumption|reflexivity].

(** The waits of a part are among those of the whole. *)
Ltac in_all := eapply nearly_weaken; [exact reader| |eassumption]; lia.

Lemma scale_cond_reason w0 n k (s : kst W) :
  under D w0 k s → wp (scale_cond client ns name n ChanRef) (turn_reason D ns name w0 (2 + k)) s.
Proof.
  intros Hs. unfold scale_cond. apply wp_bind. call_step. intros [d|e] s1 Hs1 Hc1; simpl.
  - apply wp_bind. log_step. intros s2 Hs2 Hc2. simpl.
    case_decide; [apply wp_bind; log_step; intros s3 [? ?] Hc3|destruct Hs2];
      (apply wp_ret; split; [done|split; [in_all|done]]).
  - apply wp_bind. log_step. intros s2 [Ht2 Hl2] Hc2. apply wp_ret. rewrite <-Hc2 in Hc1.
    split; [done|]. split; [in_all|]. failed.
Qed.

Lemma restart_cond_reason w0 k (s : kst W) :
  under D w0 k s → wp (restart_cond client ns name ChanRef) (turn_reason D ns name w0 (2 + k)) s.
Proof.
  intros Hs. unfold restart_cond. apply wp_bind. call_step. intros [d|e] s1 Hs1 Hc1; simpl.
  - apply wp_bind. unfold deref_Replicas. destruct (spec_Replicas (dep_Spec d)) as [r|] eqn:Hr; simpl.
    + apply wp_ret, wp_bind. log_step. intros s2 Hs2 Hc2. simpl.
      destruct (restart_ready d r); [apply wp_bind; log_step; intros s3 [? ?] Hc3|destruct Hs2];
        (apply wp_ret; split; [done|split; [in_all|done]]).
    + apply wp_panic. destruct Hs1. split; [done|]. split; [in_all|]. split; [done|]. exists d.
      rewrite Hc1. split; [|done]. apply elem_of_app. right. left.
  - apply wp_bind. log_step. intros s2 [Ht2 Hl2] Hc2. apply wp_ret. rewrite <-Hc2 in Hc1.
    split; [done|]. split; [in_all|]. failed.
Qed.

Lemma defer_reason w0 k (m : GoM (kst W) (option string)) s :
  wp m (λ o s', log_closed s' = false ∧ end_reason D ns name w0 k o s') s →
  wp (defer (chan_close ChanRef) m) (end_reason D ns name w0 k) s.
Proof.
  intros Hm. apply wp_defer. eapply wp_mono; [exact Hm|]. intros o s' [Hl Hr].
  unfold defer_post, wp, chan_close. rewrite Hl. exact Hr.
Qed.

Lemma under_start (s : kst W) : log_closed s = false → under D (world s) 0 s.
Proof. intros Hl. split; [|done]. split; [done|]. intros. lia. Qed.

Lemma scale_reason n (s : kst W) :
  is_Some (deadline (world s)) → log_closed s = false →
  wp (ScaleDeploymentWithLogs client ns name n ChanRef) (end_reason D ns name (world s) 4) s.
Proof.
  intros Hd Hl. pose proof (under_start s Hl) as Hs. revert Hd Hs. generalize (world s). intros w0 Hd Hs.
  apply defer_reason. simpl. apply wp_bind. call_step. intros [d|e] s1 Hs1 Hc1; simpl; apply wp_bind;
    log_step; intros s2 Hs2 Hc2; simpl.
  2:{ apply wp_ret. destruct Hs2. rewrite <-Hc2 in Hc1. split; [done|]. split; [in_all|]. failed. }
  apply wp_bind. call_step. intros [d'|e] s3 Hs3 Hc3; simpl; apply wp_bind;
    log_step; intros s4 Hs4 Hc4; simpl.
  - apply (poll_reason D ns name w0 reader _ 2);
      [done|eapply makes_timely, scale_cond_makes|intros; by apply scale_cond_reason|done].
  - apply wp_ret. destruct Hs4. rewrite <-Hc4 in Hc3. split; [done|]. split; [in_all|]. failed.
Qed.

Lemma restart_reason (s : kst W) :
  is_Some (deadline (world s)) → log_closed s = false →
  wp (RestartDeploymentWithLogs client ns name ChanRef) (end_reason D ns name (world s) 3) s.
Proof.
  intros Hd Hl. pose proof (under_start s Hl) as Hs. revert Hd Hs. generalize (world s). intros w0 Hd Hs.
  apply defer_reason. simpl. apply wp_bind. call_step. intros [d|e] s1 Hs1 Hc1; simpl; apply wp_bind.
  2:{ log_step. intros s2 [Ht2 Hl2] Hc2. apply wp_ret. rewrite <-Hc2 in Hc1.
      split; [done|]. split; [in_all|]. failed. }
  eapply wp_now_time; [exact reader|eassumption|]. intros t s2 Hs2 Hc2. simpl.
  apply wp_bind. call_step. intros [d'|e] s3 Hs3 Hc3; simpl; apply wp_bind;
    log_step; intros s4 Hs4 Hc4; simpl.
  - apply (poll_reason D ns name w0 reader _ 1);
      [done|eapply makes_timely, restart_cond_makes|intros; by apply restart_cond_reason|done].
  - apply wp_ret. destruct Hs4. rewrite <-Hc4 in Hc3. split; [done|]. split; [in_all|]. failed.
Qed.
End endings.

(** ** The commands *)

Section commands.
Context {W T : Type} `{KA : !KubeApi W} `{PU : !PollUntil W} `{SS : !SortSlice} `{GC : !GoContext W} `{CK : !Clock W}
  `{KT : !KubeTime W} `{TP : !TimedPoll W} `{TT : !Telegram T}.
Implicit Types s : hst W T.

(** A handler adds at most [n] calls. *)
Definition asks (n : nat) (h : GoM (hst W T) (option string)) : Prop :=
  ∀ s, (length (h_calls (h s).2) ≤ length (h_calls s) + n)%nat.

Lemma asks_Send n m : asks n (c_Send m).
Proof. intros s. destruct (c_Send_sent m s) as (err & t & ->). simpl. lia. Qed.

Lemma asks_within d n keep op : makes (time_left d) n op → asks n (within d (with_log_channel keep op)).
Proof.
  intros Hop s. unfold within, with_log_channel. simpl.
  specialize (Hop (mkKst (ctx_with_timeout d (h_world s)) [] false [])).
  destruct (op _) as [o k]. simpl in Hop.
  match goal with |- context [send_all ?m ?s1] => destruct (send_all_sent m s1) as [t ->] end.
  simpl. rewrite length_app. apply Nat.add_le_mono_l, Hop. eexists. simpl.
  rewrite with_timeout_deadline, with_timeout_clock. done.
Qed.

(** C8: whatever is typed and whatever the cluster answers, [/scale] makes at
    most 12 calls to the API, [/restart] 7 and [/rollback] 27: a poll asks
    every two seconds, and stops at the deadline of 20, 10 or 30 seconds. *)
Theorem deployment_commands_bounded c text s :
  (length (h_calls (ScaleHandler c text s).2) ≤ length (h_calls s) + 12)%nat ∧
  (length (h_calls (RestartHandler c text s).2) ≤ length (h_calls s) + 7)%nat ∧
  (length (h_calls (RollbackHandler c text s).2) ≤ length (h_calls s) + 27)%nat.
Proof.
  split_and!; [unfold ScaleHandler|unfold RestartHandler|unfold RollbackHandler];
    repeat case_match; try apply asks_Send; apply asks_within;
    [apply scale_makes|apply restart_makes|apply rollback_makes].
Qed.

(** How a wait under a context of [d] ended: in time, but for [late] spent on
    the reader of the log, with the error of a call to the API, or when the
    time was used up. *)
Definition ended (ns name : string) (d late : Z) (o : outcome (option string)) s s' : Prop :=
  ∃ tr, h_calls s' = h_calls s ++ tr ∧
  clock (h_world s) ≤ clock (h_world s') ≤ clock (h_world s) + d + late ∧
  match o with
  | Ret None => True
  | Ret (Some e) => (∃ call, call ∈ tr ∧ answer_error call = Some e) ∨
                    e = "context deadline exceeded" ∧ clock (h_world s) + d ≤ clock (h_world s')
  | Panic why => why = nil_deref ∧ ∃ dep, CGet ns name (inl dep) ∈ tr ∧ spec_Replicas (dep_Spec dep) = None
  end.

Lemma within_ended D ns name d k keep op s :
  0 < d →
  (∀ r, is_Some (deadline (world r)) → log_closed r = false → wp op (end_reason D ns name (world r) k) r) →
  wp (within d (with_log_channel keep op)) (λ o s', ended ns name d (Z.of_nat k * D) o s s') s.
Proof.
  intros Hd Hop. apply wp_within. unfold wp, with_log_channel. simpl.
  specialize (Hop (mkKst (ctx_with_timeout d (h_world s)) [] false [])
    ltac:(eexists; apply with_timeout_deadline) eq_refl). unfold wp in Hop.
  destruct (op _) as [o r]. simpl in Hop.
  match goal with |- context [send_all ?m ?s1] => destruct (send_all_sent m s1) as [t ->] end.
  exists (calls r). simpl. rewrite cancel_clock.
  destruct Hop as [[[Hcl _] Hmax] Ho]. specialize (Hmax _ (with_timeout_deadline _ _)).
  rewrite with_timeout_clock, with_timeout_deadline in *. split_and!; [done|lia|lia|].
  destruct o as [[e|]|why]; [|done|exact Ho].
  destruct Ho as [Ho|(-> & dl & [= <-] & Ho)]; [by left|right; split; [done|lia]].
Qed.

(** C9: when the reader of the log is back for the next line within [D] at
    the most, [/scale] of a deployment is over within its 20 seconds and
    four waits for the reader; when it returns an error, that is the error of
    one of its calls to the API or the 20 seconds have been used up, and it
    does not panic; [/restart] the same with 10 seconds and three waits, and
    it panics only if the deployment it read had no replica count. *)
Theorem waits_use_their_time D cs ns name n s :
  reader_within (W := W) D →
  wp (run_scale (mkK8sClient (Some cs)) ns name n) (λ o s', is_ret o ∧ ended ns name (20 * Second) (4 * D) o s s') s ∧
  wp (run_restart (mkK8sClient (Some cs)) ns name) (λ o s', ended ns name (10 * Second) (3 * D) o s s') s.
Proof.
  intros reader.
  split; [|apply (within_ended D _ _ _ 3); [done|intros r; by apply restart_reason]].
  apply wp_conj; [|apply (within_ended D _ _ _ 4); [done|intros r; by apply scale_reason]].
  unfold wp, run_scale, within, with_log_channel. simpl h_world.
  destruct (scale_never_panics ns name (mkK8sClient (Some cs)) (to_int32 n)
    (mkKst (ctx_with_timeout (20 * Second) (h_world s)) [] false []) eq_refl) as (e & k & -> & _).
  match goal with |- context [send_all ?m ?s1] => destruct (send_all_sent m s1) as [t ->] end.
  done.
Qed.
End commands.

(** ** On the sample cluster, with its clock *)
Module Sample.

(** The sample cluster with a reader of the log that is away for [d] after
    each line, and a controller that lets a wait take the cluster to [after]. *)
Definition reader_api (d : Z) (after : gmap (string * string) Deployment → gmap (string * string) Deployment) :
    KubeApi Cluster :=
  let C := cluster_api "api" in
  {| api_deployment_get := @api_deployment_get _ C; api_deployment_update := @api_deployment_update _ C;
     api_replicasets_list := @api_replicasets_list _ C; api_pod_get := @api_pod_get _ C;
     api_pods_list := @api_pods_list _ C; api_pod_logs := @api_pod_logs _ C;
     api_selector_string := @api_selector_string _ C; api_now := @api_now _ C; api_sleep := @api_sleep _ C;
     api_elapse i w := mkCluster (after (cl_deployments w)) (cl_replicasets w) (cl_pods w) (cl_conflicts w)
                         (wait_until i w) (cl_deadline w);
     api_log_wait w := mkCluster (cl_deployments w) (cl_replicasets w) (cl_pods w) (cl_conflicts w)
                         (cl_clock w + d) (cl_deadline w) |}.

#[local] Instance sample_api : KubeApi Cluster := reader_api Second (fmap settle).
#[local] Instance sample_ctx : GoContext Cluster := cluster_ctx.
#[local] Instance sample_telegram : Telegram unit := λ m t, (None, t).

#[local] Instance sample_clock : Clock Cluster.
Proof.
  refine {| clock := cl_clock; deadline := cl_deadline |}; try done.
  intros [? ? ? ? ck [d|]]; simpl; [|done]. intros Hd%bool_decide_eq_true. by exists d.
Defined.

Lemma same_clock w w' : cl_clock w' = cl_clock w → cl_deadline w' = cl_deadline w → in_time w w'.
Proof. unfold in_time, later. simpl. intros -> ->. split; [done|]. intros d _. lia. Qed.

#[local] Instance sample_time : KubeTime Cluster.
Proof.
  constructor; simpl.
  - intros ns name w. by destruct (cl_deployments w !! _); apply same_clock.
  - intros ns d w. unfold cluster_update. destruct (cl_conflicts w); [|by apply same_clock].
    by destruct (cl_deployments w !! _); apply same_clock.
  - intros _ _ w. by apply same_clock.
  - intros w. by apply same_clock.
  - intros d w Hd. unfold in_time, later, wait_until. simpl.
    destruct (cl_deadline w) as [dl|]; (split; [split; [lia|done]|]); [|done]. intros ? [= <-]. lia.
  - intros n w Hn. unfold later. simpl. unfold Second. split; [lia|done].
  - intros w. unfold later. simpl. unfold Second. split; [lia|done].
Qed.

#[local] Instance sample_poll : PollUntil Cluster := clock_poll.
#[local] Instance sample_timed : TimedPoll Cluster.
Proof.
  apply clock_poll_timed. intros d w Hd. simpl. unfold wait_until, expired. simpl.
  destruct (cl_deadline w) as [dl|]; [|by left].
  destruct (decide (cl_clock w + d ≤ dl)); [left; lia|right; apply bool_decide_eq_true; lia].
Qed.

Definition bot_client : K8sClient := mkK8sClient (Some TheClientset).
Definition idle : hst Cluster unit := mkHst (sample_cluster 0) tt [] [].

Lemma deployment_commands_bounded_witness :
  (length (h_calls (ScaleHandler bot_client "/scale prod/api 5" idle).2) ≤ 0 + 12)%nat.
Proof. exact (proj1 (deployment_commands_bounded bot_client "/scale prod/api 5" idle)). Defined.

Lemma sample_reader : reader_within (W := Cluster) Second.
Proof. intros w. simpl. lia. Qed.

Lemma waits_use_their_time_witness :
  ended "prod" "api" (20 * Second) (4 * Second) (run_scale bot_client "prod" "api" 5 idle).1 idle
    (run_scale bot_client "prod" "api" 5 idle).2.
Proof. exact (proj2 (proj1 (waits_use_their_time Second TheClientset "prod" "api" 5 idle sample_reader))). Defined.

Definition scale_under (C : KubeApi Cluster) :=
  @run_scale Cluster unit C (clock_poll (KA := C)) _ _ bot_client "prod" "api" 5 idle.

(** A controller that never works: the deployment keeps two replicas, the
    command gives up after exactly 20 seconds and 12 calls. *)
Example lazy_scale :
  let r := scale_under (reader_api 0 id) in
  r.1 = Ret (Some "context deadline exceeded") ∧ length (h_calls r.2) = 12%nat ∧
  clock (h_world r.2) = clock (h_world idle) + 20 * Second.
Proof. split_and!; vm_compute; reflexivity. Qed.

(** A chat that takes 15 seconds for each message: the command keeps trying
    after its deadline, since a send to the log knows no context. *)
Example slow_reader_scale :
  let r := scale_under (reader_api (15 * Second) id) in
  r.1 = Ret (Some "context deadline exceeded") ∧
  clock (h_world r.2) = clock (h_world idle) + 45 * Second.
Proof. split_and!; vm_compute; reflexivity. Qed.
End Sample.
