(* ===== verification/ClusterWrites.v ===== *)
(** * What the commands write to the cluster

    Every update an operation of the client sends is the deployment it read,
    with one field changed.  The commands inherit this, and so does a whole
    run of the bot. *)
From Stdlib Require Import SpecFloat.
From stdpp Require Import base tactics strings list gmap.
From Stdlib Require Import ZArith Lia.
From S2P Require Import Prelude GoStrings GoConv GoTime GoContext Sorting KubeApi KubeClient KubeRollback KubeTrace KubeSpec KubeTargets Telegram KubeHandlers.

(** [d'] may be written in namespace [ns] after the calls [before]: it is a
    deployment that was read, with a 32-bit replica count, with the restart
    annotation, or with the template of a listed ReplicaSet. *)
Inductive may_write (before : list api_call) (ns : string) (d' : Deployment) : Prop :=
  | writes_replicas name d r :
      CGet ns name (inl d) ∈ before → is_int32 r → d' = set_Replicas r d → may_write before ns d'
  | writes_restart name d t :
      CGet ns name (inl d) ∈ before → d' = restarted (Format_RFC3339Nano t) d → may_write before ns d'
  | writes_template name d selector listed rs :
      CGet ns name (inl d) ∈ before → CList ns selector (inl listed) ∈ before → rs ∈ listed →
      d' = set_Template (rs_Template rs) d → may_write before ns d'.

(** Every update of a trace, given the calls before the trace. *)
Fixpoint well_written (before tr : list api_call) : Prop :=
  match tr with
  | [] => True
  | c :: tr =>
      match c with CUpdate ns d' _ => may_write before ns d' | _ => True end ∧ well_written (before ++ [c]) tr
  end.

Lemma may_write_grows before before' ns d' :
  (∀ c, c ∈ before → c ∈ before') → may_write before ns d' → may_write before' ns d'.
Proof.
  intros Hb [name d r Hg Hr ->|name d t Hg ->|name d sel l rs Hg Hl Hrs ->];
    [eapply writes_replicas|eapply writes_restart|eapply writes_template]; eauto.
Qed.

Lemma well_written_grows before before' tr :
  (∀ c, c ∈ before → c ∈ before') → well_written before tr → well_written before' tr.
Proof.
  revert before before'. induction tr as [|c tr IH]; intros before before' Hb; simpl; [done|].
  intros [Hc Htr]. split; [destruct c; try done; by eapply may_write_grows|].
  eapply IH, Htr. intros c'. rewrite !elem_of_app. intros [|]; auto.
Qed.

Lemma well_written_app before t1 t2 :
  well_written before (t1 ++ t2) ↔ well_written before t1 ∧ well_written (before ++ t1) t2.
Proof.
  revert before. induction t1 as [|c t1 IH]; intros before; simpl; [by rewrite app_nil_r; split; [|intros []]|].
  rewrite IH, <-app_assoc. simpl. tauto.
Qed.

(** A trace that only reads. *)
Definition reading (c : api_call) : Prop := match c with CUpdate _ _ _ => False | _ => True end.

Lemma well_written_reading before tr : Forall reading tr → well_written before tr.
Proof.
  intros H. revert before. induction H as [|c tr Hc _ IH]; intros before; simpl; [done|].
  split; [by destruct c|apply IH].
Qed.

Lemma reading_gets ns name tr : Forall (is_get ns name) tr → Forall reading tr.
Proof. intros H. eapply Forall_impl; [done|]. by intros c [a ->]. Qed.

Lemma well_written_after before t1 t2 :
  well_written before t1 → well_written [] t2 → well_written before (t1 ++ t2).
Proof.
  intros H1 H2. apply well_written_app. split; [done|]. eapply well_written_grows, H2.
  by intros c ?%not_elem_of_nil.
Qed.

(** ** The operations *)

Section operations.
Context {W : Type} `{KA : !KubeApi W} `{PU : !PollUntil W} `{SS : !SortSlice}.
Variables (ns name : string) (cs : Clientset).

Lemma turns_written ready lines o tr l before :
  turns (observes ns name ready lines) o tr l → well_written before tr.
Proof. intros Ht%turns_observes_gets. by eapply well_written_reading, reading_gets. Qed.

Lemma scale_written r o tr l :
  is_int32 r → scale_protocol ns name r o tr l → well_written [] tr.
Proof.
  intros Hr [e|dep e|dep dep' o' t l' Ht]; simpl; split_and!; try done.
  1,2: eapply writes_replicas; [left|done|done].
  by eapply turns_written.
Qed.

Lemma restart_written o tr l : restart_protocol ns name o tr l → well_written [] tr.
Proof.
  intros [e|dep t e|dep t dep' o' tr' l' Ht]; simpl; split_and!; try done.
  1,2: eapply writes_restart; [left|done].
  by eapply turns_written.
Qed.

Lemma update_attempts_written rs sel listed before n r tr :
  CList ns sel (inl listed) ∈ before → rs ∈ listed →
  update_attempts ns name (rs_Template rs) n r tr → well_written before tr.
Proof.
  intros Hl Hrs H. revert before Hl.
  induction H as [|n e|n d d'|n d e _|n d e r tr _ _ IH]; intros before Hl; simpl; try done;
    split_and!; try done.
  1,2,3: eapply writes_template with (d := d) (rs := rs);
    [apply elem_of_app; right; left|apply elem_of_app; left; exact Hl|done|done].
  apply IH. rewrite !elem_of_app. auto.
Qed.

Lemma selected_listed revision dep listed rs : selected revision dep listed rs → rs ∈ listed.
Proof.
  intros [curRevStr curRev line _ _ _ Hsel]. pose proof (select_target_spec listed curRev revision) as H.
  rewrite Hsel in H. apply H.
Qed.

Lemma rollback_written revision o tr : rollback_protocol ns name revision o tr → well_written [] tr.
Proof.
  assert (∀ dep sel listed rs n r tr, selected revision dep listed rs →
            update_attempts ns name (rs_Template rs) n r tr →
            well_written [CGet ns name (inl dep); CList ns sel (inl listed)] tr) as Hu.
  { intros dep sel listed rs n r tr' Hsel%selected_listed. apply update_attempts_written with sel listed; [|done].
    right. left. }
  intros [e|dep e|dep sel e|dep sel listed e _|dep sel listed rs e tr' Hsel Hup
         |dep sel listed rs r tr' o' t l Hsel Hup _ Ht]; simpl; try done.
  - split_and!; [done..|]. by eapply Hu.
  - split_and!; [done..|]. apply well_written_app. split; [by eapply Hu|by eapply turns_written].
Qed.

(** The operations that only read. *)
Lemma revisions_read c : emits (W := W) (ListAvailableRevisions c ns name) (λ _ tr _, Forall reading tr).
Proof. unfold ListAvailableRevisions. destruct c as [[cs'|]]; simpl; emits_steps; repeat constructor. Qed.

Lemma pods_read c : emits (W := W) (ListPods c ns) (λ _ tr _, Forall reading tr).
Proof.
  unfold ListPods, Pods_List. destruct c as [[cs'|]]; simpl; emits_steps; repeat constructor.
Qed.
End operations.

(** ** The commands *)

Section commands.
Context {W T : Type} `{KA : !KubeApi W} `{PU : !PollUntil W} `{SS : !SortSlice} `{GC : !GoContext W} `{TT : !Telegram T}.
Variable cs : Clientset.
Implicit Types s : hst W T.

(** What a handler adds to the calls of the bot. *)
Definition adds (P : list api_call → Prop) (m : GoM (hst W T) (option string)) : Prop :=
  ∀ s, wp m (λ _ s', ∃ tr, h_calls s' = h_calls s ++ tr ∧ P tr) s.
Abbreviation writes_well := (adds (well_written [])).
Abbreviation reads_only := (adds (Forall reading)).

Lemma adds_Send (P : list api_call → Prop) m : P [] → adds P (c_Send m).
Proof.
  intros HP s. unfold wp. destruct (c_Send_sent m s) as (err & t & ->). exists []. simpl.
  by rewrite app_nil_r.
Qed.

Lemma adds_within P d m : adds P m → adds P (within d m).
Proof. intros Hm s. apply wp_within. exact (Hm (on_world (ctx_with_timeout d) s)). Qed.

Lemma writes_Send m : writes_well (c_Send m).
Proof. by apply adds_Send. Qed.
Lemma reads_Send m : reads_only (c_Send m).
Proof. by apply adds_Send. Qed.

Lemma reads_writes m : reads_only m → writes_well m.
Proof.
  intros Hm s. eapply wp_mono; [apply Hm|]. intros o s' (tr & Hc & Hr). exists tr.
  split; [done|by apply well_written_reading].
Qed.

Lemma writes_log_channel keep op :
  (∀ w, wp op (λ _ k, well_written [] (calls k)) (mkKst w [] false [])) → writes_well (with_log_channel keep op).
Proof.
  intros Hop s. specialize (Hop (h_world s)). unfold wp, with_log_channel in *.
  destruct (op _) as [o k]. simpl in Hop.
  match goal with |- context [send_all ?m ?s1] => destruct (send_all_sent m s1) as [t ->] end.
  by exists (calls k).
Qed.

Lemma reads_client_call {A} (op : GoM (kst W) A) (k : A → GoM (hst W T) (option string)) :
  emits op (λ _ tr _, Forall reading tr) →
  (∀ a s, wp (k a) (λ _ s', h_calls s' = h_calls s) s) → reads_only (client_call op ≫= k).
Proof.
  intros Hop Hk s. apply wp_bind. unfold wp at 1, client_call.
  specialize (Hop (mkKst (h_world s) [] false []) eq_refl). unfold wp in Hop.
  destruct (op _) as [o s1]. destruct Hop as (tr & lg & (Hc & _) & Hr). simpl in Hc, Hr |- *.
  destruct o as [a|why]; simpl; [|exists tr; by rewrite Hc].
  eapply wp_mono; [apply Hk|]. intros o' s' Hs'. exists tr. rewrite Hs'. simpl. by rewrite Hc.
Qed.

Abbreviation client := (mkK8sClient (Some cs)).

Lemma run_scale_writes ns name n : writes_well (run_scale client ns name n).
Proof.
  apply adds_within, writes_log_channel. intros w. eapply wp_mono; [by apply (scale_body_protocol ns name cs)|].
  intros o k (tr & lg & Hc & _ & _ & Hp). simpl in Hc. rewrite Hc. eapply scale_written, Hp.
  apply to_int32_range.
Qed.

Lemma run_restart_writes ns name : writes_well (run_restart client ns name).
Proof.
  apply adds_within, writes_log_channel. intros w. eapply wp_mono; [by apply (restart_body_protocol ns name cs)|].
  intros o k (tr & lg & Hc & _ & _ & Hp). simpl in Hc. rewrite Hc. by eapply restart_written.
Qed.

Lemma run_rollback_writes ns name n : writes_well (run_rollback client ns name n).
Proof.
  apply adds_within, writes_log_channel. intros w. eapply wp_mono; [by apply (rollback_body_protocol ns name cs)|].
  intros o k (tr & lg & Hc & _ & _ & Hp & _). simpl in Hc. rewrite Hc. by eapply rollback_written.
Qed.

Lemma send_all_calls msgs s : wp (send_all msgs;; mret None) (λ (_ : outcome (option string)) s', h_calls s' = h_calls s) s.
Proof. apply wp_bind. unfold wp at 1. by destruct (send_all_sent msgs s) as [t ->]. Qed.

Lemma run_revisions_reads ns name : reads_only (run_revisions client ns name).
Proof.
  apply adds_within, reads_client_call; [apply revisions_read|].
  intros [ans [err|]] s; [done|apply send_all_calls].
Qed.

Lemma run_list_pods_reads ns : reads_only (run_list_pods client ns).
Proof.
  apply adds_within, reads_client_call; [apply pods_read|]. intros [ans [err|]] s; [done|].
  unfold wp. by destruct (c_Send_sent (str_concat ((λ pod, pod +:+ nl) <$> ans)) s) as (e & t & ->).
Qed.

#[local] Hint Resolve writes_Send reads_Send run_scale_writes run_restart_writes run_rollback_writes
  run_revisions_reads run_list_pods_reads : go_wp.

Lemma ScaleHandler_writes text : writes_well (ScaleHandler client text).
Proof. unfold ScaleHandler. repeat case_match; auto with go_wp. Qed.
Lemma RestartHandler_writes text : writes_well (RestartHandler client text).
Proof. unfold RestartHandler. repeat case_match; auto with go_wp. Qed.
Lemma RollbackHandler_writes text : writes_well (RollbackHandler client text).
Proof. unfold RollbackHandler. repeat case_match; auto with go_wp. Qed.
Lemma RevisionsHandler_reads text : reads_only (RevisionsHandler client text).
Proof. unfold RevisionsHandler. repeat case_match; auto with go_wp. Qed.
Lemma ListPodsHandler_reads text : reads_only (ListPodsHandler client text).
Proof. unfold ListPodsHandler. repeat case_match; auto with go_wp. Qed.
End commands.
