(* ===== verification/MonitorHandlers.v ===== *)
(** * [metrics_handlers.go], [alert_handlers.go], [ai_handler.go], [db_handlers.go]

    The commands that read: metrics, the dashboard, the alerts, the history,
    and the question to the language model ([internal/bot/yandexgpt]). *)
From Stdlib Require Import SpecFloat.
From stdpp Require Import base tactics strings list gmap.
From Stdlib Require Import ZArith.
From S2P Require Import Prelude GoStrings GoConv GoTime GoContext GoFloat Monitoring Dashboard Messages Repository KubeApi Telegram.

Definition space : ascii := " ".
Definition timeout_text : string := "Превышено время ожидания запроса (timeout)".

(** [fmt.Sprintf("%v", v)] *)
Definition print_value (v : jvalue) : string :=
  match v with
  | JNull => "<nil>"
  | JBool b => if b then "true" else "false"
  | JNumber x => Format_v x
  | JString s => s
  | JOther t => t
  end.

(** [parts[i]] where the code has a default for an index out of range. *)
Definition part_or (parts : list string) (i : nat) (default_ : string) : string :=
  default default_ (parts !! i).

Section monitoring.
Context {W T : Type} `{!Http W} `{!GoContext W} `{!Telegram T}.
Abbreviation HM := (GoM (hst W T)).

Definition expired : HM bool := λ s, (Ret (ctx_deadline_exceeded (h_world s)), s).

(** What the handlers answer to an error of the client. *)
Definition reply_error (text : HM (option string)) : HM (option string) :=
  late ← expired;
  if (late : bool) then c_Send timeout_text else text.

(** ** [/metric] *)

Definition metric_query (metric service namespace : string) : string :=
  metric +:+ "{" +:+ job_matcher service +:+ ", namespace=" +:+ dquote +:+ namespace +:+ dquote +:+ "}".

Definition sample_values (r : PromResult) : string :=
  map_get (Metric r) "pod" +:+ ": " +:+ str_concat ((λ v, print_value v +:+ " ") <$> Value r).

Definition metric_answer (response : PrometheusQueryResponse) : string :=
  "Status: " +:+ q_Status response +:+ nl +:+
  TrimSpace (str_concat (sample_values <$> q_Result response)).

Definition MetricHandler (c : Client) (text : string) : HM (option string) :=
  match Split text space with
  | _ :: service :: metric :: rest =>
      let namespace := part_or rest 0 "default" in
      within (10 * Second) (
        r ← component (Query c (metric_query metric service namespace));
        match r with
        | inr err => reply_error (c_Send ("Произошла ошибка: " +:+ err))
        | inl response => c_Send (metric_answer response)
        end)
  | _ => c_Send "Использование: /metric <сервис> <метрика> [namespace]"
  end.

(** ** [/list_metric] *)

Definition ListMetricsHandler (c : Client) (text : string) : HM (option string) :=
  match SplitN text space 3 with
  | _ :: service :: metric :: _ =>
      within (10 * Second) (
        r ← component (ListMetrics c service);
        match r with
        | inr err => reply_error (c_Send ("Произошла ошибка: " +:+ err))
        | inl response => c_Send (Join (List.filter (λ str, Contains str metric) response) nl)
        end)
  | _ => c_Send "Неправильное кол-во параметров "
  end.

Definition error_markdown (err : string) : string :=
  "❌ *Произошла ошибка:*" +:+ nl +:+ "`" +:+ escapeMarkdown err +:+ "`".

(** ** [/status]

    Under a schedule of the dashboard's goroutines; [None]: the schedule is
    too short. *)
Definition status_reply (dashboard : ServiceStatusDashboard + string) : HM (option string) :=
  match dashboard with
  | inr err => reply_error (c_Send_markdown (error_markdown err))
  | inl response => c_Send_markdown (FormatDashboardForTelegram response)
  end.

Definition StatusHandler (rt : runtime) (c : Client) (text : string) (s : hst W T) :
    option (outcome (option string) * hst W T) :=
  match Split text space with
  | _ :: job :: rest =>
      let namespace := part_or rest 0 "default" in
      let s0 := on_world (ctx_with_timeout (20 * Second)) s in
      match GetStatusDashboard rt c namespace job (h_world s0) with
      | None => None
      | Some (o, w) =>
          let s1 := mkHst w (h_chat s) (h_sent s) (h_calls s) in
          let (r, s2) :=
            match o with
            | Panic why => (Panic why, s1)
            | Ret dashboard => status_reply dashboard s1
            end in
          Some (r, on_world ctx_cancel s2)
      end
  | _ => Some (c_Send "Usage: /status <job_name> [namespace]" s)
  end.

(** ** [/alerts] *)

Definition AlertsHandler (c : Client) : HM (option string) :=
  within (20 * Second) (
    r ← component (GenerateAlertsMessage c);
    match r with
    | inr err => reply_error (c_Send_markdown (error_markdown err))
    | inl message => c_Send_markdown message
    end).
End monitoring.

(** ** [/history], [/operations] and the check of the password *)

Section database.
Context {W T : Type} `{!Gorm W} `{!Telegram T}.
(** [time.Time.String], which needs the names of time zones. *)
Variable time_String : Time → string.
Abbreviation HM := (GoM (hst W T)).

Definition incident_line (i : IncidentHistory) : string :=
  "ID: " +:+ FormatInt (ih_ID i) +:+ ", Status: " +:+ ih_Status i +:+ nl.

Definition HistoryHandler : HM (option string) :=
  r ← component (Find MIncidentHistory DB);
  match r with
  | (_, Some err) =>
      let ans := "Ошибка получения инцидентов: " +:+ err in
      c_Send ans;; mret (Some ans)
  | (incidents, None) =>
      c_Send ("История инцидентов:" +:+ nl +:+ str_concat (incident_line <$> incidents))
  end.

Definition operation_line (o : Operation) : string :=
  "ID: " +:+ FormatInt (op_ID o) +:+ ", Text: " +:+ op_Text o +:+ ", Time: " +:+ time_String (op_Time o) +:+ nl.

Definition OperationsHandler : HM (option string) :=
  r ← component (Find MOperation DB);
  match r with
  | (_, Some err) =>
      let ans := "Ошибка получения операций: " +:+ err in
      c_Send ans;; mret (Some ans)
  | (operations, None) =>
      c_Send ("Операции:" +:+ nl +:+ str_concat (operation_line <$> operations))
  end.

Definition ProofLoginPaswordHandler (login password : string) : GoM W bool :=
  AuthenticateUser login password.
End database.

(** ** [/ai_help] and [internal/bot/yandexgpt/client.go] *)

(** The prompt file, the environment and the service are not under [src/]. *)
Class Gpt (W : Type) := {
  gpt_prompt : W → (string + string) * W;
  gpt_Getenv : string → W → string;
  (** A completion for (key, catalog, system prompt, user text): the texts of
      the alternatives. *)
  gpt_complete : string → string → string → string → W → (list string + string) * W;
}.

Section ai.
Context {W T : Type} `{!Gpt W} `{!Telegram T}.

Definition SendMessage (text : string) : GoM W (string + string) := λ w,
  match gpt_prompt w with
  | (inr err, w1) => (Ret (inr ("failed to read system prompt: " +:+ err)), w1)
  | (inl systemPrompt, w1) =>
      let apiKey := gpt_Getenv "GPT_KEY" w1 in
      let catalogID := gpt_Getenv "GPT_CATALOG" w1 in
      if decide (apiKey = EmptyString) then (Ret (inr "GPT_KEY not found in environment"), w1)
      else if decide (catalogID = EmptyString) then (Ret (inr "GPT_CATALOG not found in environment"), w1)
      else
        match gpt_complete apiKey catalogID systemPrompt text w1 with
        | (inr err, w2) => (Ret (inr ("failed to get GPT completion: " +:+ err)), w2)
        | (inl [], w2) => (Ret (inr "no response alternatives received"), w2)
        | (inl (answer :: _), w2) => (Ret (inl answer), w2)
        end
  end.

Definition AiHelpHandler (text : string) : GoM (hst W T) (option string) :=
  match SplitN text space 2 with
  | [_; userQuery] =>
      r ← component (SendMessage userQuery);
      match r with
      | inr err => c_Send ("Ошибка при обращении к ИИ: " +:+ err)
      | inl answer => c_Send ("Ответ ИИ:" +:+ nl +:+ answer)
      end
  | _ => c_Send "Пожалуйста, укажите текст запроса после /ai_help"
  end.
End ai.
