(* ===== verification/MonitorHandlerProps.v ===== *)
(** * What the reading commands answer

    The commands of [MonitorHandlers] leave the cluster alone and send exactly
    one message, on every path; the list of metrics can be read back from the
    message that holds it. *)
From Stdlib Require Import SpecFloat.
From stdpp Require Import base tactics strings list gmap.
From Stdlib Require Import ZArith.
From S2P Require Import Prelude GoStrings GoConv GoTime GoContext GoFloat Monitoring Dashboard Messages Repository Database RepositoryProps MemDb KubeApi Telegram MonitorHandlers.

(** ** One message *)

Section replies.
Context {W T : Type} `{HW : !Http W} `{GW : !Gorm W} `{AW : !Gpt W} `{GC : !GoContext W} `{TT : !Telegram T}.
Implicit Types s : hst W T.

(** From [s], a handler that returns has sent one message, one that panics
    none; neither has made a call to the Kubernetes API. *)
Definition answered_from s (o : outcome (option string)) s' : Prop :=
  h_calls s' = h_calls s ∧
  match o with Ret _ => ∃ m, h_sent s' = h_sent s ++ [m] | Panic _ => h_sent s' = h_sent s end.
Definition answers_once (h : GoM (hst W T) (option string)) : Prop := ∀ s, wp h (answered_from s) s.

(** The same messages and the same calls. *)
Definition same_traffic s s' : Prop := h_calls s' = h_calls s ∧ h_sent s' = h_sent s.

Lemma answered_traffic s s1 o s' : same_traffic s s1 → answered_from s1 o s' → answered_from s o s'.
Proof. intros [Hc Hs] [Hc' Ho]. unfold answered_from. by rewrite <-Hc, <-Hs. Qed.

Lemma Send_message_answers m : answers_once (c_Send_message m).
Proof. intros s. unfold wp, c_Send_message. destruct (tg_Send _ _) as [err t]. split; [done|by eexists]. Qed.
Lemma Send_answers m : answers_once (c_Send m).
Proof. apply Send_message_answers. Qed.
Lemma Send_markdown_answers m : answers_once (c_Send_markdown m).
Proof. apply Send_message_answers. Qed.

Lemma bind_answers {A} (m : GoM (hst W T) A) (k : A → GoM (hst W T) (option string)) :
  (∀ s, same_traffic s (m s).2) → (∀ a, answers_once (k a)) → answers_once (m ≫= k).
Proof.
  intros Hm Hk s. apply wp_bind. specialize (Hm s). unfold wp at 1. destruct (m s) as [[a|why] s1]; simpl in *.
  - eapply wp_mono; [apply Hk|]. intros o s'. by apply answered_traffic.
  - unfold answered_from. by destruct Hm as [-> ->].
Qed.

Lemma component_traffic {A} (op : GoM W A) s : same_traffic s (component op s).2.
Proof. unfold component. by destruct (op (h_world s)). Qed.

Lemma Send_then_answers m r : answers_once (c_Send m;; mret r).
Proof.
  intros s. unfold wp, mbind, GoM_bind. destruct (c_Send_sent m s) as (err & t & ->). split; [done|by eexists].
Qed.

Lemma component_answers {A} (op : GoM W A) (k : A → GoM (hst W T) (option string)) :
  (∀ a, answers_once (k a)) → answers_once (component op ≫= k).
Proof. apply bind_answers. intros s. apply component_traffic. Qed.

Lemma run_answers h s s1 o s' :
  answers_once h → same_traffic s s1 → h s1 = (o, s') → answered_from s o s'.
Proof. intros Hh Ht Hr. eapply answered_traffic; [done|]. specialize (Hh s1). unfold wp in Hh. by rewrite Hr in Hh. Qed.

Lemma reply_error_answers h : answers_once h → answers_once (reply_error h).
Proof. intros Hh. apply bind_answers; [done|]. intros []; [apply Send_answers|done]. Qed.

Lemma within_answers d h : answers_once h → answers_once (within d h).
Proof. intros Hh s. apply wp_within. exact (Hh (on_world (ctx_with_timeout d) s)). Qed.
End replies.

Create HintDb answers.
#[export] Hint Resolve Send_answers Send_markdown_answers Send_then_answers component_answers
  reply_error_answers within_answers : answers.

Section commands.
Context {W T : Type} `{HW : !Http W} `{GW : !Gorm W} `{AW : !Gpt W} `{GC : !GoContext W} `{TT : !Telegram T}.
Implicit Types s : hst W T.

Lemma MetricHandler_answers c text : answers_once (W := W) (T := T) (MetricHandler c text).
Proof.
  unfold MetricHandler. repeat case_match; auto with answers.
  apply within_answers, component_answers. intros [r|err]; auto with answers.
Qed.

Lemma ListMetricsHandler_answers c text : answers_once (W := W) (T := T) (ListMetricsHandler c text).
Proof.
  unfold ListMetricsHandler. repeat case_match; auto with answers.
  apply within_answers, component_answers. intros [r|err]; auto with answers.
Qed.

Lemma AlertsHandler_answers c : answers_once (W := W) (T := T) (AlertsHandler c).
Proof. apply within_answers, component_answers. intros [r|err]; auto with answers. Qed.

Lemma HistoryHandler_answers : answers_once (W := W) (T := T) HistoryHandler.
Proof. apply component_answers. intros [r [err|]]; auto with answers. Qed.

Lemma OperationsHandler_answers time_String : answers_once (W := W) (T := T) (OperationsHandler time_String).
Proof. apply component_answers. intros [r [err|]]; auto with answers. Qed.

Lemma AiHelpHandler_answers text : answers_once (W := W) (T := T) (AiHelpHandler text).
Proof.
  unfold AiHelpHandler. repeat case_match; auto with answers.
  apply component_answers. intros [r|err]; auto with answers.
Qed.

Lemma StatusHandler_answers rt c text s o s' :
  StatusHandler (W := W) (T := T) rt c text s = Some (o, s') → answered_from s o s'.
Proof.
  unfold StatusHandler. intros Hs.
  destruct (Split text space) as [|cmd [|job rest]];
    [injection Hs as Hs; by eapply run_answers, Hs; [apply Send_answers|]..|].
  destruct (GetStatusDashboard _ _ _ _ _) as [[o0 w]|]; [|done].
  destruct (match o0 with Ret d => status_reply d _ | Panic why => _ end) as [r s2] eqn:Hr.
  injection Hs as <- <-. change (answered_from s r s2).
  destruct o0 as [[d|err]|why]; [..|by simplify_eq].
  - by eapply run_answers, Hr; [apply Send_markdown_answers|].
  - by eapply run_answers, Hr; [apply reply_error_answers, Send_markdown_answers|].
Qed.

(** The commands that read never touch the cluster, and whatever the text
    typed and whatever fails, each answers with exactly one message when it
    returns (and with none when it panics), [/status] under every schedule
    of its goroutines. *)
Theorem reading_commands_answer_once rt c time_String text s :
  let plain_run (h : GoM (hst W T) (option string)) := Some (h s) in
  ∀ r, r ∈ [StatusHandler rt c text s; plain_run (MetricHandler c text); plain_run (ListMetricsHandler c text);
            plain_run (AlertsHandler c); plain_run HistoryHandler; plain_run (OperationsHandler time_String);
            plain_run (AiHelpHandler text)] →
  ∀ o s', r = Some (o, s') →
    h_calls s' = h_calls s ∧
    match o with Ret _ => ∃ m, h_sent s' = h_sent s ++ [m] | Panic _ => h_sent s' = h_sent s end.
Proof.
  intros plain_run r Hr o s' ->.
  assert (∀ h, Some (o, s') = plain_run h → answers_once h → answered_from s o s') as Hplain.
  { intros h [= Hh] Ha. by eapply run_answers. }
  apply elem_of_cons in Hr as [Hr|Hr]; [symmetry in Hr; by eapply StatusHandler_answers|].
  repeat (apply elem_of_cons in Hr as [Hr|Hr]; [apply (Hplain _ Hr)|]);
    [apply MetricHandler_answers|apply ListMetricsHandler_answers|apply AlertsHandler_answers
    |apply HistoryHandler_answers|apply OperationsHandler_answers|apply AiHelpHandler_answers|].
  by apply not_elem_of_nil in Hr.
Qed.

(** ** The list of metrics *)

Definition nl_byte : ascii := "010".

(** [/list_metric job text] answers with the names that hold the text: when
    the server has answered [names], none with a line break, the lines of the
    one message are exactly those names, in order; when there are none the
    message is empty. *)
Theorem list_metric_lines c job part s names w :
  no_byte space job → Forall (no_byte nl_byte) names →
  ListMetrics c job (ctx_with_timeout (10 * Second) (h_world s)) = (Ret (inl names), w) →
  ∃ m r s', ListMetricsHandler c ("/list_metric " +:+ job +:+ " " +:+ part) s = (Ret r, s') ∧
    h_sent s' = h_sent s ++ [mkMessage m Plain] ∧
    let wanted := List.filter (λ name, Contains name part) names in
    if decide (wanted = []) then m = EmptyString else Split m nl_byte = wanted.
Proof.
  intros Hjob Hnames Hlist. unfold ListMetricsHandler.
  assert (SplitN ("/list_metric " +:+ job +:+ " " +:+ part) space 3 = ["/list_metric"; job; part]) as ->.
  { unfold SplitN. change ("/list_metric " +:+ job +:+ " " +:+ part)
      with ("/list_metric" +:+ String space (job +:+ String space part)).
    rewrite genSplit_cut by by apply (bool_decide_unpack _). by rewrite genSplit_cut. }
  unfold within, mbind, GoM_bind, component. simpl h_world. rewrite Hlist.
  match goal with |- context [c_Send ?m ?s1] => destruct (c_Send_sent m s1) as (err & t & ->) end.
  eexists _, err, _. split; [done|]. split; [done|]. cbv zeta.
  case_decide as Hw; [by rewrite Hw|]. apply Split_Join; [done|].
  apply Forall_forall. intros name Hin%elem_of_filter_bool. eapply Forall_forall; [exact Hnames|apply Hin].
Qed.
End commands.

(** ** A server that lists three metrics *)
Module Sample.
Definition metric_names : list string := ["http_requests_total"; "go_threads"; "http_errors_total"].

#[local] Instance listing : Http MemDb := {|
  http_Do hc req w := (inl (mkResponse 200 "200 OK" EmptyString), w);
  request_error _ := None;
  url_parse _ := Some None;
  request_uri_error _ := None;
  decode_query _ w := (inr "EOF", w);
  decode_labels _ w := (inl (mkLabelResponse "success" metric_names), w);
  decode_alerts _ w := (inr "EOF", w);
  body_Close _ w := w;
|}.
#[local] Instance no_model : Gpt MemDb := {|
  gpt_prompt w := (inr "no such file", w);
  gpt_Getenv _ _ := EmptyString;
  gpt_complete _ _ _ _ w := (inr "no model", w);
|}.
#[local] Instance no_clock : GoContext MemDb := timeless MemDb.
#[local] Instance silent_chat : Telegram unit := λ m t, (None, t).

Definition prom : Client := mkClient default_http EmptyString EmptyString EmptyString EmptyString.
Definition desk : hst MemDb unit := mkHst MemDb.Sample.office tt [] [].

Lemma list_metric_lines_witness :
  ∃ m r s', ListMetricsHandler prom "/list_metric api http" desk = (Ret r, s') ∧
    h_sent s' = [mkMessage m Plain] ∧ Split m nl_byte = ["http_requests_total"; "http_errors_total"].
Proof.
  destruct (list_metric_lines prom "api" "http" desk metric_names MemDb.Sample.office) as (m & r & s' & Hr & Hs & Hm).
  - by apply (bool_decide_unpack _).
  - by apply (bool_decide_unpack _).
  - vm_compute. reflexivity.
  - exists m, r, s'. split; [exact Hr|]. split; [exact Hs|exact Hm].
Defined.

Definition asked : outcome (option string) * hst MemDb unit := HistoryHandler desk.

Lemma reading_commands_answer_once_witness :
  is_ret asked.1 = true ∧ h_calls asked.2 = h_calls desk ∧
  match asked.1 with
  | Ret _ => ∃ m, h_sent asked.2 = h_sent desk ++ [m]
  | Panic _ => h_sent asked.2 = h_sent desk
  end.
Proof.
  split; [vm_compute; reflexivity|].
  apply (reading_commands_answer_once (mkRuntime list_order [] list_order []) prom Format_RFC3339 "/history" desk
    (Some asked)).
  - do 4 apply list_elem_of_further. apply list_elem_of_here.
  - vm_compute. reflexivity.
Defined.
End Sample.
