(* ===== verification/MonitorTiming.v ===== *)
(** * The time the monitoring client takes

    [http.Client.Timeout] limits an exchange, the reading of the body
    included.  [NewClient] sets ten seconds, so the handlers whose contexts
    have twenty never see their context expire. *)
From Stdlib Require Import SpecFloat.
From stdpp Require Import base tactics strings list gmap.
From Stdlib Require Import ZArith Lia.
From S2P Require Import Prelude GoStrings GoConv GoTime GoContext GoFloat Monitoring Dashboard Messages Repository KubeApi KubeClient Timing Telegram MonitorHandlers.
Local Open Scope Z_scope.

(** An exchange begun at [w] is over by [clock w + Timeout], up to the last
    byte the decoder reads; closing the body does not wait. *)
Class HttpTime (W : Type) `{HW : !Http W} `{GC : !GoContext W} `{CK : !Clock W} := {
  http_Do_later hc req w : later w (http_Do hc req w).2;
  http_Do_timeout hc req w : 0 < Timeout hc → clock (http_Do hc req w).2 ≤ clock w + Timeout hc;
  decode_query_time hc req w resp w1 :
    http_Do hc req w = (inl resp, w1) → 0 < Timeout hc →
    later w1 (decode_query resp w1).2 ∧ clock (decode_query resp w1).2 ≤ clock w + Timeout hc;
  decode_labels_time hc req w resp w1 :
    http_Do hc req w = (inl resp, w1) → 0 < Timeout hc →
    later w1 (decode_labels resp w1).2 ∧ clock (decode_labels resp w1).2 ≤ clock w + Timeout hc;
  decode_alerts_time hc req w resp w1 :
    http_Do hc req w = (inl resp, w1) → 0 < Timeout hc →
    later w1 (decode_alerts resp w1).2 ∧ clock (decode_alerts resp w1).2 ≤ clock w + Timeout hc;
  body_Close_time resp w :
    clock (body_Close resp w) = clock w ∧ deadline (body_Close resp w) = deadline w;
}.

Section client.
Context {W : Type} `{HW : !Http W} `{GC : !GoContext W} `{CK : !Clock W} `{HT : !HttpTime W}.
Variable c : Client.
Hypothesis has_timeout : 0 < Timeout (httpClient c).

(** Within the client's timeout, under the same context. *)
Definition prompt (w w' : W) : Prop := later w w' ∧ clock w' ≤ clock w + Timeout (httpClient c).

(** A request, its answer decoded by [decode] unless [refuse] does not like
    it, and the body closed: the shape of the client's three operations. *)
Definition exchange {A B} (req : Request) (decode : Response → W → A * W) (failed : string → B)
    (refuse : Response → option B) (use : A → B) : GoM W B :=
  r ← httpClient_Do c req;
  match r with
  | inr err => mret (failed err)
  | inl resp =>
      defer (close_body resp)
        match refuse resp with
        | Some b => mret b
        | None => a ← net (decode resp); mret (use a)
        end
  end.

Lemma exchange_prompt {A B} req (decode : Response → W → A * W) failed refuse (use : A → B) w :
  (∀ w resp w1, http_Do (httpClient c) req w = (inl resp, w1) → later w1 (decode resp w1).2 ∧
     clock (decode resp w1).2 ≤ clock w + Timeout (httpClient c)) →
  prompt w (exchange req decode failed refuse use w).2.
Proof.
  intros Hd. specialize (Hd w). pose proof (http_Do_later (httpClient c) req w) as Hl.
  pose proof (http_Do_timeout (httpClient c) req w has_timeout) as Ht.
  unfold exchange, httpClient_Do, net, mbind, GoM_bind, defer, close_body, modify.
  destruct (http_Do _ req w) as [[resp|err] w1]; simpl in *; [|done].
  destruct (refuse resp); simpl.
  - destruct (body_Close_time resp w1) as [Hc Hdl], Hl. split; [split|]; [lia|congruence|lia].
  - destruct (Hd resp w1 eq_refl) as [Hl' Ht']. destruct (decode resp w1) as [a w2]; simpl in *.
    destruct (body_Close_time resp w2) as [Hc Hdl], Hl, Hl'. split; [split|]; [lia|congruence|lia].
Qed.

Lemma prompt_refl w : prompt w w.
Proof. split; [done|lia]. Qed.

(** The answer to anything but 200. *)
Definition refuse_status {A} (server : string) (resp : Response) : option (A + string) :=
  if decide (StatusCode resp ≠ 200) then
    Some (inr (server +:+ " returned non-OK status: " +:+ resp_Status resp)) else None.

Ltac by_exchange :=
  unfold exchange, refuse_status, httpClient_Do, net, mbind, GoM_bind, defer, close_body, modify;
  destruct (http_Do _ _ _) as [[resp|err] w1]; [|done]; case_decide; [done|];
  match goal with |- context [?dec resp w1] => destruct (dec resp w1) as [[a|e] w2] end;
  [try case_decide; done|done].

Lemma Query_exchange q w :
  request_error (prometheusURL c +:+ "/api/v1/query") = None →
  Query c q w = exchange (mkRequest (prometheusURL c +:+ "/api/v1/query") (Some ("query", q)) (basic_auth c))
    decode_query (λ err, inr ("failed to execute request: " +:+ err)) (refuse_status "prometheus")
    (λ d, match d with
          | inr err => inr ("failed to decode prometheus response: " +:+ err)
          | inl r => if decide (q_Status r ≠ "success") then
                       inr ("prometheus returned non-success status: " +:+ q_Status r) else inl r
          end) w.
Proof. intros He. unfold Query. rewrite He. by_exchange. Qed.

Lemma GetActiveAlerts_exchange w :
  request_error (alertmanagerURL c +:+ "/api/v2/alerts") = None →
  GetActiveAlerts c w = exchange (mkRequest (alertmanagerURL c +:+ "/api/v2/alerts") None (basic_auth c))
    decode_alerts (λ err, inr ("failed to execute request to alertmanager: " +:+ err))
    (refuse_status "alertmanager")
    (λ d, match d with
          | inr err => inr ("failed to decode alertmanager response: " +:+ err)
          | inl alerts => inl alerts
          end) w.
Proof. intros He. unfold GetActiveAlerts. rewrite He. by_exchange. Qed.

Lemma Query_prompt q w : prompt w (Query c q w).2.
Proof.
  destruct (request_error (prometheusURL c +:+ "/api/v1/query")) as [e|] eqn:He.
  - unfold Query. rewrite He. apply prompt_refl.
  - rewrite Query_exchange by done. apply exchange_prompt. intros. by eapply decode_query_time.
Qed.

Lemma GetActiveAlerts_prompt w : prompt w (GetActiveAlerts c w).2.
Proof.
  destruct (request_error (alertmanagerURL c +:+ "/api/v2/alerts")) as [e|] eqn:He.
  - unfold GetActiveAlerts. rewrite He. apply prompt_refl.
  - rewrite GetActiveAlerts_exchange by done. apply exchange_prompt. intros. by eapply decode_alerts_time.
Qed.
End client.

(** The error of the dashboard is the error of its first query. *)
Lemma GetStatusDashboard_error {W} `{HW : !Http W} `{GC : !GoContext W} `{CK : !Clock W} `{HT : !HttpTime W}
    c rt ns job (w w' : W) e :
  0 < Timeout (httpClient c) →
  GetStatusDashboard rt c ns job w = Some (Ret (inr e), w') → prompt c w w'.
Proof.
  intros Ht. unfold GetStatusDashboard, getPodNamesForJob, mbind, GoM_bind.
  pose proof (Query_prompt c Ht (pods_query ns job) w) as Hp.
  destruct (Query c _ w) as [[[resp|err]|why] w1]; simpl in *; [|by intros [= <- <-]|done].
  case_decide; simpl; [by intros [= <- <-]|].
  destruct (map_range _ _).*1; [done|]. intros Hs.
  destruct (GetActiveAlerts c w1) as [[answer|why] w2]; [|done].
  by destruct (join_goroutines _ _ _ _) as [[[pods|why] w3]|].
Qed.

(** ** The answer for an expired context *)

Section handlers.
Context {W T : Type} `{HW : !Http W} `{GC : !GoContext W} `{CK : !Clock W} `{HT : !HttpTime W} `{TT : !Telegram T}.
Variable c : Client.
Hypothesis timeout_range : 0 < Timeout (httpClient c) < 20 * Second.
Implicit Types s : hst W T.

Definition timeout_message : message := mkMessage timeout_text Plain.

(** The world is still within the 20 seconds of the context made at [w]. *)
Definition has_time (w w' : W) : Prop := prompt c (ctx_with_timeout (20 * Second) w) w'.

Lemma has_time_not_exceeded w w' : has_time w w' → ctx_deadline_exceeded w' = false.
Proof.
  intros [[_ Hd] Ht]. rewrite with_timeout_clock in Ht. rewrite with_timeout_deadline in Hd.
  destruct (ctx_deadline_exceeded w') eqn:E; [|done].
  apply deadline_exceeded in E as (d & Hd' & Hle). rewrite Hd in Hd'. injection Hd' as <-. lia.
Qed.

(** What a handler sends from [s]: at most one message, and not that one. *)
Definition no_timeout_from s (s' : hst W T) : Prop :=
  h_sent s' = h_sent s ∨ ∃ m, h_sent s' = h_sent s ++ [m] ∧ m ≠ timeout_message.

Lemma Send_markdown_no_timeout m s : no_timeout_from s (c_Send_markdown m s).2.
Proof.
  unfold c_Send_markdown, c_Send_message. destruct (tg_Send _ _) as [e t]. right. by eexists.
Qed.

Lemma reply_error_no_timeout m w s :
  has_time w (h_world s) → no_timeout_from s (reply_error (c_Send_markdown m) s).2.
Proof.
  intros Ht%has_time_not_exceeded. unfold reply_error, expired, mbind, GoM_bind. rewrite Ht.
  apply Send_markdown_no_timeout.
Qed.

Lemma AlertsHandler_no_timeout s : no_timeout_from s (AlertsHandler c s).2.
Proof.
  unfold AlertsHandler, within, component, GenerateAlertsMessage, mbind, GoM_bind. simpl h_world.
  pose proof (GetActiveAlerts_prompt c (proj1 timeout_range) (ctx_with_timeout (20 * Second) (h_world s))) as Hp.
  destruct (GetActiveAlerts c _) as [[[a|e]|why] w1]; simpl in Hp; unfold mret, GoM_ret; cbv beta iota.
  - match goal with |- context [c_Send_markdown ?m ?s1] =>
      pose proof (Send_markdown_no_timeout m s1) as H; destruct (c_Send_markdown m s1) end. exact H.
  - match goal with |- context [reply_error (c_Send_markdown ?m) ?s1] =>
      pose proof (reply_error_no_timeout m (h_world s) s1 Hp) as H; destruct (reply_error (c_Send_markdown m) s1) end. exact H.
  - by left.
Qed.

Lemma StatusHandler_no_timeout rt text s o s' :
  StatusHandler rt c text s = Some (o, s') → no_timeout_from s s'.
Proof.
  unfold StatusHandler. intros Hs.
  assert (no_timeout_from s (c_Send "Usage: /status <job_name> [namespace]" s).2) as Hu.
  { destruct (c_Send_sent "Usage: /status <job_name> [namespace]" s) as (e & t & ->). right. by eexists. }
  destruct (Split text space) as [|cmd [|job rest]]; [by injection Hs as Hs; rewrite Hs in Hu..|]. clear Hu.
  simpl h_world in Hs.
  destruct (GetStatusDashboard _ _ _ _ _) as [[[[d|err]|why] w]|] eqn:Ed; [..|done]; simpl in Hs.
  - match type of Hs with context [c_Send_markdown ?m ?s1] =>
      pose proof (Send_markdown_no_timeout m s1) as H; destruct (c_Send_markdown m s1) end.
    injection Hs as <- <-. exact H.
  - apply GetStatusDashboard_error in Ed; [|lia].
    match type of Hs with context [reply_error (c_Send_markdown ?m) ?s1] =>
      pose proof (reply_error_no_timeout m (h_world s) s1 Ed) as H; destruct (reply_error (c_Send_markdown m) s1) end.
    injection Hs as <- <-. exact H.
  - injection Hs as <- <-. by left.
Qed.
End handlers.

Section commands.
Context {W T : Type} `{HW : !Http W} `{GC : !GoContext W} `{CK : !Clock W} `{HT : !HttpTime W} `{TT : !Telegram T}.

(** C22: a client made by [NewClient] gives up on a request after ten seconds,
    the contexts of [/alerts] and [/status] last twenty, and only the first
    request of [/status] can make it fail: so however slow the servers are,
    neither command ever answers that the time is up, under any schedule. *)
Theorem timeout_answer_unreachable purl aurl c (s : hst W T) :
  NewClient (N := W) purl aurl = inl c →
  no_timeout_from s (AlertsHandler c s).2 ∧
  ∀ rt text o s', StatusHandler rt c text s = Some (o, s') → no_timeout_from s s'.
Proof.
  intros Hc%NewClient_http.
  assert (0 < Timeout (httpClient c) < 20 * Second) as Ht by by rewrite Hc.
  split; [by apply AlertsHandler_no_timeout|]. intros rt text o s'. by apply StatusHandler_no_timeout.
Qed.
End commands.

(** ** Servers that do not answer *)
Module Sample.
Record stalled := mkStalled { st_clock : Z; st_deadline : option Z }.

#[local] Instance stalled_ctx : GoContext stalled := {|
  ctx_with_timeout d w := mkStalled (st_clock w) (Some (st_clock w + d));
  ctx_cancel w := mkStalled (st_clock w) None;
  ctx_deadline_exceeded w :=
    match st_deadline w with Some d => bool_decide (d ≤ st_clock w) | None => false end;
|}.

#[local] Instance stalled_clock : Clock stalled.
Proof.
  refine {| clock := st_clock; deadline := st_deadline |}; try done.
  intros [ck [d|]]; simpl; [|done]. intros Hd%bool_decide_eq_true. by exists d.
Defined.

#[local] Instance stalled_http : Http stalled := {|
  http_Do hc req w := (inr "context deadline exceeded (Client.Timeout exceeded while awaiting headers)",
                       mkStalled (st_clock w + Z.max 0 (Timeout hc)) (st_deadline w));
  decode_query _ w := (inr "EOF", w);
  decode_labels _ w := (inr "EOF", w);
  decode_alerts _ w := (inr "EOF", w);
  body_Close _ w := w;
  request_error _ := None;
  url_parse _ := Some None;
  request_uri_error _ := None;
|}.

#[local] Instance stalled_time : HttpTime stalled.
Proof. constructor; try done; intros hc req w; [split; [simpl; lia|done]|simpl; lia]. Qed.

#[local] Instance silent_chat : Telegram unit := λ m t, (None, t).
Definition night : hst stalled unit := mkHst (mkStalled 0 None) tt [] [].
Definition prom : Client := mkClient default_http "http://prom" "http://am" EmptyString EmptyString.

Lemma timeout_answer_unreachable_witness :
  no_timeout_from night (AlertsHandler prom night).2 ∧ length (h_sent (AlertsHandler prom night).2) = 1%nat.
Proof.
  split; [|vm_compute; reflexivity].
  exact (proj1 (timeout_answer_unreachable (W := stalled) "http://prom" "http://am" prom night eq_refl)).
Defined.
End Sample.
