(* ===== verification/StatusProps.v ===== *)
(** * [/status] from the text to the message

    The command composed of its parts: the words of the text
    ([MonitorHandlers]), the dashboard of [Dashboard] under any schedule of its
    goroutines, and its text ([Messages]). *)
From Stdlib Require Import SpecFloat.
From stdpp Require Import base tactics strings list gmap.
From Stdlib Require Import ZArith.
From S2P Require Import Prelude GoStrings GoConv GoTime GoContext GoFloat Monitoring Dashboard DashboardFacts DashboardConc DashboardProps Messages Repository KubeApi Telegram MonitorHandlers.

Section status.
Context {W T : Type} `{HW : !Http W} `{GC : !GoContext W} `{TT : !Telegram T}.
Implicit Types s : hst W T.

(** The message for the result of [GetStatusDashboard]. *)
Definition status_message (dashboard : ServiceStatusDashboard + string) (m : message) : Prop :=
  match dashboard with
  | inl d => m = mkMessage (FormatDashboardForTelegram d) MarkdownV2
  | inr e => m = mkMessage (error_markdown e) MarkdownV2 ∨ m = mkMessage timeout_text Plain
  end.

Lemma status_reply_message dashboard s :
  ∃ m r t, status_message dashboard m ∧
    status_reply dashboard s = (Ret r, mkHst (h_world s) t (h_sent s ++ [m]) (h_calls s)).
Proof.
  unfold status_reply, reply_error, expired, c_Send, c_Send_markdown, c_Send_message, mbind, GoM_bind.
  destruct dashboard as [d|e]; [|case_match]; destruct (tg_Send _ _) as [r t];
    eexists _, r, t; (split; [|reflexivity]); simpl; auto.
Qed.

(** C15: [/status job] and [/status job namespace], under any schedule of the
    goroutines that lets them end: when the command returns, the chat has
    received one message.  It shows a dashboard of that job in that namespace
    ("default" when none is typed): each of the pods the first query named,
    once, with the report of the answers to the eight queries, and the active
    alerts of the job; or the first query had failed, and it says so (where
    [dashboard_test.go] expects an empty dashboard). *)
Theorem status_command rt c job rest s r s' :
  no_byte MonitorHandlers.space job → Forall (no_byte MonitorHandlers.space) rest →
  launch_order rt ≡ₚ all_tasks →
  StatusHandler rt c (Join ("/status" :: job :: rest) " ") s = Some (Ret r, s') →
  let ns := default "default" (head rest) in
  ∃ dashboard m,
    dashboard_report c rt ns job (ctx_with_timeout (20 * Second) (h_world s)) dashboard ∧
    status_message dashboard m ∧ h_sent s' = h_sent s ++ [m] ∧ h_calls s' = h_calls s.
Proof.
  intros Hjob Hrest Ho Hr ns. unfold StatusHandler in Hr.
  change " " with (String MonitorHandlers.space EmptyString) in Hr.
  assert (Forall (no_byte MonitorHandlers.space) ("/status" :: job :: rest)) as Hwords
    by (constructor; [by apply (bool_decide_unpack _)|by constructor]).
  rewrite Split_Join in Hr by done.
  assert (part_or rest 0 "default" = ns) as Hns by by destruct rest.
  rewrite Hns in Hr. simpl h_world in Hr.
  destruct (GetStatusDashboard _ _ _ _ _) as [[[dashboard|why] w]|] eqn:Ed; [|done..].
  apply GetStatusDashboard_report in Ed; [|done].
  match type of Hr with context [status_reply ?d ?s1] =>
    destruct (status_reply_message d s1) as (m & e & t & Hm & Hs) end.
  rewrite Hs in Hr. injection Hr as <- <-. by exists dashboard, m.
Qed.
End status.

(** ** On the sample Prometheus *)
Module Sample.
Import DashboardProps.Sample.
#[local] Instance no_clock : GoContext nat := timeless nat.
#[local] Instance silent_chat : Telegram unit := λ m t, (None, t).
Definition desk : hst nat unit := mkHst 0 tt [] [].

Definition answered : option (outcome (option string) * hst nat unit) :=
  StatusHandler sample_runtime sample_client "/status api prod" desk.
Definition after_status : hst nat unit := match answered with Some (_, s) => s | None => desk end.

Lemma status_command_witness :
  answered = Some (Ret None, after_status) ∧
  ∃ dashboard m, status_message dashboard m ∧ h_sent after_status = [m].
Proof.
  assert (answered = Some (Ret None, after_status)) as Hr by (vm_compute; reflexivity).
  split; [exact Hr|].
  destruct (status_command sample_runtime sample_client "api" ["prod"] desk None after_status)
    as (dashboard & m & Hd & Hm & Hs & _);
    [by apply (bool_decide_unpack _)|repeat constructor; by apply (bool_decide_unpack _)|reflexivity|exact Hr|].
  exists dashboard, m. split; [exact Hm|exact Hs].
Defined.
End Sample.
