(* ===== verification/Bot.v ===== *)
(** * [cmd/bot/main.go]: the dispatcher

    The closures [main] registers with telebot share the variables
    [userState], [userLogin], [userPassword] and [userStatusAuthorization];
    [withConfirmation] registers the handlers of two buttons for the whole
    bot.  telebot is not under [src/]: it picks the endpoint of an update
    ([/start], [/help], any other text, a button), and an update is modelled
    with its endpoint.  Updates are handled one after the other here.  A
    handler that panics ends the process. *)
From Stdlib Require Import SpecFloat.
From stdpp Require Import base tactics strings list gmap.
From Stdlib Require Import ZArith.
From S2P Require Import Prelude GoStrings GoConv GoTime GoContext Sorting KubeApi KubeClient KubeRollback Monitoring Dashboard Messages Repository LogChannel Telegram KubeHandlers MonitorHandlers.

Definition yes_no_question : string := "Вы уверены?".
Definition not_for_you : string := "Это не для вас".

(** The command awaiting confirmation: who asked, and the message. *)
Record pending_command := mkPending { asked_by : Z; asked_text : string; asked_command : string }.

(** What happened, for the statements about runs. *)
Inductive event :=
  | Checked (login password : string) (ok : bool)     (** a password check *)
  | Granted (user : Z) (text : string)                (** a message found the flag set *)
  | Asked (user : Z) (command text : string)          (** a confirmation was requested *)
  | Ran (user : Z) (command text : string).           (** the user's yes ran a command *)

Record bst (W T : Type) := mkBst {
  userState : gmap Z string;
  userLogin : string;
  userPassword : string;
  userStatusAuthorization : bool;
  yes_handler : option pending_command;    (** the closures of the two buttons *)
  no_handler : option pending_command;
  io : hst W T;
  history : list event;
  crashed : option string;
}.
Arguments mkBst {W T}.
Arguments userState {W T}.
Arguments userLogin {W T}.
Arguments userPassword {W T}.
Arguments userStatusAuthorization {W T}.
Arguments yes_handler {W T}.
Arguments no_handler {W T}.
Arguments io {W T}.
Arguments history {W T}.
Arguments crashed {W T}.

(** An update, with the endpoint telebot picks for it. *)
Inductive update :=
  | Start (user : Z)
  | Help (user : Z)
  | OnText (user : Z) (text : string)
  | YesButton (user : Z)
  | NoButton (user : Z).

Section bot.
Context {W T : Type} `{!KubeApi W} `{!PollUntil W} `{!SortSlice} `{!Http W} `{!Gorm W} `{!Gpt W}
  `{GC : !GoContext W} `{!Telegram T}.
(** The clients [main] builds, the help text, the schedule of the dashboard
    and the names of time zones. *)
Variables (kube : K8sClient) (monitor : Client) (helpMsg : string) (rt : runtime)
  (time_String : Time → string).
Abbreviation HM := (GoM (hst W T)).
Abbreviation ST := (bst W T).

(** A handler applied to a text.  [None]: it is still running when the
    schedule of the dashboard ends. *)
Definition handlerFunc : Type := string → hst W T → option (outcome (option string) * hst W T).
Definition plain (h : string → HM (option string)) : handlerFunc := λ text s, Some (h text s).

Definition commandHandlers : list (string * handlerFunc) := [
  ("/status", StatusHandler rt monitor);
  ("/metric", plain (MetricHandler monitor));
  ("/list_metric", plain (ListMetricsHandler monitor));
  ("/scale", plain (ScaleHandler kube));
  ("/restart", plain (RestartHandler kube));
  ("/rollback", plain (RollbackHandler kube));
  ("/history", plain (λ _, HistoryHandler));
  ("/operations", plain (λ _, OperationsHandler time_String));
  ("/list_pods", plain (ListPodsHandler kube));
  ("/revisions", plain (RevisionsHandler kube));
  ("/ai_help", plain AiHelpHandler);
  ("/alerts", plain (λ _, AlertsHandler monitor)) ].

Fixpoint assoc {A} (k : string) (l : list (string * A)) : option A :=
  match l with
  | [] => None
  | (k', a) :: rest => if decide (k = k') then Some a else assoc k rest
  end.
Definition find_command (cmd : string) : option handlerFunc := assoc cmd commandHandlers.

(** ** Assignments *)

Definition set_user_state (m : gmap Z string) (s : ST) : ST :=
  mkBst m (userLogin s) (userPassword s) (userStatusAuthorization s) (yes_handler s) (no_handler s) (io s)
    (history s) (crashed s).
Definition set_login (l : string) (s : ST) : ST :=
  mkBst (userState s) l (userPassword s) (userStatusAuthorization s) (yes_handler s) (no_handler s) (io s)
    (history s) (crashed s).
Definition set_password (p : string) (s : ST) : ST :=
  mkBst (userState s) (userLogin s) p (userStatusAuthorization s) (yes_handler s) (no_handler s) (io s)
    (history s) (crashed s).
Definition set_authorization (b : bool) (s : ST) : ST :=
  mkBst (userState s) (userLogin s) (userPassword s) b (yes_handler s) (no_handler s) (io s) (history s) (crashed s).
Definition set_yes (p : pending_command) (s : ST) : ST :=
  mkBst (userState s) (userLogin s) (userPassword s) (userStatusAuthorization s) (Some p) (no_handler s)
    (io s) (history s) (crashed s).
Definition set_no (p : pending_command) (s : ST) : ST :=
  mkBst (userState s) (userLogin s) (userPassword s) (userStatusAuthorization s) (yes_handler s) (Some p)
    (io s) (history s) (crashed s).
Definition set_io (h : hst W T) (s : ST) : ST :=
  mkBst (userState s) (userLogin s) (userPassword s) (userStatusAuthorization s) (yes_handler s) (no_handler s) h
    (history s) (crashed s).
Definition record_event (e : event) (s : ST) : ST :=
  mkBst (userState s) (userLogin s) (userPassword s) (userStatusAuthorization s) (yes_handler s) (no_handler s)
    (io s) (history s ++ [e]) (crashed s).
Definition crash (why : string) (s : ST) : ST :=
  mkBst (userState s) (userLogin s) (userPassword s) (userStatusAuthorization s) (yes_handler s) (no_handler s)
    (io s) (history s) (Some why).

(** A message whose error the closure returns to telebot, which drops it. *)
Definition send (m : message) (s : ST) : option string * ST :=
  let (err, t) := tg_Send m (h_chat (io s)) in
  (err, set_io (mkHst (h_world (io s)) t (h_sent (io s) ++ [m]) (h_calls (io s))) s).
Definition say (m : string) (s : ST) : ST := (send (mkMessage m Plain) s).2.

(** ** The endpoints *)

Definition on_start (userID : Z) (s : ST) : ST :=
  say "Введите свой логин:" (set_user_state (<[userID := "login"]> (userState s)) s).

Definition on_help (s : ST) : ST := say helpMsg s.

(** [withConfirmation(handler)(c)]: the two buttons get their handlers, one
    after the other, only when the question was sent. *)
Definition withConfirmation (userID : Z) (cmd text : string) (s : ST) : ST :=
  match send (mkMessage yes_no_question Buttons) s with
  | (Some _, s1) => s1
  | (None, s1) =>
      let p := mkPending userID text cmd in
      set_no p (record_event (Asked userID cmd text) (set_yes p s1))
  end.

Definition check_password (s : ST) : ST :=
  match ProofLoginPaswordHandler (userLogin s) (userPassword s) (h_world (io s)) with
  | (Ret ok, w) =>
      record_event (Checked (userLogin s) (userPassword s) ok)
        (set_authorization ok
          (set_io (mkHst w (h_chat (io s)) (h_sent (io s)) (h_calls (io s))) s))
  | (Panic why, _) => crash why s
  end.

Definition on_text (userID : Z) (text : string) (s : ST) : ST :=
  if HasPrefix text "/" then
    match userState s !! userID with
    | Some _ => s
    | None =>
        if userStatusAuthorization s then
          let s1 := record_event (Granted userID text) s in
          match SplitN text " "%char 2 with
          | cmd :: _ =>
              match find_command cmd with
              | Some _ => withConfirmation userID cmd text s1
              | None => say "Введите одну из предложенных команд" s1
              end
          | [] => s1
          end
        else say "Вы не авторизованы. Введите /start для авторизации." s
    end
  else
    let state := default EmptyString (userState s !! userID) in
    if decide (state = "login") then
      say "Теперь введите пароль:"
        (set_login text (set_user_state (<[userID := "password"]> (userState s)) s))
    else if decide (state = "password") then
      let s1 := check_password (set_password text (set_user_state (delete userID (userState s)) s)) in
      match crashed s1 with
      | Some _ => s1
      | None => say (if userStatusAuthorization s1 then "Авторизация успешна!"
                     else "Неверный логин или пароль.") s1
      end
    else say "Непонятные входные данные или что то пошло не так." s.

(** The closure of the yes button: the command, on the message that asked,
    at the press of [userID]. *)
Definition run_command (p : pending_command) (userID : Z) (s : ST) : option ST :=
  let s1 := record_event (Ran userID (asked_command p) (asked_text p)) s in
  match find_command (asked_command p) with
  | None => Some s1
  | Some handler =>
      match handler (asked_text p) (io s1) with
      | None => None
      | Some (Ret _, h) => Some (set_io h s1)
      | Some (Panic why, h) => Some (crash why (set_io h s1))
      end
  end.

Definition on_yes (p : pending_command) (userID : Z) (s : ST) : option ST :=
  if decide (userID ≠ asked_by p) then Some (send (mkMessage not_for_you Callback) s).2
  else run_command p userID (send (mkMessage EmptyString Callback) s).2.

(** The closure of the no button. *)
Definition on_no (p : pending_command) (userID : Z) (s : ST) : ST :=
  if decide (userID ≠ asked_by p) then (send (mkMessage not_for_you Callback) s).2
  else say "Отмена" (send (mkMessage EmptyString Callback) s).2.

(** A button without a handler is ignored. *)
Definition handle_update (u : update) (s : ST) : option ST :=
  match crashed s with
  | Some _ => None
  | None =>
      match u with
      | Start userID => Some (on_start userID s)
      | Help _ => Some (on_help s)
      | OnText userID text => Some (on_text userID text s)
      | YesButton userID => match yes_handler s with Some p => on_yes p userID s | None => Some s end
      | NoButton userID => match no_handler s with Some p => Some (on_no p userID s) | None => Some s end
      end
  end.

Fixpoint run_updates (us : list update) (s : ST) : option ST :=
  match us with
  | [] => Some s
  | u :: rest => handle_update u s ≫= run_updates rest
  end.

Definition bot_start (w : W) (t : T) : ST :=
  mkBst ∅ EmptyString EmptyString false None None (mkHst w t [] []) [] None.
End bot.
