(* ===== verification/BotProps.v ===== *)
(** * Properties of the dispatcher

    What must hold of every run (commands are confirmed by who asked, and
    asked under a valid authorization) and what the shared variables make of
    several users. *)
From Stdlib Require Import SpecFloat.
From stdpp Require Import base tactics strings list gmap.
From Stdlib Require Import ZArith.
From S2P Require Import Prelude GoStrings GoConv GoTime GoContext Sorting KubeApi KubeClient KubeRollback Monitoring Dashboard Messages Repository LogChannel Telegram KubeHandlers MonitorHandlers Cluster Database Bot.

(** The result of the last password check of a history. *)
Definition authorized (h : list event) : bool :=
  foldl (λ b e, match e with Checked _ _ ok => ok | _ => b end) false h.

Lemma authorized_snoc h e :
  authorized (h ++ [e]) = match e with Checked _ _ ok => ok | _ => authorized h end.
Proof. unfold authorized. by rewrite foldl_app. Qed.

Section bot.
Context {W T : Type} `{!KubeApi W} `{!PollUntil W} `{SS : !SortSlice} `{HW : !Http W} `{GW : !Gorm W}
  `{AW : !Gpt W} `{GC : !GoContext W} `{TT : !Telegram T}.
Variables (kube : K8sClient) (monitor : Client) (helpMsg : string) (rt : runtime)
  (time_String : Time → string).
Abbreviation ST := (bst W T).
Abbreviation update_step := (handle_update kube monitor helpMsg rt time_String).
Abbreviation run := (run_updates kube monitor helpMsg rt time_String).
Abbreviation command := (find_command kube monitor rt time_String).
Implicit Types s : ST.

(** A command that was asked for, under a valid authorization. *)
Definition asked_properly (h : list event) (u : Z) (cmd text : string) : Prop :=
  ∃ h1 h2, h = h1 ++ Asked u cmd text :: h2 ∧ authorized h1 = true ∧ is_Some (command cmd).

Lemma asked_properly_snoc h e u cmd text :
  asked_properly h u cmd text → asked_properly (h ++ [e]) u cmd text.
Proof. intros (h1 & h2 & -> & H). exists h1, (h2 ++ [e]). by rewrite <-app_assoc. Qed.

(** Every command that ran had been asked for before. *)
Definition runs_asked (h : list event) : Prop :=
  ∀ h1 u cmd text h2, h = h1 ++ Ran u cmd text :: h2 → asked_properly h1 u cmd text.

Lemma runs_asked_snoc h e :
  runs_asked h → (∀ u cmd text, e = Ran u cmd text → asked_properly h u cmd text) →
  runs_asked (h ++ [e]).
Proof.
  intros Hh He h1 u cmd text h2 Heq. destruct h2 as [|e' h2 _] using rev_ind.
  - apply app_inj_tail in Heq as [<- ->]. by apply He.
  - rewrite app_comm_cons, app_assoc in Heq. apply app_inj_tail in Heq as [-> _]. by eapply Hh.
Qed.

Record bot_inv (s : ST) : Prop := mkBotInv {
  inv_auth : userStatusAuthorization s = authorized (history s);
  inv_pending : ∀ p, yes_handler s = Some p →
    asked_properly (history s) (asked_by p) (asked_command p) (asked_text p);
  inv_runs : runs_asked (history s);
  inv_calls : (∀ u cmd text, Ran u cmd text ∉ history s) → h_calls (io s) = [];
}.

(** Two states that the invariant does not tell apart. *)
Definition same_control (s s' : ST) : Prop :=
  userStatusAuthorization s' = userStatusAuthorization s ∧ yes_handler s' = yes_handler s ∧
  history s' = history s ∧ h_calls (io s') = h_calls (io s).

Lemma bot_inv_same s s' : same_control s s' → bot_inv s → bot_inv s'.
Proof. intros (Ha & Hc & Hh & Hk) []. split; rewrite ?Ha, ?Hc, ?Hh, ?Hk; done. Qed.

Lemma send_same m s : same_control s (send m s).2.
Proof. unfold send. by destruct (tg_Send _ _). Qed.

Lemma say_same m s s' : same_control s s' → same_control s (say m s').
Proof.
  intros H. pose proof (send_same (mkMessage m Plain) s') as H'. unfold say, same_control in *.
  intuition congruence.
Qed.

Lemma bot_inv_start w t : bot_inv (bot_start w t).
Proof. split; try done. intros h1 u cmd text h2 H. by destruct h1. Qed.

Lemma check_password_inv s : bot_inv s → bot_inv (check_password s).
Proof.
  intros [Ha Hp Hr Hk]. unfold check_password.
  destruct (ProofLoginPaswordHandler _ _ _) as [[ok|why] w]; [|by split].
  split; simpl.
  - by rewrite authorized_snoc.
  - intros p Hp'. by apply asked_properly_snoc, Hp.
  - by apply runs_asked_snoc.
  - intros Hn. apply Hk. intros u cmd text Hin. apply (Hn u cmd text), elem_of_app. by left.
Qed.

(** An event that is not a command leaves the invariant in place. *)
Lemma event_inv e s :
  match e with Ran _ _ _ | Checked _ _ _ => False | _ => True end → bot_inv s → bot_inv (record_event e s).
Proof.
  intros He [Ha Hp Hr Hk]. split; simpl.
  - rewrite authorized_snoc. by destruct e.
  - intros p Hp'. by apply asked_properly_snoc, Hp.
  - apply runs_asked_snoc; [done|]. by intros u cmd text ->.
  - intros Hn. apply Hk. intros u cmd text Hin. apply (Hn u cmd text), elem_of_app. by left.
Qed.

(** The handlers of the buttons, given for a command asked properly. *)
Lemma handlers_inv p q s :
  bot_inv s → asked_properly (history s) (asked_by p) (asked_command p) (asked_text p) →
  bot_inv (set_no q (set_yes p s)).
Proof. intros [Ha Hp Hr Hk] Hask. split; simpl; try done. by intros p' [= <-]. Qed.

Lemma withConfirmation_inv u cmd text s :
  bot_inv s → userStatusAuthorization s = true → is_Some (command cmd) →
  bot_inv (withConfirmation u cmd text s).
Proof.
  intros I Hau Hcmd. unfold withConfirmation.
  pose proof (send_same (mkMessage yes_no_question Buttons) s) as Hs.
  destruct (send _ s) as [[err|] s1]; simpl in Hs; [by eapply bot_inv_same|].
  assert (bot_inv s1) as I1 by by eapply bot_inv_same.
  apply (handlers_inv (mkPending u text cmd) (mkPending u text cmd) (record_event (Asked u cmd text) s1)).
  - by apply event_inv.
  - exists (history s1), []. split; [done|]. split; [|done].
    rewrite <-(inv_auth _ I1). by destruct Hs as [-> _].
Qed.

Lemma on_text_inv u text s :
  bot_inv s → bot_inv (on_text kube monitor rt time_String u text s).
Proof.
  intros I. unfold on_text. destruct (HasPrefix text "/").
  - destruct (userState s !! u); [done|]. destruct (userStatusAuthorization s) eqn:Ha.
    + assert (bot_inv (record_event (Granted u text) s)) as I1 by by apply event_inv.
      destruct (SplitN text " "%char 2) as [|cmd rest]; [done|].
      destruct (command cmd) eqn:Ec; [|by eapply bot_inv_same, I1; apply say_same].
      apply withConfirmation_inv; [done..|]. by rewrite Ec.
    + by eapply bot_inv_same, I; apply say_same.
  - case_decide; [by eapply bot_inv_same, I; apply say_same|].
    case_decide; [|by eapply bot_inv_same, I; apply say_same].
    match goal with |- context [check_password ?s1] =>
      assert (bot_inv (check_password s1)) as I1
        by (apply check_password_inv; by eapply bot_inv_same, I) end.
    destruct (crashed _); [done|]. by eapply bot_inv_same, I1; apply say_same.
Qed.

Lemma run_command_inv p u s s' :
  run_command kube monitor rt time_String p u s = Some s' →
  asked_properly (history s) u (asked_command p) (asked_text p) → bot_inv s → bot_inv s'.
Proof.
  intros H Hask [Ha Hp Hr Hk]. unfold run_command in H.
  assert (∀ s2, userStatusAuthorization s2 = userStatusAuthorization s → yes_handler s2 = yes_handler s →
            history s2 = history s ++ [Ran u (asked_command p) (asked_text p)] → bot_inv s2) as Hdone.
  { intros s2 Ha2 Hc2 Hh2. split; rewrite ?Ha2, ?Hc2, ?Hh2.
    - by rewrite authorized_snoc.
    - intros p' Hp'. by apply asked_properly_snoc, Hp.
    - apply runs_asked_snoc; [done|]. by intros u' cmd' text' [= <- <- <-].
    - intros Hn. exfalso. eapply Hn, elem_of_app. right. left. }
  destruct (command (asked_command p)) as [handler|]; [|by injection H as <-; apply Hdone].
  destruct (handler _ _) as [[[r|why] h]|]; [..|done]; injection H as <-; by apply Hdone.
Qed.

Lemma on_yes_inv p u s s' :
  on_yes kube monitor rt time_String p u s = Some s' → yes_handler s = Some p → bot_inv s → bot_inv s'.
Proof.
  intros H Hyes I. unfold on_yes in H. case_decide as Hu.
  - injection H as <-. eapply bot_inv_same, I. apply send_same.
  - pose proof (send_same (mkMessage EmptyString Callback) s) as Hs.
    eapply run_command_inv; [exact H| |by eapply bot_inv_same].
    destruct Hs as (_ & _ & -> & _). rewrite Hu. by apply (inv_pending _ I).
Qed.

Lemma update_inv u s s' : update_step u s = Some s' → bot_inv s → bot_inv s'.
Proof.
  unfold handle_update. destruct (crashed s); [done|].
  destruct u as [u|u|u text|u|u]; [intros [= <-] I..| |].
  - eapply bot_inv_same, I. by apply say_same.
  - eapply bot_inv_same, I. by apply say_same.
  - by apply on_text_inv.
  - destruct (yes_handler s) as [p|] eqn:Ep; [|by intros [= <-]]. intros Hy. by eapply on_yes_inv.
  - destruct (no_handler s) as [p|]; intros [= <-] I; [|done]. unfold on_no. case_decide.
    + eapply bot_inv_same, I. apply send_same.
    + eapply bot_inv_same, I. apply say_same, send_same.
Qed.

Lemma run_inv us s s' : run us s = Some s' → bot_inv s → bot_inv s'.
Proof.
  revert s. induction us as [|u us IH]; intros s; simpl; [by intros [= <-]|].
  destruct (update_step u s) as [s1|] eqn:E; simpl; [|done].
  intros Hr I. eapply IH, update_inv; done.
Qed.

(** In every run of the bot, a command runs only on the yes of the user
    who asked for it: it is one of the table and was asked for before by that
    user, with the same text, at a moment when the last password check had
    succeeded. *)
Theorem commands_confirmed us w t s :
  run us (bot_start w t) = Some s →
  ∀ before u cmd text after, history s = before ++ Ran u cmd text :: after →
  ∃ h1 h2, before = h1 ++ Asked u cmd text :: h2 ∧ authorized h1 = true ∧ is_Some (command cmd).
Proof.
  intros Hr before u cmd text after Hh.
  apply (inv_runs s (run_inv _ _ _ Hr (bot_inv_start w t)) _ _ _ _ _ Hh).
Qed.

(** Until a command has been confirmed, whatever the users type, the bot
    makes no call to the Kubernetes API. *)
Theorem no_calls_before_confirmation us w t s :
  run us (bot_start w t) = Some s → (∀ u cmd text, Ran u cmd text ∉ history s) →
  h_calls (io s) = [].
Proof. intros Hr. apply (inv_calls s (run_inv _ _ _ Hr (bot_inv_start w t))). Qed.

(** ** Logging in *)

(** Sending touches the chat only. *)
Lemma send_frame m s :
  ∃ err t, send m s = (err, set_io (mkHst (h_world (io s)) t (h_sent (io s) ++ [m]) (h_calls (io s))) s).
Proof. unfold send. destruct (tg_Send _ _) as [err t]. by eexists _, _. Qed.

Lemma say_frame m s :
  ∃ t, say m s = set_io (mkHst (h_world (io s)) t (h_sent (io s) ++ [mkMessage m Plain]) (h_calls (io s))) s.
Proof. unfold say. destruct (send_frame (mkMessage m Plain) s) as (err & t & ->). by exists t. Qed.

(** The next [say] of the goal becomes the state it is. *)
Ltac say_step :=
  match goal with |- context [say ?m ?s1] => let t := fresh "t" in destruct (say_frame m s1) as [t ->] end.

Lemma authenticate_returns login password (w : W) :
  gorm_DB w = true → ∃ ok w', ProofLoginPaswordHandler login password w = (Ret ok, w').
Proof.
  intros Hw. unfold ProofLoginPaswordHandler, AuthenticateUser, mbind, GoM_bind, First, on_DB, lift_op.
  rewrite Hw. destruct (gorm_First _ _ _ _) as [r w']. by eexists _, _.
Qed.

(** An update of a process that has not crashed. *)
Lemma step_alive u s :
  crashed s = None →
  update_step u s = match u with
    | Start userID => Some (on_start userID s)
    | Help _ => Some (on_help helpMsg s)
    | OnText userID text => Some (on_text kube monitor rt time_String userID text s)
    | YesButton userID =>
        match yes_handler s with Some p => on_yes kube monitor rt time_String p userID s | None => Some s end
    | NoButton userID => match no_handler s with Some p => Some (on_no p userID s) | None => Some s end
    end.
Proof. intros Hc. unfold handle_update. by rewrite Hc. Qed.

(** One turn of the login dialogue. *)
Lemma text_login u text s :
  HasPrefix text "/" = false → userState s !! u = Some "login" →
  on_text kube monitor rt time_String u text s =
    say "Теперь введите пароль:" (set_login text (set_user_state (<[u := "password"]> (userState s)) s)).
Proof.
  intros Ht Hu. unfold on_text. rewrite Ht, Hu. cbn [default from_option id].
  by rewrite decide_True.
Qed.

Lemma text_password u text s ok w :
  HasPrefix text "/" = false → userState s !! u = Some "password" → crashed s = None →
  ProofLoginPaswordHandler (userLogin s) text (h_world (io s)) = (Ret ok, w) →
  ∃ h, on_text kube monitor rt time_String u text s =
    mkBst (delete u (userState s)) (userLogin s) text ok (yes_handler s) (no_handler s) h
      (history s ++ [Checked (userLogin s) text ok]) None.
Proof.
  intros Ht Hu Hc Hok. unfold on_text. rewrite Ht, Hu. cbn [default from_option id].
  case_decide as E; [discriminate E|]. rewrite decide_True by done.
  unfold check_password. simpl. rewrite Hok. simpl.
  rewrite Hc. say_step. eexists. unfold set_io. simpl. by rewrite Hc.
Qed.

(** A login that nothing interrupts: [/start], a login, a password.  The
    bot is authorized afterwards exactly if the repository accepts that pair,
    and the dialogue of the user is over. *)
Theorem login_dialogue u login password s :
  crashed s = None → gorm_DB (h_world (io s)) = true →
  HasPrefix login "/" = false → HasPrefix password "/" = false →
  ∃ s' ok, run [Start u; OnText u login; OnText u password] s = Some s' ∧
    (ProofLoginPaswordHandler login password (h_world (io s))).1 = Ret ok ∧
    userStatusAuthorization s' = ok ∧ userState s' = delete u (userState s) ∧
    history s' = history s ++ [Checked login password ok].
Proof.
  intros Hc Hdb Hl Hp. destruct (authenticate_returns login password _ Hdb) as (ok & w & Hok).
  cbn [run_updates]. rewrite step_alive by done. cbn [mbind option_bind]. unfold on_start. say_step.
  rewrite step_alive by done. cbn [mbind option_bind].
  rewrite text_login by (done || apply lookup_insert_eq). say_step.
  rewrite step_alive by done. cbn [mbind option_bind].
  edestruct (text_password u password) as [h ->]; [done|apply lookup_insert_eq|done|simpl; exact Hok|].
  simpl. eexists _, ok. split; [done|]. rewrite Hok. simpl. split_and!; try done.
  by rewrite !delete_insert_eq.
Qed.

(** Without a handle to the database the check of a password ends the process. *)
Lemma login_without_handle u login password s :
  crashed s = None → gorm_DB (h_world (io s)) = false →
  HasPrefix login "/" = false → HasPrefix password "/" = false →
  ∃ s', run [Start u; OnText u login; OnText u password] s = Some s' ∧ crashed s' = Some nil_deref.
Proof.
  intros Hc Hdb Hl Hp.
  cbn [run_updates]. rewrite step_alive by done. cbn [mbind option_bind]. unfold on_start. say_step.
  rewrite step_alive by done. cbn [mbind option_bind].
  rewrite text_login by (done || apply lookup_insert_eq). say_step.
  rewrite step_alive by done. cbn [mbind option_bind]. eexists. split; [done|].
  unfold on_text. rewrite Hp. simpl. rewrite lookup_insert_eq. cbn [default from_option id].
  rewrite decide_False, decide_True by done. unfold check_password. simpl.
  unfold ProofLoginPaswordHandler, AuthenticateUser, mbind, GoM_bind, First, on_DB. simpl. by rewrite Hdb.
Qed.

(** The dialogues of two users share one login variable: when both have
    typed their logins, the password of the first is checked against the
    login of the second. *)
Theorem login_interleaving a b login_a login_b password s :
  a ≠ b → crashed s = None → gorm_DB (h_world (io s)) = true →
  HasPrefix login_a "/" = false → HasPrefix login_b "/" = false → HasPrefix password "/" = false →
  ∃ s' ok, run [Start a; Start b; OnText a login_a; OnText b login_b; OnText a password] s = Some s' ∧
    history s' = history s ++ [Checked login_b password ok].
Proof.
  intros Hab Hc Hdb Ha Hb Hp. destruct (authenticate_returns login_b password _ Hdb) as (ok & w & Hok).
  cbn [run_updates]. rewrite step_alive by done. cbn [mbind option_bind]. unfold on_start at 1. say_step.
  rewrite step_alive by done. cbn [mbind option_bind]. unfold on_start at 1. say_step.
  rewrite step_alive by done. cbn [mbind option_bind].
  rewrite text_login; [|done|simpl; by rewrite lookup_insert_ne, lookup_insert_eq]. say_step.
  rewrite step_alive by done. cbn [mbind option_bind].
  rewrite text_login; [|done|simpl; by rewrite lookup_insert_ne, lookup_insert_eq]. say_step.
  rewrite step_alive by done. cbn [mbind option_bind].
  edestruct (text_password a password) as [h ->];
    [done|simpl; by rewrite lookup_insert_ne, lookup_insert_eq|done|simpl; exact Hok|].
  simpl. by eexists _, ok.
Qed.

(** ** What the confirmation protects *)

(** The yes button of who asked, when the command returns. *)
Lemma yes_runs u p handler s r h :
  crashed s = None → yes_handler s = Some p → asked_by p = u → command (asked_command p) = Some handler →
  handler (asked_text p) (io (send (mkMessage EmptyString Callback) s).2) = Some (Ret r, h) →
  ∃ s', update_step (YesButton u) s = Some s' ∧ yes_handler s' = Some p ∧ crashed s' = None ∧
    history s' = history s ++ [Ran u (asked_command p) (asked_text p)].
Proof.
  intros Hc Hp Hu Hcmd Hh. unfold handle_update. rewrite Hc, Hp. unfold on_yes, run_command.
  rewrite decide_False by (intros Hne; by apply Hne). rewrite Hcmd. subst u.
  destruct (send_frame (mkMessage EmptyString Callback) s) as (err & t & Hs). rewrite Hs in *.
  simpl in *. rewrite Hh. by eexists.
Qed.

(** Authorization belongs to the bot, not to a user: once any check has
    succeeded, whoever is not in a login dialogue has commands confirmed and
    run, without ever having logged in. *)
Theorem authorization_is_global u cmd rest handler s :
  let text := cmd +:+ " " +:+ rest in
  crashed s = None → userStatusAuthorization s = true → userState s !! u = None →
  HasPrefix cmd "/" = true → no_byte " " cmd → command cmd = Some handler →
  (∀ m t, (tg_Send m t).1 = None) → (∀ h, ∃ r h', handler text h = Some (Ret r, h')) →
  ∃ s', run [OnText u text; YesButton u] s = Some s' ∧
    history s' = history s ++ [Granted u text; Asked u cmd text; Ran u cmd text].
Proof.
  intros text Hc Ha Hu Hpre Hcmd Hfind Hsend Hret. cbn [run_updates]. rewrite step_alive by done. cbn [mbind option_bind].
  unfold on_text. assert (HasPrefix text "/" = true) as ->.
  { apply HasPrefix_spec in Hpre as [r ->]. apply HasPrefix_spec. subst text.
    exists (r +:+ " " +:+ rest). by rewrite str_app_assoc. }
  rewrite Hu, Ha. assert (SplitN text " " 2 = [cmd; rest]) as -> by by apply (genSplit_cut " " 0 cmd rest).
  rewrite Hfind. unfold withConfirmation, send.
  cbn [io record_event]. pose proof (Hsend (mkMessage yes_no_question Buttons) (h_chat (io s))) as Hs.
  destruct (tg_Send _ _) as [err t]. simpl in Hs. subst err. simpl.
  set (s1 := set_no _ _). destruct (Hret (io (send (mkMessage EmptyString Callback) s1).2)) as (r & h & Hr).
  destruct (yes_runs u (mkPending u text cmd) handler s1 r h) as (s' & -> & _ & _ & Hh); [done..|].
  exists s'. split; [done|]. rewrite Hh. simpl. by rewrite <-!app_assoc.
Qed.

(** A confirmation never expires: refusing does not withdraw it, running
    does not use it up, and it does not look at the authorization, so after
    "no" the asker's "yes" still runs the command, and a second "yes" runs it
    again. *)
Theorem confirmation_never_expires u p handler s :
  crashed s = None → yes_handler s = Some p → no_handler s = Some p → asked_by p = u →
  command (asked_command p) = Some handler →
  (∀ h, ∃ r h', handler (asked_text p) h = Some (Ret r, h')) →
  ∃ s', run [NoButton u; YesButton u; YesButton u] s = Some s' ∧
    history s' = history s ++ [Ran u (asked_command p) (asked_text p); Ran u (asked_command p) (asked_text p)].
Proof.
  intros Hc Hp Hno Hu Hcmd Hret. cbn [run_updates]. rewrite step_alive by done. rewrite Hno. cbn [mbind option_bind]. unfold on_no.
  rewrite decide_False by (intros Hne; by apply Hne).
  destruct (send_frame (mkMessage EmptyString Callback) s) as (err & t & ->). simpl. say_step. simpl.
  set (s1 := set_io _ _). destruct (Hret (io (send (mkMessage EmptyString Callback) s1).2)) as (r & h & Hr).
  destruct (yes_runs u p handler s1 r h) as (s2 & -> & Hp2 & Hc2 & Hh2); [done..|]. simpl.
  destruct (Hret (io (send (mkMessage EmptyString Callback) s2).2)) as (r2 & h2 & Hr2).
  destruct (yes_runs u p handler s2 r2 h2) as (s3 & -> & _ & _ & Hh3); [done..|]. simpl.
  exists s3. split; [done|]. rewrite Hh3, Hh2. simpl. by rewrite <-app_assoc.
Qed.
End bot.

(** ** A bot on the sample cluster, with one account *)
Module Sample.
#[local] Instance sample_api : KubeApi Cluster := cluster_api "api".
#[local] Instance sample_poll : PollUntil Cluster := poll_n 10.
#[local] Instance sample_ctx : GoContext Cluster := cluster_ctx.
#[local] Instance sample_telegram : Telegram unit := λ m t, (None, t).

#[local] Instance sample_http : Http Cluster := {|
  http_Do hc req w := (inr "connection refused", w);
  request_error _ := None;
  url_parse _ := Some None;
  request_uri_error _ := None;
  decode_query _ w := (inr "EOF", w);
  decode_labels _ w := (inr "EOF", w);
  decode_alerts _ w := (inr "EOF", w);
  body_Close _ w := w;
|}.

Definition account : list (string * list gval) :=
  [("login = ? AND password = ?", [GStr "admin"; GStr "secret"])].

Definition sample_first (m : model) (q : query) : row m * option string :=
  match m return row m * option string with
  | MUser => (zero_user, if decide (q_where q = account) then None else Some "record not found")
  | MUserLabel => (mkUserLabel 0 0 zero_user EmptyString, Some "record not found")
  | MIncidentHistory => (mkIncident zero_time 0 EmptyString, Some "record not found")
  | MOperation => (mkOperation zero_time 0 EmptyString, Some "record not found")
  end.

#[local] Instance sample_gorm : Gorm Cluster := {|
  gorm_DB w := true;
  gorm_set_DB w := w;
  gorm_set_DB_opens w := eq_refl;
  gorm_Open dsn w := (None, w);
  gorm_Open_keeps dsn w := eq_refl;
  gorm_AutoMigrate ms w := (None, w);
  gorm_Find m q w := (([], None), w);
  gorm_First m q k w := (sample_first m q, w);
  gorm_Create m r w := ((r, None), w);
  gorm_Update m q c v w := (None, w);
  gorm_Delete m k w := (None, w);
  gorm_Scan q w := (([], None), w);
  gorm_now w := (zero_time, w);
|}.

#[local] Instance sample_gpt : Gpt Cluster := {|
  gpt_prompt w := (inl "You are a bot", w);
  gpt_Getenv _ _ := "value";
  gpt_complete _ _ _ text w := (inl [text], w);
|}.

Definition bot_client : K8sClient := mkK8sClient (Some TheClientset).
Definition prom : Client := mkClient default_http EmptyString EmptyString EmptyString EmptyString.
Definition no_runtime : runtime := mkRuntime list_order [] list_order [].
Definition run_bot (us : list update) : option (bst Cluster unit) :=
  run_updates bot_client prom "help" no_runtime Format_RFC3339 us (bot_start (sample_cluster 0) tt).

Definition state_after (us : list update) : bst Cluster unit :=
  default (bot_start (sample_cluster 0) tt) (run_bot us).

Definition logged_in : list update := [Start 1; OnText 1 "admin"; OnText 1 "secret"].
Definition scaling : string := "/scale prod/api 5".

Lemma commands_confirmed_witness :
  ∃ h1 h2, [Checked "admin" "secret" true; Granted 1 scaling; Asked 1 "/scale" scaling] = h1 ++ Asked 1 "/scale" scaling :: h2 ∧
    authorized h1 = true.
Proof.
  destruct (commands_confirmed bot_client prom "help" no_runtime Format_RFC3339
    (logged_in ++ [OnText 1 scaling; YesButton 1]) (sample_cluster 0) tt
    (state_after (logged_in ++ [OnText 1 scaling; YesButton 1]))) with
    (before := [Checked "admin" "secret" true; Granted 1 scaling; Asked 1 "/scale" scaling]) (u := 1%Z)
    (cmd := "/scale") (text := scaling) (after := @nil event) as (h1 & h2 & H & Ha & _);
    [vm_compute; reflexivity|vm_compute; reflexivity|].
  exists h1, h2. split; [exact H|exact Ha].
Defined.

Lemma no_calls_before_confirmation_witness :
  h_calls (io (state_after (logged_in ++ [OnText 1 scaling; YesButton 2]))) = [].
Proof.
  apply (no_calls_before_confirmation bot_client prom "help" no_runtime Format_RFC3339
    (logged_in ++ [OnText 1 scaling; YesButton 2]) (sample_cluster 0) tt).
  - vm_compute. reflexivity.
  - replace (history _) with [Checked "admin" "secret" true; Granted 1 scaling; Asked 1 "/scale" scaling]
      by (vm_compute; reflexivity).
    intros u cmd text Hin. repeat (apply elem_of_cons in Hin as [Hin|Hin]; [discriminate Hin|]).
    by apply not_elem_of_nil in Hin.
Defined.

Lemma login_dialogue_witness :
  ∃ s' ok, run_bot logged_in = Some s' ∧ userStatusAuthorization s' = ok ∧
    history s' = [Checked "admin" "secret" ok].
Proof.
  destruct (login_dialogue bot_client prom "help" no_runtime Format_RFC3339 1 "admin" "secret"
    (bot_start (sample_cluster 0) tt)) as (s' & ok & Hr & _ & Ha & _ & Hh); [reflexivity..|].
  exists s', ok. split; [exact Hr|split; [exact Ha|exact Hh]].
Defined.

Lemma login_interleaving_witness :
  ∃ s' ok, run_bot [Start 1; Start 2; OnText 1 "admin"; OnText 2 "bob"; OnText 1 "secret"] = Some s' ∧
    history s' = [Checked "bob" "secret" ok].
Proof.
  apply (login_interleaving bot_client prom "help" no_runtime Format_RFC3339 1 2 "admin" "bob" "secret"
    (bot_start (sample_cluster 0) tt)); [discriminate|reflexivity..].
Defined.

Lemma authorization_is_global_witness :
  ∃ s', run_updates bot_client prom "help" no_runtime Format_RFC3339
      [OnText 2 "/ai_help how"; YesButton 2] (state_after logged_in) = Some s' ∧
    history s' = history (state_after logged_in) ++ [Granted 2 "/ai_help how"; Asked 2 "/ai_help" "/ai_help how"; Ran 2 "/ai_help" "/ai_help how"].
Proof.
  apply (authorization_is_global bot_client prom "help" no_runtime Format_RFC3339 2 "/ai_help" "how"
    (plain AiHelpHandler)); try (vm_compute; reflexivity).
  - by apply (bool_decide_unpack _).
  - intros h. unfold plain. destruct (AiHelpHandler "/ai_help how" h) as [[r|why] h'] eqn:E.
    + exists r, h'. change (Some (AiHelpHandler "/ai_help how" h) = Some (Ret r, h')). by rewrite E.
    + exfalso. vm_compute in E. destruct h. discriminate E.
Defined.

Lemma confirmation_never_expires_witness :
  ∃ s', run_updates bot_client prom "help" no_runtime Format_RFC3339
      [NoButton 1; YesButton 1; YesButton 1] (state_after (logged_in ++ [OnText 1 "/ai_help how"])) = Some s' ∧
    history s' = [Checked "admin" "secret" true; Granted 1 "/ai_help how"; Asked 1 "/ai_help" "/ai_help how";
                  Ran 1 "/ai_help" "/ai_help how"; Ran 1 "/ai_help" "/ai_help how"].
Proof.
  apply (confirmation_never_expires bot_client prom "help" no_runtime Format_RFC3339 1
    (mkPending 1 "/ai_help how" "/ai_help") (plain AiHelpHandler)); try (vm_compute; reflexivity).
  intros h. unfold plain. destruct (AiHelpHandler "/ai_help how" h) as [[r|why] h'] eqn:E.
  - exists r, h'. change (Some (AiHelpHandler "/ai_help how" h) = Some (Ret r, h')). by rewrite E.
  - exfalso. vm_compute in E. destruct h. discriminate E.
Defined.
End Sample.
