(* ===== verification/BotConc.v ===== *)
(** * The dispatcher with its handlers interleaved

    telebot starts every handler in a goroutine of its own.  Here a handler
    is the sequence of its statements on the shared variables and of its
    calls, and the invocations in flight take their steps in any order.  A
    statement is atomic; that two of them may access the map [userState] at
    once, which ends the process, is shown apart, in [BotConcProps].
    The work of a confirmed command is one step, since it does not touch the
    variables of the dispatcher. *)
From Stdlib Require Import SpecFloat.
From stdpp Require Import base tactics strings list gmap relations.
From Stdlib Require Import ZArith.
From S2P Require Import Prelude GoStrings GoConv GoTime GoContext Sorting KubeApi KubeClient KubeRollback Monitoring Dashboard Messages Repository LogChannel Telegram KubeHandlers MonitorHandlers Database Bot BotProps.

(** ** Threads

    What is left of an invocation: nothing, or a step from the shared state
    to the next state and the rest.  [None]: the step does not end. *)
#[warnings="-register-all"] Inductive thread (S : Type) : Type :=
  | Stop
  | Step (f : S → option (S * thread S)).
Arguments Stop {S}.
Arguments Step {S} f.

(** Induction on the steps left. *)
Lemma thread_subthreads {S} (P : thread S → Prop) :
  P Stop → (∀ f, (∀ s s' k, f s = Some (s', k) → P k) → P (Step f)) → ∀ k, P k.
Proof.
  intros Hstop Hstep. fix IH 1. intros [|f]; [exact Hstop|]. apply Hstep. intros s s' k.
  destruct (f s) as [[s1 k1]|]; [|discriminate]. intros Heq. injection Heq as _ <-. exact (IH k1).
Qed.

(** A statement that only changes the state. *)
Definition do_ {S} (f : S → S) (k : thread S) : thread S := Step (λ s, Some (f s, k)).
(** A statement whose value the rest of the handler reads. *)
Definition ask_ {S A} (f : S → A * S) (k : A → thread S) : thread S :=
  Step (λ s, let (a, s') := f s in Some (s', k a)).

Section threads.
Context {W T : Type} `{!KubeApi W} `{!PollUntil W} `{SS : !SortSlice} `{HW : !Http W} `{GW : !Gorm W}
  `{AW : !Gpt W} `{GC : !GoContext W} `{TT : !Telegram T}.
Variables (kube : K8sClient) (monitor : Client) (helpMsg : string) (rt : runtime)
  (time_String : Time → string).
Abbreviation ST := (bst W T).
Abbreviation command := (find_command kube monitor rt time_String).
Abbreviation run_command := (run_command kube monitor rt time_String).
Abbreviation update_step := (handle_update kube monitor helpMsg rt time_String).
Implicit Types s : ST.

(** [c.Send(m)] at the end of a closure. *)
Definition say_ (m : string) (k : thread ST) : thread ST := do_ (say m) k.
Definition respond_ (m : string) (k : thread ST) : thread ST :=
  do_ (λ s, (send (mkMessage m Callback) s).2) k.

(** ** The closures, statement by statement *)

Definition start_thread (u : Z) : thread ST :=
  do_ (λ s, set_user_state (<[u := "login"]> (userState s)) s)
    (say_ "Введите свой логин:" Stop).

Definition help_thread : thread ST := say_ helpMsg Stop.

Definition confirmation_thread (u : Z) (cmd text : string) : thread ST :=
  ask_ (send (mkMessage yes_no_question Buttons)) (λ err,
    match err with
    | Some _ => Stop
    | None =>
        let p := mkPending u text cmd in
        do_ (λ s, record_event (Asked u cmd text) (set_yes p s)) (do_ (set_no p) Stop)
    end).

(** Reading the flag. *)
Definition read_flag (u : Z) (text : string) (s : ST) : bool * ST :=
  (userStatusAuthorization s,
   if userStatusAuthorization s then record_event (Granted u text) s else s).

Definition slash_thread (u : Z) (text : string) : thread ST :=
  ask_ (λ s, (userState s !! u, s)) (λ state,
    match state with
    | Some _ => Stop
    | None =>
        ask_ (read_flag u text) (λ authorized_,
          if (authorized_ : bool) then
            match SplitN text " "%char 2 with
            | cmd :: _ =>
                match command cmd with
                | Some _ => confirmation_thread u cmd text
                | None => say_ "Введите одну из предложенных команд" Stop
                end
            | [] => Stop
            end
          else say_ "Вы не авторизованы. Введите /start для авторизации." Stop)
    end).

(** The query of the repository and the assignment of its answer. *)
Definition query_account (login password : string) (s : ST) : option bool * ST :=
  match ProofLoginPaswordHandler login password (h_world (io s)) with
  | (Ret ok, w) => (Some ok, set_io (mkHst w (h_chat (io s)) (h_sent (io s)) (h_calls (io s))) s)
  | (Panic why, _) => (None, crash why s)
  end.

Definition assign_flag (login password : string) (ok : bool) (s : ST) : ST :=
  record_event (Checked login password ok) (set_authorization ok s).

Definition password_thread (u : Z) (text : string) : thread ST :=
  do_ (λ s, set_user_state (delete u (userState s)) s) (
  do_ (set_password text) (
  ask_ (λ s, ((userLogin s, userPassword s), s)) (λ lp,
  ask_ (query_account lp.1 lp.2) (λ answer,
    match answer with
    | None => Stop
    | Some ok =>
        do_ (assign_flag lp.1 lp.2 ok) (
        ask_ (λ s, (userStatusAuthorization s, s)) (λ flag,
          say_ (if (flag : bool) then "Авторизация успешна!" else "Неверный логин или пароль.") Stop))
    end)))).

Definition text_thread (u : Z) (text : string) : thread ST :=
  if HasPrefix text "/" then slash_thread u text
  else
    ask_ (λ s, (default EmptyString (userState s !! u), s)) (λ state,
      if decide (state = "login") then
        do_ (λ s, set_user_state (<[u := "password"]> (userState s)) s)
          (do_ (set_login text) (say_ "Теперь введите пароль:" Stop))
      else if decide (state = "password") then password_thread u text
      else say_ "Непонятные входные данные или что то пошло не так." Stop).

Definition yes_thread (p : pending_command) (u : Z) : thread ST :=
  if decide (u ≠ asked_by p) then respond_ not_for_you Stop
  else respond_ EmptyString (Step (λ s, s' ← run_command p u s; Some (s', Stop))).

Definition no_thread (p : pending_command) (u : Z) : thread ST :=
  if decide (u ≠ asked_by p) then respond_ not_for_you Stop
  else respond_ EmptyString (say_ "Отмена" Stop).

(** telebot looks the handler up when the update arrives. *)
Definition dispatch (u : update) (s : ST) : thread ST :=
  match u with
  | Start userID => start_thread userID
  | Help _ => help_thread
  | OnText userID text => text_thread userID text
  | YesButton userID => match yes_handler s with Some p => yes_thread p userID | None => Stop end
  | NoButton userID => match no_handler s with Some p => no_thread p userID | None => Stop end
  end.

(** A thread run on its own, to its end or to the crash of the process. *)
Fixpoint run_thread (k : thread ST) (s : ST) : option ST :=
  match k with
  | Stop => Some s
  | Step f =>
      match crashed s with
      | Some _ => None
      | None => match f s with Some (s', k') => run_thread k' s' | None => None end
      end
  end.

(** ** The process: the shared state and the invocations in flight *)

Definition process : Type := ST * list (thread ST).

Inductive process_step : process → process → Prop :=
  | arrives s pool u : crashed s = None → process_step (s, pool) (s, pool ++ [dispatch u s])
  | proceeds s pool i f s' k :
      crashed s = None → pool !! i = Some (Step f) → f s = Some (s', k) →
      process_step (s, pool) (s', <[i := k]> pool).

Definition process_start (w : W) (t : T) : process := (bot_start w t, []).
Definition reachable_process (w : W) (t : T) : process → Prop := rtc process_step (process_start w t).

(** ** Handlers run one after the other *)

Lemma send_crashed m s : crashed (send m s).2 = crashed s.
Proof. destruct (send_frame m s) as (err & t & ->). done. Qed.

Lemma run_do f k s :
  crashed s = None → run_thread (do_ f k) s = run_thread k (f s).
Proof. intros Hc. simpl. by rewrite Hc. Qed.

Lemma run_ask {A} (f : ST → A * ST) (k : A → thread ST) s :
  crashed s = None → run_thread (ask_ f k) s = run_thread (k (f s).1) (f s).2.
Proof. intros Hc. simpl. rewrite Hc. by destruct (f s). Qed.

Lemma run_say m s : crashed s = None → run_thread (say_ m Stop) s = Some (say m s).
Proof. intros Hc. unfold say_. by rewrite run_do. Qed.

Lemma run_confirmation u cmd text s :
  crashed s = None → run_thread (confirmation_thread u cmd text) s = Some (withConfirmation u cmd text s).
Proof.
  intros Hc. unfold confirmation_thread, withConfirmation. rewrite run_ask by done.
  pose proof (send_crashed (mkMessage yes_no_question Buttons) s) as Hs.
  destruct (send _ s) as [[err|] s1]; simpl in *; [done|]. by rewrite Hs, Hc.
Qed.

Lemma run_password u text s :
  crashed s = None →
  run_thread (password_thread u text) s = Some
    (let s1 := check_password (set_password text (set_user_state (delete u (userState s)) s)) in
     match crashed s1 with
     | Some _ => s1
     | None => say (if userStatusAuthorization s1 then "Авторизация успешна!"
                    else "Неверный логин или пароль.") s1
     end).
Proof.
  intros Hc. unfold password_thread, check_password.
  rewrite !run_do, run_ask by done. simpl fst. cbn [snd]. rewrite run_ask by done.
  unfold query_account. simpl.
  destruct (ProofLoginPaswordHandler _ _ _) as [[ok|why] w]; simpl; [|done].
  by rewrite !Hc.
Qed.

Lemma run_text u text s :
  crashed s = None →
  run_thread (text_thread u text) s = Some (on_text kube monitor rt time_String u text s).
Proof.
  intros Hc. unfold text_thread, on_text. destruct (HasPrefix text "/").
  - unfold slash_thread. rewrite run_ask by done. simpl fst. cbn [snd].
    destruct (userState s !! u); [done|]. rewrite run_ask by done. unfold read_flag. simpl fst. cbn [snd].
    destruct (userStatusAuthorization s) eqn:Ha; [|by apply run_say].
    destruct (SplitN text " "%char 2) as [|cmd rest]; [done|].
    destruct (command cmd); [by apply run_confirmation|by apply run_say].
  - rewrite run_ask by done. simpl fst. cbn [snd]. case_decide; [by rewrite !run_do, run_say|].
    case_decide; [by apply run_password|by apply run_say].
Qed.

(** An invocation that nothing interrupts does to the shared state exactly
    what the handler does, crash and endless dashboard included. *)
Lemma run_dispatch u s :
  crashed s = None → run_thread (dispatch u s) s = update_step u s.
Proof.
  intros Hc. rewrite step_alive by done. destruct u as [u|u|u text|u|u]; simpl dispatch.
  - unfold start_thread. by rewrite run_do, run_say.
  - by apply run_say.
  - by apply run_text.
  - destruct (yes_handler s) as [p|]; [|done]. unfold yes_thread, on_yes.
    pose proof (send_crashed (mkMessage EmptyString Callback) s) as Hs.
    case_decide; unfold respond_; rewrite run_do by done; [done|]. simpl. rewrite Hs, Hc.
    by destruct (run_command p u _).
  - destruct (no_handler s) as [p|]; [|done]. unfold no_thread, on_no.
    case_decide; unfold respond_; rewrite run_do by done; [done|].
    apply run_say. by rewrite send_crashed.
Qed.

(** A thread of the pool that runs while the others wait. *)
Lemma run_thread_steps k s s' pool i :
  pool !! i = Some k → run_thread k s = Some s' → rtc process_step (s, pool) (s', <[i := Stop]> pool).
Proof.
  revert s pool. induction k as [|f IH] using thread_subthreads; intros s pool Hi Hr; simpl in Hr.
  - injection Hr as ->. rewrite list_insert_id by done. apply rtc_refl.
  - destruct (crashed s) eqn:Hc; [done|]. destruct (f s) as [[s1 k]|] eqn:Ef; [|done].
    eapply rtc_l; [by eapply proceeds|].
    rewrite <-(list_insert_insert_eq pool i Stop k). eapply IH; [done| |done].
    apply list_lookup_insert_eq. by eapply lookup_lt_Some.
Qed.

(** A run that handles one update after the other is one of the
    interleavings: its final state is reached with every handler finished. *)
Theorem runs_are_interleavings us w t s :
  run_updates kube monitor helpMsg rt time_String us (bot_start w t) = Some s →
  ∃ n, reachable_process w t (s, replicate n Stop).
Proof.
  unfold reachable_process, process_start. generalize (bot_start w t) as s0.
  assert (∀ s0 n, run_updates kube monitor helpMsg rt time_String us s0 = Some s →
            ∃ n', rtc process_step (s0, replicate n Stop) (s, replicate n' Stop)) as Hgen.
  { induction us as [|u us IH]; intros s0 n Hr; simpl in Hr; [injection Hr as ->; by exists n|].
    destruct (update_step u s0) as [s1|] eqn:Hu; [|done]. simpl in Hr.
    destruct (crashed s0) eqn:Hc; [by unfold handle_update in Hu; rewrite Hc in Hu|].
    rewrite <-run_dispatch in Hu by done. destruct (IH s1 (S n) Hr) as [n' Hrest].
    exists n'. eapply rtc_l; [by apply (arrives _ _ u)|]. etrans; [|exact Hrest].
    assert (replicate (S n) Stop = <[n := Stop]> (replicate n Stop ++ [dispatch u s0])) as ->.
    { rewrite replicate_S_end, insert_app_r_alt by (rewrite length_replicate; lia).
      by rewrite length_replicate, Nat.sub_diag. }
    apply run_thread_steps with (dispatch u s0); [|done].
    rewrite lookup_app_r by (rewrite length_replicate; lia). by rewrite length_replicate, Nat.sub_diag. }
  intros s0 Hr. destruct (Hgen s0 0%nat Hr) as [n Hn]. by exists n.
Qed.
End threads.
