(* ===== verification/BotConcProps.v ===== *)
(** * What holds of the dispatcher in every interleaving

    The invariant of the shared variables is preserved by every step of every
    handler in flight; what a thread may rely on between two of its steps is
    only that the history grows. *)
From Stdlib Require Import SpecFloat.
From stdpp Require Import base tactics strings list gmap relations.
From Stdlib Require Import ZArith.
From S2P Require Import Prelude GoStrings GoConv GoTime GoContext Sorting KubeApi KubeClient KubeRollback Monitoring Dashboard Messages Repository LogChannel Telegram KubeHandlers MonitorHandlers Cluster Database Bot BotProps BotConc.

Section safety.
Context {W T : Type} `{!KubeApi W} `{!PollUntil W} `{SS : !SortSlice} `{HW : !Http W} `{GW : !Gorm W}
  `{AW : !Gpt W} `{GC : !GoContext W} `{TT : !Telegram T}.
Variables (kube : K8sClient) (monitor : Client) (helpMsg : string) (rt : runtime)
  (time_String : Time → string).
Abbreviation ST := (bst W T).
Abbreviation command := (find_command kube monitor rt time_String).
Abbreviation run_command := (run_command kube monitor rt time_String).
Abbreviation pstep := (process_step kube monitor helpMsg rt time_String).
Abbreviation reachable_process := (reachable_process kube monitor helpMsg rt time_String).
Implicit Types (s : ST) (h : list event) (k : thread ST).

(** ** The invariant *)

(** What is known of the calls to the Kubernetes API: a predicate every
    command keeps. *)
Variable wire : list api_call → Prop.
Hypothesis wire_nil : wire [].
Hypothesis wire_commands : ∀ cmd handler text (h h' : hst W T) o,
  command cmd = Some handler → handler text h = Some (o, h') → wire (h_calls h) → wire (h_calls h').

(** A message that found the flag set, at a moment when the last check had
    succeeded. *)
Definition granted h (u : Z) (text : string) : Prop :=
  ∃ h1 h2, h = h1 ++ Granted u text :: h2 ∧ authorized h1 = true.

(** A command of the table, granted first and asked for later. *)
Definition requested h (p : pending_command) : Prop :=
  ∃ h1 h2, h = h1 ++ Asked (asked_by p) (asked_command p) (asked_text p) :: h2 ∧
    granted h1 (asked_by p) (asked_text p) ∧ is_Some (command (asked_command p)).

Lemma granted_grows h h' u text : h `prefix_of` h' → granted h u text → granted h' u text.
Proof. intros [r ->] (h1 & h2 & -> & Ha). exists h1, (h2 ++ r). by rewrite <-app_assoc. Qed.

Lemma requested_grows h h' p : h `prefix_of` h' → requested h p → requested h' p.
Proof. intros [r ->] (h1 & h2 & -> & Ha). exists h1, (h2 ++ r). by rewrite <-app_assoc. Qed.

Definition runs_requested h : Prop :=
  ∀ h1 u cmd text h2, h = h1 ++ Ran u cmd text :: h2 → requested h1 (mkPending u text cmd).

Lemma runs_requested_snoc h e :
  runs_requested h → (∀ u cmd text, e = Ran u cmd text → requested h (mkPending u text cmd)) →
  runs_requested (h ++ [e]).
Proof.
  intros Hh He h1 u cmd text h2 Heq. destruct h2 as [|e' h2 _] using rev_ind.
  - apply app_inj_tail in Heq as [<- ->]. by apply He.
  - rewrite app_comm_cons, app_assoc in Heq. apply app_inj_tail in Heq as [-> _]. by eapply Hh.
Qed.

(** The dialogue of a user is at one of its two questions. *)
Definition dialogue_states (m : gmap Z string) : Prop :=
  map_Forall (λ _ state, state = "login" ∨ state = "password") m.

Record conc_inv (s : ST) : Prop := mkConcInv {
  ci_auth : userStatusAuthorization s = authorized (history s);
  ci_states : dialogue_states (userState s);
  ci_yes : ∀ p, yes_handler s = Some p → requested (history s) p;
  ci_runs : runs_requested (history s);
  ci_calls : (∀ u cmd text, Ran u cmd text ∉ history s) → h_calls (io s) = [];
  ci_wire : wire (h_calls (io s));
}.

Lemma conc_inv_start w t : conc_inv (bot_start w t).
Proof. split; try done. intros h1 u cmd text h2 H. by destruct h1. Qed.

(** ** Steps that keep it *)

Lemma inv_same s s' :
  same_control s s' → dialogue_states (userState s') → conc_inv s → conc_inv s'.
Proof. intros (Ha & Hy & Hh & Hk) Hst []. by split; rewrite ?Ha, ?Hy, ?Hh, ?Hk. Qed.

(** An event that is not a command. *)
Lemma inv_event e s s' :
  match e with Ran _ _ _ => False | _ => True end →
  userStatusAuthorization s' = authorized (history s ++ [e]) → userState s' = userState s →
  (∀ p, yes_handler s' = Some p → requested (history s ++ [e]) p) →
  history s' = history s ++ [e] → io s' = io s → conc_inv s → conc_inv s'.
Proof.
  intros He Ha Hst Hy Hh Hio [_ Hst0 _ Hr Hk Hw]. split; rewrite ?Hst, ?Hh, ?Hio; try done.
  - by apply runs_requested_snoc; [|intros u cmd text ->].
  - intros Hn. apply Hk. intros u cmd text Hin. apply (Hn u cmd text), elem_of_app. by left.
Qed.

Lemma inv_grant u text s :
  conc_inv s → userStatusAuthorization s = true → conc_inv (record_event (Granted u text) s).
Proof.
  intros I _. eapply (inv_event (Granted u text) s); try done; simpl.
  - rewrite authorized_snoc. apply (ci_auth _ I).
  - intros p Hp. eapply requested_grows, (ci_yes _ I p Hp). by eexists.
Qed.

Lemma inv_assign_flag login password ok s : conc_inv s → conc_inv (assign_flag login password ok s).
Proof.
  intros I. eapply (inv_event (Checked login password ok) s); try done; simpl.
  - by rewrite authorized_snoc.
  - intros p Hp. eapply requested_grows, (ci_yes _ I p Hp). by eexists.
Qed.

Lemma inv_ask u cmd text s :
  conc_inv s → granted (history s) u text → is_Some (command cmd) →
  conc_inv (record_event (Asked u cmd text) (set_yes (mkPending u text cmd) s)).
Proof.
  intros I Hg Hcmd. eapply (inv_event (Asked u cmd text) s); try done; simpl.
  - rewrite authorized_snoc. apply (ci_auth _ I).
  - intros p [= <-]. exists (history s), []. done.
Qed.

Lemma inv_run_command p s s' :
  conc_inv s → requested (history s) p → run_command p (asked_by p) s = Some s' →
  conc_inv s' ∧ history s' = history s ++ [Ran (asked_by p) (asked_command p) (asked_text p)].
Proof.
  intros [Ha Hst Hy Hr Hk Hw] Hreq H. unfold Bot.run_command in H.
  assert (∀ s2, userStatusAuthorization s2 = userStatusAuthorization s → yes_handler s2 = yes_handler s →
            userState s2 = userState s →
            history s2 = history s ++ [Ran (asked_by p) (asked_command p) (asked_text p)] →
            wire (h_calls (io s2)) → conc_inv s2 ∧ history s2 = history s ++ [Ran (asked_by p) (asked_command p) (asked_text p)]) as Hdone.
  { intros s2 Ha2 Hy2 Hst2 Hh2 Hw2. split; [|done]. split; rewrite ?Ha2, ?Hy2, ?Hst2, ?Hh2; [|done| | | |done].
    - by rewrite authorized_snoc.
    - intros p' Hp'. eapply requested_grows, Hy, Hp'. by eexists.
    - apply runs_requested_snoc; [done|]. intros u cmd text [= <- <- <-]. by destruct p.
    - intros Hn. exfalso. eapply Hn, elem_of_app. right. left. }
  destruct (command (asked_command p)) as [handler|] eqn:Ec; [|by injection H as <-; apply Hdone].
  destruct (handler _ _) as [[[r|why] h]|] eqn:Eh; [..|done]; injection H as <-; apply Hdone; try done;
    eapply wire_commands; [exact Ec|exact Eh|exact Hw|exact Ec|exact Eh|exact Hw].
Qed.

(** ** Threads that keep it

    [safe h k]: whenever the history has grown from [h], a step of [k] keeps
    the invariant, only adds to the history, and leaves a safe thread. *)
Inductive safe : list event → thread ST → Prop :=
  | safe_stop h : safe h Stop
  | safe_step h f :
      (∀ s s' k, conc_inv s → h `prefix_of` history s → f s = Some (s', k) →
         conc_inv s' ∧ history s `prefix_of` history s') →
      (∀ s s' k, conc_inv s → h `prefix_of` history s → f s = Some (s', k) → safe (history s') k) →
      safe h (Step f).

Lemma safe_grows h h' k : h `prefix_of` h' → safe h k → safe h' k.
Proof.
  intros Hp Hs. revert Hp. destruct Hs as [|h f Hinv Hk]; intros Hp; [constructor|].
  constructor; intros s s' k' I Hh; [eapply Hinv|eapply Hk]; try done; by etrans.
Qed.

Lemma safe_ask {A} h (f : ST → A * ST) (k : A → thread ST) :
  (∀ s, conc_inv s → h `prefix_of` history s →
     conc_inv (f s).2 ∧ history s `prefix_of` history (f s).2 ∧ safe (history (f s).2) (k (f s).1)) →
  safe h (ask_ f k).
Proof.
  intros Hf. constructor; intros s s' k' I Hh Heq; destruct (Hf s I Hh) as (I' & Hh' & Hk);
    destruct (f s) as [a s1]; injection Heq as <- <-; done.
Qed.

Lemma safe_do h (f : ST → ST) k :
  (∀ s, conc_inv s → h `prefix_of` history s →
     conc_inv (f s) ∧ history s `prefix_of` history (f s) ∧ safe (history (f s)) k) →
  safe h (do_ f k).
Proof.
  intros Hf. constructor; intros s s' k' I Hh [= <- <-]; by destruct (Hf s I Hh) as (I' & Hh' & Hk).
Qed.

(** A statement that touches neither the flag nor the handlers. *)
Lemma safe_quiet h (f : ST → ST) k :
  (∀ s, same_control s (f s)) → (∀ s, dialogue_states (userState s) → dialogue_states (userState (f s))) →
  safe h k → safe h (do_ f k).
Proof.
  intros Hsame Hst Hk. apply safe_do. intros s I Hh. pose proof (Hsame s) as (_ & _ & Hh' & _).
  rewrite Hh'. split_and!; [|done|by eapply safe_grows].
  eapply inv_same; [apply Hsame|apply Hst, (ci_states _ I)|exact I].
Qed.

(** A statement that only reads. *)
Lemma safe_read {A} h (f : ST → A) (k : A → thread ST) :
  (∀ a, safe h (k a)) → safe h (ask_ (λ s, (f s, s)) k).
Proof. intros Hk. apply safe_ask. intros s I Hh. split_and!; [done..|]. eapply safe_grows, Hk. done. Qed.

Lemma send_userState m s : userState (send m s).2 = userState s.
Proof. destruct (send_frame m s) as (err & t & ->). done. Qed.

Lemma safe_send h m k : safe h k → safe h (do_ (λ s, (send m s).2) k).
Proof. apply safe_quiet; intros s; [apply send_same|]. by rewrite send_userState. Qed.

Lemma safe_say h m : safe h (say_ m Stop).
Proof. apply safe_send. constructor. Qed.

Lemma dialogue_states_insert m u state :
  state = "login" ∨ state = "password" → dialogue_states m → dialogue_states (<[u := state]> m).
Proof. intros. by apply map_Forall_insert_2. Qed.
Lemma dialogue_states_delete m u : dialogue_states m → dialogue_states (delete u m).
Proof. apply map_Forall_delete. Qed.

Lemma safe_confirmation h u cmd text :
  granted h u text → is_Some (command cmd) → safe h (confirmation_thread u cmd text).
Proof.
  intros Hg Hcmd. apply safe_ask. intros s I Hh.
  pose proof (send_same (mkMessage yes_no_question Buttons) s) as Hs.
  pose proof (send_userState (mkMessage yes_no_question Buttons) s) as Hu.
  destruct (send _ s) as [err s1]. simpl in *.
  assert (history s1 = history s) as Hh1 by apply Hs.
  split; [|rewrite Hh1; split; [done|]].
  - eapply inv_same; [exact Hs|rewrite Hu; apply (ci_states _ I)|done].
  - destruct err as [err|]; [constructor|]. apply safe_do. intros s2 I2 Hh2.
    assert (granted (history s2) u text) as Hg2 by (eapply granted_grows, Hg; by etrans).
    split_and!; [by apply inv_ask|by eexists|]. apply safe_quiet; [by repeat split|done|constructor].
Qed.

Lemma safe_slash h u text : safe h (slash_thread kube monitor rt time_String u text).
Proof.
  apply safe_read. intros [state|]; [constructor|]. apply safe_ask. intros s I Hh. unfold read_flag. cbn [fst snd].
  destruct (userStatusAuthorization s) eqn:Ha; [|split_and!; [done..|apply safe_say]].
  split_and!; [by apply inv_grant|by eexists|].
  destruct (SplitN text " "%char 2) as [|cmd rest]; [constructor|].
  destruct (command cmd) eqn:Ec; [|apply safe_say].
  apply safe_confirmation; [|by rewrite Ec]. exists (history s), []. by rewrite <-(ci_auth _ I).
Qed.

Lemma safe_password h u text : safe h (password_thread u text).
Proof.
  apply safe_quiet; [by repeat split|intros ?; apply dialogue_states_delete|].
  apply safe_quiet; [by repeat split|done|]. apply safe_read. intros [login password]. simpl.
  apply safe_ask. intros s I Hh. unfold query_account.
  assert (∀ s', same_control s s' → userState s' = userState s → conc_inv s') as Hsame.
  { intros s' Hs Hu. eapply inv_same; [exact Hs|rewrite Hu; apply (ci_states _ I)|done]. }
  destruct (ProofLoginPaswordHandler _ _ _) as [[ok|why] w]; simpl;
    (split_and!; [by apply Hsame|done|]); [|constructor].
  apply safe_do. intros s2 I2 Hh2. split_and!; [by apply inv_assign_flag|by eexists|].
  apply safe_read. intros []; apply safe_say.
Qed.

Lemma safe_text h u text : safe h (text_thread kube monitor rt time_String u text).
Proof.
  unfold text_thread. destruct (HasPrefix text "/"); [apply safe_slash|].
  apply safe_read. intros state. case_decide; [|case_decide; [apply safe_password|apply safe_say]].
  apply safe_quiet; [by repeat split|intros ?; apply dialogue_states_insert; auto|].
  apply safe_quiet; [by repeat split|done|apply safe_say].
Qed.

Lemma safe_yes h p u : requested h p → safe h (yes_thread kube monitor rt time_String p u).
Proof.
  intros Hp. unfold yes_thread, respond_. case_decide as Hu; apply safe_send; [constructor|].
  subst u.
  constructor; intros s s' k I Hh Heq;
    apply bind_Some in Heq as (s1 & Hrun & [= <- <-]);
    destruct (inv_run_command p s s1) as [I1 Hh1]; [done|by eapply requested_grows|done| |done|
      by eapply requested_grows|done|constructor].
  split; [done|]. rewrite Hh1. by eexists.
Qed.

Lemma safe_dispatch u s :
  conc_inv s → safe (history s) (dispatch kube monitor helpMsg rt time_String u s).
Proof.
  intros I. destruct u as [u|u|u text|u|u]; simpl.
  - apply safe_quiet; [by repeat split|intros ?; apply dialogue_states_insert; auto|apply safe_say].
  - apply safe_say.
  - apply safe_text.
  - destruct (yes_handler s) as [p|] eqn:Ep; [|constructor]. apply safe_yes. by apply (ci_yes _ I).
  - destruct (no_handler s) as [p|]; [|constructor]. unfold no_thread, respond_.
    case_decide; apply safe_send; [constructor|apply safe_say].
Qed.

(** ** Every reachable process *)

Definition process_inv (q : process) : Prop := conc_inv q.1 ∧ Forall (safe (history q.1)) q.2.

Lemma process_step_inv q q' : pstep q q' → process_inv q → process_inv q'.
Proof.
  intros [s pool u Hc|s pool i f s' k Hc Hi Hf] [I Hpool]; simpl in *.
  - split; [done|]. simpl. apply Forall_app. split; [done|]. constructor; [by apply safe_dispatch|done].
  - assert (safe (history s) (Step f)) as Hs by by eapply Forall_lookup_1 in Hpool.
    inversion Hs as [|? ? Hinv Hk]; subst. destruct (Hinv s s' k) as [I' Hh]; [done..|].
    split; simpl; [done|]. apply Forall_insert; [|by apply (Hk s s' k)].
    eapply Forall_impl; [done|]. intros k' Hk'. by eapply safe_grows.
Qed.

Lemma reachable_inv w t q : reachable_process w t q → process_inv q.
Proof.
  intros H. unfold BotConc.reachable_process in H.
  assert (process_inv (process_start w t)) as H0 by (split; [apply conc_inv_start|constructor]).
  induction H as [|q1 q2 q3 Hstep _ IH]; [done|]. by eapply IH, process_step_inv.
Qed.

Lemma reachable_conc_inv w t s pool : reachable_process w t (s, pool) → conc_inv s.
Proof. by intros [I _]%reachable_inv. Qed.
End safety.

Section theorems.
Context {W T : Type} `{!KubeApi W} `{!PollUntil W} `{SS : !SortSlice} `{HW : !Http W} `{GW : !Gorm W}
  `{AW : !Gpt W} `{GC : !GoContext W} `{TT : !Telegram T}.
Variables (kube : K8sClient) (monitor : Client) (helpMsg : string) (rt : runtime)
  (time_String : Time → string).
Abbreviation command := (find_command kube monitor rt time_String).
Abbreviation reachable_process := (reachable_process kube monitor helpMsg rt time_String).
Implicit Types s : bst W T.

Lemma reachable_control w t s pool :
  reachable_process w t (s, pool) → conc_inv kube monitor rt time_String (λ _, True) s.
Proof. by apply reachable_conc_inv. Qed.

(** C3: in every interleaving of the handlers a command runs only on the yes
    of the user who asked for it: it is one of the table, and before that the
    same message of that user found the flag set at a moment when the last
    password check had succeeded. *)
Theorem commands_confirmed_interleaved w t s pool before u cmd text after :
  reachable_process w t (s, pool) → history s = before ++ Ran u cmd text :: after →
  ∃ h1 h2 h3, before = (h1 ++ Granted u text :: h2) ++ Asked u cmd text :: h3 ∧
    authorized h1 = true ∧ is_Some (command cmd).
Proof.
  intros I%reachable_control Hh.
  destruct (ci_runs _ _ _ _ _ _ I _ _ _ _ _ Hh) as (b & h3 & -> & (h1 & h2 & -> & Ha) & Hcmd).
  by exists h1, h2, h3.
Qed.

(** C16: the shared variables in every interleaving: the flag is the answer of
    the last password check, a user is at the question for the login or at the
    one for the password or in no dialogue, and without a confirmed command
    there has been no call to the Kubernetes API. *)
Theorem shared_variables_invariant w t s pool :
  reachable_process w t (s, pool) →
  userStatusAuthorization s = authorized (history s) ∧
  (∀ u state, userState s !! u = Some state → state = "login" ∨ state = "password") ∧
  ((∀ u cmd text, Ran u cmd text ∉ history s) → h_calls (io s) = []).
Proof. intros []%reachable_control. by repeat split. Qed.
End theorems.

(** ** The map of the dialogues *)

Section race.
Context {W T : Type} `{!KubeApi W} `{!PollUntil W} `{SS : !SortSlice} `{HW : !Http W} `{GW : !Gorm W}
  `{AW : !Gpt W} `{GC : !GoContext W} `{TT : !Telegram T}.
Variables (kube : K8sClient) (monitor : Client) (helpMsg : string) (rt : runtime)
  (time_String : Time → string).

(** The next statement of a thread assigns the map [userState]. *)
Definition assigns_map (k : thread (bst W T)) (s : bst W T) : Prop :=
  ∃ f s' k', k = Step f ∧ f s = Some (s', k') ∧ userState s' ≠ userState s.

(** Two invocations in flight are about to assign the map, and nothing orders
    the one before the other. *)
Definition map_race (q : @process W T) : Prop :=
  ∃ i j ki kj, i ≠ j ∧ q.2 !! i = Some ki ∧ q.2 !! j = Some kj ∧ assigns_map ki q.1 ∧ assigns_map kj q.1.

Lemma start_assigns u s : userState s !! u ≠ Some "login" → assigns_map (start_thread u) s.
Proof.
  intros Hu. eexists _, _, _. split_and!; [done..|]. simpl. intros Heq. apply Hu.
  rewrite <-Heq. apply lookup_insert_eq.
Qed.

(** C35: no lock protects the map: as long as the process runs, two users who send
    /start bring it to a state in which two goroutines write the map at the
    same time, which the run-time system of Go answers by ending the process. *)
Theorem starts_race_on_the_map s pool u v :
  crashed s = None → userState s !! u ≠ Some "login" → userState s !! v ≠ Some "login" →
  ∃ pool', rtc (process_step kube monitor helpMsg rt time_String) (s, pool) (s, pool') ∧ map_race (s, pool').
Proof.
  intros Hc Hu Hv. exists ((pool ++ [start_thread u]) ++ [start_thread v]). split.
  - eapply rtc_l; [exact (arrives _ _ _ _ _ s pool (Start u) Hc)|].
    eapply rtc_l; [exact (arrives _ _ _ _ _ s _ (Start v) Hc)|]. apply rtc_refl.
  - exists (length pool), (length (pool ++ [start_thread u])), (start_thread u), (start_thread v).
    split_and!; [rewrite length_app; simpl; lia| |by apply list_lookup_middle|by apply start_assigns..].
    simpl. rewrite <-app_assoc. by apply list_lookup_middle.
Qed.
End race.

(** ** Schedules to run *)

Inductive move := Arrive (u : update) | Proceed (i : nat).

Section schedule.
Context {W T : Type} `{!KubeApi W} `{!PollUntil W} `{SS : !SortSlice} `{HW : !Http W} `{GW : !Gorm W}
  `{AW : !Gpt W} `{GC : !GoContext W} `{TT : !Telegram T}.
Variables (kube : K8sClient) (monitor : Client) (helpMsg : string) (rt : runtime)
  (time_String : Time → string).

Definition run_move (m : move) (q : process) : option (@process W T) :=
  match crashed q.1, m with
  | Some _, _ => None
  | None, Arrive u => Some (q.1, q.2 ++ [dispatch kube monitor helpMsg rt time_String u q.1])
  | None, Proceed i =>
      match q.2 !! i with
      | Some (Step f) => match f q.1 with Some (s, k) => Some (s, <[i := k]> q.2) | None => None end
      | _ => None
      end
  end.

Fixpoint run_moves (ms : list move) (q : process) : option (@process W T) :=
  match ms with
  | [] => Some q
  | m :: ms => match run_move m q with Some q' => run_moves ms q' | None => None end
  end.

Lemma run_moves_steps ms q q' :
  run_moves ms q = Some q' → rtc (process_step kube monitor helpMsg rt time_String) q q'.
Proof.
  revert q. induction ms as [|m ms IH]; intros q; simpl; [intros [= ->]; apply rtc_refl|].
  destruct (run_move m q) as [q1|] eqn:E; [|done]. intros Hr. eapply rtc_l; [|by apply IH].
  destruct q as [s pool]. unfold run_move in E. simpl in E. destruct (crashed s) eqn:Hc; [done|].
  destruct m as [u|i]; [injection E as <-; by apply arrives|].
  destruct (pool !! i) as [[|f]|] eqn:Hi; [done| |done]. destruct (f s) as [[s' k]|] eqn:Hf; [|done].
  injection E as <-. by eapply proceeds.
Qed.
End schedule.

Module Sample.
Import BotProps.Sample.
#[local] Existing Instances sample_api sample_poll sample_ctx sample_telegram sample_http sample_gorm sample_gpt.

Definition reachable_sample : process → Prop :=
  reachable_process bot_client prom "help" no_runtime Format_RFC3339 (sample_cluster 0) tt.
Definition play (ms : list move) : option (@process Cluster unit) :=
  run_moves bot_client prom "help" no_runtime Format_RFC3339 ms (process_start (sample_cluster 0) tt).

(** An update whose handler takes [n] steps before the next move. *)
Definition with_steps (i : nat) (u : update) (n : nat) : list move := Arrive u :: replicate n (Proceed i).

Definition both_at_password : list move :=
  with_steps 0 (Start 1) 2 ++ with_steps 1 (Start 2) 2 ++
  with_steps 2 (OnText 1 "admin") 4 ++ with_steps 3 (OnText 2 "admin") 4.

(** The first user's handler is interrupted between the assignment of the
    flag and its reading. *)
Definition crossed_replies : list move :=
  both_at_password ++ with_steps 4 (OnText 1 "wrong") 6 ++ with_steps 5 (OnText 2 "secret") 8 ++
  replicate 2 (Proceed 4).

Definition after_play (ms : list move) : @process Cluster unit :=
  default (process_start (sample_cluster 0) tt) (play ms).

Lemma play_reachable ms q : play ms = Some q → reachable_sample q.
Proof. apply run_moves_steps. Qed.

(** The reply to a password reads the flag that every other check writes:
    in one interleaving of two logins, the check of the first user fails and
    the check of the second succeeds, and both are told of success. *)
Theorem reply_can_contradict_check :
  ∃ s pool, reachable_sample (s, pool) ∧ Forall (eq Stop) pool ∧
    history s = [Checked "admin" "wrong" false; Checked "admin" "secret" true] ∧
    drop 4 (h_sent (io s)) = [mkMessage "Авторизация успешна!" Plain; mkMessage "Авторизация успешна!" Plain].
Proof.
  exists (after_play crossed_replies).1, (after_play crossed_replies).2. split_and!.
  - apply (play_reachable crossed_replies). vm_compute. reflexivity.
  - vm_compute. repeat constructor.
  - vm_compute. reflexivity.
  - vm_compute. reflexivity.
Qed.

Definition scaling_run : list move :=
  with_steps 0 (Start 1) 2 ++ with_steps 1 (OnText 1 "admin") 4 ++ with_steps 2 (OnText 1 "secret") 8 ++
  with_steps 3 (OnText 1 scaling) 5 ++ with_steps 4 (YesButton 1) 2.

Lemma commands_confirmed_interleaved_witness :
  ∃ h1 h2 h3, [Checked "admin" "secret" true; Granted 1 scaling; Asked 1 "/scale" scaling] =
      (h1 ++ Granted 1 scaling :: h2) ++ Asked 1 "/scale" scaling :: h3 ∧ authorized h1 = true.
Proof.
  destruct (commands_confirmed_interleaved bot_client prom "help" no_runtime Format_RFC3339
    (sample_cluster 0) tt (after_play scaling_run).1 (after_play scaling_run).2
    [Checked "admin" "secret" true; Granted 1 scaling; Asked 1 "/scale" scaling] 1 "/scale" scaling [])
    as (h1 & h2 & h3 & Hh & Ha & _).
  - apply (play_reachable scaling_run). vm_compute. reflexivity.
  - vm_compute. reflexivity.
  - exists h1, h2, h3. split; [exact Hh|exact Ha].
Defined.

Lemma shared_variables_invariant_witness :
  userStatusAuthorization (after_play crossed_replies).1 = authorized (history (after_play crossed_replies).1) ∧
  userStatusAuthorization (after_play crossed_replies).1 = true.
Proof.
  split; [|vm_compute; reflexivity].
  apply (shared_variables_invariant bot_client prom "help" no_runtime Format_RFC3339 (sample_cluster 0) tt
    (after_play crossed_replies).1 (after_play crossed_replies).2).
  apply (play_reachable crossed_replies). vm_compute. reflexivity.
Defined.

Lemma starts_race_on_the_map_witness :
  ∃ pool', rtc (process_step bot_client prom "help" no_runtime Format_RFC3339)
      (bot_start (sample_cluster 0) tt, []) (bot_start (sample_cluster 0) tt, pool') ∧
    map_race (bot_start (sample_cluster 0) tt, pool').
Proof.
  apply (starts_race_on_the_map bot_client prom "help" no_runtime Format_RFC3339 (bot_start (sample_cluster 0) tt) [] 1 2);
    [reflexivity|vm_compute; discriminate|vm_compute; discriminate].
Defined.

Lemma runs_are_interleavings_witness :
  ∃ n, reachable_sample (state_after logged_in, replicate n Stop).
Proof.
  apply (runs_are_interleavings bot_client prom "help" no_runtime Format_RFC3339 logged_in
    (sample_cluster 0) tt (state_after logged_in)). vm_compute. reflexivity.
Defined.
End Sample.
