(* ===== verification/BotWrites.v ===== *)
(** * What the bot writes to the cluster, over its whole life

    The commands of the table, each with what it adds to the calls to the
    Kubernetes API, and the consequence for every interleaving of the
    dispatcher's handlers. *)
From Stdlib Require Import SpecFloat.
From stdpp Require Import base tactics strings list gmap relations.
From Stdlib Require Import ZArith.
From S2P Require Import Prelude GoStrings GoConv GoTime GoContext Sorting KubeApi KubeClient KubeRollback KubeSpec Monitoring Dashboard Messages Repository LogChannel Telegram KubeHandlers ClusterWrites MonitorHandlers MonitorHandlerProps Cluster Database Bot BotProps BotConc BotConcProps.

Section writes.
Context {W T : Type} `{KA : !KubeApi W} `{PU : !PollUntil W} `{SS : !SortSlice} `{HW : !Http W} `{GW : !Gorm W}
  `{AW : !Gpt W} `{GC : !GoContext W} `{TT : !Telegram T}.
Variables (cs : Clientset) (monitor : Client) (helpMsg : string) (rt : runtime) (time_String : Time → string).
Abbreviation client := (mkK8sClient (Some cs)).
Abbreviation commands := (commandHandlers (W := W) (T := T) client monitor rt time_String).
Abbreviation reachable_process := (reachable_process client monitor helpMsg rt time_String).

Definition wire_ok (calls : list api_call) : Prop := well_written [] calls.

(** A handler keeps the calls of the bot well written. *)
Definition keeps_wire (handler : handlerFunc) : Prop := ∀ text (h h' : hst W T) o,
  handler text h = Some (o, h') → wire_ok (h_calls h) → wire_ok (h_calls h').

Lemma adds_keeps_wire (f : string → GoM (hst W T) (option string)) :
  (∀ text, adds (well_written []) (f text)) → keeps_wire (plain f).
Proof.
  intros Hf text h h' o [= Hr] Hok. specialize (Hf text h). unfold wp in Hf. rewrite Hr in Hf.
  simpl in Hf. destruct Hf as (tr & -> & Htr). by apply well_written_after.
Qed.

Lemma answers_keeps_wire (f : string → GoM (hst W T) (option string)) :
  (∀ text, answers_once (f text)) → keeps_wire (plain f).
Proof.
  intros Hf text h h' o [= Hr] Hok. specialize (Hf text h). unfold wp in Hf. rewrite Hr in Hf.
  simpl in Hf. destruct Hf as [Hc _]. unfold wire_ok. by rewrite Hc.
Qed.

Lemma commands_keep_wire : Forall (λ c, keeps_wire c.2) commands.
Proof.
  unfold commandHandlers. repeat constructor; simpl.
  - intros text h h' o Hs Hok. apply StatusHandler_answers in Hs as [Hc _]. unfold wire_ok. by rewrite Hc.
  - apply answers_keeps_wire. intros text. apply MetricHandler_answers.
  - apply answers_keeps_wire. intros text. apply ListMetricsHandler_answers.
  - apply adds_keeps_wire. intros text. apply ScaleHandler_writes.
  - apply adds_keeps_wire. intros text. apply RestartHandler_writes.
  - apply adds_keeps_wire. intros text. apply RollbackHandler_writes.
  - apply answers_keeps_wire. intros text. apply HistoryHandler_answers.
  - apply answers_keeps_wire. intros text. apply OperationsHandler_answers.
  - apply adds_keeps_wire. intros text. apply reads_writes, ListPodsHandler_reads.
  - apply adds_keeps_wire. intros text. apply reads_writes, RevisionsHandler_reads.
  - apply answers_keeps_wire. intros text. apply AiHelpHandler_answers.
  - apply answers_keeps_wire. intros text. apply AlertsHandler_answers.
Qed.

Lemma assoc_elem {A} k (l : list (string * A)) a : assoc k l = Some a → (k, a) ∈ l.
Proof.
  induction l as [|[k' a'] l IH]; simpl; [done|]. case_decide as Hk; [intros [= ->]; subst; left|].
  intros H. right. by apply IH.
Qed.

Lemma command_keeps_wire cmd handler :
  find_command client monitor rt time_String cmd = Some handler → keeps_wire handler.
Proof.
  intros Hc%assoc_elem. pose proof commands_keep_wire as H. rewrite Forall_forall in H. apply (H _ Hc).
Qed.

Lemma reachable_wire w t s pool : reachable_process w t (s, pool) → wire_ok (h_calls (io s)).
Proof.
  intros Hr. eapply ci_wire, reachable_conc_inv; [..|exact Hr]; [done|].
  intros cmd handler text h h' o Hc Hh. by eapply command_keeps_wire, Hh.
Qed.

(** C2: in every interleaving of the handlers, every update the bot has sent to
    the cluster is a deployment of that namespace it had read before, with one field changed: its
    replica count, to a 32-bit number; the restart annotation of its template;
    or its template, to that of a ReplicaSet it had listed. *)
Theorem updates_change_one_field w t s pool before ns d' answer after :
  reachable_process w t (s, pool) → h_calls (io s) = before ++ CUpdate ns d' answer :: after →
  ∃ name d, CGet ns name (inl d) ∈ before ∧
    ((∃ r, is_int32 r ∧ d' = set_Replicas r d) ∨
     (∃ stamp, d' = restarted stamp d) ∨
     (∃ selector listed rs, CList ns selector (inl listed) ∈ before ∧ rs ∈ listed ∧
        d' = set_Template (rs_Template rs) d)).
Proof.
  intros Hr%reachable_wire Hc. unfold wire_ok in Hr. rewrite Hc in Hr.
  apply well_written_app in Hr as [_ [Hw _]].
  destruct Hw as [name d r Hg Hi ->|name d st Hg ->|name d sel l rs Hg Hl Hrs ->];
    exists name, d; (split; [exact Hg|]); eauto 10.
Qed.
End writes.

(** ** The scaling of the sample run *)
Module Sample.
Import BotProps.Sample BotConcProps.Sample.
#[local] Existing Instances sample_api sample_poll sample_ctx sample_telegram sample_http sample_gorm sample_gpt.

Definition first_calls : list api_call := take 1%nat (h_calls (io (after_play scaling_run).1)).

Lemma updates_change_one_field_witness :
  ∃ ns d' answer name d, h_calls (io (after_play scaling_run).1) !! 1%nat = Some (CUpdate ns d' answer) ∧
    CGet ns name (inl d) ∈ first_calls.
Proof.
  destruct (h_calls (io (after_play scaling_run).1) !! 1%nat) as [c|] eqn:E; [|vm_compute in E; discriminate E].
  destruct c as [| ns d' answer| | | |]; try (vm_compute in E; discriminate E).
  destruct (updates_change_one_field TheClientset prom "help" no_runtime Format_RFC3339 (sample_cluster 0) tt
    (after_play scaling_run).1 (after_play scaling_run).2 first_calls ns d' answer
    (drop 2%nat (h_calls (io (after_play scaling_run).1)))) as (name & d & Hg & _).
  - apply (play_reachable scaling_run). vm_compute. reflexivity.
  - unfold first_calls. symmetry. exact (take_drop_middle _ 1%nat _ E).
  - exists ns, d', answer, name, d. split; [reflexivity|exact Hg].
Defined.
End Sample.
