(* ===== verification/Stubs.v ===== *)
(** * [internal/app/app.go] and [internal/storage/postgres/store.go]

    Placeholders that nothing in the program calls: records without fields,
    constructors that cannot fail, and operations that do nothing.  The store
    allows every user, with no table behind it. *)
From stdpp Require Import base tactics strings.
From Stdlib Require Import ZArith.
From S2P Require Import Prelude.

Record App := mkApp {}.
Definition New {S} : GoM S (result App) := mret (mkApp, None).
Definition Run {S} (a : App) : GoM S (option string) := mret None.

Record Store := mkStore {}.
Definition NewStore {S} : GoM S (result Store) := mret (mkStore, None).
Definition IsUserAllowed {S} (s : Store) (userID : Z) : GoM S (bool * option string) := mret (true, None).
