(* ===== verification/Startup.v ===== *)
(** * Start-up: [main], [startPoller], and the constructors they call

    [main] of [cmd/bot/main.go] up to [bot.Start()], the constructors of
    [internal/kube/client.go], and the goroutine of [startPoller] with the
    signals of the process.  The .env file, the kubeconfig, client-go's
    configuration and telebot's registration are operations of classes. *)
From Stdlib Require Import SpecFloat.
From stdpp Require Import base tactics strings list gmap.
From Stdlib Require Import ZArith.
From S2P Require Import Prelude GoStrings GoConv GoTime KubeApi KubeClient Monitoring Repository DbConfig.

(** ** [path/filepath] on Unix *)

(** One element of a path on the stack of those kept, the last first. *)
Definition clean_element (rooted : bool) (stack : list string) (e : string) : list string :=
  if decide (e = EmptyString ∨ e = ".") then stack
  else if decide (e = "..") then
    match stack with
    | top :: rest => if decide (top = "..") then e :: stack else rest
    | [] => if rooted then [] else [e]
    end
  else e :: stack.

Definition Clean (path : string) : string :=
  let rooted := HasPrefix path "/" in
  let out := (if rooted then "/" else EmptyString) +:+
             GoStrings.Join (rev (foldl (clean_element rooted) [] (Split path "/"))) "/" in
  if decide (out = EmptyString) then "." else out.

Definition filepath_Join (elems : list string) : string :=
  match List.filter (λ e, bool_decide (e ≠ EmptyString)) elems with
  | [] => EmptyString
  | elems => Clean (GoStrings.Join elems "/")
  end.

Example join_home : filepath_Join ["/home/../root//"; ".kube"; "config"] = "/root/.kube/config".
Proof. vm_compute. reflexivity. Qed.

(** ** The constructors of [internal/kube/client.go] *)

Class KubeConfig (W : Type) := {
  rest_config : Type;
  BuildConfigFromFlags : string → string → W → (rest_config + string) * W;
  InClusterConfig : W → (rest_config + string) * W;
  NewForConfig : rest_config → W → (Clientset + string) * W;
}.

Section kube.
Context {W : Type} `{!KubeConfig W}.

Definition initClient (config : rest_config) : GoM W (K8sClient + string) :=
  cs ← lift_op (NewForConfig config);
  match cs with
  | inr err => mret (inr err)
  | inl cs => mret (inl (mkK8sClient (Some cs)))
  end.

Definition InitClientFromKubeconfig (path : string) : GoM W (K8sClient + string) :=
  config ← lift_op (BuildConfigFromFlags EmptyString path);
  match config with
  | inr err => mret (inr err)
  | inl config => initClient config
  end.

Definition InitInCluster : GoM W (K8sClient + string) :=
  config ← lift_op InClusterConfig;
  match config with
  | inr err => mret (inr err)
  | inl config => initClient config
  end.

(** A client that was initialised holds a clientset. *)
Lemma initClient_clientset config w c w' :
  initClient config w = (Ret (inl c), w') → is_Some (clientset c).
Proof.
  unfold initClient, mbind, GoM_bind, lift_op. destruct (NewForConfig config w) as [[cs|err] w1]; [|done].
  intros [= <- _]. by eexists.
Qed.

Lemma InitClientFromKubeconfig_clientset path w c w' :
  InitClientFromKubeconfig path w = (Ret (inl c), w') → is_Some (clientset c).
Proof.
  unfold InitClientFromKubeconfig, mbind, GoM_bind, lift_op.
  destruct (BuildConfigFromFlags _ path w) as [[config|err] w1]; [|done]. apply initClient_clientset.
Qed.
End kube.

(** ** [main] *)

(** [telebot.Settings], as far as they are set, with [telebot.LongPoller]. *)
Record LongPoller := mkLongPoller { lp_Timeout : Duration }.
Record Settings := mkSettings { Token : string; Poller : LongPoller }.

Class Host (W : Type) := {
  godotenv_Load : W → option string * W;
  (** [telebot.NewBot], and the list of commands shown to users. *)
  telebot_NewBot : Settings → W → option string * W;
  telebot_SetCommands : list (string * string) → W → option string * W;
}.

(** The state of the program: the world, the variables of the package
    [handlers], what is registered with telebot, and the log. *)
Record boot (W : Type) := mkBoot {
  b_world : W;
  GlobalKubeClient : option K8sClient;
  GlobalMonitorClient : option Client;
  endpoints : list string;
  poller_launched : bool;
  b_log : list string;
}.
Arguments mkBoot {W}.
Arguments b_world {W}.
Arguments GlobalKubeClient {W}.
Arguments GlobalMonitorClient {W}.
Arguments endpoints {W}.
Arguments poller_launched {W}.
Arguments b_log {W}.

Definition tab : string := String "009"%char EmptyString.

Definition helpMsg : string := GoStrings.Join [
  "Доступные функции:";
  EmptyString;
  tab +:+ "/start - чтобы авторизоваться";
  tab +:+ "/status [name или id] - проверка статуса сервиса";
  tab +:+ "/metric [сервис] [строка] - вывод метрики сервиса";
  tab +:+ "/list_metric [сервис] [строка] - поиск метрики, содержащую данную строку в названии";
  tab +:+ "/scale [namespace]/[name] [количество реплик] - масштабирование сервиса";
  tab +:+ "/restart [namespace]/[name] - перезапуск сервиса";
  tab +:+ "/rollback [namespace]/[name] [номер ревизии] - откат сервиса к указанной ревизии";
  tab +:+ "/history - вывод истории операций";
  tab +:+ "/operations - вывод списка операций";
  tab +:+ "/revisions [namespace/name] - вывод списка ревизий";
  tab +:+ "/list_pods [namespace]/[name] - вывод списка pod'ов";
  "  /ai_help [строка] - команда для общения с ИИ и преобразования текста в команды";
  tab +:+ "/alerts - Проверка алертов";
  tab +:+ "/help - выводит все доступные команды"] nl.

Definition commands : list (string * string) := [
  ("start", "Авторизация в системе");
  ("status", "Проверка статуса [name|id]");
  ("metric", "Получение метрик сервиса");
  ("list_metric", "Полуение списка доступных ");
  ("scale", "Масштабирование");
  ("restart", "Перезапуск");
  ("rollback", "Откат изменений");
  ("history", "История операций");
  ("operations", "Список операций");
  ("revisions", "Список ревизий");
  ("list_pods", "Список pod'ов");
  ("help", "Список доступных команд");
  ("ai_help", "преобразования текста в команды с помошью ИИ");
  ("alerts", "Проверка алертов") ].

(** telebot's name for the endpoint of any other text. *)
Definition OnText_endpoint : string := String "007"%char "text".

Section main.
Context {W : Type} `{!Environment W} `{G : !Gorm W} `{!Http W} `{!KubeConfig W} `{!Host W}.
Abbreviation M := (GoM (boot W)).

Definition in_world {A} (op : GoM W A) : M A := λ s,
  let (o, w) := op (b_world s) in
  (o, mkBoot w (GlobalKubeClient s) (GlobalMonitorClient s) (endpoints s) (poller_launched s) (b_log s)).

Definition log_line (text : string) : M unit := modify (λ s,
  mkBoot (b_world s) (GlobalKubeClient s) (GlobalMonitorClient s) (endpoints s) (poller_launched s)
    (b_log s ++ [text])).
Definition SetKubeClient (c : K8sClient) : M unit := modify (λ s,
  mkBoot (b_world s) (Some c) (GlobalMonitorClient s) (endpoints s) (poller_launched s) (b_log s)).
Definition SetMonitorClient (c : Client) : M unit := modify (λ s,
  mkBoot (b_world s) (GlobalKubeClient s) (Some c) (endpoints s) (poller_launched s) (b_log s)).
Definition bot_Handle (endpoint : string) : M unit := modify (λ s,
  mkBoot (b_world s) (GlobalKubeClient s) (GlobalMonitorClient s) (endpoints s ++ [endpoint])
    (poller_launched s) (b_log s)).
Definition go_startPoller : M unit := modify (λ s,
  mkBoot (b_world s) (GlobalKubeClient s) (GlobalMonitorClient s) (endpoints s) true (b_log s)).

(** [os.UserHomeDir] on Unix. *)
Definition UserHomeDir : GoM W (string + string) :=
  home ← Getenv "HOME";
  mret (if decide (home = EmptyString) then inr "$HOME is not defined" else inl home).

(** [init] of the package [yandexgpt]; its warning goes to standard output. *)
Definition yandexgpt_init : M unit := in_world (lift_op godotenv_Load);; mret tt.

(** [Some] is the message of [log.Fatal]; [None]: [bot.Start()] was reached. *)
Definition main : M (option string) :=
  err ← in_world (lift_op godotenv_Load);
  (match err with
   | Some _ => log_line "Не удалось загрузить .env файл, используются переменные окружения системы"
   | None => mret tt
   end);;
  in_world AutoMigrate;;
  token ← in_world (Getenv "TELEGRAM_BOT_TOKEN");
  prometheus_url ← in_world (Getenv "PROMETHEUS_URL");
  alertmanager_url ← in_world (Getenv "ALERTMANAGER_URL");
  match NewClient (N := W) prometheus_url alertmanager_url with
  | inr err => mret (Some err)
  | inl monitorClient =>
      homeDir ← in_world UserHomeDir;
      match homeDir with
      | inr err => mret (Some ("Не удалось определить домашнюю директорию:" +:+ err))
      | inl homeDir =>
          let kubeconfigPath := filepath_Join [homeDir; ".kube"; "config"] in
          kubeClient ← in_world (InitClientFromKubeconfig kubeconfigPath);
          match kubeClient with
          | inr err => mret (Some err)
          | inl kubeClient =>
              SetKubeClient kubeClient;;
              SetMonitorClient monitorClient;;
              let pref := mkSettings token (mkLongPoller (10 * Second)%Z) in
              err ← in_world (lift_op (telebot_NewBot pref));
              match err with
              | Some err => mret (Some err)
              | None =>
                  go_startPoller;;
                  bot_Handle "/start";; bot_Handle "/help";; bot_Handle OnText_endpoint;;
                  err ← in_world (lift_op (telebot_SetCommands commands));
                  (match err with
                   | Some err => log_line ("Ошибка при установке команд: " +:+ err)
                   | None => mret tt
                   end);;
                  mret None
              end
          end
      end
  end.

(** The program: the package initialisation, then [main]. *)
Definition program : M (option string) := yandexgpt_init;; main.
Definition boot_start (w : W) : boot W := mkBoot w None None [] false [].
End main.
