(* ===== verification/StartupProps.v ===== *)
(** * Properties of the start-up

    What [main] has set up when it starts serving, what it leaves out, and
    what a database that could not be opened does to the first login. *)
From Stdlib Require Import SpecFloat.
From stdpp Require Import base tactics strings list gmap.
From Stdlib Require Import ZArith.
From S2P Require Import Prelude GoStrings GoConv GoTime GoContext Sorting KubeApi KubeClient KubeRollback Monitoring Dashboard Messages Repository Database RepositoryProps MemDb DbConfig LogChannel Telegram KubeHandlers MonitorHandlers Bot BotProps Startup.

(** ** Reaching [bot.Start()] *)

Section startup.
Context {W : Type} `{E : !Environment W} `{G : !Gorm W} `{HW : !Http W} `{KC : !KubeConfig W} `{HO : !Host W}.
Implicit Types s : boot W.

(** What [main] has done when it returns. *)
Definition serving s : Prop :=
  (∃ kube, GlobalKubeClient s = Some kube ∧ is_Some (clientset kube)) ∧
  (∃ monitor, GlobalMonitorClient s = Some monitor ∧ httpClient monitor = default_http) ∧
  endpoints s = ["/start"; "/help"; OnText_endpoint] ∧ poller_launched s = true.
Definition refused s : Prop := endpoints s = [] ∧ poller_launched s = false.
Definition start_post (o : outcome (option string)) s : Prop :=
  match o with Ret None => serving s | Ret (Some _) => refused s | Panic _ => False end.

(** The state but for the world and the log. *)
Definition same_boot s s' : Prop :=
  GlobalKubeClient s' = GlobalKubeClient s ∧ GlobalMonitorClient s' = GlobalMonitorClient s ∧
  endpoints s' = endpoints s ∧ poller_launched s' = poller_launched s.

#[export] Instance same_boot_equiv : Equivalence same_boot.
Proof.
  split; [done|by intros s s' (H1 & H2 & H3 & H4); repeat split|].
  intros s1 s2 s3 (H1 & H2 & H3 & H4) (H1' & H2' & H3' & H4'). repeat split; congruence.
Qed.
#[export] Instance refused_proper : Proper (same_boot ==> iff) refused.
Proof. intros s s' (_ & _ & He & Hl). unfold refused. by rewrite He, Hl. Qed.

(** An operation of the world that does not panic, under [wp]. *)
Lemma wp_in_world {A} (op : GoM W A) Q s :
  (∀ why w, op (b_world s) ≠ (Panic why, w)) →
  (∀ a w s', op (b_world s) = (Ret a, w) → b_world s' = w → same_boot s s' → Q (Ret a) s') →
  wp (in_world op) Q s.
Proof.
  intros Hp HQ. unfold wp, in_world. destruct (op (b_world s)) as [[a|why] w]; [|by destruct (Hp why w)].
  simpl. by apply (HQ a w).
Qed.

Lemma wp_lift {A} (op : W → A * W) Q s :
  (∀ a s', same_boot s s' → Q (Ret a) s') → wp (in_world (lift_op op)) Q s.
Proof.
  intros HQ. apply wp_in_world; unfold lift_op; destruct (op (b_world s)); [done|]. intros a' w' s' _ _. apply HQ.
Qed.

Lemma wp_Getenv key Q s : (∀ a s', same_boot s s' → Q (Ret a) s') → wp (in_world (Getenv key)) Q s.
Proof. intros HQ. apply wp_in_world; [done|]. intros a w s' _ _. apply HQ. Qed.

Lemma wp_AutoMigrate Q s : (∀ a s', same_boot s s' → Q (Ret a) s') → wp (in_world AutoMigrate) Q s.
Proof.
  intros HQ. destruct (AutoMigrate_run (b_world s)) as (err & w & Hrun & _).
  apply wp_in_world; rewrite Hrun; [done|]. intros a w1 s' _ _. apply HQ.
Qed.

Lemma wp_UserHomeDir Q s : (∀ a s', same_boot s s' → Q (Ret a) s') → wp (in_world UserHomeDir) Q s.
Proof.
  intros HQ. unfold UserHomeDir, mbind, GoM_bind, Getenv. apply wp_in_world; [done|].
  intros a w s' _ _. apply HQ.
Qed.

Lemma InitClient_returns path w why w' : InitClientFromKubeconfig path w ≠ (Panic why, w').
Proof.
  unfold InitClientFromKubeconfig, initClient, mbind, GoM_bind, lift_op.
  destruct (BuildConfigFromFlags _ path w) as [[config|err] w1]; [|done].
  by destruct (NewForConfig config w1) as [[cs|err] w2].
Qed.

Lemma wp_optional_log (err : option string) (f : string → string) Q s :
  (∀ s', same_boot s s' → Q (Ret tt) s') →
  wp (match err with Some e => log_line (f e) | None => mret tt end) Q s.
Proof. intros HQ. destruct err; apply HQ; done. Qed.

Lemma main_wp s : refused s → wp main start_post s.
Proof.
  intros Hr. unfold main.
  apply wp_bind, wp_lift. intros err s1 H1. apply wp_bind.
  apply (wp_optional_log err (λ _, _)). intros s2 H2.
  apply wp_bind, wp_AutoMigrate. intros migrated s3 H3.
  apply wp_bind, wp_Getenv. intros token s4 H4. apply wp_bind, wp_Getenv. intros purl s5 H5.
  apply wp_bind, wp_Getenv. intros aurl s6 H6.
  assert (refused s6) as Hr6 by (by rewrite <-H6, <-H5, <-H4, <-H3, <-H2, <-H1).
  unfold bind_post at 1. destruct (NewClient purl aurl) as [monitor|e] eqn:Hmon; [|by apply wp_ret].
  apply NewClient_http in Hmon.
  apply wp_bind, wp_UserHomeDir. intros home s7 H7.
  assert (refused s7) as Hr7 by by rewrite <-H7.
  unfold bind_post at 1. destruct home as [home|e]; [|by apply wp_ret].
  apply wp_bind, wp_in_world; [intros why w; apply InitClient_returns|]. intros client w s8 Hc _ H8.
  assert (refused s8) as Hr8 by by rewrite <-H8.
  unfold bind_post at 1. destruct client as [kube|e]; [|by apply wp_ret].
  apply InitClientFromKubeconfig_clientset in Hc. destruct Hr8 as [He Hl].
  apply wp_bind, wp_modify, wp_bind, wp_modify, wp_bind, wp_lift. intros err' s9 (Hk9 & Hm9 & He9 & Hl9).
  simpl in *. destruct err' as [e|]; [split; simpl; congruence|].
  repeat apply wp_bind, wp_modify. simpl. apply wp_bind, wp_lift. intros err'' s10 (Hk & Hm & Hep & Hla).
  simpl in *. apply wp_bind, (wp_optional_log err'' (λ e, _)).
  intros s11 (Hk' & Hm' & Hep' & Hla'). apply wp_ret. repeat split.
  - exists kube. split; [congruence|done].
  - exists monitor. split; [congruence|done].
  - rewrite Hep', Hep, He9, He. done.
  - congruence.
Qed.

Lemma program_wp w : wp program start_post (boot_start w).
Proof.
  unfold program, yandexgpt_init. repeat apply wp_bind. apply wp_lift. intros err s H.
  apply wp_ret, main_wp. by rewrite <-H.
Qed.

(** C30: the program never panics while it starts.  When it serves, both global
    clients are there, the Kubernetes client with a clientset, the monitoring
    client with its limit of ten seconds, the three endpoints are registered
    and the poller is launched; when it ends with [log.Fatal], no endpoint has
    been registered and no poller launched. *)
Theorem start_up_outcome w :
  ∃ r s, program (boot_start w) = (Ret r, s) ∧
    match r with
    | None => (∃ kube, GlobalKubeClient s = Some kube ∧ is_Some (clientset kube)) ∧
        (∃ monitor, GlobalMonitorClient s = Some monitor ∧ httpClient monitor = default_http) ∧ endpoints s = ["/start"; "/help"; OnText_endpoint] ∧
        poller_launched s = true
    | Some _ => endpoints s = [] ∧ poller_launched s = false
    end.
Proof.
  pose proof (program_wp w) as Hwp. unfold wp in Hwp. destruct (program (boot_start w)) as [[r|why] s]; [|done].
  exists r, s. split; [done|]. by destruct r.
Qed.
End startup.

(** ** A start-up that meets no obstacle but the database *)

(** The host is as [main] needs it: the home directory, URLs that parse, a
    kubeconfig, a clientset and a bot that Telegram accepts.  Nothing is said
    of the database. *)
Record host_ready (W : Type) `{E : !Environment W} `{HW : !Http W} `{KC : !KubeConfig W} `{HO : !Host W} : Prop := {
  home_set : ∀ w : W, os_Getenv "HOME" w ≠ EmptyString;
  urls_parse : ∀ w w' : W, ∃ c,
    NewClient (N := W) (os_Getenv "PROMETHEUS_URL" w) (os_Getenv "ALERTMANAGER_URL" w') = inl c;
  kubeconfig_read : ∀ url path (w : W), ∃ config, (BuildConfigFromFlags url path w).1 = inl config;
  clientset_built : ∀ config (w : W), ∃ cs, (NewForConfig config w).1 = inl cs;
  bot_accepted : ∀ pref (w : W), (telebot_NewBot pref w).1 = None;
}.
Arguments home_set {W E HW KC HO}.
Arguments urls_parse {W E HW KC HO}.
Arguments kubeconfig_read {W E HW KC HO}.
Arguments clientset_built {W E HW KC HO}.
Arguments bot_accepted {W E HW KC HO}.

Section ready.
Context {W : Type} `{E : !Environment W} `{G : !Gorm W} `{HW : !Http W} `{KC : !KubeConfig W} `{HO : !Host W}.
Hypothesis ready : host_ready W.
Implicit Types s : boot W.

Definition starts_serving (o : outcome (option string)) (_ : boot W) : Prop := o = Ret None.

Lemma wp_in_world_any {A} (op : GoM W A) Q s :
  (∃ a w, op (b_world s) = (Ret a, w) ∧ ∀ s', Q (Ret a) s') → wp (in_world op) Q s.
Proof. intros (a & w & Ha & HQ). unfold wp, in_world. by rewrite Ha. Qed.

Lemma wp_lift_any {A} (op : W → A * W) Q s :
  (∀ s', Q (Ret (op (b_world s)).1) s') → wp (in_world (lift_op op)) Q s.
Proof. intros HQ. apply wp_in_world_any. unfold lift_op. destruct (op (b_world s)) as [a w]. by exists a, w. Qed.

Lemma wp_getenv_any key Q s :
  (∀ s', Q (Ret (os_Getenv key (b_world s))) s') → wp (in_world (Getenv key)) Q s.
Proof. intros HQ. apply wp_in_world_any. by eexists _, _. Qed.

Lemma kubeconfig_gives_client path w : ∃ kube w', InitClientFromKubeconfig path w = (Ret (inl kube), w').
Proof.
  destruct (kubeconfig_read ready EmptyString path w) as [config Hconfig].
  unfold InitClientFromKubeconfig, initClient, mbind, GoM_bind, lift_op.
  destruct (BuildConfigFromFlags _ path w) as [r w1]. simpl in Hconfig. subst r.
  destruct (clientset_built ready config w1) as [cs Hcs]. destruct (NewForConfig config w1) as [r w2].
  simpl in Hcs. subst r. by eexists _, _.
Qed.

Lemma main_serves s : wp main starts_serving s.
Proof.
  unfold main.
  apply wp_bind, wp_lift_any. intros s1. apply wp_bind, (wp_optional_log _ (λ _, _)). intros s2 _.
  apply wp_bind, wp_AutoMigrate. intros migrated s3 _.
  apply wp_bind, wp_getenv_any. intros s4. apply wp_bind, wp_getenv_any. intros s5.
  apply wp_bind, wp_getenv_any. intros s6.
  unfold bind_post at 1. destruct (urls_parse ready (b_world s4) (b_world s5)) as [monitor ->]. apply wp_bind, wp_in_world_any. eexists _, _. split; [reflexivity|]. intros s7.
  rewrite decide_False by apply (home_set ready). unfold bind_post at 1.
  apply wp_bind, wp_in_world_any.
  destruct (kubeconfig_gives_client
    (filepath_Join [os_Getenv "HOME" (b_world s6); ".kube"; "config"]) (b_world s7)) as (kube & w & Hk).
  exists (inl kube), w. split; [exact Hk|]. intros s8. unfold bind_post at 1.
  do 2 apply wp_bind, wp_modify. apply wp_bind, wp_lift_any. intros s9. rewrite (bot_accepted ready).
  unfold bind_post at 1. repeat apply wp_bind, wp_modify.
  apply wp_bind, wp_lift_any. intros s10. apply wp_bind, (wp_optional_log _ (λ e, _)). intros s11 _. by apply wp_ret.
Qed.

Lemma program_serves w : ∃ s, program (boot_start w) = (Ret None, s) ∧ serving s.
Proof.
  pose proof (program_wp w) as Hp. assert (wp program starts_serving (boot_start w)) as Hs.
  { unfold program, yandexgpt_init. repeat apply wp_bind. apply wp_lift_any. intros s1. apply wp_ret, main_serves. }
  unfold wp, starts_serving in *. destruct (program (boot_start w)) as [o s]. simpl in *. subst o. by exists s.
Qed.
End ready.

(** ** A database that could not be opened *)

(** [m] keeps an invariant of the state, whether it returns or panics. *)
Definition preserves {S A} (I : S → Prop) (m : GoM S A) : Prop := ∀ s, I s → I (m s).2.

Create HintDb keep.

Section preserves.
Context {S : Type} (I : S → Prop).

Lemma preserves_ret {A} (a : A) : preserves I (mret a : GoM S A).
Proof. by intros s Hs. Qed.
Lemma preserves_bind {A B} (m : GoM S A) (f : A → GoM S B) :
  preserves I m → (∀ a, preserves I (f a)) → preserves I (m ≫= f).
Proof.
  intros Hm Hf s Hs. unfold mbind, GoM_bind. specialize (Hm s Hs).
  destruct (m s) as [[a|why] s']; [by apply Hf|done].
Qed.
Lemma preserves_modify (f : S → S) : (∀ s, I s → I (f s)) → preserves I (modify f).
Proof. intros Hf s. apply Hf. Qed.
End preserves.

#[export] Hint Resolve preserves_ret preserves_bind : keep.

Section handle.
Context {W : Type} `{E : !Environment W} `{G : !Gorm W} `{HW : !Http W} `{KC : !KubeConfig W} `{HO : !Host W}.

(** Of the libraries, only the assignment of [InitDB] touches [config.DB]. *)
Definition keeps_handle {A} (op : W → A * W) : Prop := ∀ w, gorm_DB (op w).2 = gorm_DB w.
Hypothesis load_keeps : keeps_handle godotenv_Load.
Hypothesis config_keeps : ∀ url path, keeps_handle (BuildConfigFromFlags url path).
Hypothesis client_keeps : ∀ config, keeps_handle (NewForConfig config).
Hypothesis bot_keeps : ∀ pref, keeps_handle (telebot_NewBot pref).
Hypothesis commands_keep : ∀ cs, keeps_handle (telebot_SetCommands cs).
(** The server does not answer. *)
Hypothesis not_opened : ∀ name w, (gorm_Open name w).1 ≠ None.

Definition no_handle (w : W) : Prop := gorm_DB w = false.
Definition boot_no_handle (s : boot W) : Prop := no_handle (b_world s).

Lemma preserves_lift {A} (op : W → A * W) : keeps_handle op → preserves no_handle (lift_op op).
Proof.
  intros Hop w Hw. unfold lift_op, no_handle in *. specialize (Hop w). destruct (op w) as [a w']. simpl in *.
  congruence.
Qed.

Lemma preserves_in_world {A} (op : GoM W A) : preserves no_handle op → preserves boot_no_handle (in_world op).
Proof.
  intros Hop s Hs. unfold in_world, boot_no_handle in *. specialize (Hop _ Hs).
  by destruct (op (b_world s)) as [o w].
Qed.

Lemma preserves_Getenv key : preserves no_handle (Getenv key).
Proof. by intros w Hw. Qed.

Lemma preserves_AutoMigrate : preserves no_handle AutoMigrate.
Proof.
  intros w Hw. destruct (AutoMigrate_run w) as (err & w' & -> & Hm). simpl.
  destruct Hm as [err w' Ho|w1 err w' Ho _].
  - unfold no_handle in *. by rewrite <-Hw, <-(gorm_Open_keeps (dsn (settings_of w)) w), Ho.
  - exfalso. apply (not_opened (dsn (settings_of w)) w). by rewrite Ho.
Qed.

Lemma preserves_UserHomeDir : preserves no_handle UserHomeDir.
Proof. unfold UserHomeDir. eauto using preserves_Getenv with keep. Qed.

Lemma preserves_InitClient path : preserves no_handle (InitClientFromKubeconfig path).
Proof.
  apply preserves_bind; [by apply preserves_lift|]. intros [config|err]; [|apply preserves_ret].
  apply preserves_bind; [by apply preserves_lift|]. intros [cs|err]; apply preserves_ret.
Qed.

Lemma preserves_assignment (f : boot W → boot W) :
  (∀ s, b_world (f s) = b_world s) → preserves boot_no_handle (modify f).
Proof. intros Hf. apply preserves_modify. intros s. unfold boot_no_handle. by rewrite Hf. Qed.

#[local] Hint Resolve preserves_Getenv preserves_AutoMigrate preserves_UserHomeDir preserves_InitClient
  preserves_lift preserves_in_world : keep.
#[local] Hint Extern 1 (preserves _ (log_line _)) => by apply preserves_assignment : keep.
#[local] Hint Extern 1 (preserves _ (SetKubeClient _)) => by apply preserves_assignment : keep.
#[local] Hint Extern 1 (preserves _ (SetMonitorClient _)) => by apply preserves_assignment : keep.
#[local] Hint Extern 1 (preserves _ (bot_Handle _)) => by apply preserves_assignment : keep.
#[local] Hint Extern 1 (preserves _ go_startPoller) => by apply preserves_assignment : keep.

Lemma preserves_program : preserves boot_no_handle program.
Proof.
  assert (∀ (err : option string) f,
            preserves boot_no_handle (match err with Some e => log_line (f e) | None => mret tt end)) as Hlog.
  { intros [e|] f; auto with keep. }
  unfold program, yandexgpt_init, main. apply preserves_bind; [auto with keep|intros _].
  apply preserves_bind; [auto with keep|intros err].
  apply preserves_bind; [apply (Hlog err (λ _, _))|intros _].
  do 4 (apply preserves_bind; [auto with keep|intros ?]).
  destruct (NewClient _ _); [|auto with keep].
  apply preserves_bind; [auto with keep|intros [home|e]; [|auto with keep]].
  apply preserves_bind; [auto with keep|intros [kube|e]; [|auto with keep]].
  do 2 (apply preserves_bind; [auto with keep|intros _]).
  apply preserves_bind; [auto with keep|intros [e|]; [auto with keep|]].
  do 4 (apply preserves_bind; [auto with keep|intros _]).
  apply preserves_bind; [auto with keep|intros err'].
  apply preserves_bind; [apply (Hlog err' (λ e, _))|auto with keep].
Qed.

(** C23: the error of [AutoMigrate] is dropped: on a host that is ready
    but for the database, which cannot be opened, [main] serves all the
    same, with its endpoints registered and the poller launched, and the first
    password typed by anybody ends the process: the repository calls a method
    of a nil handle, since nothing but [InitDB] assigns it. *)
Theorem first_login_crashes_without_database `{KA : !KubeApi W} `{PU : !PollUntil W} `{SS : !SortSlice}
    `{AW : !Gpt W} `{GC : !GoContext W} {T} `{TT : !Telegram T} kube monitor rt time_String (w : W) (t : T) u login password :
  gorm_DB w = false → host_ready W →
  HasPrefix login "/" = false → HasPrefix password "/" = false →
  ∃ s, program (boot_start w) = (Ret None, s) ∧
    endpoints s = ["/start"; "/help"; OnText_endpoint] ∧ poller_launched s = true ∧
  ∃ s', run_updates kube monitor helpMsg rt time_String [Start u; OnText u login; OnText u password]
      (bot_start (b_world s) t) = Some s' ∧ crashed s' = Some nil_deref ∧
    ∀ x, handle_update kube monitor helpMsg rt time_String x s' = None.
Proof.
  intros Hw Hready Hl Hp. destruct (program_serves Hready w) as (s & Hrun & _ & _ & He & Hla).
  assert (gorm_DB (b_world s) = false) as Hdb.
  { pose proof (preserves_program (boot_start w) Hw) as Hs. by rewrite Hrun in Hs. }
  destruct (login_without_handle kube monitor helpMsg rt time_String u login password (bot_start (b_world s) t))
    as (s' & Hs' & Hc); [done..|].
  exists s. split_and!; [done..|]. exists s'. split_and!; [done..|]. intros x. unfold handle_update. by rewrite Hc.
Qed.
End handle.

(** ** The commands: handled, in the help, in the menu *)

(** The first word of each line of a text, when it is a command. *)
Definition listed_commands (text : string) : list string :=
  omap (λ line, match Split (TrimSpace line) " " with
                | word :: _ => if HasPrefix word "/" then Some word else None
                | [] => None
                end) (Split text "010").

Lemma same_commands (l k : list string) :
  bool_decide (NoDup l ∧ NoDup k ∧ l ⊆ k ∧ k ⊆ l) = true → l ≡ₚ k.
Proof.
  intros (Hl & Hk & Hlk & Hkl)%bool_decide_eq_true. apply NoDup_Permutation; [done..|].
  intros c. split; [apply Hlk|apply Hkl].
Qed.

(** The help text and the menu sent to Telegram list the same commands, each
    once, and these are exactly the ones the bot answers: the two endpoints
    and the keys of the table of handlers. *)
Theorem commands_listed {W T : Type} `{!KubeApi W} `{!PollUntil W} `{SS : !SortSlice} `{!Http W} `{!Gorm W}
    `{!Gpt W} `{!GoContext W} `{!Telegram T} kube monitor rt time_String :
  let handled := ["/start"; "/help"] ++ (commandHandlers (W := W) (T := T) kube monitor rt time_String).*1 in
  let menu := (λ c, "/" +:+ c.1) <$> commands in
  listed_commands helpMsg ≡ₚ handled ∧ menu ≡ₚ handled ∧ NoDup handled.
Proof.
  intros handled menu. split_and!; [by apply same_commands; vm_compute..|].
  apply (bool_decide_eq_true_1 (NoDup handled)). vm_compute. reflexivity.
Qed.

(** ** A host without a database *)
Module Sample.
Import DbConfig.Sample.

#[local] Instance no_cluster : KubeApi MemDb := {|
  api_deployment_get _ _ w := (inr no_server, w);
  api_deployment_update _ _ w := (inr no_server, w);
  api_replicasets_list _ _ w := (inr no_server, w);
  api_pod_get _ _ w := (inr no_server, w);
  api_pods_list _ w := (inr no_server, w);
  api_pod_logs _ _ _ w := (inr no_server, w);
  api_selector_string _ := inr no_server;
  api_now w := (m_clock w, w);
  api_sleep _ w := w;
  api_elapse _ w := w;
  api_log_wait w := w;
|}.
#[local] Instance no_poll : PollUntil MemDb := poll_n 10.
#[local] Instance no_clock : GoContext MemDb := timeless MemDb.
#[local] Instance silent_chat : Telegram unit := λ m t, (None, t).
#[local] Instance no_metrics : Http MemDb := {|
  http_Do hc req w := (inr "connection refused", w);
  request_error _ := None;
  url_parse _ := Some None;
  request_uri_error _ := None;
  decode_query _ w := (inr "EOF", w);
  decode_labels _ w := (inr "EOF", w);
  decode_alerts _ w := (inr "EOF", w);
  body_Close _ w := w;
|}.
#[local] Instance no_model : Gpt MemDb := {|
  gpt_prompt w := (inr "no such file", w);
  gpt_Getenv _ _ := EmptyString;
  gpt_complete _ _ _ _ w := (inr "no model", w);
|}.
#[local] Instance host_environment : Environment MemDb := λ key _,
  if decide (key = "HOME") then "/root" else EmptyString.
#[local] Instance host_config : KubeConfig MemDb := {|
  rest_config := string;
  BuildConfigFromFlags _ path w := (inl path, w);
  InClusterConfig w := (inr "not in a cluster", w);
  NewForConfig _ w := (inl TheClientset, w);
|}.
#[local] Instance host : Host MemDb := {|
  godotenv_Load w := (Some "no .env", w);
  telebot_NewBot _ w := (None, w);
  telebot_SetCommands _ w := (None, w);
|}.
(** The server never answers. *)
#[local] Instance no_database : Gorm MemDb := {|
  gorm_DB := m_open;
  gorm_set_DB := with_handle;
  gorm_set_DB_opens _ := eq_refl;
  gorm_Open _ db := (Some no_server, db);
  gorm_Open_keeps _ _ := eq_refl;
  gorm_AutoMigrate _ db := (Some no_server, db);
  gorm_Find m q db := (([], Some no_server), db);
  gorm_First m q k db := ((zero_row m, Some no_server), db);
  gorm_Create m r db := ((r, Some no_server), db);
  gorm_Update m q c v db := (Some no_server, db);
  gorm_Delete m k db := (Some no_server, db);
  gorm_Scan q db := (([], Some no_server), db);
  gorm_now db := (m_clock db, db);
|}.

Definition started : outcome (option string) * boot MemDb := program (G := no_database) (boot_start (fresh_office false)).

Lemma sample_host_ready : host_ready MemDb.
Proof. constructor; [done|intros w w'; by eexists|intros ? path w; by exists path|by eexists|done]. Qed.

Lemma first_login_crashes_without_database_witness :
  ∃ s, program (G := no_database) (boot_start (fresh_office false)) = (Ret None, s) ∧
  ∃ s', run_updates (mkK8sClient (Some TheClientset)) (mkClient default_http EmptyString EmptyString EmptyString EmptyString)
      helpMsg (mkRuntime list_order [] list_order []) Format_RFC3339
      [Start 1; OnText 1 "admin"; OnText 1 "secret"] (bot_start (b_world s) tt) = Some s' ∧
    crashed s' = Some nil_deref.
Proof.
  destruct (first_login_crashes_without_database (W := MemDb) (G := no_database)
    (KC := host_config) (HO := host) (λ _, eq_refl) (λ _ _ _, eq_refl) (λ _ _, eq_refl)
    (λ _ _, eq_refl) (λ _ _, eq_refl) (λ _ _, ltac:(discriminate)) (mkK8sClient (Some TheClientset))
    (mkClient default_http EmptyString EmptyString EmptyString EmptyString) (mkRuntime list_order [] list_order [])
    Format_RFC3339 (fresh_office false) tt 1 "admin" "secret") as (s & Hs & _ & _ & s' & Hs' & Hc & _);
    [reflexivity|exact sample_host_ready|reflexivity|reflexivity|].
  exists s. split; [exact Hs|]. exists s'. split; [exact Hs'|exact Hc].
Defined.
End Sample.
