(* ===== verification/System.v ===== *)
(** * The program as a whole

    The start-up, the dispatcher and the commands put together: what holds of
    the bot that [main] serves, and of commands that run at the same time. *)
From Stdlib Require Import SpecFloat.
From stdpp Require Import base tactics strings list gmap relations.
From Stdlib Require Import ZArith.
From S2P Require Import Prelude GoStrings GoConv GoTime GoContext Sorting KubeApi KubeClient KubeRollback KubeSpec Monitoring Dashboard Messages Repository Database DbConfig LogChannel Telegram KubeHandlers ClusterWrites MonitorHandlers MonitorHandlerProps Bot BotProps BotConc BotConcProps BotWrites Cluster Startup StartupProps.

Local Open Scope nat_scope.

(** ** Commands at the same time

    telebot runs every handler in a goroutine of its own, so the calls of two
    confirmed commands may alternate.  [merge runs tr]: the trace [tr] is made
    of the traces [runs], each in its order. *)
Inductive merge {A} : list (list A) → list A → Prop :=
  | merge_nil runs : Forall (eq []) runs → merge runs []
  | merge_cons runs i c rest tr :
      runs !! i = Some (c :: rest) → merge (<[i := rest]> runs) tr → merge runs (c :: tr).

Lemma well_written_merge runs tr before :
  merge runs tr → Forall (well_written before) runs → well_written before tr.
Proof.
  intros Hm. revert before. induction Hm as [runs Hnil|runs i c rest tr Hi _ IH]; intros before Hall; [done|].
  pose proof (Forall_lookup_1 _ _ _ _ Hall Hi) as [Hc Hrest]. simpl. split; [exact Hc|].
  apply IH, Forall_insert; [|exact Hrest]. eapply Forall_impl; [exact Hall|]. intros t. simpl.
  apply well_written_grows. intros x Hx. apply elem_of_app. by left.
Qed.

(** The merge a list of turns describes. *)
Fixpoint merge_by {A} (turns : list nat) (runs : list (list A)) : option (list A) :=
  match turns with
  | [] => if decide (Forall (λ r, length r = 0) runs) then Some [] else None
  | i :: turns =>
      match runs !! i with
      | Some (c :: rest) => cons c <$> merge_by turns (<[i := rest]> runs)
      | _ => None
      end
  end.

Lemma merge_by_merge {A} turns (runs : list (list A)) tr : merge_by turns runs = Some tr → merge runs tr.
Proof.
  revert runs tr. induction turns as [|i turns IH]; intros runs tr; simpl.
  - case_decide as Hall; [|done]. intros [= <-]. constructor. eapply Forall_impl; [exact Hall|].
    intros r Hr. by destruct r.
  - destruct (runs !! i) as [[|c rest]|] eqn:Hi; [done| |done].
    destruct (merge_by _ _) as [tr'|] eqn:E; [|done]. intros [= <-]. eapply merge_cons; [done|by apply IH].
Qed.

Section commands.
Context {W T : Type} `{KA : !KubeApi W} `{PU : !PollUntil W} `{SS : !SortSlice} `{HW : !Http W} `{GW : !Gorm W}
  `{AW : !Gpt W} `{GC : !GoContext W} `{TT : !Telegram T}.
Variables (cs : Clientset) (monitor : Client) (rt : runtime) (time_String : Time → string).

(** The calls to the API that one run of a command of the table makes, from a
    world that answers as it likes: what the other commands do to the cluster
    meanwhile is in its answers. *)
Definition command_calls (tr : list api_call) : Prop :=
  ∃ cmd handler text (w : W) (t : T) o s',
    find_command (mkK8sClient (Some cs)) monitor rt time_String cmd = Some handler ∧
    handler text (mkHst w t [] []) = Some (o, s') ∧ h_calls s' = tr.

(** C20: however the calls of commands that run at the same time alternate, every
    update any of them sends is a deployment of its namespace that the bot had
    read before, with one field changed. *)
Theorem concurrent_commands_change_one_field runs tr before ns d' answer after :
  Forall command_calls runs → merge runs tr → tr = before ++ CUpdate ns d' answer :: after →
  may_write before ns d'.
Proof.
  intros Hruns Hm ->. apply (well_written_merge _ _ []) in Hm.
  - apply well_written_app in Hm as [_ [Hw _]]. exact Hw.
  - eapply Forall_impl; [exact Hruns|]. intros tr (cmd & handler & text & w & t & o & s' & Hc & Hr & <-).
    eapply command_keeps_wire; [exact Hc|exact Hr|done].
Qed.
End commands.

(** ** From [main] on *)

Section system.
Context {W T : Type} `{E : !Environment W} `{KC : !KubeConfig W} `{HO : !Host W}.
Context `{KA : !KubeApi W} `{PU : !PollUntil W} `{SS : !SortSlice} `{HW : !Http W} `{GW : !Gorm W}
  `{AW : !Gpt W} `{GC : !GoContext W} `{TT : !Telegram T}.

(** The bot that [bot.Start()] serves in the state [s] of [main]: the
    dispatcher with the two global clients, from the world that [main] leaves. *)
Definition served (s : boot W) (rt : runtime) (time_String : Time → string) (t : T) (q : process) : Prop :=
  ∃ kube monitor, GlobalKubeClient s = Some kube ∧ GlobalMonitorClient s = Some monitor ∧
    reachable_process kube monitor helpMsg rt time_String (b_world s) t q.

(** A command ran for [u] on [text] only after [u] had confirmed it and the
    message had found the flag set by a check that succeeded. *)
Definition confirmed_only (h : list event) : Prop :=
  ∀ before u cmd text after, h = before ++ Ran u cmd text :: after →
    ∃ h1 h2 h3, before = (h1 ++ Granted u text :: h2) ++ Asked u cmd text :: h3 ∧ authorized h1 = true.

(** Every update of the trace changes one field of what had been read. *)
Definition one_field_updates (tr : list api_call) : Prop :=
  ∀ before ns d' answer after, tr = before ++ CUpdate ns d' answer :: after → may_write before ns d'.

(** C1: whenever the program comes to serve, both clients are in place and in
    every interleaving of its handlers it runs only confirmed commands, sends
    only updates that change one field of a deployment it has read, and talks
    to Prometheus and Alertmanager with a limit of ten seconds. *)
Theorem program_is_safe w s :
  program (boot_start w) = (Ret None, s) →
  (∃ kube monitor, GlobalKubeClient s = Some kube ∧ is_Some (clientset kube) ∧
     GlobalMonitorClient s = Some monitor ∧ Timeout (httpClient monitor) = (10 * Second)%Z) ∧
  ∀ rt time_String t st pool, served s rt time_String t (st, pool) →
    confirmed_only (history st) ∧ one_field_updates (h_calls (io st)).
Proof.
  intros Hp. pose proof (wp_run _ _ _ _ _ (program_wp w) Hp) as Hs.
  destruct Hs as ((kube & Hk & [cs Hcs]) & (monitor & Hm & Hhc) & _). split.
  { exists kube, monitor. split_and!; [done|by rewrite Hcs|done|by rewrite Hhc]. }
  intros rt time_String t st pool (kube' & monitor' & Hk' & Hm' & Hr). simplify_eq. split.
  - intros before u cmd text after Hh.
    destruct (ci_runs _ _ _ _ _ _ (reachable_control _ _ _ _ _ _ _ _ _ Hr) _ _ _ _ _ Hh)
      as (b & h3 & -> & (h1 & h2 & -> & Ha) & _).
    by exists h1, h2, h3.
  - destruct kube as [kcs]. simpl in Hcs. subst kcs. apply reachable_wire in Hr.
    intros before ns d' answer after Hc. unfold wire_ok in Hr. rewrite Hc in Hr.
    by apply well_written_app in Hr as [_ [Hw _]].
Qed.
End system.

(** ** Samples *)
Module Sample.
Import BotProps.Sample.
#[local] Existing Instances sample_api sample_poll sample_ctx sample_telegram sample_http sample_gorm sample_gpt.

(** Two commands on the sample cluster, each answered as if it were alone, and
    their calls in alternation. *)
Definition calls_of (handler : string → GoM (hst Cluster unit) (option string)) (text : string) : list api_call :=
  h_calls (handler text (mkHst (sample_cluster 0) tt [] [])).2.
Definition two_runs : list (list api_call) :=
  [calls_of (ScaleHandler bot_client) "/scale prod/api 5"; calls_of (RestartHandler bot_client) "/restart prod/api"].
Definition alternating : list api_call := default [] (merge_by [0; 1; 0; 1; 0; 1; 0; 1] two_runs).

Lemma run_command_calls cmd (f : string → GoM (hst Cluster unit) (option string)) text :
  find_command bot_client prom no_runtime Format_RFC3339 cmd = Some (plain f) →
  command_calls (W := Cluster) (T := unit) TheClientset prom no_runtime Format_RFC3339 (calls_of f text).
Proof.
  intros Hc. exists cmd, (plain f), text, (sample_cluster 0), tt. unfold plain, calls_of.
  destruct (f text _) as [o s']. by exists o, s'.
Qed.

Lemma two_runs_commands : Forall (command_calls (W := Cluster) (T := unit) TheClientset prom no_runtime Format_RFC3339) two_runs.
Proof.
  constructor; [|constructor; [|constructor]]; [apply run_command_calls with "/scale"|apply run_command_calls with "/restart"];
    unfold find_command, commandHandlers; cbn [assoc]; rewrite !decide_False by done; by rewrite decide_True.
Qed.

Lemma concurrent_commands_change_one_field_witness :
  ∃ ns d' answer, alternating !! 3 = Some (CUpdate ns d' answer) ∧ may_write (take 3 alternating) ns d'.
Proof.
  destruct (alternating !! 3) as [c|] eqn:Ec; [|vm_compute in Ec; discriminate Ec].
  destruct c as [| ns d' answer| | | |]; try (vm_compute in Ec; discriminate Ec).
  exists ns, d', answer. split; [reflexivity|].
  apply (concurrent_commands_change_one_field (W := Cluster) (T := unit) TheClientset prom no_runtime Format_RFC3339
    two_runs alternating (take 3 alternating) ns d' answer (drop 4 alternating)).
  - exact two_runs_commands.
  - apply (merge_by_merge [0; 1; 0; 1; 0; 1; 0; 1]). vm_compute. reflexivity.
  - symmetry. exact (take_drop_middle _ 3 _ Ec).
Defined.
End Sample.

(** A host whose Kubernetes configuration loads. *)
Module SampleHost.
Import StartupProps.Sample DbConfig.Sample.
#[local] Existing Instances no_cluster no_poll no_clock silent_chat no_metrics no_model host_environment
  host_config host no_database.

Lemma program_is_safe_witness :
  started.1 = Ret None ∧
  ∃ monitor, GlobalMonitorClient started.2 = Some monitor ∧ Timeout (httpClient monitor) = (10 * Second)%Z.
Proof.
  split; [vm_compute; reflexivity|].
  destruct (program_is_safe (W := MemDb.MemDb) (T := unit) (fresh_office false) started.2) as ((kube & monitor & _ & _ & Hm & Ht) & _);
    [vm_compute; reflexivity|].
  exists monitor. split; [exact Hm|exact Ht].
Defined.
End SampleHost.
